(** * pstest: the in-memory Pub/Sub broker fake

    A shallow embedding of the broker simulator (package [pstest]) and the
    properties of its publish / lease / acknowledge / seek behaviour.

    Conventions of the embedding.
    - Go structs are records, each in a module named after the struct; the
      methods of the struct live in the same module under their Go names.
    - Objects that the Go code shares through pointers ([*Message],
      [*subscription], [*topic], [*stream]) live in arenas (lists) inside
      the server state; a pointer is an index into its arena.  The arenas only
      grow, as a garbage-collected heap seen from the program does.
    - A Go [map] is a [gmap]; ranging over a map is modelled either by an
      order-independent map operation or by an explicit iteration order
      supplied by the caller (the Go runtime picks it).
    - A call either returns (a response, an error, or both) or panics; a panic
      is the [Panic] outcome and ends the process.
    - The clock [timeNowFunc] is a function of the number of clock readings
      made so far; every reading advances that counter. *)

From Stdlib Require Import ZArith Lia.
From stdpp Require Import base option list gmap strings pretty fin_maps list_numbers.

Local Open Scope Z_scope.

(** A pointer into an arena. *)
Abbreviation ptr := nat.

(** ** Machine integers *)

Definition minInt64 : Z := - 2 ^ 63.
Definition maxInt64 : Z := 2 ^ 63 - 1.

(** Go's [int] (64 bits) wraps around on overflow. *)
Definition wrapInt (z : Z) : Z := (z + 2 ^ 63) mod 2 ^ 64 - 2 ^ 63.

(** [x++] on an [int]. *)
Definition incr (z : Z) : Z := wrapInt (z + 1).

(** ** Package [time] *)

Module time.
(** A [Duration] is a count of nanoseconds in an [int64]. *)
Abbreviation Duration := Z.
(** A [Time] is an instant, counted in nanoseconds from the zero [Time]
    (January 1, year 1, 00:00:00 UTC). *)
Abbreviation Time := Z.

Definition Nanosecond : Duration := 1.
Definition Millisecond : Duration := 1000000.
Definition Second : Duration := 1000000000.
Definition Minute : Duration := 60 * Second.
Definition Hour : Duration := 60 * Minute.

Definition zero : Time := 0.
Definition IsZero (t : Time) : bool := bool_decide (t = 0).
Definition Add (t : Time) (d : Duration) : Time := t + d.
Definition Before (t u : Time) : bool := bool_decide (t < u).
Definition After (t u : Time) : bool := bool_decide (u < t).

(** [t.Sub(u)] saturates at the ends of the [Duration] range. *)
Definition Sub (t u : Time) : Duration :=
  let d := t - u in
  if bool_decide (minInt64 ≤ d ≤ maxInt64) then d
  else if Before t u then minInt64 else maxInt64.

(** [time.Unix(0, 0)], the instant a nil protobuf timestamp converts to. *)
Definition unixEpoch : Time := 62135596800 * Second.
End time.

(** ** Protobuf well-known types, represented by the Go value they denote *)

Module timestamppb.
Abbreviation Timestamp := Z.
Definition New (t : time.Time) : Timestamp := t.
(** [AsTime] is nil-safe. *)
Definition AsTime (x : option Timestamp) : time.Time := default time.unixEpoch x.
End timestamppb.

Module durpb.
Abbreviation Duration := Z.
Definition New (d : time.Duration) : Duration := d.
(** [AsDuration] is nil-safe. *)
Definition AsDuration (x : option Duration) : time.Duration := default 0 x.
End durpb.

(** ** gRPC status *)

Module codes.
Inductive Code :=
| OK | Canceled | Unknown | InvalidArgument | DeadlineExceeded | NotFound
| AlreadyExists | PermissionDenied | ResourceExhausted | FailedPrecondition
| Aborted | OutOfRange | Unimplemented | Internal | Unavailable | DataLoss
| Unauthenticated.

#[global] Instance Code_eq_dec : EqDecision Code.
Proof. solve_decision. Defined.
End codes.

Module status.
(** An argument of a format string, kept unformatted. *)
Inductive Arg :=
| ArgString (s : string)
| ArgInt (z : Z)
| ArgDuration (d : option durpb.Duration).

(** The error built by [status.Errorf(c, format, args...)]. *)
Record Status := Errorf { Code : codes.Code; format : string; args : list Arg }.
End status.

(** ** Protocol messages (package [pb]) *)

Module pb.

Module PubsubMessage.
Record t := mk {
  Data : list Byte.byte;
  Attributes : gmap string string;
  MessageId : string;
  PublishTime : option timestamppb.Timestamp;
  OrderingKey : string;
}.

Definition set_MessageId x (pm : t) : t :=
  mk (Data pm) (Attributes pm) x (PublishTime pm) (OrderingKey pm).
Definition set_PublishTime x (pm : t) : t :=
  mk (Data pm) (Attributes pm) (MessageId pm) x (OrderingKey pm).
End PubsubMessage.

Module ReceivedMessage.
Record t := mk {
  AckId : string;
  Message : option PubsubMessage.t;
}.
End ReceivedMessage.

Module MessageStoragePolicy.
Record t := mk { AllowedPersistenceRegions : list string }.
End MessageStoragePolicy.

Module Topic.
Record t := mk {
  Name : string;
  Labels : gmap string string;
  MessageStoragePolicy : option MessageStoragePolicy.t;
}.
Definition empty : t := mk "" ∅ None.

Definition set_Labels x (pt : t) : t := mk (Name pt) x (MessageStoragePolicy pt).
Definition set_MessageStoragePolicy x (pt : t) : t := mk (Name pt) (Labels pt) x.
End Topic.

Module PushConfig.
Record t := mk {
  PushEndpoint : string;
  Attributes : gmap string string;
}.
Definition empty : t := mk "" ∅.
End PushConfig.

Module ExpirationPolicy.
Record t := mk { Ttl : option durpb.Duration }.
End ExpirationPolicy.

Module DeadLetterPolicy.
Record t := mk { DeadLetterTopic : string; MaxDeliveryAttempts : Z }.
End DeadLetterPolicy.

Module RetryPolicy.
Record t := mk {
  MinimumBackoff : option durpb.Duration;
  MaximumBackoff : option durpb.Duration;
}.
End RetryPolicy.

Module Subscription.
Record t := mk {
  Name : string;
  Topic : string;
  PushConfig : option PushConfig.t;
  AckDeadlineSeconds : Z;
  RetainAckedMessages : bool;
  MessageRetentionDuration : option durpb.Duration;
  Labels : gmap string string;
  ExpirationPolicy : option ExpirationPolicy.t;
  DeadLetterPolicy : option DeadLetterPolicy.t;
  RetryPolicy : option RetryPolicy.t;
  Filter : string;
}.
Definition empty : t := mk "" "" None 0 false None ∅ None None None "".

Definition set_PushConfig x (ps : t) : t :=
  mk (Name ps) (Topic ps) x (AckDeadlineSeconds ps) (RetainAckedMessages ps)
    (MessageRetentionDuration ps) (Labels ps) (ExpirationPolicy ps)
    (DeadLetterPolicy ps) (RetryPolicy ps) (Filter ps).
Definition set_AckDeadlineSeconds x (ps : t) : t :=
  mk (Name ps) (Topic ps) (PushConfig ps) x (RetainAckedMessages ps)
    (MessageRetentionDuration ps) (Labels ps) (ExpirationPolicy ps)
    (DeadLetterPolicy ps) (RetryPolicy ps) (Filter ps).
Definition set_RetainAckedMessages x (ps : t) : t :=
  mk (Name ps) (Topic ps) (PushConfig ps) (AckDeadlineSeconds ps) x
    (MessageRetentionDuration ps) (Labels ps) (ExpirationPolicy ps)
    (DeadLetterPolicy ps) (RetryPolicy ps) (Filter ps).
Definition set_MessageRetentionDuration x (ps : t) : t :=
  mk (Name ps) (Topic ps) (PushConfig ps) (AckDeadlineSeconds ps)
    (RetainAckedMessages ps) x (Labels ps) (ExpirationPolicy ps)
    (DeadLetterPolicy ps) (RetryPolicy ps) (Filter ps).
Definition set_Labels x (ps : t) : t :=
  mk (Name ps) (Topic ps) (PushConfig ps) (AckDeadlineSeconds ps)
    (RetainAckedMessages ps) (MessageRetentionDuration ps) x
    (ExpirationPolicy ps) (DeadLetterPolicy ps) (RetryPolicy ps) (Filter ps).
Definition set_ExpirationPolicy x (ps : t) : t :=
  mk (Name ps) (Topic ps) (PushConfig ps) (AckDeadlineSeconds ps)
    (RetainAckedMessages ps) (MessageRetentionDuration ps) (Labels ps) x
    (DeadLetterPolicy ps) (RetryPolicy ps) (Filter ps).
Definition set_DeadLetterPolicy x (ps : t) : t :=
  mk (Name ps) (Topic ps) (PushConfig ps) (AckDeadlineSeconds ps)
    (RetainAckedMessages ps) (MessageRetentionDuration ps) (Labels ps)
    (ExpirationPolicy ps) x (RetryPolicy ps) (Filter ps).
Definition set_RetryPolicy x (ps : t) : t :=
  mk (Name ps) (Topic ps) (PushConfig ps) (AckDeadlineSeconds ps)
    (RetainAckedMessages ps) (MessageRetentionDuration ps) (Labels ps)
    (ExpirationPolicy ps) (DeadLetterPolicy ps) x (Filter ps).
Definition set_Filter x (ps : t) : t :=
  mk (Name ps) (Topic ps) (PushConfig ps) (AckDeadlineSeconds ps)
    (RetainAckedMessages ps) (MessageRetentionDuration ps) (Labels ps)
    (ExpirationPolicy ps) (DeadLetterPolicy ps) (RetryPolicy ps) x.
End Subscription.

Module FieldMask.
Record t := mk { Paths : list string }.
End FieldMask.

Module UpdateTopicRequest.
Record t := mk { Topic : option Topic.t; UpdateMask : option FieldMask.t }.
End UpdateTopicRequest.

Module DeleteTopicRequest.
Record t := mk { Topic : string }.
End DeleteTopicRequest.

Module UpdateSubscriptionRequest.
Record t := mk {
  Subscription : option Subscription.t;
  UpdateMask : option FieldMask.t;
}.
End UpdateSubscriptionRequest.

Module DeleteSubscriptionRequest.
Record t := mk { Subscription : string }.
End DeleteSubscriptionRequest.

Module DetachSubscriptionRequest.
Record t := mk { Subscription : string }.
End DetachSubscriptionRequest.

Module PublishRequest.
Record t := mk { Topic : string; Messages : list PubsubMessage.t }.
End PublishRequest.

Module PublishResponse.
Record t := mk { MessageIds : list string }.
Definition empty : t := mk [].
End PublishResponse.

Module AcknowledgeRequest.
Record t := mk { Subscription : string; AckIds : list string }.
End AcknowledgeRequest.

Module ModifyAckDeadlineRequest.
Record t := mk {
  Subscription : string;
  AckIds : list string;
  AckDeadlineSeconds : Z;
}.
End ModifyAckDeadlineRequest.

Module PullRequest.
Record t := mk {
  Subscription : string;
  ReturnImmediately : bool;
  MaxMessages : Z;
}.
End PullRequest.

Module PullResponse.
Record t := mk { ReceivedMessages : list ReceivedMessage.t }.
Definition empty : t := mk [].
End PullResponse.

Module StreamingPullRequest.
Record t := mk {
  Subscription : string;
  AckIds : list string;
  ModifyDeadlineSeconds : list Z;
  ModifyDeadlineAckIds : list string;
  StreamAckDeadlineSeconds : Z;
}.
End StreamingPullRequest.

(** The [oneof] target of a seek. *)
Inductive isSeekRequest_Target :=
| SeekRequest_Time (Time : option timestamppb.Timestamp)
| SeekRequest_Snapshot (Snapshot : string).

Module SeekRequest.
Record t := mk {
  Subscription : string;
  Target : option isSeekRequest_Target;
}.
End SeekRequest.

End pb.

(** A value of type [interface{}] handed to or returned by a reactor: a
    protocol message together with its dynamic type. *)
Inductive any :=
| AnyTopic (x : pb.Topic.t)
| AnyUpdateTopicRequest (x : pb.UpdateTopicRequest.t)
| AnyDeleteTopicRequest (x : pb.DeleteTopicRequest.t)
| AnySubscription (x : pb.Subscription.t)
| AnyUpdateSubscriptionRequest (x : pb.UpdateSubscriptionRequest.t)
| AnyDeleteSubscriptionRequest (x : pb.DeleteSubscriptionRequest.t)
| AnyDetachSubscriptionRequest (x : pb.DetachSubscriptionRequest.t)
| AnyDetachSubscriptionResponse
| AnyPublishRequest (x : pb.PublishRequest.t)
| AnyPublishResponse (x : pb.PublishResponse.t)
| AnyAcknowledgeRequest (x : pb.AcknowledgeRequest.t)
| AnyModifyAckDeadlineRequest (x : pb.ModifyAckDeadlineRequest.t)
| AnyPullRequest (x : pb.PullRequest.t)
| AnyPullResponse (x : pb.PullResponse.t)
| AnySeekRequest (x : pb.SeekRequest.t)
| AnySeekResponse
| AnyEmpty.

(** [React(req)] returns [(handled, ret, err)]. *)
Definition Reactor : Type := any → bool * option any * option status.Status.

(** [ReactorOptions]: function name to the reactors registered for it. *)
Abbreviation ReactorOptions := (gmap string (list Reactor)).

Record ServerReactorOption := {
  Reactor_ : Reactor;
  FuncName : string;
}.

(** ** Published messages *)

(** A modack sent to the server. *)
Module Modack.
Record t := mk {
  ReceivedAt : time.Time;
  AckID : string;
  AckDeadline : Z;
}.
End Modack.

(** A [Message] is a message that was published to the server.  [Message]
    objects live in the arena [msgObjs] of the server. *)
Module Message.
Record t := mk {
  PublishTime : time.Time;
  Attributes : gmap string string;
  ID : string;
  OrderingKey : string;
  modacks : list Modack.t;
  Modacks : list Modack.t;
  Data : list Byte.byte;
  Acks : Z;
  deliveries : Z;
  acks : Z;
  Deliveries : Z;
}.

(** [m.deliveries++], [m.acks++] and [append(m.modacks, x)]. *)
Definition incr_deliveries (m : t) : t :=
  mk (PublishTime m) (Attributes m) (ID m) (OrderingKey m) (modacks m)
     (Modacks m) (Data m) (Acks m) (incr (deliveries m)) (acks m) (Deliveries m).
Definition incr_acks (m : t) : t :=
  mk (PublishTime m) (Attributes m) (ID m) (OrderingKey m) (modacks m)
     (Modacks m) (Data m) (Acks m) (deliveries m) (incr (acks m)) (Deliveries m).
Definition append_modack (x : Modack.t) (m : t) : t :=
  mk (PublishTime m) (Attributes m) (ID m) (OrderingKey m) (modacks m ++ [x])
     (Modacks m) (Data m) (Acks m) (deliveries m) (acks m) (Deliveries m).
End Message.

(** The package-level [retentionDuration]. *)
Definition retentionDuration : time.Duration := 10 * time.Minute.

(** ** Pending entries of a subscription *)

Module message.
(** [deliveries] and [acks] point at the counters of a [Message]: both hold
    the address of that [Message] in [msgObjs]. *)
Record t := mk {
  proto : pb.ReceivedMessage.t;
  publishTime : time.Time;
  ackDeadline : time.Time;
  deliveries : ptr;
  acks : ptr;
  streamIndex : Z;
}.

Definition set_ackDeadline (d : time.Time) (m : t) : t :=
  mk (proto m) (publishTime m) d (deliveries m) (acks m) (streamIndex m).
Definition set_streamIndex (i : Z) (m : t) : t :=
  mk (proto m) (publishTime m) (ackDeadline m) (deliveries m) (acks m) i.

(** A message is outstanding if it is owned by some stream. *)
Definition outstanding (m : t) : bool := negb (time.IsZero (ackDeadline m)).

Definition makeAvailable (m : t) : t := set_ackDeadline time.zero m.
End message.

(** ** Streams *)

Module stream.
(** [done] records whether the channel [st.done] has been closed.  The
    channel [msgc] and the gRPC stream carry no state of their own here: what
    they do is supplied to [subscription.deliver] by the caller. *)
Record t := mk {
  sub : ptr;
  done : bool;
  ackTimeout : time.Duration;
  timeout : time.Duration;
}.

Definition set_ackTimeout (d : time.Duration) (st : t) : t :=
  mk (sub st) (done st) d (timeout st).
Definition close_done (st : t) : t :=
  mk (sub st) true (ackTimeout st) (timeout st).
End stream.

Definition secsToDur (secs : Z) : time.Duration := secs * time.Second.

(** [deleteStreamAt] preserves order for round-robin delivery. *)
Definition deleteStreamAt (s : list ptr) (i : nat) : list ptr :=
  take i s ++ drop (S i) s.

(** ** Subscriptions *)

Module subscription.
Record t := mk {
  topic : ptr;
  proto : pb.Subscription.t;
  msgs : gmap string message.t;
  done : bool;
  timeNowFunc : nat → time.Time;
  streams : list ptr;
  ackTimeout : time.Duration;
}.

Definition set_proto (p : pb.Subscription.t) (s : t) : t :=
  mk (topic s) p (msgs s) (done s) (timeNowFunc s) (streams s) (ackTimeout s).
Definition set_msgs (m : gmap string message.t) (s : t) : t :=
  mk (topic s) (proto s) m (done s) (timeNowFunc s) (streams s) (ackTimeout s).
Definition set_streams (l : list ptr) (s : t) : t :=
  mk (topic s) (proto s) (msgs s) (done s) (timeNowFunc s) l (ackTimeout s).
Definition set_done (b : bool) (s : t) : t :=
  mk (topic s) (proto s) (msgs s) b (timeNowFunc s) (streams s) (ackTimeout s).

Definition newSubscription (t_ : ptr) (timeNowFunc : nat → time.Time)
    (ps : pb.Subscription.t) : t :=
  let at_ := pb.Subscription.AckDeadlineSeconds ps * time.Second in
  let at_ := if bool_decide (at_ = 0) then 10 * time.Second else at_ in
  mk t_ ps ∅ false timeNowFunc [] at_.

(** [stop] closes the channel [done]; closing a closed channel panics. *)
Definition stop (s : t) : option t :=
  if done s then None else Some (set_done true s).

(** [ack]: must be called with the lock held. *)
Definition ack (id : string) (s : t) (msgObjs : list Message.t)
    : t * list Message.t :=
  match msgs s !! id with
  | Some m =>
      (set_msgs (delete id (msgs s)) s,
       alter Message.incr_acks (message.acks m) msgObjs)
  | None => (s, msgObjs)
  end.

(** [modifyAckDeadline]: must be called with the lock held.  [clock] is the
    number of clock readings made so far; the updated count is returned. *)
Definition modifyAckDeadline (id : string) (d : time.Duration) (s : t)
    (clock : nat) : t * nat :=
  match msgs s !! id with
  | None => (s, clock) (* already acked: ignore. *)
  | Some m =>
      if bool_decide (d = 0) then (* nack *)
        (set_msgs (<[id := message.makeAvailable m]> (msgs s)) s, clock)
      else (* extend the deadline by d *)
        (set_msgs (<[id := message.set_ackDeadline
                              (time.Add (timeNowFunc s clock) d) m]> (msgs s)) s,
         S clock)
  end.

(** One iteration of the loop of [maintainMessages] on the entry [m]:
    [None] is the nil-pointer dereference of [m.proto.Message.PublishTime]
    when [m.proto.Message] is nil, [Some None] is an entry deleted from the
    map, [Some (Some m')] an entry kept (possibly made available). *)
Definition sweep (now : time.Time) (m : message.t) : option (option message.t) :=
  (* Mark a message as re-deliverable if its ack deadline has expired. *)
  let m :=
    if message.outstanding m && time.After now (message.ackDeadline m)
    then message.makeAvailable m else m in
  match pb.ReceivedMessage.Message (message.proto m) with
  | None => None
  | Some pm =>
      let pubTime := timestamppb.AsTime (pb.PubsubMessage.PublishTime pm) in
      (* Remove messages that have been undelivered for a long time. *)
      if negb (message.outstanding m)
         && bool_decide (time.Sub now pubTime > retentionDuration)
      then Some None
      else Some (Some m)
  end.

(** [maintainMessages]: the range over [s.msgs] visits every entry once and
    each iteration reads and writes its own entry only, so the outcome does
    not depend on the order: a panic when some entry has a nil message,
    otherwise every entry swept.  [None] is the panic. *)
Definition maintainMessages (now : time.Time) (s : t) : option t :=
  if bool_decide (map_Forall (λ _ m, is_Some (sweep now m)) (msgs s))
  then Some (set_msgs (omap (λ m, mjoin (sweep now m)) (msgs s)) s)
  else None.

(** The loop of [pull] over the keys in [order]; [acc] is the slice [msgs]
    built so far.  A key that is not in the map is not visited. *)
Fixpoint pullLoop (now : time.Time) (max : Z) (order : list string) (s : t)
    (msgObjs : list Message.t) (acc : list pb.ReceivedMessage.t)
    : t * list Message.t * list pb.ReceivedMessage.t :=
  match order with
  | [] => (s, msgObjs, acc)
  | id :: order =>
      match msgs s !! id with
      | None => pullLoop now max order s msgObjs acc
      | Some m =>
          if message.outstanding m then pullLoop now max order s msgObjs acc
          else
            let msgObjs := alter Message.incr_deliveries (message.deliveries m) msgObjs in
            let m' := message.set_ackDeadline (time.Add now (ackTimeout s)) m in
            let s := set_msgs (<[id := m']> (msgs s)) s in
            let acc := acc ++ [message.proto m'] in
            if Z.of_nat (length acc) >=? max then (s, msgObjs, acc)
            else pullLoop now max order s msgObjs acc
      end
  end.

(** [pull]: must be called with the lock held.  [order] is the order in which
    the range over [s.msgs] visits the keys left by the sweep.  The clock is
    read once; [None] is a panic. *)
Definition pull (max : Z) (order : list string) (s : t)
    (msgObjs : list Message.t) (clock : nat)
    : option (t * list Message.t * list pb.ReceivedMessage.t) :=
  let now := timeNowFunc s clock in
  s ← maintainMessages now s;
  Some (pullLoop now max order s msgObjs []).

(** The [select] statement of [tryDeliverMessage].  The receive from
    [st.done] can proceed when the channel is closed; the send on the
    unbuffered [st.msgc] can proceed when the stream's send loop is waiting
    to receive ([recvReady]); when both can proceed the runtime picks one
    ([preferDone]); when neither can, the [default] case runs. *)
Inductive selected := SelDone | SelSend | SelDefault.

Definition select_ (doneClosed recvReady preferDone : bool) : selected :=
  if doneClosed && (preferDone || negb recvReady) then SelDone
  else if recvReady then SelSend
  else SelDefault.

(** The loop of [tryDeliverMessage] from index [i] on.  [id] is the key of
    the entry [m] points to.  [chans] gives, for each [select] executed, the
    pair [(recvReady, preferDone)]; when it runs out no receiver is ready.
    Every iteration decreases [len(s.streams) - i], so [fuel] equal to that
    difference reaches the exit of the loop.  The result is [None] for a
    panic (index out of range), otherwise the new state, the unused channel
    choices, and [Some (idx, st)] when the message went to the stream [st]
    at index [idx] or [None] for [(0, false)]. *)
Fixpoint tryDeliverLoop (fuel : nat) (i : Z) (id : string) (start : Z)
    (now : time.Time) (s : t) (msgObjs : list Message.t)
    (streamObjs : list stream.t) (chans : list (bool * bool))
    : option (t * list Message.t * list (bool * bool) * option (Z * ptr)) :=
  match fuel with
  | O => Some (s, msgObjs, chans, None)
  | S fuel =>
      if bool_decide (i < Z.of_nat (length (streams s))) then
        let idx := Z.rem (i + start) (Z.of_nat (length (streams s))) in
        if bool_decide (idx < 0) then None
        else
          p ← streams s !! Z.to_nat idx;
          st ← streamObjs !! p;
          let '(recvReady, preferDone) := default (false, false) (head chans) in
          match select_ (stream.done st) recvReady preferDone with
          | SelDone =>
              let s := set_streams (deleteStreamAt (streams s) (Z.to_nat idx)) s in
              tryDeliverLoop fuel i id start now s msgObjs streamObjs (tail chans)
          | SelSend =>
              m ← msgs s !! id;
              let msgObjs := alter Message.incr_deliveries (message.deliveries m) msgObjs in
              let m := message.set_ackDeadline (time.Add now (stream.ackTimeout st)) m in
              Some (set_msgs (<[id := m]> (msgs s)) s, msgObjs, tail chans,
                    Some (idx, p))
          | SelDefault =>
              tryDeliverLoop fuel (i + 1) id start now s msgObjs streamObjs (tail chans)
          end
      else Some (s, msgObjs, chans, None)
  end.

(** [tryDeliverMessage] attempts to deliver the entry at [id] to the stream
    at index [start]; if it can't, it tries the following streams, wrapping
    around.  Must be called with the lock held. *)
Definition tryDeliverMessage (id : string) (start : Z) (now : time.Time)
    (s : t) (msgObjs : list Message.t) (streamObjs : list stream.t)
    (chans : list (bool * bool)) :=
  tryDeliverLoop (length (streams s)) 0 id start now s msgObjs streamObjs chans.

(** The loop of [deliver] over the keys in [order]; [sent] collects what was
    handed to which stream. *)
Fixpoint deliverLoop (now : time.Time) (order : list string) (curIndex : Z)
    (s : t) (msgObjs : list Message.t) (streamObjs : list stream.t)
    (chans : list (bool * bool)) (sent : list (ptr * pb.ReceivedMessage.t))
    : option (t * list Message.t * list (ptr * pb.ReceivedMessage.t)) :=
  match order with
  | [] => Some (s, msgObjs, sent)
  | id :: order =>
      match msgs s !! id with
      | None => deliverLoop now order curIndex s msgObjs streamObjs chans sent
      | Some m =>
          if message.outstanding m
          then deliverLoop now order curIndex s msgObjs streamObjs chans sent
          else
            (* If the message was never delivered before, start with the
               stream at curIndex. If it was delivered before, start with the
               stream after the one that owned it. *)
            let start :=
              if bool_decide (message.streamIndex m < 0) then curIndex
              else message.streamIndex m in
            r ← tryDeliverMessage id start now s msgObjs streamObjs chans;
            let '(s, msgObjs, chans, res) := r in
            match res with
            | None => Some (s, msgObjs, sent)
            | Some (delIndex, st) =>
                let curIndex :=
                  if bool_decide (message.streamIndex m < 0) then delIndex + 1
                  else curIndex in
                let streamIndex :=
                  if bool_decide (message.streamIndex m < 0) then curIndex
                  else delIndex in
                let s :=
                  set_msgs (alter (message.set_streamIndex streamIndex) id (msgs s)) s in
                deliverLoop now order curIndex s msgObjs streamObjs chans
                  (sent ++ [(st, message.proto m)])
            end
      end
  end.

(** [deliver], the body of the background task of the subscription, run
    with the lock held.  [None] is a panic. *)
Definition deliver (order : list string) (chans : list (bool * bool)) (s : t)
    (msgObjs : list Message.t) (streamObjs : list stream.t) (clock : nat)
    : option (t * list Message.t * list (ptr * pb.ReceivedMessage.t)) :=
  let now := timeNowFunc s clock in
  s ← maintainMessages now s;
  (* Try to deliver each remaining message. *)
  deliverLoop now order 0 s msgObjs streamObjs chans [].

(** [newStream] for the subscription at address [self]. *)
Definition newStream (self : ptr) (timeout : time.Duration) (s : t)
    (streamObjs : list stream.t) : t * list stream.t * ptr :=
  let st := stream.mk self false (ackTimeout s) timeout in
  (set_streams (streams s ++ [length streamObjs]) s,
   streamObjs ++ [st], length streamObjs).

Definition deleteStream (st : ptr) (s : t) : t :=
  match list_find (λ p, p = st) (streams s) with
  | Some (i, _) => set_streams (deleteStreamAt (streams s) i) s
  | None => s
  end.

(** The second loop of [handleStreamingPullRequest], from index [i] on;
    [req.ModifyDeadlineSeconds[i]] panics when out of range. *)
Fixpoint modifyDeadlines (i : nat) (ids : list string) (secs : list Z) (s : t)
    (clock : nat) : option (t * nat) :=
  match ids with
  | [] => Some (s, clock)
  | id :: ids =>
      d ← secs !! i;
      let '(s, clock) := modifyAckDeadline id (secsToDur d) s clock in
      modifyDeadlines (S i) ids secs s clock
  end.

Definition handleStreamingPullRequest (st : ptr) (req : pb.StreamingPullRequest.t)
    (s : t) (msgObjs : list Message.t) (streamObjs : list stream.t) (clock : nat)
    : option (t * list Message.t * list stream.t * nat) :=
  let '(s, msgObjs) :=
    foldl (λ '(s, o) ackID, ack ackID s o) (s, msgObjs)
          (pb.StreamingPullRequest.AckIds req) in
  r ← modifyDeadlines 0 (pb.StreamingPullRequest.ModifyDeadlineAckIds req)
        (pb.StreamingPullRequest.ModifyDeadlineSeconds req) s clock;
  let '(s, clock) := r in
  let streamObjs :=
    if bool_decide (pb.StreamingPullRequest.StreamAckDeadlineSeconds req > 0)
    then alter (stream.set_ackTimeout
                  (secsToDur (pb.StreamingPullRequest.StreamAckDeadlineSeconds req)))
               st streamObjs
    else streamObjs in
  Some (s, msgObjs, streamObjs, clock).

End subscription.

(** ** Topics *)

(** A list of pointers altered one after the other. *)
Definition alterAll {A} (f : A → A) (ps : list ptr) (objs : list A) : list A :=
  foldr (alter f) objs ps.

Module topic.
Record t := mk {
  proto : pb.Topic.t;
  subs : gmap string ptr;
}.

Definition set_proto (p : pb.Topic.t) (t_ : t) : t := mk p (subs t_).
Definition set_subs (m : gmap string ptr) (t_ : t) : t := mk (proto t_) m.

Definition newTopic (pt : pb.Topic.t) : t := mk pt ∅.

Definition deleted_topic (ps : pb.Subscription.t) : pb.Subscription.t :=
  pb.Subscription.mk (pb.Subscription.Name ps) "_deleted-topic_"
    (pb.Subscription.PushConfig ps) (pb.Subscription.AckDeadlineSeconds ps)
    (pb.Subscription.RetainAckedMessages ps)
    (pb.Subscription.MessageRetentionDuration ps) (pb.Subscription.Labels ps)
    (pb.Subscription.ExpirationPolicy ps) (pb.Subscription.DeadLetterPolicy ps)
    (pb.Subscription.RetryPolicy ps) (pb.Subscription.Filter ps).

(** [stop] marks every subscription of the topic. *)
Definition stop (t_ : t) (subObjs : list subscription.t) : list subscription.t :=
  alterAll (λ sub, subscription.set_proto (deleted_topic (subscription.proto sub)) sub)
           (map_to_list (subs t_)).*2 subObjs.

Definition deleteSub (sub : subscription.t) (t_ : t) : t :=
  set_subs (delete (pb.Subscription.Name (subscription.proto sub)) (subs t_)) t_.

(** [publish(pm, m)] where [m] is the [Message] [M] at address [m]: every
    subscription of the topic gets a pending entry under the message id. *)
Definition publish (pm : pb.PubsubMessage.t) (m : ptr) (M : Message.t) (t_ : t)
    (subObjs : list subscription.t) : list subscription.t :=
  alterAll
    (λ s, subscription.set_msgs
            (<[pb.PubsubMessage.MessageId pm :=
                 message.mk
                   (pb.ReceivedMessage.mk (pb.PubsubMessage.MessageId pm) (Some pm))
                   (Message.PublishTime M) time.zero m m (-1)]>
               (subscription.msgs s)) s)
    (map_to_list (subs t_)).*2 subObjs.
End topic.

(** ** Bounds on the settings of a subscription *)

(** [minAckDeadlineSecs] is a package variable that tests can set
    ([SetMinAckDeadline]); the functions that read it take its current value
    as their first argument.  [ResetMinAckDeadline] sets it to 10. *)
Definition defaultMinAckDeadlineSecs : Z := 10.

Definition checkAckDeadline (minAckDeadlineSecs : Z) (ads : Z) : option status.Status :=
  if bool_decide (ads < minAckDeadlineSecs) || bool_decide (ads > 600) then
    (* PubSub service returns Unknown. *)
    Some (status.Errorf codes.Unknown "bad ack_deadline_seconds: %d" [status.ArgInt ads])
  else None.

Definition minMessageRetentionDuration : time.Duration := 10 * time.Minute.
Definition maxMessageRetentionDuration : time.Duration := 168 * time.Hour.

Definition defaultMessageRetentionDuration : durpb.Duration :=
  durpb.New maxMessageRetentionDuration.

Definition checkMRD (pmrd : option durpb.Duration) : option status.Status :=
  let mrd := durpb.AsDuration pmrd in
  if bool_decide (mrd < minMessageRetentionDuration)
     || bool_decide (mrd > maxMessageRetentionDuration) then
    Some (status.Errorf codes.InvalidArgument "bad message_retention_duration %+v"
            [status.ArgDuration pmrd])
  else None.

(** ** The server *)

Module GServer.
(** The fields of the Go struct, followed by the arenas of the objects the
    server reaches through pointers and by the number of readings of the
    clock made so far.  The lock [mu] and the wait group are not state of the
    embedding: every operation below is one critical section. *)
Record t := mk {
  topics : gmap string ptr;
  subs : gmap string ptr;
  reactorOptions : ReactorOptions;
  msgsByID : gmap string ptr;
  timeNowFunc : nat → time.Time;
  msgs : list ptr;
  nextID : Z;
  streamTimeout : time.Duration;
  msgObjs : list Message.t;
  subObjs : list subscription.t;
  topicObjs : list topic.t;
  streamObjs : list stream.t;
  clock : nat;
}.

Definition set_topics (x : gmap string ptr) (s : t) : t :=
  mk x (subs s) (reactorOptions s) (msgsByID s) (timeNowFunc s) (msgs s)
    (nextID s) (streamTimeout s) (msgObjs s) (subObjs s) (topicObjs s)
    (streamObjs s) (clock s).
Definition set_subs (x : gmap string ptr) (s : t) : t :=
  mk (topics s) x (reactorOptions s) (msgsByID s) (timeNowFunc s) (msgs s)
    (nextID s) (streamTimeout s) (msgObjs s) (subObjs s) (topicObjs s)
    (streamObjs s) (clock s).
Definition set_reactorOptions (x : ReactorOptions) (s : t) : t :=
  mk (topics s) (subs s) x (msgsByID s) (timeNowFunc s) (msgs s) (nextID s)
    (streamTimeout s) (msgObjs s) (subObjs s) (topicObjs s) (streamObjs s)
    (clock s).
Definition set_msgsByID (x : gmap string ptr) (s : t) : t :=
  mk (topics s) (subs s) (reactorOptions s) x (timeNowFunc s) (msgs s)
    (nextID s) (streamTimeout s) (msgObjs s) (subObjs s) (topicObjs s)
    (streamObjs s) (clock s).
Definition set_timeNowFunc (x : nat → time.Time) (s : t) : t :=
  mk (topics s) (subs s) (reactorOptions s) (msgsByID s) x (msgs s) (nextID s)
    (streamTimeout s) (msgObjs s) (subObjs s) (topicObjs s) (streamObjs s)
    (clock s).
Definition set_msgs (x : list ptr) (s : t) : t :=
  mk (topics s) (subs s) (reactorOptions s) (msgsByID s) (timeNowFunc s) x
    (nextID s) (streamTimeout s) (msgObjs s) (subObjs s) (topicObjs s)
    (streamObjs s) (clock s).
Definition set_nextID (x : Z) (s : t) : t :=
  mk (topics s) (subs s) (reactorOptions s) (msgsByID s) (timeNowFunc s)
    (msgs s) x (streamTimeout s) (msgObjs s) (subObjs s) (topicObjs s)
    (streamObjs s) (clock s).
Definition set_streamTimeout (x : time.Duration) (s : t) : t :=
  mk (topics s) (subs s) (reactorOptions s) (msgsByID s) (timeNowFunc s)
    (msgs s) (nextID s) x (msgObjs s) (subObjs s) (topicObjs s) (streamObjs s)
    (clock s).
Definition set_msgObjs (x : list Message.t) (s : t) : t :=
  mk (topics s) (subs s) (reactorOptions s) (msgsByID s) (timeNowFunc s)
    (msgs s) (nextID s) (streamTimeout s) x (subObjs s) (topicObjs s)
    (streamObjs s) (clock s).
Definition set_subObjs (x : list subscription.t) (s : t) : t :=
  mk (topics s) (subs s) (reactorOptions s) (msgsByID s) (timeNowFunc s)
    (msgs s) (nextID s) (streamTimeout s) (msgObjs s) x (topicObjs s)
    (streamObjs s) (clock s).
Definition set_topicObjs (x : list topic.t) (s : t) : t :=
  mk (topics s) (subs s) (reactorOptions s) (msgsByID s) (timeNowFunc s)
    (msgs s) (nextID s) (streamTimeout s) (msgObjs s) (subObjs s) x
    (streamObjs s) (clock s).
Definition set_streamObjs (x : list stream.t) (s : t) : t :=
  mk (topics s) (subs s) (reactorOptions s) (msgsByID s) (timeNowFunc s)
    (msgs s) (nextID s) (streamTimeout s) (msgObjs s) (subObjs s)
    (topicObjs s) x (clock s).
Definition set_clock (x : nat) (s : t) : t :=
  mk (topics s) (subs s) (reactorOptions s) (msgsByID s) (timeNowFunc s)
    (msgs s) (nextID s) (streamTimeout s) (msgObjs s) (subObjs s)
    (topicObjs s) (streamObjs s) x.

(** What a call gives back: it returns with a new state, a response and an
    error (Go's [(resp, err)] pair), or it panics. *)
Inductive outcome (R : Type) :=
| Return (s : t) (resp : option R) (err : option status.Status)
| Panic.
Arguments Return {R} s resp err.
Arguments Panic {R}.

(** The state a call leaves and the pair it returns, when it returns. *)
Definition final {R} (o : outcome R) : option t :=
  match o with
  | Return s _ _ => Some s
  | Panic => None
  end.
Definition result {R} (o : outcome R) : option (option R * option status.Status) :=
  match o with
  | Return _ resp err => Some (resp, err)
  | Panic => None
  end.

Definition ok {R} (s : t) (r : R) : outcome R := Return s (Some r) None.
Definition fail {R} (s : t) (c : codes.Code) (format : string)
    (args : list status.Arg) : outcome R :=
  Return s None (Some (status.Errorf c format args)).

(** The state of a fresh server ([NewServer]), without the network side. *)
Definition NewServer (timeNow : nat → time.Time) (opts : list ServerReactorOption) : t :=
  let reactorOptions :=
    foldl (λ (ro : ReactorOptions) opt,
             <[FuncName opt := default [] (ro !! FuncName opt) ++ [Reactor_ opt]]> ro)
          ∅ opts in
  mk ∅ ∅ reactorOptions ∅ timeNow [] 0 0 [] [] [] [] 0%nat.

(** [SetTimeNowFunc], [SetStreamTimeout] and [ClearMessages] of [Server]. *)
Definition SetTimeNowFunc (f : nat → time.Time) (s : t) : t := set_timeNowFunc f s.
Definition SetStreamTimeout (d : time.Duration) (s : t) : t := set_streamTimeout d s.
Definition ClearMessages (s : t) : t := set_msgsByID ∅ (set_msgs [] s).

(** ** Reactors *)

Fixpoint runReactors (val : list Reactor) (req defaultObj : any)
    : bool * option any * option status.Status :=
  match val with
  | [] => (false, None, None)
  | reactor :: val =>
      let '(handled, ret, err) := reactor req in
      if handled || bool_decide (is_Some err)
      then (true, Some (default defaultObj ret), err)
      else runReactors val req defaultObj
  end.

(** [runReactor] looks up the reactors for a function, then launches them
    until handled=true or err is returned. *)
Definition runReactor (s : t) (req : any) (funcName : string) (defaultObj : any)
    : bool * option any * option status.Status :=
  match reactorOptions s !! funcName with
  | Some val => runReactors val req defaultObj
  | None => (false, None, None)
  end.

(** The guard at the head of every operation: when [runReactor] reports
    [handled] or an error, the operation returns [ret], asserted to be of the
    response type of the operation, together with [err]; the type assertion
    panics when [ret] holds another type. *)
Definition reacting {R} (cast : any → option R)
    (r : bool * option any * option status.Status) (s : t)
    (k : outcome R) : outcome R :=
  let '(handled, ret, err) := r in
  if handled || bool_decide (is_Some err) then
    match ret ≫= cast with
    | Some x => Return s (Some x) err
    | None => Panic
    end
  else k.

Definition asTopic (a : any) : option pb.Topic.t :=
  match a with AnyTopic x => Some x | _ => None end.
Definition asSubscription (a : any) : option pb.Subscription.t :=
  match a with AnySubscription x => Some x | _ => None end.
Definition asEmpty (a : any) : option unit :=
  match a with AnyEmpty => Some () | _ => None end.
Definition asDetachSubscriptionResponse (a : any) : option unit :=
  match a with AnyDetachSubscriptionResponse => Some () | _ => None end.
Definition asPublishResponse (a : any) : option pb.PublishResponse.t :=
  match a with AnyPublishResponse x => Some x | _ => None end.
Definition asPullResponse (a : any) : option pb.PullResponse.t :=
  match a with AnyPullResponse x => Some x | _ => None end.
Definition asSeekResponse (a : any) : option unit :=
  match a with AnySeekResponse => Some () | _ => None end.

(** ** Topic operations *)

Definition CreateTopic (t_ : pb.Topic.t) (s : t) : outcome pb.Topic.t :=
  reacting asTopic
    (runReactor s (AnyTopic t_) "CreateTopic" (AnyTopic pb.Topic.empty)) s
    (if bool_decide (is_Some (topics s !! pb.Topic.Name t_)) then
       fail s codes.AlreadyExists "topic %q" [status.ArgString (pb.Topic.Name t_)]
     else
       let top := topic.newTopic t_ in
       let p := length (topicObjs s) in
       let s := set_topicObjs (topicObjs s ++ [top]) s in
       let s := set_topics (<[pb.Topic.Name t_ := p]> (topics s)) s in
       ok s (topic.proto top)).

(** The loop of [UpdateTopic] over the mask paths, on the stored proto. *)
Fixpoint updateTopicPaths (paths : list string) (reqTopic proto : pb.Topic.t)
    : pb.Topic.t * option status.Status :=
  match paths with
  | [] => (proto, None)
  | maskPath :: paths =>
      if String.eqb maskPath "labels" then
        updateTopicPaths paths reqTopic
          (pb.Topic.set_Labels (pb.Topic.Labels reqTopic) proto)
      else if String.eqb maskPath "message_storage_policy" then
        updateTopicPaths paths reqTopic
          (pb.Topic.set_MessageStoragePolicy (pb.Topic.MessageStoragePolicy reqTopic) proto)
      else
        (proto, Some (status.Errorf codes.InvalidArgument "unknown field name %q"
                        [status.ArgString maskPath]))
  end.

(** [req.Topic] and [req.UpdateMask] are pointers the code dereferences
    without a nil check. *)
Definition UpdateTopic (req : pb.UpdateTopicRequest.t) (s : t) : outcome pb.Topic.t :=
  reacting asTopic
    (runReactor s (AnyUpdateTopicRequest req) "UpdateTopic" (AnyTopic pb.Topic.empty)) s
    (match pb.UpdateTopicRequest.Topic req with
     | None => Panic
     | Some reqTopic =>
         match topics s !! pb.Topic.Name reqTopic with
         | None =>
             fail s codes.NotFound "topic %q" [status.ArgString (pb.Topic.Name reqTopic)]
         | Some p =>
             match topicObjs s !! p, pb.UpdateTopicRequest.UpdateMask req with
             | Some t_, Some mask =>
                 let '(proto, err) :=
                   updateTopicPaths (pb.FieldMask.Paths mask) reqTopic (topic.proto t_) in
                 let s := set_topicObjs (<[p := topic.set_proto proto t_]> (topicObjs s)) s in
                 match err with
                 | Some e => Return s None (Some e)
                 | None => ok s proto
                 end
             | _, _ => Panic
             end
         end
     end).

Definition DeleteTopic (req : pb.DeleteTopicRequest.t) (s : t) : outcome unit :=
  reacting asEmpty
    (runReactor s (AnyDeleteTopicRequest req) "DeleteTopic" AnyEmpty) s
    (match topics s !! pb.DeleteTopicRequest.Topic req with
     | None =>
         fail s codes.NotFound "topic %q"
           [status.ArgString (pb.DeleteTopicRequest.Topic req)]
     | Some p =>
         match topicObjs s !! p with
         | None => Panic
         | Some t_ =>
             let s := set_subObjs (topic.stop t_ (subObjs s)) s in
             ok (set_topics (delete (pb.DeleteTopicRequest.Topic req) (topics s)) s) ()
         end
     end).

(** ** Subscription operations *)

Definition CreateSubscription (minAckDeadlineSecs : Z) (ps : pb.Subscription.t)
    (s : t) : outcome pb.Subscription.t :=
  reacting asSubscription
    (runReactor s (AnySubscription ps) "CreateSubscription"
       (AnySubscription pb.Subscription.empty)) s
    (if String.eqb (pb.Subscription.Name ps) "" then
       fail s codes.InvalidArgument "missing name" []
     else if bool_decide (is_Some (subs s !! pb.Subscription.Name ps)) then
       fail s codes.AlreadyExists "subscription %q"
         [status.ArgString (pb.Subscription.Name ps)]
     else if String.eqb (pb.Subscription.Topic ps) "" then
       fail s codes.InvalidArgument "missing topic" []
     else
       match topics s !! pb.Subscription.Topic ps with
       | None =>
           fail s codes.NotFound "topic %q" [status.ArgString (pb.Subscription.Topic ps)]
       | Some top =>
           match checkAckDeadline minAckDeadlineSecs (pb.Subscription.AckDeadlineSeconds ps) with
           | Some err => Return s None (Some err)
           | None =>
               let ps :=
                 if bool_decide (pb.Subscription.MessageRetentionDuration ps = None)
                 then pb.Subscription.set_MessageRetentionDuration
                        (Some defaultMessageRetentionDuration) ps
                 else ps in
               match checkMRD (pb.Subscription.MessageRetentionDuration ps) with
               | Some err => Return s None (Some err)
               | None =>
                   let ps :=
                     if bool_decide (pb.Subscription.PushConfig ps = None)
                     then pb.Subscription.set_PushConfig (Some pb.PushConfig.empty) ps
                     else ps in
                   let sub := subscription.newSubscription top (timeNowFunc s) ps in
                   let p := length (subObjs s) in
                   let s := set_subObjs (subObjs s ++ [sub]) s in
                   let s :=
                     set_topicObjs
                       (alter (λ t_, topic.set_subs
                                 (<[pb.Subscription.Name ps := p]> (topic.subs t_)) t_)
                              top (topicObjs s)) s in
                   let s := set_subs (<[pb.Subscription.Name ps := p]> (subs s)) s in
                   ok s ps
               end
           end
       end).

(** Gets a subscription that must exist.  Must be called with the lock
    held. *)
Definition findSubscription (name : string) (s : t) : ptr + status.Status :=
  if String.eqb name "" then
    inr (status.Errorf codes.InvalidArgument "missing subscription" [])
  else
    match subs s !! name with
    | None => inr (status.Errorf codes.NotFound "subscription %s" [status.ArgString name])
    | Some sub => inl sub
    end.

(** The loop of [UpdateSubscription] over the mask paths, on the stored
    proto. *)
Fixpoint updateSubscriptionPaths (minAckDeadlineSecs : Z) (paths : list string)
    (reqSub proto : pb.Subscription.t) : pb.Subscription.t * option status.Status :=
  let continue := updateSubscriptionPaths minAckDeadlineSecs in
  match paths with
  | [] => (proto, None)
  | maskPath :: paths =>
      if String.eqb maskPath "push_config" then
        continue paths reqSub
          (pb.Subscription.set_PushConfig (pb.Subscription.PushConfig reqSub) proto)
      else if String.eqb maskPath "ack_deadline_seconds" then
        let a := pb.Subscription.AckDeadlineSeconds reqSub in
        match checkAckDeadline minAckDeadlineSecs a with
        | Some err => (proto, Some err)
        | None => continue paths reqSub (pb.Subscription.set_AckDeadlineSeconds a proto)
        end
      else if String.eqb maskPath "retain_acked_messages" then
        continue paths reqSub
          (pb.Subscription.set_RetainAckedMessages
             (pb.Subscription.RetainAckedMessages reqSub) proto)
      else if String.eqb maskPath "message_retention_duration" then
        match checkMRD (pb.Subscription.MessageRetentionDuration reqSub) with
        | Some err => (proto, Some err)
        | None =>
            continue paths reqSub
              (pb.Subscription.set_MessageRetentionDuration
                 (pb.Subscription.MessageRetentionDuration reqSub) proto)
        end
      else if String.eqb maskPath "labels" then
        continue paths reqSub
          (pb.Subscription.set_Labels (pb.Subscription.Labels reqSub) proto)
      else if String.eqb maskPath "expiration_policy" then
        continue paths reqSub
          (pb.Subscription.set_ExpirationPolicy
             (pb.Subscription.ExpirationPolicy reqSub) proto)
      else if String.eqb maskPath "dead_letter_policy" then
        continue paths reqSub
          (pb.Subscription.set_DeadLetterPolicy
             (pb.Subscription.DeadLetterPolicy reqSub) proto)
      else if String.eqb maskPath "retry_policy" then
        continue paths reqSub
          (pb.Subscription.set_RetryPolicy (pb.Subscription.RetryPolicy reqSub) proto)
      else if String.eqb maskPath "filter" then
        continue paths reqSub
          (pb.Subscription.set_Filter (pb.Subscription.Filter reqSub) proto)
      else
        (proto, Some (status.Errorf codes.InvalidArgument "unknown field name %q"
                        [status.ArgString maskPath]))
  end.

Definition UpdateSubscription (minAckDeadlineSecs : Z)
    (req : pb.UpdateSubscriptionRequest.t) (s : t) : outcome pb.Subscription.t :=
  match pb.UpdateSubscriptionRequest.Subscription req with
  | None => fail s codes.InvalidArgument "missing subscription" []
  | Some reqSub =>
      reacting asSubscription
        (runReactor s (AnyUpdateSubscriptionRequest req) "UpdateSubscription"
           (AnySubscription pb.Subscription.empty)) s
        (match findSubscription (pb.Subscription.Name reqSub) s with
         | inr err => Return s None (Some err)
         | inl p =>
             match subObjs s !! p, pb.UpdateSubscriptionRequest.UpdateMask req with
             | Some sub, Some mask =>
                 let '(proto, err) :=
                   updateSubscriptionPaths minAckDeadlineSecs (pb.FieldMask.Paths mask)
                     reqSub (subscription.proto sub) in
                 let s := set_subObjs (<[p := subscription.set_proto proto sub]> (subObjs s)) s in
                 match err with
                 | Some e => Return s None (Some e)
                 | None => ok s proto
                 end
             | _, _ => Panic
             end
         end)
  end.

Definition DeleteSubscription (req : pb.DeleteSubscriptionRequest.t) (s : t)
    : outcome unit :=
  reacting asEmpty
    (runReactor s (AnyDeleteSubscriptionRequest req) "DeleteSubscription" AnyEmpty) s
    (match findSubscription (pb.DeleteSubscriptionRequest.Subscription req) s with
     | inr err => Return s None (Some err)
     | inl p =>
         match subObjs s !! p ≫= λ sub, subscription.stop sub with
         | None => Panic
         | Some sub =>
             let s := set_subObjs (<[p := sub]> (subObjs s)) s in
             let s := set_subs (delete (pb.DeleteSubscriptionRequest.Subscription req) (subs s)) s in
             ok (set_topicObjs
                   (alter (topic.deleteSub sub) (subscription.topic sub) (topicObjs s)) s) ()
         end
     end).

Definition DetachSubscription (req : pb.DetachSubscriptionRequest.t) (s : t)
    : outcome unit :=
  reacting asDetachSubscriptionResponse
    (runReactor s (AnyDetachSubscriptionRequest req) "DetachSubscription"
       AnyDetachSubscriptionResponse) s
    (match findSubscription (pb.DetachSubscriptionRequest.Subscription req) s with
     | inr err => Return s None (Some err)
     | inl p =>
         match subObjs s !! p with
         | None => Panic
         | Some sub =>
             ok (set_topicObjs
                   (alter (topic.deleteSub sub) (subscription.topic sub) (topicObjs s)) s) ()
         end
     end).

(** ** Publishing *)

(** [fmt.Sprintf("m%d", n)]. *)
Definition messageID (n : Z) : string := "m" +:+ pretty n.

(** The loop of [Publish] over [req.Messages], for the topic at address
    [top]; [ids] is the slice built so far.  [None] is a dangling topic
    pointer, which the operations never create. *)
Fixpoint publishLoop (pms : list pb.PubsubMessage.t) (top : ptr) (s : t)
    (ids : list string) : option (t * list string) :=
  match pms with
  | [] => Some (s, ids)
  | pm :: pms =>
      let id := messageID (nextID s) in
      let s := set_nextID (incr (nextID s)) s in
      let pm := pb.PubsubMessage.set_MessageId id pm in
      let pubTime := timeNowFunc s (clock s) in
      let s := set_clock (S (clock s)) s in
      let tsPubTime := timestamppb.New pubTime in
      let pm := pb.PubsubMessage.set_PublishTime (Some tsPubTime) pm in
      let M :=
        Message.mk pubTime (pb.PubsubMessage.Attributes pm) id
          (pb.PubsubMessage.OrderingKey pm) [] [] (pb.PubsubMessage.Data pm) 0 0 0 0 in
      let m := length (msgObjs s) in
      let s := set_msgObjs (msgObjs s ++ [M]) s in
      t_ ← topicObjs s !! top;
      let s := set_subObjs (topic.publish pm m M t_ (subObjs s)) s in
      let ids := ids ++ [id] in
      let s := set_msgs (msgs s ++ [m]) s in
      let s := set_msgsByID (<[id := m]> (msgsByID s)) s in
      publishLoop pms top s ids
  end.

Definition Publish (req : pb.PublishRequest.t) (s : t) : outcome pb.PublishResponse.t :=
  reacting asPublishResponse
    (runReactor s (AnyPublishRequest req) "Publish"
       (AnyPublishResponse pb.PublishResponse.empty)) s
    (if String.eqb (pb.PublishRequest.Topic req) "" then
       fail s codes.InvalidArgument "missing topic" []
     else
       match topics s !! pb.PublishRequest.Topic req with
       | None =>
           fail s codes.NotFound "topic %q" [status.ArgString (pb.PublishRequest.Topic req)]
       | Some top =>
           match publishLoop (pb.PublishRequest.Messages req) top s [] with
           | None => Panic
           | Some (s, ids) => ok s (pb.PublishResponse.mk ids)
           end
       end).

(** ** Acknowledging and modifying leases *)

Definition Acknowledge (req : pb.AcknowledgeRequest.t) (s : t) : outcome unit :=
  reacting asEmpty
    (runReactor s (AnyAcknowledgeRequest req) "Acknowledge" AnyEmpty) s
    (match findSubscription (pb.AcknowledgeRequest.Subscription req) s with
     | inr err => Return s None (Some err)
     | inl p =>
         match subObjs s !! p with
         | None => Panic
         | Some sub =>
             let '(sub, objs) :=
               foldl (λ '(sub, objs) id, subscription.ack id sub objs)
                     (sub, msgObjs s) (pb.AcknowledgeRequest.AckIds req) in
             ok (set_msgObjs objs (set_subObjs (<[p := sub]> (subObjs s)) s)) ()
         end
     end).

(** The first loop of [ModifyAckDeadline]: the modack is appended to the
    audit log of [s.msgsByID[id]], a nil pointer when the map has no such
    id. *)
Fixpoint recordModacks (ids : list string) (secs : Z) (now : time.Time)
    (byID : gmap string ptr) (objs : list Message.t) : option (list Message.t) :=
  match ids with
  | [] => Some objs
  | id :: ids =>
      m ← byID !! id;
      recordModacks ids secs now byID
        (alter (Message.append_modack (Modack.mk now id secs)) m objs)
  end.

(** [wallNow] is the reading of [time.Now()] made by the call. *)
Definition ModifyAckDeadline (wallNow : time.Time)
    (req : pb.ModifyAckDeadlineRequest.t) (s : t) : outcome unit :=
  reacting asEmpty
    (runReactor s (AnyModifyAckDeadlineRequest req) "ModifyAckDeadline" AnyEmpty) s
    (match findSubscription (pb.ModifyAckDeadlineRequest.Subscription req) s with
     | inr err => Return s None (Some err)
     | inl p =>
         let now := wallNow in
         match subObjs s !! p,
               recordModacks (pb.ModifyAckDeadlineRequest.AckIds req)
                 (pb.ModifyAckDeadlineRequest.AckDeadlineSeconds req) now
                 (msgsByID s) (msgObjs s) with
         | Some sub, Some objs =>
             let dur := secsToDur (pb.ModifyAckDeadlineRequest.AckDeadlineSeconds req) in
             let '(sub, clock) :=
               foldl (λ '(sub, clock) id, subscription.modifyAckDeadline id dur sub clock)
                     (sub, clock s) (pb.ModifyAckDeadlineRequest.AckIds req) in
             ok (set_clock clock
                   (set_msgObjs objs (set_subObjs (<[p := sub]> (subObjs s)) s))) ()
         | _, _ => Panic
         end
     end).

(** ** Pull *)

(** [Pull] has two critical sections with a wait in between.  After the
    first it has either answered or waits to retry on the subscription it
    found. *)
Inductive pulled :=
| Answered (resp : option pb.PullResponse.t) (err : option status.Status)
| Waiting (sub : ptr) (max : Z).

(** [sub.pull(max)] on the subscription at address [p], under the lock. *)
Definition pullAt (p : ptr) (max : Z) (order : list string) (s : t)
    : option (t * list pb.ReceivedMessage.t) :=
  sub ← subObjs s !! p;
  r ← subscription.pull max order sub (msgObjs s) (clock s);
  let '(sub, objs, msgs_) := r in
  Some (set_clock (S (clock s))
          (set_msgObjs objs (set_subObjs (<[p := sub]> (subObjs s)) s)),
        msgs_).

(** The first critical section of [Pull], up to the test that decides
    whether to wait.  [None] is a panic. *)
Definition pullFirst (req : pb.PullRequest.t) (order : list string) (s : t)
    : option (t * pulled) :=
  let '(handled, ret, err) :=
    runReactor s (AnyPullRequest req) "Pull" (AnyPullResponse pb.PullResponse.empty) in
  if handled || bool_decide (is_Some err) then
    x ← ret ≫= asPullResponse;
    Some (s, Answered (Some x) err)
  else
    match findSubscription (pb.PullRequest.Subscription req) s with
    | inr err => Some (s, Answered None (Some err))
    | inl p =>
        let max := pb.PullRequest.MaxMessages req in
        if bool_decide (max < 0) then
          Some (s, Answered None
                     (Some (status.Errorf codes.InvalidArgument
                              "MaxMessages cannot be negative" [])))
        else
          (* MaxMessages not specified; use a default. *)
          let max := if bool_decide (max = 0) then 1000 else max in
          r ← pullAt p max order s;
          let '(s, msgs_) := r in
          if bool_decide (length msgs_ = 0%nat)
             && negb (pb.PullRequest.ReturnImmediately req)
          then Some (s, Waiting p max)
          else Some (s, Answered (Some (pb.PullResponse.mk msgs_)) None)
    end.

(** The second critical section, after the 500 ms wait. *)
Definition pullRetry (p : ptr) (max : Z) (order : list string) (s : t)
    : option (t * pb.PullResponse.t) :=
  r ← pullAt p max order s;
  Some (r.1, pb.PullResponse.mk r.2).

(** [Pull] with nothing else running during its wait.  [ctxErr] is
    [ctx.Err()] when the context is done before the wait is over; [order]
    and [order'] are the iteration orders of the two pulls. *)
Definition Pull (ctxErr : option status.Status) (req : pb.PullRequest.t)
    (order order' : list string) (s : t) : outcome pb.PullResponse.t :=
  match pullFirst req order s with
  | None => Panic
  | Some (s, Answered resp err) => Return s resp err
  | Some (s, Waiting p max) =>
      match ctxErr with
      | Some e => Return s None (Some e)
      | None =>
          match pullRetry p max order' s with
          | None => Panic
          | Some (s, resp) => ok s resp
          end
      end
  end.

(** ** Seek *)

(** The first loop of [Seek]: drop all messages from [sub] that were
    published before the target time, counting each as acknowledged.  Every
    iteration touches its own entry and one counter, so the order of the
    range does not matter. *)
Definition seekDrop (target : time.Time) (sub : subscription.t)
    (objs : list Message.t) : subscription.t * list Message.t :=
  let before (kv : string * message.t) :=
    time.Before (message.publishTime kv.2) target = true in
  (subscription.set_msgs (filter (λ kv, ¬ before kv) (subscription.msgs sub)) sub,
   alterAll Message.incr_acks
     (message.acks <$> (map_to_list (filter before (subscription.msgs sub))).*2) objs).

(** The second loop of [Seek], over the messages [hist] ever published:
    un-ack any already-acked messages after the target time.  The new entry
    has no [Message]: "This was not preserved!". *)
Fixpoint seekReinsert (target : time.Time) (hist : list ptr)
    (objs : list Message.t) (sub : subscription.t) : option subscription.t :=
  match hist with
  | [] => Some sub
  | m :: hist =>
      M ← objs !! m;
      if time.Before (Message.PublishTime M) target then
        seekReinsert target hist objs sub
      else
        seekReinsert target hist objs
          (subscription.set_msgs
             (<[Message.ID M :=
                  message.mk (pb.ReceivedMessage.mk (Message.ID M) None)
                    (Message.PublishTime M) time.zero m m (-1)]>
                (subscription.msgs sub)) sub)
  end.

Definition Seek (req : pb.SeekRequest.t) (s : t) : outcome unit :=
  (* Only handle time-based seeking for now. *)
  match pb.SeekRequest.Target req with
  | None => fail s codes.InvalidArgument "missing Seek target type" []
  | Some (pb.SeekRequest_Snapshot _) =>
      fail s codes.Unimplemented "unhandled Seek target type %T" []
  | Some (pb.SeekRequest_Time v) =>
      let target := timestamppb.AsTime v in
      reacting asSeekResponse
        (runReactor s (AnySeekRequest req) "Seek" AnySeekResponse) s
        (match findSubscription (pb.SeekRequest.Subscription req) s with
         | inr err => Return s None (Some err)
         | inl p =>
             match subObjs s !! p with
             | None => Panic
             | Some sub =>
                 let '(sub, objs) := seekDrop target sub (msgObjs s) in
                 match seekReinsert target (msgs s) objs sub with
                 | None => Panic
                 | Some sub =>
                     ok (set_msgObjs objs (set_subObjs (<[p := sub]> (subObjs s)) s)) ()
                 end
             end
         end)
  end.

(** ** Streaming pull and background delivery

    [StreamingPull] is not one critical section: it finds the subscription,
    opens a stream on it, then serves requests and finally closes and
    removes the stream.  Each of these steps, and each run of the background
    task [deliver] of a subscription, is one operation on the server state,
    addressed by the pointer the goroutine holds. *)

Definition newStream (p : ptr) (s : t) : option (t * ptr) :=
  sub ← subObjs s !! p;
  let '(sub, streams_, st) :=
    subscription.newStream p (streamTimeout s) sub (streamObjs s) in
  Some (set_streamObjs streams_ (set_subObjs (<[p := sub]> (subObjs s)) s), st).

Definition handleStreamingPullRequest (st : ptr) (req : pb.StreamingPullRequest.t)
    (s : t) : option t :=
  st_ ← streamObjs s !! st;
  sub ← subObjs s !! stream.sub st_;
  r ← subscription.handleStreamingPullRequest st req sub (msgObjs s) (streamObjs s) (clock s);
  let '(sub, objs, streams_, clock) := r in
  Some (set_clock clock
          (set_streamObjs streams_
             (set_msgObjs objs (set_subObjs (<[stream.sub st_ := sub]> (subObjs s)) s)))).

(** [close(st.done)] at the end of [stream.pull]. *)
Definition closeStream (st : ptr) (s : t) : t :=
  set_streamObjs (alter stream.close_done st (streamObjs s)) s.

Definition deleteStream (st : ptr) (s : t) : option t :=
  st_ ← streamObjs s !! st;
  sub ← subObjs s !! stream.sub st_;
  Some (set_subObjs (<[stream.sub st_ := subscription.deleteStream st sub]> (subObjs s)) s).

(** One run of [deliver] for the subscription at address [p]; the second
    component lists what was handed to which stream. *)
Definition deliver (p : ptr) (order : list string) (chans : list (bool * bool))
    (s : t) : option (t * list (ptr * pb.ReceivedMessage.t)) :=
  sub ← subObjs s !! p;
  r ← subscription.deliver order chans sub (msgObjs s) (streamObjs s) (clock s);
  let '(sub, objs, sent) := r in
  Some (set_clock (S (clock s))
          (set_msgObjs objs (set_subObjs (<[p := sub]> (subObjs s)) s)),
        sent).

End GServer.

(** ** Error injection *)

(** [errorInjectionReactor] is a reactor to inject an error message with
    status code. *)
Module errorInjectionReactor.
Record t := mk { msg : string; code : codes.Code }.

(** [React] simply returns an error with defined error message and status
    code.  For the code [OK], [status.Errorf] returns the nil error. *)
Definition React (e : t) : Reactor :=
  λ _, (true, None,
        if bool_decide (code e = codes.OK) then None
        else Some (status.Errorf (code e) (msg e) [])).
End errorInjectionReactor.

(** [WithErrorInjection] creates a [ServerReactorOption] that injects error
    with defined status code and message for a certain function. *)
Definition WithErrorInjection (funcName : string) (code : codes.Code) (msg : string)
    : ServerReactorOption :=
  {| Reactor_ := errorInjectionReactor.React (errorInjectionReactor.mk msg code);
     FuncName := funcName |}.

(** ** Setting the package variable [minAckDeadlineSecs] *)

(** The conversion [int32(x)] of an [int64] keeps the low 32 bits. *)
Definition int32 (z : Z) : Z := (z + 2 ^ 31) mod 2 ^ 32 - 2 ^ 31.

(** [SetMinAckDeadline] changes the minack deadline to [n]: the result is
    the new value of the variable, [None] the panic. *)
Definition SetMinAckDeadline (n : time.Duration) : option Z :=
  if bool_decide (n < time.Second) then None
  else Some (int32 (n `quot` time.Second)).

(** [ResetMinAckDeadline] resets the minack deadline to the default. *)
Definition ResetMinAckDeadline : Z := 10.

(** ** The test API of [Server] *)

Module Server.
(** What [Messages] and [Message] do to a message before they hand it out:
    the exported counters and the exported audit log are refreshed from the
    internal ones. *)
Definition export (m : Message.t) : Message.t :=
  Message.mk (Message.PublishTime m) (Message.Attributes m) (Message.ID m)
    (Message.OrderingKey m) (Message.modacks m) (Message.modacks m) (Message.Data m)
    (Message.acks m) (Message.deliveries m) (Message.acks m) (Message.deliveries m).

(** [Messages] returns information about all messages ever published: the
    pointers of the history, after refreshing the object behind each. *)
Definition Messages (s : GServer.t) : GServer.t * list ptr :=
  (GServer.set_msgObjs
     (foldl (λ objs m, alter export m objs) (GServer.msgObjs s) (GServer.msgs s)) s,
   GServer.msgs s).

(** [Message] returns the message with the given ID, or nil if no message
    with that ID was published. *)
Definition Message (id : string) (s : GServer.t) : GServer.t * option ptr :=
  match GServer.msgsByID s !! id with
  | Some m => (GServer.set_msgObjs (alter export m (GServer.msgObjs s)) s, Some m)
  | None => (s, None)
  end.

(** The byte of the slash. *)
Definition slash : Ascii.ascii := Ascii.ascii_of_nat 47.

(** [path.Match("projects/*/topics/*", name)]: a star matches any sequence
    of characters other than the slash.  [stripPrefix] matches a chunk
    without stars at the head of the name, [starThen] a star followed by
    such a chunk. *)
Fixpoint stripPrefix (chunk name : string) : option string :=
  match chunk, name with
  | EmptyString, _ => Some name
  | String a chunk, String b name =>
      if Ascii.eqb a b then stripPrefix chunk name else None
  | String _ _, EmptyString => None
  end.

Fixpoint starThen (chunk name : string) : option string :=
  match stripPrefix chunk name with
  | Some rest => Some rest
  | None =>
      match name with
      | String c name => if Ascii.eqb c slash then None else starThen chunk name
      | EmptyString => None
      end
  end.

Fixpoint hasSlash (name : string) : bool :=
  match name with
  | EmptyString => false
  | String c name => Ascii.eqb c slash || hasSlash name
  end.

Definition matchTopicPattern (name : string) : bool :=
  match stripPrefix "projects/" name ≫= starThen "/topics/" with
  | Some rest => negb (hasSlash rest)
  | None => false
  end.

(** [PublishOrdered] behaves as if the Publish RPC was called with a message
    with the given data, attrs and ordering key, and returns the ID of the
    message.  The topic will be created if it doesn't exist.  [None] is a
    panic. *)
Definition PublishOrdered (topic : string) (data : list Byte.byte)
    (attrs : gmap string string) (orderingKey : string) (s : GServer.t)
    : option (GServer.t * string) :=
  if negb (matchTopicPattern topic) then None
  else
    match GServer.CreateTopic (pb.Topic.mk topic ∅ None) s with
    | GServer.Panic => None
    | GServer.Return s _ _ =>
        let req :=
          pb.PublishRequest.mk topic [pb.PubsubMessage.mk data attrs "" None orderingKey] in
        match GServer.Publish req s with
        | GServer.Return s res None =>
            res ← res;
            id ← pb.PublishResponse.MessageIds res !! 0%nat;
            Some (s, id)
        | _ => None
        end
    end.

Definition Publish (topic : string) (data : list Byte.byte)
    (attrs : gmap string string) (s : GServer.t) : option (GServer.t * string) :=
  PublishOrdered topic data attrs "" s.

(** [Close] shuts down the server and releases all resources: once the gRPC
    server, which holds none of this state, is closed, every subscription
    the server knows by name is stopped.  [None] is the panic of closing a
    closed channel. *)
Definition Close (s : GServer.t) : option GServer.t :=
  objs ← foldr (λ p acc,
                  objs ← acc;
                  sub ← objs !! p;
                  sub ← subscription.stop sub;
                  Some (<[p := sub]> objs))
               (Some (GServer.subObjs s)) (map_to_list (GServer.subs s)).*2;
  Some (GServer.set_subObjs objs s).
End Server.

(** ** Runs of the server

    The operations that change the state of one server, as they interleave
    under its lock.  Read-only calls (Get, List) are left out.  The current
    value of the package variable [minAckDeadlineSecs] is an input of the
    operations that read it. *)

Inductive Op :=
| OpSetTimeNowFunc (f : nat → time.Time)
| OpSetStreamTimeout (d : time.Duration)
| OpClearMessages
| OpCreateTopic (t_ : pb.Topic.t)
| OpUpdateTopic (req : pb.UpdateTopicRequest.t)
| OpDeleteTopic (req : pb.DeleteTopicRequest.t)
| OpCreateSubscription (minAckDeadlineSecs : Z) (ps : pb.Subscription.t)
| OpUpdateSubscription (minAckDeadlineSecs : Z) (req : pb.UpdateSubscriptionRequest.t)
| OpDeleteSubscription (req : pb.DeleteSubscriptionRequest.t)
| OpDetachSubscription (req : pb.DetachSubscriptionRequest.t)
| OpPublish (req : pb.PublishRequest.t)
| OpAcknowledge (req : pb.AcknowledgeRequest.t)
| OpModifyAckDeadline (wallNow : time.Time) (req : pb.ModifyAckDeadlineRequest.t)
| OpPull (req : pb.PullRequest.t) (order : list string)
| OpPullRetry (sub : ptr) (max : Z) (order : list string)
| OpSeek (req : pb.SeekRequest.t)
| OpNewStream (sub : ptr)
| OpStreamRequest (st : ptr) (req : pb.StreamingPullRequest.t)
| OpCloseStream (st : ptr)
| OpDeleteStream (st : ptr)
| OpDeliver (sub : ptr) (order : list string) (chans : list (bool * bool)).

(** What the outside sees of one operation. *)
Inductive Obs :=
| Quiet
| Returned (err : option status.Status)
| Published (resp : option pb.PublishResponse.t) (err : option status.Status)
| Pulled (r : GServer.pulled)
| Repulled (resp : pb.PullResponse.t)
| Opened (st : ptr)
| Sent (l : list (ptr * pb.ReceivedMessage.t)).

Definition returned {R} (o : GServer.outcome R) : option (GServer.t * Obs) :=
  match o with
  | GServer.Return s _ err => Some (s, Returned err)
  | GServer.Panic => None
  end.

(** One operation; [None] is a panic, which ends the run. *)
Definition step (op : Op) (s : GServer.t) : option (GServer.t * Obs) :=
  match op with
  | OpSetTimeNowFunc f => Some (GServer.SetTimeNowFunc f s, Quiet)
  | OpSetStreamTimeout d => Some (GServer.SetStreamTimeout d s, Quiet)
  | OpClearMessages => Some (GServer.ClearMessages s, Quiet)
  | OpCreateTopic t_ => returned (GServer.CreateTopic t_ s)
  | OpUpdateTopic req => returned (GServer.UpdateTopic req s)
  | OpDeleteTopic req => returned (GServer.DeleteTopic req s)
  | OpCreateSubscription n ps => returned (GServer.CreateSubscription n ps s)
  | OpUpdateSubscription n req => returned (GServer.UpdateSubscription n req s)
  | OpDeleteSubscription req => returned (GServer.DeleteSubscription req s)
  | OpDetachSubscription req => returned (GServer.DetachSubscription req s)
  | OpPublish req =>
      match GServer.Publish req s with
      | GServer.Return s resp err => Some (s, Published resp err)
      | GServer.Panic => None
      end
  | OpAcknowledge req => returned (GServer.Acknowledge req s)
  | OpModifyAckDeadline wallNow req => returned (GServer.ModifyAckDeadline wallNow req s)
  | OpPull req order =>
      r ← GServer.pullFirst req order s; Some (r.1, Pulled r.2)
  | OpPullRetry sub max order =>
      r ← GServer.pullRetry sub max order s; Some (r.1, Repulled r.2)
  | OpSeek req => returned (GServer.Seek req s)
  | OpNewStream sub =>
      r ← GServer.newStream sub s; Some (r.1, Opened r.2)
  | OpStreamRequest st req =>
      s ← GServer.handleStreamingPullRequest st req s; Some (s, Quiet)
  | OpCloseStream st => Some (GServer.closeStream st s, Quiet)
  | OpDeleteStream st =>
      s ← GServer.deleteStream st s; Some (s, Quiet)
  | OpDeliver sub order chans =>
      r ← GServer.deliver sub order chans s; Some (r.1, Sent r.2)
  end.

(** A run: the operations in order, with what each showed. *)
Fixpoint run (ops : list Op) (s : GServer.t) : option (GServer.t * list Obs) :=
  match ops with
  | [] => Some (s, [])
  | op :: ops =>
      r ← step op s;
      r' ← run ops r.1;
      Some (r'.1, r.2 :: r'.2)
  end.

(** The number of messages the publish requests of a run carry. *)
Fixpoint published (ops : list Op) : Z :=
  match ops with
  | [] => 0
  | OpPublish req :: ops =>
      Z.of_nat (length (pb.PublishRequest.Messages req)) + published ops
  | _ :: ops => published ops
  end.

(** The message identifiers the successful publish calls of a run returned,
    in order. *)
Fixpoint publishedIDs (obs : list Obs) : list string :=
  match obs with
  | [] => []
  | Published (Some resp) None :: obs =>
      pb.PublishResponse.MessageIds resp ++ publishedIDs obs
  | _ :: obs => publishedIDs obs
  end.

(** The messages an operation handed to a consumer, through a pull or
    through a stream, and their ack ids. *)
Definition delivered (o : Obs) : list pb.ReceivedMessage.t :=
  match o with
  | Pulled (GServer.Answered (Some resp) _) => pb.PullResponse.ReceivedMessages resp
  | Repulled resp => pb.PullResponse.ReceivedMessages resp
  | Sent l => l.*2
  | _ => []
  end.

Definition deliveredIDs (o : Obs) : list string :=
  pb.ReceivedMessage.AckId <$> delivered o.

(** ** A small scenario

    A server with a clock that starts at hour 1000 and advances by one
    nanosecond per reading, one topic "t", one subscription "s" on it, and
    two published messages. *)

Module demo.
Definition clk (n : nat) : time.Time := Z.of_nat n + 1000 * time.Hour.

Definition s0 : GServer.t := GServer.NewServer clk [].

(** The state a run ends in (the start state when it panics). *)
Definition after (ops : list Op) (s : GServer.t) : GServer.t :=
  match run ops s with
  | Some (s', _) => s'
  | None => s
  end.

(** What a run showed (nothing when it panics). *)
Definition shown (ops : list Op) (s : GServer.t) : list Obs :=
  default [] (snd <$> run ops s).

Definition topicT : pb.Topic.t := pb.Topic.mk "t" ∅ None.

(** A subscription request on "t" that sets only the ack deadline. *)
Definition subS (ads : Z) : pb.Subscription.t :=
  pb.Subscription.mk "s" "t" None ads false None ∅ None None None "".

Definition hello : pb.PubsubMessage.t :=
  pb.PubsubMessage.mk [Byte.x68; Byte.x69] ∅ "" None "".

Definition setup : list Op :=
  [OpCreateTopic topicT; OpCreateSubscription 10 (subS 10)].

Definition withTopic : GServer.t := after [OpCreateTopic topicT] s0.
Definition withSub : GServer.t := after setup s0.
Definition publish2 : Op := OpPublish (pb.PublishRequest.mk "t" [hello; hello]).

Definition withMsgs : GServer.t := after (setup ++ [publish2]) s0.

Definition pull10 : Op := OpPull (pb.PullRequest.mk "s" true 10) ["m0"; "m1"].

(** A clock that jumps ahead by eleven minutes after [k] readings. *)
Definition jump (k n : nat) : time.Time :=
  if (n <? k)%nat then clk n else clk n + 11 * time.Minute.

(** Two messages published, then eleven minutes pass. *)
Definition stale : GServer.t :=
  after (setup ++ [publish2]) (GServer.NewServer (jump 2) []).

(** Two messages published and pulled, then eleven minutes pass. *)
Definition leasedStale : GServer.t :=
  after (setup ++ [publish2; pull10]) (GServer.NewServer (jump 3) []).

(** Acknowledging the first message, and giving up the leases of both. *)
Definition ack0 : Op := OpAcknowledge (pb.AcknowledgeRequest.mk "s" ["m0"]).
Definition nack01 : Op :=
  OpModifyAckDeadline (clk 5) (pb.ModifyAckDeadlineRequest.mk "s" ["m0"; "m1"] 0).

(** The subscription object of the scenario. *)
Definition subOf (s : GServer.t) : subscription.t :=
  default (subscription.newSubscription 0 clk (subS 10)) (GServer.subObjs s !! 0%nat).
End demo.

(** ** More scenarios *)

Module scene.
(** A reactor that passes every call on. *)
Definition declining : Reactor := λ _, (false, None, None).

Definition boom : ServerReactorOption :=
  WithErrorInjection "Publish" codes.Internal "boom".

(** A server whose Publish asks a declining reactor, then an injected
    error. *)
Definition faulty : GServer.t :=
  GServer.NewServer demo.clk [{| Reactor_ := declining; FuncName := "Publish" |}; boom].

(** A server whose Publish fails with an injected error. *)
Definition injected : GServer.t := GServer.NewServer demo.clk [boom].

Definition labelled : pb.Topic.t := pb.Topic.mk "t" {["env" := "test"]} None.

Definition path : string := "projects/p/topics/t".

(** The pending entry of the subscription of the scenario under [id]. *)
Definition entry (id : string) (s : GServer.t) : message.t :=
  default (message.mk (pb.ReceivedMessage.mk id None) 0 0 0%nat 0%nat 0)
    (subscription.msgs (demo.subOf s) !! id).

(** The message that entry carries. *)
Definition carried (id : string) (s : GServer.t) : pb.PubsubMessage.t :=
  default demo.hello (pb.ReceivedMessage.Message (message.proto (entry id s))).

(** Two messages published and pulled. *)
Definition leased : GServer.t :=
  demo.after (demo.setup ++ [demo.publish2; demo.pull10]) demo.s0.

(** Two messages published, one stream open. *)
Definition streaming : GServer.t :=
  demo.after (demo.setup ++ [demo.publish2; OpNewStream 0]) demo.s0.

(** What CreateSubscription stores for the request of the scenario. *)
Definition stored : pb.Subscription.t :=
  pb.Subscription.set_PushConfig (Some pb.PushConfig.empty)
    (pb.Subscription.set_MessageRetentionDuration
       (Some defaultMessageRetentionDuration) (demo.subS 10)).
End scene.

(** * Predicates of the properties *)

(** No reactor is registered for the function [f]. *)
Definition unreacted (s : GServer.t) (f : string) : Prop :=
  GServer.reactorOptions s !! f = None.

(** There is an entry at [id] and it has no message. *)
Definition nilAt (id : string) (sub : subscription.t) : Prop :=
  ∃ e, subscription.msgs sub !! id = Some e
       ∧ pb.ReceivedMessage.Message (message.proto e) = None.

(** What [topic.publish] does to one subscription. *)
Definition published_to (pm : pb.PubsubMessage.t) (m : ptr) (M : Message.t)
    (s : subscription.t) : subscription.t :=
  subscription.set_msgs
    (<[pb.PubsubMessage.MessageId pm :=
         message.mk (pb.ReceivedMessage.mk (pb.PubsubMessage.MessageId pm) (Some pm))
           (Message.PublishTime M) time.zero m m (-1)]>
       (subscription.msgs s)) s.

(** The [Message] Publish creates for the request message [pm] at the
    counter value [n] and the time [t]. *)
Definition newMessage (t : time.Time) (n : Z) (pm : pb.PubsubMessage.t) : Message.t :=
  Message.mk t (pb.PubsubMessage.Attributes pm) (GServer.messageID n)
    (pb.PubsubMessage.OrderingKey pm) [] [] (pb.PubsubMessage.Data pm) 0 0 0 0.

(** The request message as the pending entries hold it. *)
Definition stamped (t : time.Time) (n : Z) (pm : pb.PubsubMessage.t) : pb.PubsubMessage.t :=
  pb.PubsubMessage.set_PublishTime (Some (timestamppb.New t))
    (pb.PubsubMessage.set_MessageId (GServer.messageID n) pm).

(** The state after one round of the loop of Publish, spelled out. *)
Definition publishedOne (pm : pb.PubsubMessage.t) (t_ : topic.t) (s : GServer.t)
    : GServer.t :=
  let n := GServer.nextID s in
  let t := GServer.timeNowFunc s (GServer.clock s) in
  let m := length (GServer.msgObjs s) in
  let M := newMessage t n pm in
  GServer.mk (GServer.topics s) (GServer.subs s) (GServer.reactorOptions s)
    (<[GServer.messageID n := m]> (GServer.msgsByID s)) (GServer.timeNowFunc s)
    (GServer.msgs s ++ [m]) (incr n) (GServer.streamTimeout s)
    (GServer.msgObjs s ++ [M])
    (topic.publish (stamped t n pm) m M t_ (GServer.subObjs s))
    (GServer.topicObjs s) (GServer.streamObjs s) (S (GServer.clock s)).

(** Two entries that differ at most in lease and stream index. *)
Definition same_core (e e' : message.t) : Prop :=
  message.proto e = message.proto e'
  ∧ message.publishTime e = message.publishTime e'
  ∧ message.deliveries e = message.deliveries e'
  ∧ message.acks e = message.acks e'.

(** Every pending entry of [sub'] is an entry of [sub], up to lease and
    stream index: [sub'] has lost entries or changed leases, nothing else. *)
Definition shrinks (sub sub' : subscription.t) : Prop :=
  ∀ k e', subscription.msgs sub' !! k = Some e' →
          ∃ e, subscription.msgs sub !! k = Some e ∧ same_core e e'.

(** The arena [objs'] holds the messages of [objs] with the same ids and
    publish times (counters and audit logs may differ). *)
Definition keeps (objs objs' : list Message.t) : Prop :=
  length objs' = length objs
  ∧ ∀ p M', objs' !! p = Some M' →
            ∃ M, objs !! p = Some M
                 ∧ Message.ID M' = Message.ID M
                 ∧ Message.PublishTime M' = Message.PublishTime M.

(** The protos in [l] are protos of pending entries of [sub] that carry
    their message. *)
Definition from_entries (sub : subscription.t) (l : list pb.ReceivedMessage.t) : Prop :=
  ∀ r, r ∈ l →
       ∃ k e, subscription.msgs sub !! k = Some e
              ∧ message.proto e = r
              ∧ is_Some (pb.ReceivedMessage.Message r).

(** The protos in [l] are protos of pending entries of [sub]. *)
Definition protos_of (sub : subscription.t) (l : list pb.ReceivedMessage.t) : Prop :=
  ∀ r, r ∈ l → ∃ k e, subscription.msgs sub !! k = Some e ∧ message.proto e = r.

(** A pending entry under the key [k] and the arena of messages agree: the
    entry points at one message, the key and the ack id are the id of that
    message, the publish times agree, and the message the entry carries, if
    any, bears the same id and time. *)
Definition entry_wf (objs : list Message.t) (k : string) (e : message.t) : Prop :=
  message.deliveries e = message.acks e
  ∧ k = GServer.messageID (Z.of_nat (message.acks e))
  ∧ pb.ReceivedMessage.AckId (message.proto e) = k
  ∧ (∃ M, objs !! message.acks e = Some M
          ∧ Message.PublishTime M = message.publishTime e)
  ∧ (∀ pm, pb.ReceivedMessage.Message (message.proto e) = Some pm →
           pb.PubsubMessage.MessageId pm = k
           ∧ timestamppb.AsTime (pb.PubsubMessage.PublishTime pm) = message.publishTime e).

(** The invariant of the states of a server: the counter is the number of
    messages ever published, the message at address [p] has the id of the
    counter value [p], every pending entry agrees with the arena, and the
    history points into the arena. *)
Record WF (s : GServer.t) : Prop := {
  wf_nextID : GServer.nextID s = Z.of_nat (length (GServer.msgObjs s));
  wf_ids : ∀ p M, GServer.msgObjs s !! p = Some M →
                  Message.ID M = GServer.messageID (Z.of_nat p);
  wf_entries : ∀ q sub k e,
      GServer.subObjs s !! q = Some sub → subscription.msgs sub !! k = Some e →
      entry_wf (GServer.msgObjs s) k e;
  wf_history : ∀ p, p ∈ GServer.msgs s → (p < length (GServer.msgObjs s))%nat;
}.

(** The entry the second loop of Seek writes for the message [M] at [m]. *)
Definition reinserted (m : ptr) (M : Message.t) : message.t :=
  message.mk (pb.ReceivedMessage.mk (Message.ID M) None)
    (Message.PublishTime M) time.zero m m (-1).

(** What every operation other than Publish and Seek guarantees, with [l]
    the messages it handed out: the arena of messages is kept, the counter
    and the history do not grow, every subscription object is a shrunk
    version of what it was or a new object with nothing pending, every name
    is bound to the object it was bound to or to a new one, what was handed
    out are pending entries that carry their message, and no subscription
    object goes away. *)
Definition evolves (s s' : GServer.t) (l : list pb.ReceivedMessage.t) : Prop :=
  keeps (GServer.msgObjs s) (GServer.msgObjs s')
  ∧ GServer.nextID s' = GServer.nextID s
  ∧ (∀ h, h ∈ GServer.msgs s' → h ∈ GServer.msgs s)
  ∧ (∀ q sub', GServer.subObjs s' !! q = Some sub' →
               (∃ sub, GServer.subObjs s !! q = Some sub ∧ shrinks sub sub')
               ∨ ((length (GServer.subObjs s) ≤ q)%nat ∧ subscription.msgs sub' = ∅))
  ∧ (∀ name q, GServer.subs s' !! name = Some q →
               GServer.subs s !! name = Some q ∨ (length (GServer.subObjs s) ≤ q)%nat)
  ∧ (∀ r, r ∈ l → ∃ q sub, GServer.subObjs s !! q = Some sub ∧ from_entries sub [r])
  ∧ (length (GServer.subObjs s) ≤ length (GServer.subObjs s'))%nat.

(** The id [id] has been given to a message of the arena. *)
Definition assigned (id : string) (s : GServer.t) : Prop :=
  ∃ n, (n < length (GServer.msgObjs s))%nat ∧ id = GServer.messageID (Z.of_nat n).

(** Nothing pending under [id] in [sub] carries a message. *)
Definition clean (id : string) (sub : subscription.t) : Prop :=
  ∀ e, subscription.msgs sub !! id = Some e →
       pb.ReceivedMessage.Message (message.proto e) = None.

(** What every operation guarantees, Publish and Seek included: no message
    and no subscription object goes away, every pending entry of [s'] is an
    entry the same object had in [s] (up to lease and stream index), or
    carries no message, or is under the id of a counter value [s] had not
    reached, and every name is bound to the object it was bound to or to a
    new one. *)
Definition advances (s s' : GServer.t) : Prop :=
  (length (GServer.msgObjs s) ≤ length (GServer.msgObjs s'))%nat
  ∧ (length (GServer.subObjs s) ≤ length (GServer.subObjs s'))%nat
  ∧ (∀ q sub' k e',
       GServer.subObjs s' !! q = Some sub' → subscription.msgs sub' !! k = Some e' →
       (∃ sub e, GServer.subObjs s !! q = Some sub
                 ∧ subscription.msgs sub !! k = Some e ∧ same_core e e')
       ∨ pb.ReceivedMessage.Message (message.proto e') = None
       ∨ ∃ n, (length (GServer.msgObjs s) ≤ n)%nat
              ∧ k = GServer.messageID (Z.of_nat n))
  ∧ (∀ name q, GServer.subs s' !! name = Some q →
               GServer.subs s !! name = Some q ∨ (length (GServer.subObjs s) ≤ q)%nat).

(** The subscription objects a topic publishes to. *)
Definition fedBy (t_ : topic.t) (q : ptr) : Prop :=
  q ∈ (map_to_list (topic.subs t_)).*2.

#[global] Instance fedBy_dec t_ q : Decision (fedBy t_ q).
Proof. unfold fedBy. apply _. Defined.

(** The pending entry [topic.publish] writes for the [i]-th message of a
    request, published at the counter value [n] by a server that had read
    its clock [c] times and held [m] messages. *)
Definition freshEntry (timeNow : nat → time.Time) (n : Z) (c m i : nat)
    (pm : pb.PubsubMessage.t) : message.t :=
  let t := timeNow (c + i)%nat in
  message.mk
    (pb.ReceivedMessage.mk (GServer.messageID (n + Z.of_nat i))
       (Some (stamped t (n + Z.of_nat i) pm)))
    t time.zero (m + i) (m + i) (-1).

(** Two states of a subscription object with the same settings: only the
    pending messages and the list of streams may differ. *)
Definition same_settings (sub sub' : subscription.t) : Prop :=
  subscription.proto sub' = subscription.proto sub
  ∧ subscription.done sub' = subscription.done sub
  ∧ subscription.topic sub' = subscription.topic sub
  ∧ subscription.timeNowFunc sub' = subscription.timeNowFunc sub
  ∧ subscription.ackTimeout sub' = subscription.ackTimeout sub.

(** The operation that led from [s] to [s'] has changed neither the names
    nor the topics, and has kept the settings of every subscription. *)
Definition frames (s s' : GServer.t) : Prop :=
  GServer.topics s' = GServer.topics s
  ∧ GServer.subs s' = GServer.subs s
  ∧ GServer.topicObjs s' = GServer.topicObjs s
  ∧ length (GServer.subObjs s') = length (GServer.subObjs s)
  ∧ ∀ q sub, GServer.subObjs s !! q = Some sub →
             ∃ sub', GServer.subObjs s' !! q = Some sub' ∧ same_settings sub sub'.

(** The invariant that ties the names of a server to its objects: a topic
    name is bound to a topic object that bears that name; a subscription name is not empty and is
    bound to a running subscription object that bears that name and points
    at a topic object; and a topic lists a subscription under the name the
    server knows it by, the subscription pointing back at the topic. *)
Record Linked (s : GServer.t) : Prop := {
  lk_topics : ∀ n tp,
    GServer.topics s !! n = Some tp →
    ∃ t_, GServer.topicObjs s !! tp = Some t_ ∧ pb.Topic.Name (topic.proto t_) = n;
  lk_named : GServer.subs s !! "" = None;
  lk_subs : ∀ name p,
    GServer.subs s !! name = Some p →
    ∃ sub, GServer.subObjs s !! p = Some sub
           ∧ pb.Subscription.Name (subscription.proto sub) = name
           ∧ subscription.done sub = false
           ∧ is_Some (GServer.topicObjs s !! subscription.topic sub);
  lk_attached : ∀ tp t_ name p,
    GServer.topicObjs s !! tp = Some t_ → topic.subs t_ !! name = Some p →
    GServer.subs s !! name = Some p
    ∧ ∃ sub, GServer.subObjs s !! p = Some sub ∧ subscription.topic sub = tp;
}.

(** Some topic the server knows by name publishes to the subscription
    object [p]. *)
Definition fed (s : GServer.t) (p : ptr) : Prop :=
  ∃ n tp t_, GServer.topics s !! n = Some tp
             ∧ GServer.topicObjs s !! tp = Some t_
             ∧ fedBy t_ p.

(** Every pending entry of the object [p] in [s'] that carries a message is
    an entry the object had in [s], up to lease and stream index. *)
Definition backlog (p : ptr) (s s' : GServer.t) : Prop :=
  ∀ sub' k e',
    GServer.subObjs s' !! p = Some sub' → subscription.msgs sub' !! k = Some e' →
    (∃ sub e, GServer.subObjs s !! p = Some sub
              ∧ subscription.msgs sub !! k = Some e ∧ same_core e e')
    ∨ pb.ReceivedMessage.Message (message.proto e') = None.

(** What no operation changes in a subscription object: its name, its
    topic, its clock and its lease time. *)
Definition rooted (sub sub' : subscription.t) : Prop :=
  pb.Subscription.Name (subscription.proto sub')
  = pb.Subscription.Name (subscription.proto sub)
  ∧ subscription.topic sub' = subscription.topic sub
  ∧ subscription.timeNowFunc sub' = subscription.timeNowFunc sub
  ∧ subscription.ackTimeout sub' = subscription.ackTimeout sub.

(** * Properties *)

(** ** Reactors that do not take part *)

Lemma runReactor_unreacted s req f d :
  unreacted s f → GServer.runReactor s req f d = (false, None, None).
Proof. unfold unreacted, GServer.runReactor. by intros ->. Qed.

Lemma reacting_unreacted {R} (cast : any → option R) s req f d k :
  unreacted s f →
  GServer.reacting cast (GServer.runReactor s req f d) s k = k.
Proof. intros H. by rewrite (runReactor_unreacted _ _ _ _ H). Qed.

Lemma NewServer_unreacted timeNow f : unreacted (GServer.NewServer timeNow []) f.
Proof. done. Qed.

(** ** Bounds on the ack deadline *)

Lemma checkAckDeadline_bad minAck ads :
  ads < minAck ∨ 600 < ads →
  checkAckDeadline minAck ads
  = Some (status.Errorf codes.Unknown "bad ack_deadline_seconds: %d" [status.ArgInt ads]).
Proof.
  intros H. unfold checkAckDeadline.
  destruct H; repeat case_bool_decide; simpl; (done || lia).
Qed.

Lemma checkAckDeadline_good minAck ads :
  minAck ≤ ads ≤ 600 → checkAckDeadline minAck ads = None.
Proof.
  intros H. unfold checkAckDeadline.
  repeat case_bool_decide; simpl; (done || lia).
Qed.

(** The loop over the mask paths runs the paths of a prefix first and stops
    at the first error. *)
Lemma updateSubscriptionPaths_app minAck pre post reqSub proto :
  GServer.updateSubscriptionPaths minAck (pre ++ post) reqSub proto
  = match GServer.updateSubscriptionPaths minAck pre reqSub proto with
    | (proto', None) => GServer.updateSubscriptionPaths minAck post reqSub proto'
    | (proto', Some e) => (proto', Some e)
    end.
Proof.
  revert proto. induction pre as [|p pre IH]; intros proto; simpl; [done|].
  repeat (case_match; try done).
Qed.

Lemma updateTopicPaths_app pre post reqTopic proto :
  GServer.updateTopicPaths (pre ++ post) reqTopic proto
  = match GServer.updateTopicPaths pre reqTopic proto with
    | (proto', None) => GServer.updateTopicPaths post reqTopic proto'
    | (proto', Some e) => (proto', Some e)
    end.
Proof.
  revert proto. induction pre as [|p pre IH]; intros proto; simpl; [done|].
  repeat (case_match; try done).
Qed.

Lemma findSubscription_found name p s :
  name ≠ "" → GServer.subs s !! name = Some p →
  GServer.findSubscription name s = inl p.
Proof.
  intros Hn Hp. unfold GServer.findSubscription.
  destruct (String.eqb_spec name ""); [done|]. by rewrite Hp.
Qed.

(** C6. A requested ack deadline outside [minAckDeadlineSecs, 600] is
    reported with the code Unknown, not InvalidArgument: by the check
    itself, by CreateSubscription when the request reaches the check (name
    given and free, topic given and present), and by UpdateSubscription when
    the mask reaches the path ack_deadline_seconds (the paths before it
    applied without error).  700 seconds fails whatever the minimum is, and a
    deadline within the bounds passes the check. *)
Theorem ack_deadline_out_of_bounds_Unknown (minAck ads : Z) :
  let bad :=
    status.Errorf codes.Unknown "bad ack_deadline_seconds: %d" [status.ArgInt ads] in
  (ads < minAck ∨ 600 < ads → checkAckDeadline minAck ads = Some bad)
  ∧ (∀ s ps,
       ads < minAck ∨ 600 < ads →
       unreacted s "CreateSubscription" →
       pb.Subscription.Name ps ≠ "" →
       GServer.subs s !! pb.Subscription.Name ps = None →
       pb.Subscription.Topic ps ≠ "" →
       is_Some (GServer.topics s !! pb.Subscription.Topic ps) →
       pb.Subscription.AckDeadlineSeconds ps = ads →
       GServer.CreateSubscription minAck ps s = GServer.Return s None (Some bad))
  ∧ (∀ s reqSub p sub pre post proto',
       ads < minAck ∨ 600 < ads →
       unreacted s "UpdateSubscription" →
       pb.Subscription.Name reqSub ≠ "" →
       GServer.subs s !! pb.Subscription.Name reqSub = Some p →
       GServer.subObjs s !! p = Some sub →
       GServer.updateSubscriptionPaths minAck pre reqSub (subscription.proto sub)
       = (proto', None) →
       pb.Subscription.AckDeadlineSeconds reqSub = ads →
       ∃ s',
         GServer.UpdateSubscription minAck
           (pb.UpdateSubscriptionRequest.mk (Some reqSub)
              (Some (pb.FieldMask.mk (pre ++ "ack_deadline_seconds" :: post)))) s
         = GServer.Return s' None (Some bad))
  ∧ (minAck ≤ ads ≤ 600 → checkAckDeadline minAck ads = None)
  ∧ status.Code <$> checkAckDeadline minAck 700 = Some codes.Unknown.
Proof.
  intros bad. split_and!.
  - apply checkAckDeadline_bad.
  - intros s ps Hbad Hre Hname Hfree Htopic [top Htop] Hads.
    unfold GServer.CreateSubscription. rewrite reacting_unreacted by done.
    destruct (String.eqb_spec (pb.Subscription.Name ps) ""); [done|].
    rewrite Hfree. rewrite bool_decide_eq_false_2 by (by intros [??]).
    destruct (String.eqb_spec (pb.Subscription.Topic ps) ""); [done|].
    rewrite Htop, Hads, checkAckDeadline_bad by done. done.
  - intros s reqSub p sub pre post proto' Hbad Hre Hname Hp Hsub Hpre Hads.
    unfold GServer.UpdateSubscription; simpl.
    rewrite reacting_unreacted by done.
    rewrite (findSubscription_found _ p), Hsub by done.
    rewrite updateSubscriptionPaths_app, Hpre. simpl.
    rewrite Hads, checkAckDeadline_bad by done. eauto.
  - apply checkAckDeadline_good.
  - rewrite checkAckDeadline_bad by lia. done.
Qed.

Lemma ack_deadline_out_of_bounds_Unknown_witness :
  let bad :=
    status.Errorf codes.Unknown "bad ack_deadline_seconds: %d" [status.ArgInt 700] in
  checkAckDeadline 10 700 = Some bad
  ∧ GServer.CreateSubscription 10 (demo.subS 700) demo.withTopic
    = GServer.Return demo.withTopic None (Some bad)
  ∧ (∃ s',
       GServer.UpdateSubscription 10
         (pb.UpdateSubscriptionRequest.mk (Some (demo.subS 700))
            (Some (pb.FieldMask.mk (["labels"] ++ "ack_deadline_seconds" :: ["filter"]))))
         demo.withSub
       = GServer.Return s' None (Some bad))
  ∧ checkAckDeadline 10 600 = None.
Proof.
  intros bad.
  destruct (ack_deadline_out_of_bounds_Unknown 10 700) as (H1 & H2 & H3 & _ & _).
  destruct (ack_deadline_out_of_bounds_Unknown 10 600) as (_ & _ & _ & H4 & _).
  split_and!.
  - apply H1. lia.
  - apply H2; try done. lia.
  - eapply (H3 demo.withSub (demo.subS 700) 0%nat); try done. lia.
  - apply H4. lia.
Defined.

(** ** Creating a subscription *)

(** The request as CreateSubscription registers it: an omitted retention
    duration becomes the maximum, an omitted push config the empty one. *)
Lemma checkMRD_good d :
  minMessageRetentionDuration ≤ d ≤ maxMessageRetentionDuration →
  checkMRD (Some d) = None.
Proof.
  intros H. unfold checkMRD. simpl.
  repeat case_bool_decide; simpl; (done || lia).
Qed.

Lemma checkMRD_bad pmrd :
  durpb.AsDuration pmrd < minMessageRetentionDuration
  ∨ maxMessageRetentionDuration < durpb.AsDuration pmrd →
  checkMRD pmrd
  = Some (status.Errorf codes.InvalidArgument "bad message_retention_duration %+v"
            [status.ArgDuration pmrd]).
Proof.
  intros H. unfold checkMRD.
  destruct H; repeat case_bool_decide; simpl; (done || lia).
Qed.

Lemma checkMRD_default : checkMRD (Some defaultMessageRetentionDuration) = None.
Proof. done. Qed.

(** C8. CreateSubscription fails with InvalidArgument when the name is
    missing, with AlreadyExists when a subscription of that name exists, with
    InvalidArgument when the topic is missing and with NotFound when the
    named topic does not exist (the checks run in this order).  When the
    request passes the checks, an omitted retention duration is set to the
    maximum (168 hours) and an omitted push config to the empty one, and the
    subscription is registered, under its name and in its topic, with these
    defaults in its proto. *)
Theorem create_subscription_checks_and_defaults (minAck : Z) (s : GServer.t)
    (ps : pb.Subscription.t) :
  unreacted s "CreateSubscription" →
  let name := pb.Subscription.Name ps in
  let tname := pb.Subscription.Topic ps in
  (name = "" →
   GServer.CreateSubscription minAck ps s
   = GServer.fail s codes.InvalidArgument "missing name" [])
  ∧ (name ≠ "" → is_Some (GServer.subs s !! name) →
     GServer.CreateSubscription minAck ps s
     = GServer.fail s codes.AlreadyExists "subscription %q" [status.ArgString name])
  ∧ (name ≠ "" → GServer.subs s !! name = None → tname = "" →
     GServer.CreateSubscription minAck ps s
     = GServer.fail s codes.InvalidArgument "missing topic" [])
  ∧ (name ≠ "" → GServer.subs s !! name = None → tname ≠ "" →
     GServer.topics s !! tname = None →
     GServer.CreateSubscription minAck ps s
     = GServer.fail s codes.NotFound "topic %q" [status.ArgString tname])
  ∧ (∀ top,
       name ≠ "" → GServer.subs s !! name = None → tname ≠ "" →
       GServer.topics s !! tname = Some top →
       minAck ≤ pb.Subscription.AckDeadlineSeconds ps ≤ 600 →
       checkMRD (Some (default defaultMessageRetentionDuration
                         (pb.Subscription.MessageRetentionDuration ps))) = None →
       ∃ s' ps' p sub,
         GServer.CreateSubscription minAck ps s = GServer.ok s' ps'
         ∧ pb.Subscription.MessageRetentionDuration ps'
           = Some (default (durpb.New (168 * time.Hour))
                     (pb.Subscription.MessageRetentionDuration ps))
         ∧ pb.Subscription.PushConfig ps'
           = Some (default pb.PushConfig.empty (pb.Subscription.PushConfig ps))
         ∧ pb.Subscription.Name ps' = name
         ∧ pb.Subscription.Topic ps' = tname
         ∧ pb.Subscription.AckDeadlineSeconds ps' = pb.Subscription.AckDeadlineSeconds ps
         ∧ GServer.subs s' !! name = Some p
         ∧ GServer.subObjs s' !! p = Some sub
         ∧ subscription.proto sub = ps'
         ∧ subscription.topic sub = top
         ∧ subscription.msgs sub = ∅
         ∧ (topic.subs <$> GServer.topicObjs s' !! top)
           = ((λ t_, <[name := p]> (topic.subs t_)) <$> GServer.topicObjs s !! top)).
Proof.
  intros Hre name tname. subst name tname.
  unfold GServer.CreateSubscription. rewrite reacting_unreacted by done.
  split_and!.
  - intros ->. done.
  - intros Hn Hex. destruct (String.eqb_spec (pb.Subscription.Name ps) ""); [done|].
    by rewrite bool_decide_eq_true_2.
  - intros Hn Hfree Ht. destruct (String.eqb_spec (pb.Subscription.Name ps) ""); [done|].
    rewrite Hfree, bool_decide_eq_false_2 by (by intros [??]).
    by rewrite Ht.
  - intros Hn Hfree Ht Htop.
    destruct (String.eqb_spec (pb.Subscription.Name ps) ""); [done|].
    rewrite Hfree, bool_decide_eq_false_2 by (by intros [??]).
    destruct (String.eqb_spec (pb.Subscription.Topic ps) ""); [done|].
    by rewrite Htop.
  - intros top Hn Hfree Ht Htop Hads Hmrd.
    destruct (String.eqb_spec (pb.Subscription.Name ps) ""); [done|].
    rewrite Hfree, bool_decide_eq_false_2 by (by intros [??]).
    destruct (String.eqb_spec (pb.Subscription.Topic ps) ""); [done|].
    rewrite Htop, checkAckDeadline_good by done.
    destruct ps as [nm tp pc ads ram mrd lab ep dlp rp fil]; simpl in *.
    destruct mrd as [d|]; simpl in *.
    + rewrite Hmrd. destruct pc as [c|]; simpl.
      all: eexists _, _, _, _; split; [reflexivity|]; simpl.
      all: rewrite lookup_insert_eq, lookup_app_r, Nat.sub_diag by done; simpl.
      all: split_and!; try done.
      all: rewrite list_lookup_alter_eq; by destruct (GServer.topicObjs s !! top).
    + destruct pc as [c|]; simpl.
      all: eexists _, _, _, _; split; [reflexivity|]; simpl.
      all: rewrite lookup_insert_eq, lookup_app_r, Nat.sub_diag by done; simpl.
      all: split_and!; try done.
      all: rewrite list_lookup_alter_eq; by destruct (GServer.topicObjs s !! top).
Qed.

Lemma create_subscription_checks_and_defaults_witness :
  GServer.CreateSubscription 10 (pb.Subscription.mk "" "t" None 10 false None ∅ None None None "")
    demo.withTopic
  = GServer.fail demo.withTopic codes.InvalidArgument "missing name" []
  ∧ GServer.CreateSubscription 10 (demo.subS 10) demo.withSub
    = GServer.fail demo.withSub codes.AlreadyExists "subscription %q" [status.ArgString "s"]
  ∧ GServer.CreateSubscription 10 (demo.subS 10) demo.s0
    = GServer.fail demo.s0 codes.NotFound "topic %q" [status.ArgString "t"]
  ∧ ∃ s' ps',
      GServer.CreateSubscription 10 (demo.subS 10) demo.withTopic = GServer.ok s' ps'
      ∧ pb.Subscription.MessageRetentionDuration ps' = Some (168 * time.Hour)
      ∧ pb.Subscription.PushConfig ps' = Some pb.PushConfig.empty.
Proof.
  split_and!.
  - by apply (create_subscription_checks_and_defaults 10 demo.withTopic).
  - apply (create_subscription_checks_and_defaults 10 demo.withSub (demo.subS 10)); done.
  - apply (create_subscription_checks_and_defaults 10 demo.s0 (demo.subS 10)); done.
  - destruct (create_subscription_checks_and_defaults 10 demo.withTopic (demo.subS 10))
      as (_ & _ & _ & _ & H); [done|].
    destruct (H 0%nat) as (s' & ps' & p & sub & Hc & Hm & Hp & _); try done.
    exists s', ps'. done.
Defined.

(** ** Modifying the ack deadline of a pending message *)

Lemma modifyAckDeadline_unknown id d s clock :
  subscription.msgs s !! id = None →
  subscription.modifyAckDeadline id d s clock = (s, clock).
Proof. unfold subscription.modifyAckDeadline. by intros ->. Qed.

Lemma modifyAckDeadline_pending id d s clock m :
  subscription.msgs s !! id = Some m →
  subscription.modifyAckDeadline id d s clock
  = if bool_decide (d = 0) then
      (subscription.set_msgs (<[id := message.makeAvailable m]> (subscription.msgs s)) s,
       clock)
    else
      (subscription.set_msgs
         (<[id := message.set_ackDeadline
                    (time.Add (subscription.timeNowFunc s clock) d) m]>
            (subscription.msgs s)) s,
       S clock).
Proof. unfold subscription.modifyAckDeadline. by intros ->. Qed.

(** What the second loop of ModifyAckDeadline leaves in the subscription. *)
Lemma modifyAckDeadline_fold ids d : ∀ sub clock,
  let r :=
    foldl (λ '(sub, clock) id, subscription.modifyAckDeadline id d sub clock)
          (sub, clock) ids in
  (clock ≤ r.2)%nat
  ∧ subscription.timeNowFunc r.1 = subscription.timeNowFunc sub
  ∧ subscription.proto r.1 = subscription.proto sub
  ∧ ∀ id,
      match subscription.msgs sub !! id with
      | None => subscription.msgs r.1 !! id = None
      | Some m =>
          if bool_decide (id ∈ ids) then
            if bool_decide (d = 0) then
              subscription.msgs r.1 !! id = Some (message.makeAvailable m)
            else
              ∃ k, (clock ≤ k < r.2)%nat
                   ∧ subscription.msgs r.1 !! id
                     = Some (message.set_ackDeadline
                               (time.Add (subscription.timeNowFunc sub k) d) m)
          else subscription.msgs r.1 !! id = Some m
      end.
Proof.
  destruct (bool_decide (d = 0)) eqn:Hbd.
  all: induction ids as [|x ids IH] using rev_ind; intros sub clock r.
  all: try (subst r; simpl; split_and!; try done; intros id;
            by destruct (subscription.msgs sub !! id)).
  all: subst r; rewrite foldl_app; simpl.
  all: specialize (IH sub clock); simpl in IH.
  all: destruct (foldl _ (sub, clock) ids) as [sub1 clock1] eqn:Hf; simpl in IH.
  all: destruct IH as (Hc & Ht & Hp & IH).
  all: destruct (subscription.msgs sub1 !! x) as [mx|] eqn:Hx;
    [rewrite (modifyAckDeadline_pending _ _ _ _ _ Hx), Hbd
    |rewrite (modifyAckDeadline_unknown _ _ _ _ Hx)]; simpl.
  all: split_and!; try done; try lia; intros id; pose proof (IH x) as IHx;
    specialize (IH id).
  all: destruct (subscription.msgs sub !! id) as [m|] eqn:Hm;
    [|try (rewrite lookup_insert_ne; [done|]; intros ->; rewrite Hm in IHx; congruence);
      done].
  all: rewrite (bool_decide_ext (id ∈ ids ++ [x]) (id ∈ ids ∨ id = x))
    by (by rewrite elem_of_app, list_elem_of_singleton).
  all: destruct (decide (id = x)) as [->|Hne].
  all: try (rewrite lookup_insert_ne by done).
  all: try (rewrite (bool_decide_ext (id ∈ ids ∨ id = x) (id ∈ ids)) by naive_solver).
  all: try (rewrite (bool_decide_eq_true_2 (x ∈ ids ∨ x = x)) by naive_solver).
  all: try rewrite lookup_insert_eq.
  - case_bool_decide; rewrite Hx in IH; injection IH as ->; by destruct m.
  - done.
  - case_bool_decide; rewrite Hx in IH; congruence.
  - done.
  - exists clock1. split; [lia|]. rewrite Ht.
    case_bool_decide; [destruct IH as (k & _ & IH)|];
      rewrite Hx in IH; injection IH as ->; by destruct m.
  - revert IH. destruct (bool_decide (id ∈ ids)); [|done].
    intros (k & ? & ?). exists k. split; [lia|done].
  - case_bool_decide; [destruct IH as (k & _ & IH)|]; rewrite Hx in IH; congruence.
  - done.
Qed.

Lemma recordModacks_known ids secs now byID : ∀ objs,
  (∀ id, id ∈ ids → is_Some (byID !! id)) →
  ∃ objs', GServer.recordModacks ids secs now byID objs = Some objs'
           ∧ length objs' = length objs.
Proof.
  induction ids as [|id ids IH]; intros objs H; simpl; [eauto|].
  destruct (H id) as [p ->]; [set_solver|]. simpl.
  destruct (IH (alter (Message.append_modack (Modack.mk now id secs)) p objs))
    as (objs' & -> & Hl); [set_solver|].
  exists objs'. split; [done|]. by rewrite Hl, length_alter.
Qed.

(** C7. ModifyAckDeadline on a message that is still pending in an existing
    subscription: with 0 seconds the entry becomes available at once (its
    lease expiry is cleared, so it is no longer outstanding); with d > 0
    seconds its lease expiry becomes the time the subscription's clock shows
    at the call, plus d.  The first part is [subscription.modifyAckDeadline]
    itself, the second the whole call for a request whose ids the server has
    on record ([k] is the clock reading the call made for this id). *)
Theorem modify_ack_deadline_on_pending :
  (∀ id d s clock m,
     subscription.msgs s !! id = Some m →
     let r := subscription.modifyAckDeadline id d s clock in
     (d = 0 →
      subscription.msgs r.1 !! id = Some (message.makeAvailable m)
      ∧ message.outstanding (message.makeAvailable m) = false
      ∧ message.ackDeadline (message.makeAvailable m) = time.zero)
     ∧ (d ≠ 0 →
        subscription.msgs r.1 !! id
        = Some (message.set_ackDeadline
                  (time.Add (subscription.timeNowFunc s clock) d) m)))
  ∧ (∀ wallNow s name ids secs p sub id m,
       unreacted s "ModifyAckDeadline" →
       name ≠ "" →
       GServer.subs s !! name = Some p →
       GServer.subObjs s !! p = Some sub →
       (∀ x, x ∈ ids → is_Some (GServer.msgsByID s !! x)) →
       id ∈ ids →
       subscription.msgs sub !! id = Some m →
       ∃ s' sub' m',
         GServer.ModifyAckDeadline wallNow
           (pb.ModifyAckDeadlineRequest.mk name ids secs) s = GServer.ok s' ()
         ∧ GServer.subObjs s' !! p = Some sub'
         ∧ subscription.msgs sub' !! id = Some m'
         ∧ (secs = 0 →
            m' = message.makeAvailable m ∧ message.outstanding m' = false)
         ∧ (0 < secs →
            ∃ k, (GServer.clock s ≤ k < GServer.clock s')%nat
                 ∧ m' = message.set_ackDeadline
                          (time.Add (subscription.timeNowFunc sub k) (secs * time.Second))
                          m)).
Proof.
  split.
  - intros id d s clock m Hm r. subst r.
    rewrite (modifyAckDeadline_pending _ _ _ _ _ Hm).
    split; intros Hd.
    + rewrite bool_decide_eq_true_2 by done. simpl.
      by rewrite lookup_insert_eq.
    + rewrite bool_decide_eq_false_2 by done. simpl.
      by rewrite lookup_insert_eq.
  - intros wallNow s name ids secs p sub id m Hre Hname Hp Hsub Hknown Hid Hm.
    unfold GServer.ModifyAckDeadline. rewrite reacting_unreacted by done. simpl.
    rewrite (findSubscription_found _ p), Hsub by done.
    destruct (recordModacks_known ids secs wallNow (GServer.msgsByID s)
                (GServer.msgObjs s) Hknown) as (objs' & -> & _).
    pose proof (modifyAckDeadline_fold ids (secsToDur secs) sub (GServer.clock s)) as Hf.
    simpl in Hf.
    destruct (foldl _ (sub, GServer.clock s) ids) as [sub' clock'] eqn:Hfold.
    simpl in Hf. destruct Hf as (Hc & Ht & _ & Hf).
    specialize (Hf id). rewrite Hm in Hf.
    rewrite bool_decide_eq_true_2 in Hf by done.
    assert (GServer.subObjs s !! p = Some sub → (p < length (GServer.subObjs s))%nat)
      as Hlt by apply lookup_lt_Some.
    unfold secsToDur in Hf.
    destruct (decide (secs = 0)) as [->|Hs].
    + simpl in Hf. eexists _, sub', _. split; [reflexivity|]. simpl.
      rewrite list_lookup_insert_eq by auto.
      split_and!; try done.
    + assert (secs * time.Second ≠ 0) as Hne by (unfold time.Second; lia).
      rewrite (bool_decide_eq_false_2 _ Hne) in Hf.
      destruct Hf as (k & Hk & Hf).
      eexists _, sub', _. split; [reflexivity|]. simpl.
      rewrite list_lookup_insert_eq by auto.
      split_and!; try done. intros _. exists k. done.
Qed.

Lemma modify_ack_deadline_on_pending_witness :
  ∃ s' sub' m',
    GServer.ModifyAckDeadline 0 (pb.ModifyAckDeadlineRequest.mk "s" ["m1"] 30) demo.withMsgs
    = GServer.ok s' ()
    ∧ GServer.subObjs s' !! 0%nat = Some sub'
    ∧ subscription.msgs sub' !! "m1" = Some m'
    ∧ message.ackDeadline m' = demo.clk 2 + 30 * time.Second.
Proof.
  destruct modify_ack_deadline_on_pending as [_ H].
  destruct (H 0 demo.withMsgs "s" ["m1"] 30 0%nat
              (default (subscription.newSubscription 0 demo.clk (demo.subS 10))
                 (GServer.subObjs demo.withMsgs !! 0%nat))
              "m1"
              (message.mk
                 (pb.ReceivedMessage.mk "m1"
                    (Some (pb.PubsubMessage.mk [Byte.x68; Byte.x69] ∅ "m1"
                             (Some (demo.clk 1)) "")))
                 (demo.clk 1) 0 1 1 (-1)))
    as (s' & sub' & m' & Hr & Hs & Hm & _ & Hd).
  - reflexivity.
  - discriminate.
  - vm_compute. reflexivity.
  - vm_compute. reflexivity.
  - intros x ->%list_elem_of_singleton. exists 1%nat. vm_compute. reflexivity.
  - by apply list_elem_of_singleton.
  - vm_compute. reflexivity.
  - exists s', sub', m'. split_and!; [exact Hr|exact Hs|exact Hm|].
    destruct Hd as (k & Hk & ->); [reflexivity|].
    assert (GServer.clock s' = 3%nat) as Hc.
    { vm_compute in Hr. by injection Hr as <-. }
    rewrite Hc in Hk. change (GServer.clock demo.withMsgs) with 2%nat in Hk.
    assert (k = 2%nat) as -> by lia. reflexivity.
Defined.

(** ** The maintenance sweep *)

(** The saturation of [time.Sub] does not show in the comparison with the
    retention duration. *)
Lemma Sub_gt_retention now pubTime :
  time.Sub now pubTime > retentionDuration ↔ now - pubTime > retentionDuration.
Proof.
  unfold time.Sub, time.Before, retentionDuration, time.Minute, time.Second,
    minInt64, maxInt64.
  repeat case_bool_decide; lia.
Qed.

Lemma sweep_is_Some now m :
  is_Some (subscription.sweep now m)
  ↔ is_Some (pb.ReceivedMessage.Message (message.proto m)).
Proof.
  unfold subscription.sweep.
  destruct m as [[ackid [pm|]] pt ad dl ac si]; simpl.
  - split; intros _; [by exists pm|].
    destruct (message.outstanding _ && time.After now _); simpl;
      (match goal with |- is_Some (if ?c then _ else _) => destruct c end);
      by eexists.
  - split; intros [? H]; [|done].
    destruct (message.outstanding _ && time.After now _); simpl in H; done.
Qed.

(** The sweep on an entry that carries a message: an entry whose lease has
    not expired is kept as it is; any other entry is dropped when it is
    older than [retentionDuration] and otherwise kept, available. *)
Lemma sweep_spec now m pm :
  pb.ReceivedMessage.Message (message.proto m) = Some pm →
  let age := now - timestamppb.AsTime (pb.PubsubMessage.PublishTime pm) in
  subscription.sweep now m
  = if message.outstanding m && negb (time.After now (message.ackDeadline m))
    then Some (Some m)
    else if bool_decide (age > retentionDuration) then Some None
    else Some (Some (message.makeAvailable m)).
Proof.
  intros Hpm age. subst age. unfold subscription.sweep.
  destruct m as [pr pt ad dl ac si]. simpl in *.
  unfold message.outstanding, message.makeAvailable, message.set_ackDeadline,
    time.IsZero. simpl.
  destruct (bool_decide_reflect (ad = 0)) as [->|Had]; simpl.
  - rewrite Hpm. by rewrite (bool_decide_ext _ _ (Sub_gt_retention _ _)).
  - destruct (time.After now ad) eqn:Haft; simpl; rewrite Hpm; simpl.
    + by rewrite (bool_decide_ext _ _ (Sub_gt_retention _ _)).
    + by rewrite ?bool_decide_eq_false_2 by done.
Qed.

Lemma maintainMessages_total now s :
  (∀ id m, subscription.msgs s !! id = Some m →
           is_Some (pb.ReceivedMessage.Message (message.proto m))) →
  subscription.maintainMessages now s
  = Some (subscription.set_msgs
            (omap (λ m, mjoin (subscription.sweep now m)) (subscription.msgs s)) s).
Proof.
  intros H. unfold subscription.maintainMessages.
  rewrite bool_decide_eq_true_2; [done|].
  intros id m Hm. apply sweep_is_Some. eauto.
Qed.

(** The sweep dereferences the message of every entry: one entry without a
    message and it panics. *)
Lemma maintainMessages_nil now s id m :
  subscription.msgs s !! id = Some m →
  pb.ReceivedMessage.Message (message.proto m) = None →
  subscription.maintainMessages now s = None.
Proof.
  intros Hm Hnil. unfold subscription.maintainMessages.
  rewrite bool_decide_eq_false_2; [done|].
  intros H. specialize (H id m Hm). apply sweep_is_Some in H.
  rewrite Hnil in H. by destruct H.
Qed.

Lemma maintainMessages_inv now s s' :
  subscription.maintainMessages now s = Some s' →
  (∀ id m, subscription.msgs s !! id = Some m →
           is_Some (pb.ReceivedMessage.Message (message.proto m)))
  ∧ s' = subscription.set_msgs
           (omap (λ m, mjoin (subscription.sweep now m)) (subscription.msgs s)) s.
Proof.
  unfold subscription.maintainMessages. case_bool_decide as H; [|done].
  intros [= <-]. split; [|done].
  intros id m Hm. apply (sweep_is_Some now). by apply (H id m).
Qed.

(** C3, as the code has it.  In a subscription whose pending entries all
    carry their message, the sweep completes, and for every pending entry:
    if it is available, or its lease has expired at the sweep, it is removed
    exactly when its age since the publish time of its message exceeds the
    package-level [retentionDuration] of 10 minutes, and is otherwise kept,
    available; if its lease has not expired, it is kept unchanged.  The
    retention duration configured for the subscription plays no part; it is
    accepted exactly within [10 minutes, 168 hours] and its default is the
    maximum. *)
Theorem sweep_purges_after_fixed_retention (now : time.Time) (s : subscription.t)
    (id : string) (m : message.t) (pm : pb.PubsubMessage.t) :
  (∀ k e, subscription.msgs s !! k = Some e →
          is_Some (pb.ReceivedMessage.Message (message.proto e))) →
  subscription.msgs s !! id = Some m →
  pb.ReceivedMessage.Message (message.proto m) = Some pm →
  let age := now - timestamppb.AsTime (pb.PubsubMessage.PublishTime pm) in
  let expired := message.ackDeadline m < now in
  ∃ s',
    subscription.maintainMessages now s = Some s'
    ∧ subscription.proto s' = subscription.proto s
    ∧ (message.outstanding m = false ∨ expired →
       (subscription.msgs s' !! id = None ↔ age > 10 * time.Minute)
       ∧ (age ≤ 10 * time.Minute →
          subscription.msgs s' !! id = Some (message.makeAvailable m)))
    ∧ (message.outstanding m = true → ¬ expired →
       subscription.msgs s' !! id = Some m)
    ∧ (∀ d, checkMRD (Some d) = None ↔ 10 * time.Minute ≤ d ≤ 168 * time.Hour)
    ∧ defaultMessageRetentionDuration = 168 * time.Hour.
Proof.
  intros Hall Hm Hpm age expired.
  eexists. split; [by apply maintainMessages_total|]. simpl.
  split; [done|].
  rewrite lookup_omap, Hm. simpl.
  rewrite (sweep_spec _ _ _ Hpm). fold age.
  unfold retentionDuration, time.After. subst expired.
  split_and!.
  - intros Hav.
    assert (message.outstanding m && negb (bool_decide (message.ackDeadline m < now))
            = false) as ->.
    { destruct Hav as [->|Hexp]; [done|].
      rewrite (bool_decide_eq_true_2 _ Hexp). apply andb_false_r. }
    case_bool_decide; simpl; split; (done || lia).
  - intros Hout Hexp. rewrite Hout, bool_decide_eq_false_2 by done. done.
  - intros d. split.
    + unfold checkMRD, minMessageRetentionDuration, maxMessageRetentionDuration. simpl.
      repeat case_bool_decide; simpl; (done || lia).
    + apply checkMRD_good.
  - done.
Qed.

Lemma sweep_purges_after_fixed_retention_witness :
  ∃ s', subscription.maintainMessages (demo.clk 5) (demo.subOf demo.withMsgs) = Some s'
        ∧ is_Some (subscription.msgs s' !! "m0").
Proof.
  assert (map_Forall (λ _ e, is_Some (pb.ReceivedMessage.Message (message.proto e)))
            (subscription.msgs (demo.subOf demo.withMsgs))) as Hall.
  { apply (bool_decide_unpack _). vm_compute. exact I. }
  destruct (sweep_purges_after_fixed_retention (demo.clk 5) (demo.subOf demo.withMsgs) "m0"
              (message.mk
                 (pb.ReceivedMessage.mk "m0"
                    (Some (pb.PubsubMessage.mk [Byte.x68; Byte.x69] ∅ "m0"
                             (Some (demo.clk 0)) "")))
                 (demo.clk 0) 0 0 0 (-1))
              (pb.PubsubMessage.mk [Byte.x68; Byte.x69] ∅ "m0" (Some (demo.clk 0)) ""))
    as (s' & Hs & _ & Hav & _).
  - exact Hall.
  - vm_compute. reflexivity.
  - reflexivity.
  - exists s'. split; [exact Hs|].
    destruct (Hav (or_introl eq_refl)) as [_ Hk].
    rewrite Hk; [by eexists|]. vm_compute. discriminate.
Defined.

(** The claim as stated fails.  A subscription created with the default
    retention of 168 hours loses an available message that is eleven minutes
    old; and a message that is outstanding when the sweep starts is purged
    by it when its lease has expired. *)
Lemma sweep_ignores_configured_retention :
  (let sub := demo.subOf demo.stale in
   let now := demo.jump 2 2 in
   pb.Subscription.MessageRetentionDuration (subscription.proto sub)
   = Some (168 * time.Hour)
   ∧ ∃ m s',
       subscription.msgs sub !! "m0" = Some m
       ∧ message.outstanding m = false
       ∧ now - message.publishTime m ≤ 168 * time.Hour
       ∧ subscription.maintainMessages now sub = Some s'
       ∧ subscription.msgs s' !! "m0" = None)
  ∧ (let sub := demo.subOf demo.leasedStale in
     let now := demo.jump 3 3 in
     ∃ m s',
       subscription.msgs sub !! "m0" = Some m
       ∧ message.outstanding m = true
       ∧ subscription.maintainMessages now sub = Some s'
       ∧ subscription.msgs s' !! "m0" = None).
Proof.
  split.
  - split; [vm_compute; reflexivity|].
    eexists _, _. split_and!.
    + vm_compute. reflexivity.
    + vm_compute. reflexivity.
    + vm_compute. discriminate.
    + vm_compute. reflexivity.
    + vm_compute. reflexivity.
  - eexists _, _. split_and!.
    + vm_compute. reflexivity.
    + vm_compute. reflexivity.
    + vm_compute. reflexivity.
    + vm_compute. reflexivity.
Qed.

(** ** Field-masked updates *)

Lemma set_topicObjs_id p t_ s :
  GServer.topicObjs s !! p = Some t_ →
  GServer.set_topicObjs (<[p := topic.set_proto (topic.proto t_) t_]> (GServer.topicObjs s)) s
  = s.
Proof.
  intros H. destruct t_. unfold topic.set_proto. simpl.
  rewrite list_insert_id by done. by destruct s.
Qed.

Lemma set_subObjs_id p sub s :
  GServer.subObjs s !! p = Some sub →
  GServer.set_subObjs
    (<[p := subscription.set_proto (subscription.proto sub) sub]> (GServer.subObjs s)) s
  = s.
Proof.
  intros H. destruct sub. unfold subscription.set_proto. simpl.
  rewrite list_insert_id by done. by destruct s.
Qed.

(** A path the loop of UpdateSubscription rejects leaves the proto as it
    is, and the error is InvalidArgument or Unknown. *)
Lemma updateSubscriptionPaths_reject minAck bad reqSub proto proto' e :
  GServer.updateSubscriptionPaths minAck [bad] reqSub proto = (proto', Some e) →
  proto' = proto
  ∧ (status.Code e = codes.InvalidArgument ∨ status.Code e = codes.Unknown).
Proof.
  simpl. unfold checkAckDeadline, checkMRD.
  repeat (case_match; try done); intros [= <- <-]; simplify_eq; auto.
Qed.

(** C4, as the code has it.  When a path of the mask is invalid, the update
    returns the error of the first invalid path; the paths before it have
    been applied to the stored topic or subscription and stay applied, the
    invalid path and those after it are not applied.  So the state is
    unchanged exactly when the paths before the invalid one have written
    only what was stored already, as is the case when the first path of the
    mask is the invalid one. *)
Theorem update_stops_at_first_invalid_path :
  (∀ s reqTopic p t_ pre bad post proto',
     unreacted s "UpdateTopic" →
     GServer.topics s !! pb.Topic.Name reqTopic = Some p →
     GServer.topicObjs s !! p = Some t_ →
     GServer.updateTopicPaths pre reqTopic (topic.proto t_) = (proto', None) →
     bad ≠ "labels" → bad ≠ "message_storage_policy" →
     let s' :=
       GServer.set_topicObjs (<[p := topic.set_proto proto' t_]> (GServer.topicObjs s)) s in
     GServer.UpdateTopic
       (pb.UpdateTopicRequest.mk (Some reqTopic)
          (Some (pb.FieldMask.mk (pre ++ bad :: post)))) s
     = GServer.Return s' None
         (Some (status.Errorf codes.InvalidArgument "unknown field name %q"
                  [status.ArgString bad]))
     ∧ (topic.proto <$> GServer.topicObjs s' !! p) = Some proto'
     ∧ (s' = s ↔ proto' = topic.proto t_)
     ∧ (pre = [] → s' = s))
  ∧ (∀ minAck s reqSub p sub pre bad post proto' proto'' e,
       unreacted s "UpdateSubscription" →
       pb.Subscription.Name reqSub ≠ "" →
       GServer.subs s !! pb.Subscription.Name reqSub = Some p →
       GServer.subObjs s !! p = Some sub →
       GServer.updateSubscriptionPaths minAck pre reqSub (subscription.proto sub)
       = (proto', None) →
       GServer.updateSubscriptionPaths minAck [bad] reqSub proto' = (proto'', Some e) →
       let s' :=
         GServer.set_subObjs
           (<[p := subscription.set_proto proto' sub]> (GServer.subObjs s)) s in
       GServer.UpdateSubscription minAck
         (pb.UpdateSubscriptionRequest.mk (Some reqSub)
            (Some (pb.FieldMask.mk (pre ++ bad :: post)))) s
       = GServer.Return s' None (Some e)
       ∧ (status.Code e = codes.InvalidArgument ∨ status.Code e = codes.Unknown)
       ∧ (subscription.proto <$> GServer.subObjs s' !! p) = Some proto'
       ∧ (s' = s ↔ proto' = subscription.proto sub)
       ∧ (pre = [] → s' = s)).
Proof.
  split.
  - intros s reqTopic p t_ pre bad post proto' Hre Hp Ht Hpre Hb1 Hb2 s'.
    assert (GServer.topicObjs s' !! p = Some (topic.set_proto proto' t_)) as Hs'.
    { subst s'. simpl. rewrite list_lookup_insert_eq; [done|]. by eapply lookup_lt_Some. }
    assert (proto' = topic.proto t_ → s' = s) as Hsame.
    { intros ->. by apply set_topicObjs_id. }
    split_and!.
    + unfold GServer.UpdateTopic. rewrite reacting_unreacted by done. simpl.
      rewrite Hp, Ht, updateTopicPaths_app, Hpre. simpl.
      destruct (String.eqb_spec bad "labels"); [done|].
      destruct (String.eqb_spec bad "message_storage_policy"); [done|]. done.
    + by rewrite Hs'.
    + split; [|done]. intros Heq. rewrite Heq, Ht in Hs'. by injection Hs' as ->.
    + intros ->. simpl in Hpre. injection Hpre as <-. by apply Hsame.
  - intros minAck s reqSub p sub pre bad post proto' proto'' e
      Hre Hname Hp Hsub Hpre Hbad s'.
    destruct (updateSubscriptionPaths_reject _ _ _ _ _ _ Hbad) as [-> Hcode].
    assert (GServer.subObjs s' !! p = Some (subscription.set_proto proto' sub)) as Hs'.
    { subst s'. simpl. rewrite list_lookup_insert_eq; [done|]. by eapply lookup_lt_Some. }
    assert (proto' = subscription.proto sub → s' = s) as Hsame.
    { intros ->. by apply set_subObjs_id. }
    split_and!; [|done| | |].
    + unfold GServer.UpdateSubscription. simpl.
      rewrite reacting_unreacted by done.
      rewrite (findSubscription_found _ p), Hsub by done.
      rewrite updateSubscriptionPaths_app, Hpre.
      change (bad :: post) with ([bad] ++ post).
      by rewrite updateSubscriptionPaths_app, Hbad.
    + by rewrite Hs'.
    + split; [|done]. intros Heq. rewrite Heq, Hsub in Hs'. by injection Hs' as ->.
    + intros ->. simpl in Hpre. injection Hpre as <-. by apply Hsame.
Qed.

Lemma update_stops_at_first_invalid_path_witness :
  (∃ s',
     GServer.UpdateTopic
       (pb.UpdateTopicRequest.mk (Some (pb.Topic.mk "t" {["env" := "test"]} None))
          (Some (pb.FieldMask.mk (["labels"] ++ "bogus" :: ["message_storage_policy"]))))
       demo.withTopic
     = GServer.Return s' None
         (Some (status.Errorf codes.InvalidArgument "unknown field name %q"
                  [status.ArgString "bogus"]))
     ∧ (pb.Topic.Labels ∘ topic.proto <$> GServer.topicObjs s' !! 0%nat)
       = Some {["env" := "test"]}
     ∧ s' ≠ demo.withTopic)
  ∧ (∃ s' e,
       GServer.UpdateSubscription 10
         (pb.UpdateSubscriptionRequest.mk
            (Some (pb.Subscription.mk "s" "t" None 700 true None ∅ None None None "x"))
            (Some (pb.FieldMask.mk
                     (["retain_acked_messages"] ++ "ack_deadline_seconds" :: ["filter"]))))
         demo.withSub
       = GServer.Return s' None (Some e)
       ∧ status.Code e = codes.Unknown
       ∧ (subscription.proto <$> GServer.subObjs s' !! 0%nat)
         = Some (pb.Subscription.set_RetainAckedMessages true
                   (subscription.proto (demo.subOf demo.withSub)))
       ∧ s' ≠ demo.withSub)
  ∧ GServer.UpdateTopic
      (pb.UpdateTopicRequest.mk (Some demo.topicT)
         (Some (pb.FieldMask.mk ([] ++ "bogus" :: ["labels"]))))
      demo.withTopic
    = GServer.Return demo.withTopic None
        (Some (status.Errorf codes.InvalidArgument "unknown field name %q"
                 [status.ArgString "bogus"])).
Proof.
  destruct update_stops_at_first_invalid_path as [HT HS]. split_and!.
  - destruct (HT demo.withTopic (pb.Topic.mk "t" {["env" := "test"]} None) 0%nat
                (topic.newTopic demo.topicT) ["labels"] "bogus" ["message_storage_policy"]
                (pb.Topic.mk "t" {["env" := "test"]} None))
      as (Hr & Hp & Hiff & _).
    + reflexivity.
    + vm_compute. reflexivity.
    + vm_compute. reflexivity.
    + reflexivity.
    + discriminate.
    + discriminate.
    + eexists. split_and!; [exact Hr| |].
      * destruct (GServer.topicObjs _ !! 0%nat) as [t'|]; [|discriminate].
        simpl in *. injection Hp as ->. reflexivity.
      * intros Heq. apply Hiff in Heq.
        apply (f_equal (λ t, pb.Topic.Labels t !! "env")) in Heq. discriminate.
  - destruct (HS 10 demo.withSub
                (pb.Subscription.mk "s" "t" None 700 true None ∅ None None None "x")
                0%nat (demo.subOf demo.withSub)
                ["retain_acked_messages"] "ack_deadline_seconds" ["filter"]
                (pb.Subscription.set_RetainAckedMessages true
                   (subscription.proto (demo.subOf demo.withSub)))
                (pb.Subscription.set_RetainAckedMessages true
                   (subscription.proto (demo.subOf demo.withSub)))
                (status.Errorf codes.Unknown "bad ack_deadline_seconds: %d"
                   [status.ArgInt 700]))
      as (Hr & _ & Hp & Hiff & _).
    + reflexivity.
    + discriminate.
    + vm_compute. reflexivity.
    + vm_compute. reflexivity.
    + reflexivity.
    + reflexivity.
    + eexists _, _. split_and!; [exact Hr|reflexivity|exact Hp|].
      intros Heq. apply Hiff in Heq.
      apply (f_equal pb.Subscription.RetainAckedMessages) in Heq.
      vm_compute in Heq. discriminate.
  - destruct (HT demo.withTopic demo.topicT 0%nat (topic.newTopic demo.topicT)
                [] "bogus" ["labels"] demo.topicT) as (Hr & _ & _ & Hid).
    + reflexivity.
    + vm_compute. reflexivity.
    + vm_compute. reflexivity.
    + reflexivity.
    + discriminate.
    + discriminate.
    + rewrite Hr. by rewrite Hid.
Defined.

(** The claim as stated fails: an error on a later path leaves the earlier
    paths applied.  UpdateTopic with the mask [labels, bogus] fails and has
    replaced the labels; UpdateSubscription with the mask
    [retain_acked_messages, ack_deadline_seconds] and a deadline of 700
    fails and has set the retain flag. *)
Lemma update_error_keeps_earlier_paths :
  (let req :=
     pb.UpdateTopicRequest.mk (Some (pb.Topic.mk "t" {["env" := "test"]} None))
       (Some (pb.FieldMask.mk ["labels"; "bogus"])) in
   let labels (s : GServer.t) :=
     pb.Topic.Labels ∘ topic.proto <$> GServer.topicObjs s !! 0%nat in
   GServer.result (GServer.UpdateTopic req demo.withTopic)
   = Some (None, Some (status.Errorf codes.InvalidArgument "unknown field name %q"
                         [status.ArgString "bogus"]))
   ∧ labels demo.withTopic = Some ∅
   ∧ labels <$> GServer.final (GServer.UpdateTopic req demo.withTopic)
     = Some (Some {["env" := "test"]}))
  ∧ (let req :=
       pb.UpdateSubscriptionRequest.mk
         (Some (pb.Subscription.mk "s" "t" None 700 true None ∅ None None None ""))
         (Some (pb.FieldMask.mk ["retain_acked_messages"; "ack_deadline_seconds"])) in
     let retain (s : GServer.t) :=
       pb.Subscription.RetainAckedMessages ∘ subscription.proto
         <$> GServer.subObjs s !! 0%nat in
     GServer.result (GServer.UpdateSubscription 10 req demo.withSub)
     = Some (None, Some (status.Errorf codes.Unknown "bad ack_deadline_seconds: %d"
                           [status.ArgInt 700]))
     ∧ retain demo.withSub = Some false
     ∧ retain <$> GServer.final (GServer.UpdateSubscription 10 req demo.withSub)
       = Some (Some true)).
Proof. split; split_and!; vm_compute; reflexivity. Qed.

(** ** Unknown ack ids *)

(** [ack] on an id that is not pending changes nothing. *)
Lemma ack_unknown id s objs :
  subscription.msgs s !! id = None → subscription.ack id s objs = (s, objs).
Proof. unfold subscription.ack. by intros ->. Qed.

Lemma ack_fold_unknown ids : ∀ sub objs,
  (∀ id, id ∈ ids → subscription.msgs sub !! id = None) →
  foldl (λ '(sub, objs) id, subscription.ack id sub objs) (sub, objs) ids = (sub, objs).
Proof.
  induction ids as [|id ids IH]; intros sub objs H; simpl; [done|].
  rewrite ack_unknown by (apply H; set_solver). apply IH. set_solver.
Qed.

Lemma set_same_sub p sub s :
  GServer.subObjs s !! p = Some sub →
  GServer.set_msgObjs (GServer.msgObjs s)
    (GServer.set_subObjs (<[p := sub]> (GServer.subObjs s)) s) = s.
Proof. intros H. rewrite list_insert_id by done. by destruct s. Qed.

(** Acknowledge with ids none of which is pending in the subscription
    succeeds and leaves the server as it was. *)
Lemma Acknowledge_unknown s name p sub ids :
  unreacted s "Acknowledge" →
  name ≠ "" →
  GServer.subs s !! name = Some p →
  GServer.subObjs s !! p = Some sub →
  (∀ id, id ∈ ids → subscription.msgs sub !! id = None) →
  GServer.Acknowledge (pb.AcknowledgeRequest.mk name ids) s = GServer.ok s ().
Proof.
  intros Hre Hname Hp Hsub Hids.
  unfold GServer.Acknowledge. rewrite reacting_unreacted by done. simpl.
  rewrite (findSubscription_found _ p), Hsub by done.
  rewrite ack_fold_unknown by done. by rewrite set_same_sub.
Qed.

Lemma recordModacks_unrecorded ids secs now byID id : ∀ objs,
  id ∈ ids → byID !! id = None →
  GServer.recordModacks ids secs now byID objs = None.
Proof.
  induction ids as [|x ids IH]; intros objs Hin Hid; [by apply elem_of_nil in Hin|].
  simpl. destruct (decide (x = id)) as [->|Hne].
  - by rewrite Hid.
  - destruct (byID !! x); [|done]. simpl. apply IH; [|done]. set_solver.
Qed.

(** C2, where the code departs from it.  ModifyAckDeadline appends to the
    audit log of [s.msgsByID[id]] before it looks at the subscription; for an
    id the server has no record of (never assigned by a Publish, or cleared
    by ClearMessages) that pointer is nil and the call panics instead of
    returning. *)
Theorem modify_ack_deadline_unrecorded_id_panics (wallNow : time.Time)
    (s : GServer.t) (name : string) (p : ptr) (ids : list string) (secs : Z)
    (id : string) :
  unreacted s "ModifyAckDeadline" →
  name ≠ "" →
  GServer.subs s !! name = Some p →
  id ∈ ids →
  GServer.msgsByID s !! id = None →
  GServer.ModifyAckDeadline wallNow (pb.ModifyAckDeadlineRequest.mk name ids secs) s
  = GServer.Panic.
Proof.
  intros Hre Hname Hp Hin Hid.
  unfold GServer.ModifyAckDeadline. rewrite reacting_unreacted by done. simpl.
  rewrite (findSubscription_found _ p) by done.
  rewrite (recordModacks_unrecorded _ _ _ _ id) by done.
  by destruct (GServer.subObjs s !! p).
Qed.

Lemma modify_ack_deadline_unrecorded_id_panics_witness :
  GServer.ModifyAckDeadline 0 (pb.ModifyAckDeadlineRequest.mk "s" ["m7"] 0) demo.withMsgs
  = GServer.Panic
  ∧ GServer.Acknowledge (pb.AcknowledgeRequest.mk "s" ["m7"]) demo.withMsgs
    = GServer.ok demo.withMsgs ().
Proof.
  split.
  - apply (modify_ack_deadline_unrecorded_id_panics 0 demo.withMsgs "s" 0%nat ["m7"] 0 "m7").
    + reflexivity.
    + discriminate.
    + vm_compute. reflexivity.
    + by apply list_elem_of_singleton.
    + vm_compute. reflexivity.
  - apply (Acknowledge_unknown demo.withMsgs "s" 0%nat (demo.subOf demo.withMsgs)).
    + reflexivity.
    + discriminate.
    + vm_compute. reflexivity.
    + vm_compute. reflexivity.
    + intros id ->%list_elem_of_singleton. vm_compute. reflexivity.
Defined.

(** ** Altering several objects of an arena *)

Section alterAll.
Context {A : Type} (f : A → A).

Lemma alterAll_length ps (objs : list A) : length (alterAll f ps objs) = length objs.
Proof.
  induction ps as [|q ps IH]; simpl; [done|].
  unfold alterAll in *. simpl. by rewrite length_alter.
Qed.

Lemma alterAll_lookup_notin ps (objs : list A) p :
  p ∉ ps → alterAll f ps objs !! p = objs !! p.
Proof.
  induction ps as [|q ps IH]; intros Hp; [done|].
  unfold alterAll in *. simpl.
  rewrite list_lookup_alter_ne by set_solver. apply IH. set_solver.
Qed.

(** Each pointer at most once: every object pointed at is altered once. *)
Lemma alterAll_lookup_NoDup ps (objs : list A) p :
  NoDup ps → p ∈ ps → alterAll f ps objs !! p = f <$> objs !! p.
Proof.
  induction ps as [|q ps IH]; intros Hnd Hp; [by apply elem_of_nil in Hp|].
  apply NoDup_cons in Hnd as [Hq Hnd]. unfold alterAll in *. simpl.
  destruct (decide (q = p)) as [->|Hne].
  - rewrite list_lookup_alter_eq. f_equal. by apply alterAll_lookup_notin.
  - rewrite list_lookup_alter_ne by done. apply IH; [done|]. set_solver.
Qed.

(** An alteration that does nothing the second time. *)
Lemma alterAll_lookup_idemp ps (objs : list A) p :
  (∀ x, f (f x) = f x) → p ∈ ps → alterAll f ps objs !! p = f <$> objs !! p.
Proof.
  intros Hf. induction ps as [|q ps IH]; intros Hp; [by apply elem_of_nil in Hp|].
  unfold alterAll in *. simpl.
  destruct (decide (q = p)) as [->|Hne].
  - rewrite list_lookup_alter_eq.
    destruct (decide (p ∈ ps)) as [Hin|Hnin].
    + rewrite IH by done. destruct (objs !! p); simpl; [|done]. by rewrite Hf.
    + f_equal. by apply alterAll_lookup_notin.
  - rewrite list_lookup_alter_ne by done. apply IH. set_solver.
Qed.

(** Whatever the pointers, every object is either as it was or altered some
    number of times. *)
Lemma alterAll_lookup_inv (P : A → A → Prop) ps (objs : list A) p y :
  (∀ x, P x x) → (∀ x z, P x z → P x (f z)) →
  alterAll f ps objs !! p = Some y → ∃ x, objs !! p = Some x ∧ P x y.
Proof.
  intros Hrefl Hstep. revert y.
  induction ps as [|q ps IH]; intros y Hy; [eauto|].
  unfold alterAll in *. simpl in Hy.
  destruct (decide (q = p)) as [->|Hne].
  - rewrite list_lookup_alter_eq in Hy.
    destruct (foldr (alter f) objs ps !! p) as [z|] eqn:Hz; [|done].
    injection Hy as <-. destruct (IH z eq_refl) as (x & ? & ?). eauto.
  - rewrite list_lookup_alter_ne in Hy by done. eauto.
Qed.
End alterAll.

(** ** Entries without a message *)

Lemma seekReinsert_nilAt target hist objs id : ∀ sub sub',
  GServer.seekReinsert target hist objs sub = Some sub' →
  nilAt id sub → nilAt id sub'.
Proof.
  induction hist as [|m hist IH]; intros sub sub' Hr Hnil; simpl in Hr.
  { by injection Hr as <-. }
  destruct (objs !! m) as [M|]; [|done]. simpl in Hr.
  destruct (time.Before (Message.PublishTime M) target); [by eapply IH|].
  eapply IH; [done|]. unfold nilAt. simpl.
  destruct (decide (Message.ID M = id)) as [<-|Hne].
  - rewrite lookup_insert_eq. by eexists.
  - by rewrite lookup_insert_ne.
Qed.

(** Every message of the history that is not before the target is in the
    subscription after the second loop of Seek, without its message. *)
Lemma seekReinsert_inserted target hist objs m M : ∀ sub sub',
  GServer.seekReinsert target hist objs sub = Some sub' →
  m ∈ hist → objs !! m = Some M →
  time.Before (Message.PublishTime M) target = false →
  nilAt (Message.ID M) sub'.
Proof.
  induction hist as [|x hist IH]; intros sub sub' Hr Hin HM Hb; simpl in Hr.
  { by apply elem_of_nil in Hin. }
  destruct (decide (x = m)) as [->|Hne].
  - rewrite HM in Hr. simpl in Hr. rewrite Hb in Hr.
    eapply seekReinsert_nilAt; [done|]. unfold nilAt. simpl.
    rewrite lookup_insert_eq. by eexists.
  - destruct (objs !! x) as [X|]; [|done]. simpl in Hr.
    assert (m ∈ hist) by set_solver.
    destruct (time.Before (Message.PublishTime X) target); by eapply IH.
Qed.

Lemma publish_lookup pm m M t_ objs p :
  topic.publish pm m M t_ objs !! p
  = if decide (p ∈ (map_to_list (topic.subs t_)).*2)
    then published_to pm m M <$> objs !! p
    else objs !! p.
Proof.
  unfold topic.publish. case_decide.
  - apply (alterAll_lookup_idemp (published_to pm m M)); [|done].
    intros [tp pr ms dn tn st at_]. unfold published_to, subscription.set_msgs. simpl.
    by rewrite insert_insert_eq.
  - by apply alterAll_lookup_notin.
Qed.

Lemma pull_nil max order s objs clock id e :
  subscription.msgs s !! id = Some e →
  pb.ReceivedMessage.Message (message.proto e) = None →
  subscription.pull max order s objs clock = None.
Proof.
  intros He Hnil. unfold subscription.pull.
  by rewrite (maintainMessages_nil _ _ _ _ He Hnil).
Qed.

Lemma pullFirst_nil req order s p sub id e :
  unreacted s "Pull" →
  pb.PullRequest.Subscription req ≠ "" →
  GServer.subs s !! pb.PullRequest.Subscription req = Some p →
  GServer.subObjs s !! p = Some sub →
  0 ≤ pb.PullRequest.MaxMessages req →
  subscription.msgs sub !! id = Some e →
  pb.ReceivedMessage.Message (message.proto e) = None →
  GServer.pullFirst req order s = None.
Proof.
  intros Hre Hname Hp Hsub Hmax He Hnil.
  unfold GServer.pullFirst. rewrite runReactor_unreacted by done. simpl.
  rewrite (findSubscription_found _ p) by done.
  rewrite bool_decide_eq_false_2 by lia.
  unfold GServer.pullAt. rewrite Hsub. simpl.
  by rewrite (pull_nil _ _ _ _ _ _ _ He Hnil).
Qed.

(** C10.  The entries Publish creates carry the published message; the
    entries Seek reinserts carry none; the sweep, which every pull runs
    first, dereferences the message of every entry, so with one entry that
    has none it panics, and so does Pull.  Such a state is reached from a
    fresh server: create a topic and a subscription, publish, seek to the
    publish time of the first message, pull. *)
Theorem seek_reinserts_without_message_and_pull_panics :
  (∀ pm m M t_ objs p sub,
     p ∈ (map_to_list (topic.subs t_)).*2 → objs !! p = Some sub →
     ∃ sub' e,
       topic.publish pm m M t_ objs !! p = Some sub'
       ∧ subscription.msgs sub' !! pb.PubsubMessage.MessageId pm = Some e
       ∧ pb.ReceivedMessage.Message (message.proto e) = Some pm)
  ∧ (∀ target hist objs sub sub' m M,
       GServer.seekReinsert target hist objs sub = Some sub' →
       m ∈ hist → objs !! m = Some M →
       time.Before (Message.PublishTime M) target = false →
       ∃ e, subscription.msgs sub' !! Message.ID M = Some e
            ∧ pb.ReceivedMessage.Message (message.proto e) = None)
  ∧ (∀ now s id e,
       subscription.msgs s !! id = Some e →
       pb.ReceivedMessage.Message (message.proto e) = None →
       subscription.maintainMessages now s = None)
  ∧ (∀ ctxErr req order order' s p sub id e,
       unreacted s "Pull" →
       pb.PullRequest.Subscription req ≠ "" →
       GServer.subs s !! pb.PullRequest.Subscription req = Some p →
       GServer.subObjs s !! p = Some sub →
       0 ≤ pb.PullRequest.MaxMessages req →
       subscription.msgs sub !! id = Some e →
       pb.ReceivedMessage.Message (message.proto e) = None →
       GServer.Pull ctxErr req order order' s = GServer.Panic)
  ∧ (let ops :=
       demo.setup
         ++ [demo.publish2;
             OpSeek (pb.SeekRequest.mk "s" (Some (pb.SeekRequest_Time (Some (demo.clk 0)))))] in
     is_Some (run ops demo.s0)
     ∧ GServer.Pull None (pb.PullRequest.mk "s" true 10) ["m0"; "m1"] []
         (demo.after ops demo.s0)
       = GServer.Panic).
Proof.
  split_and!.
  - intros pm m M t_ objs p sub Hp Hsub.
    rewrite publish_lookup, decide_True, Hsub by done. simpl.
    eexists _, _. split; [done|]. simpl. by rewrite lookup_insert_eq.
  - intros target hist objs sub sub' m M Hr Hin HM Hb.
    by apply (seekReinsert_inserted _ _ _ _ _ _ _ Hr Hin HM Hb).
  - intros now s id e. apply maintainMessages_nil.
  - intros ctxErr req order order' s p sub id e Hre Hname Hp Hsub Hmax He Hnil.
    unfold GServer.Pull.
    by rewrite (pullFirst_nil _ _ _ _ _ _ _ Hre Hname Hp Hsub Hmax He Hnil).
  - split; [apply (bool_decide_unpack _)|]; vm_compute; done.
Qed.

Lemma seek_reinserts_without_message_and_pull_panics_witness :
  let s :=
    demo.after
      (demo.setup
         ++ [demo.publish2;
             OpSeek (pb.SeekRequest.mk "s" (Some (pb.SeekRequest_Time (Some (demo.clk 0)))))])
      demo.s0 in
  GServer.Pull None (pb.PullRequest.mk "s" false 0) [] [] s = GServer.Panic.
Proof.
  intros s.
  destruct seek_reinserts_without_message_and_pull_panics as (_ & _ & _ & H & _).
  apply (H None (pb.PullRequest.mk "s" false 0) [] [] s 0%nat (demo.subOf s) "m0"
           (message.mk (pb.ReceivedMessage.mk "m0" None) (demo.clk 0) 0 0 0 (-1))).
  - reflexivity.
  - discriminate.
  - vm_compute. reflexivity.
  - vm_compute. reflexivity.
  - simpl. lia.
  - vm_compute. reflexivity.
  - reflexivity.
Defined.

(** ** Message identifiers *)

Lemma wrapInt_in_range z : minInt64 ≤ z ≤ maxInt64 → wrapInt z = z.
Proof.
  unfold wrapInt, minInt64, maxInt64. intros H.
  rewrite Z.mod_small by lia. lia.
Qed.

Lemma incr_no_overflow z : minInt64 ≤ z < maxInt64 → incr z = z + 1.
Proof. intros H. unfold incr. apply wrapInt_in_range. lia. Qed.

#[global] Instance messageID_inj : Inj (=) (=) GServer.messageID.
Proof.
  intros a b H. unfold GServer.messageID in H.
  apply (inj pretty). by simplify_eq/=.
Qed.

Lemma publishLoop_cons pm pms top s ids t_ :
  GServer.topicObjs s !! top = Some t_ →
  GServer.publishLoop (pm :: pms) top s ids
  = GServer.publishLoop pms top (publishedOne pm t_ s)
      (ids ++ [GServer.messageID (GServer.nextID s)]).
Proof. intros Ht. simpl. rewrite Ht. done. Qed.

Lemma publishLoop_panics pm pms top s ids :
  GServer.topicObjs s !! top = None →
  GServer.publishLoop (pm :: pms) top s ids = None.
Proof. intros Ht. simpl. rewrite Ht. done. Qed.

(** What the server has on record under an id below the counter stays on
    record through the loop. *)
Lemma publishLoop_keeps top : ∀ pms s ids s' ids' n p M,
  GServer.nextID s + Z.of_nat (length pms) ≤ maxInt64 →
  minInt64 ≤ GServer.nextID s →
  GServer.publishLoop pms top s ids = Some (s', ids') →
  n < GServer.nextID s →
  GServer.msgsByID s !! GServer.messageID n = Some p →
  GServer.msgObjs s !! p = Some M →
  GServer.msgsByID s' !! GServer.messageID n = Some p
  ∧ GServer.msgObjs s' !! p = Some M.
Proof.
  induction pms as [|pm pms IH]; intros s ids s' ids' n p M Hhi Hlo Hr Hn Hp HM.
  { simpl in Hr. by injection Hr as <- <-. }
  simpl length in Hhi.
  destruct (GServer.topicObjs s !! top) as [t_|] eqn:Ht;
    [|by rewrite publishLoop_panics in Hr].
  rewrite (publishLoop_cons _ _ _ _ _ _ Ht) in Hr.
  eapply (IH _ _ _ _ n p M) in Hr; [done|..]; simpl.
  - rewrite incr_no_overflow by lia. lia.
  - rewrite incr_no_overflow by lia. lia.
  - rewrite incr_no_overflow by lia. lia.
  - rewrite lookup_insert_ne; [done|]. intros ?%(inj _). lia.
  - by apply lookup_app_l_Some.
Qed.

(** The loop of Publish: it returns, the ids are those of the counter
    values from [nextID] on, in the order of the messages, the counter ends
    that much higher, and the server has each message on record under its
    id. *)
Lemma publishLoop_ids pms top t_ : ∀ s ids,
  GServer.topicObjs s !! top = Some t_ →
  minInt64 ≤ GServer.nextID s →
  GServer.nextID s + Z.of_nat (length pms) ≤ maxInt64 →
  ∃ s',
    GServer.publishLoop pms top s ids
    = Some (s', ids ++ (GServer.messageID <$> seqZ (GServer.nextID s) (Z.of_nat (length pms))))
    ∧ GServer.nextID s' = GServer.nextID s + Z.of_nat (length pms)
    ∧ GServer.reactorOptions s' = GServer.reactorOptions s
    ∧ ∀ i pm,
        pms !! i = Some pm →
        ∃ p M,
          GServer.msgsByID s' !! GServer.messageID (GServer.nextID s + Z.of_nat i) = Some p
          ∧ GServer.msgObjs s' !! p = Some M
          ∧ Message.ID M = GServer.messageID (GServer.nextID s + Z.of_nat i)
          ∧ Message.Data M = pb.PubsubMessage.Data pm
          ∧ Message.Attributes M = pb.PubsubMessage.Attributes pm
          ∧ Message.OrderingKey M = pb.PubsubMessage.OrderingKey pm.
Proof.
  induction pms as [|pm pms IH]; intros s ids Ht Hlo Hhi.
  { exists s. simpl. rewrite app_nil_r, Z.add_0_r. by split_and!. }
  rewrite (publishLoop_cons _ _ _ _ _ _ Ht).
  simpl length in *.
  destruct (IH (publishedOne pm t_ s) (ids ++ [GServer.messageID (GServer.nextID s)]))
    as (s' & Hr & Hn & Hre & Hmsgs); simpl.
  { done. }
  { rewrite incr_no_overflow by lia. lia. }
  { rewrite incr_no_overflow by lia. lia. }
  simpl in Hr, Hn, Hre, Hmsgs.
  rewrite incr_no_overflow in Hr, Hn, Hmsgs by lia.
  exists s'. split_and!.
  - rewrite Hr. f_equal. f_equal. rewrite <- app_assoc. f_equal.
    rewrite (seqZ_cons (GServer.nextID s)), fmap_cons by lia.
    simpl app. do 3 f_equal; lia.
  - lia.
  - done.
  - intros [|i] pm' Hi; simpl in Hi.
    + injection Hi as <-. rewrite Z.add_0_r.
      assert (GServer.nextID (publishedOne pm t_ s) = GServer.nextID s + 1) as Hn1
        by (simpl; rewrite incr_no_overflow by lia; lia).
      destruct (publishLoop_keeps top pms _ _ _ _
                  (GServer.nextID s) (length (GServer.msgObjs s))
                  (newMessage (GServer.timeNowFunc s (GServer.clock s)) (GServer.nextID s) pm)
                  ltac:(rewrite Hn1; lia) ltac:(rewrite Hn1; lia) Hr)
        as [H1 H2]; simpl.
      * rewrite incr_no_overflow by lia. lia.
      * by rewrite lookup_insert_eq.
      * by rewrite lookup_app_r, Nat.sub_diag.
      * eexists _, _. split_and!; [exact H1|exact H2|done..].
    + destruct (Hmsgs i pm' Hi) as (p & M & H1 & H2 & H3 & H4).
      replace (GServer.nextID s + Z.of_nat (S i)) with (GServer.nextID s + 1 + Z.of_nat i)
        by lia.
      by exists p, M.
Qed.

(** ** What a step leaves alone *)

(** Unfolds one operation in a hypothesis about [step] and splits on every
    test it makes. *)
Ltac step_cases H :=
  unfold step, returned, GServer.SetTimeNowFunc, GServer.SetStreamTimeout,
    GServer.ClearMessages, GServer.CreateTopic, GServer.UpdateTopic,
    GServer.DeleteTopic, GServer.CreateSubscription, GServer.UpdateSubscription,
    GServer.DeleteSubscription, GServer.DetachSubscription, GServer.Acknowledge,
    GServer.ModifyAckDeadline, GServer.pullFirst, GServer.pullRetry, GServer.pullAt,
    GServer.Seek, GServer.newStream, GServer.handleStreamingPullRequest,
    GServer.closeStream, GServer.deleteStream, GServer.deliver,
    GServer.reacting, GServer.ok, GServer.fail in H;
  simpl in H;
  repeat (first
            [ case_match
            | match goal with x : (_ * _)%type |- _ => destruct x end
            | progress simplify_option_eq ];
          try done).

(** Only Publish moves the counter; nothing changes the reactors. *)
Lemma step_nextID op s s' o :
  step op s = Some (s', o) →
  (∀ req, op ≠ OpPublish req) →
  GServer.nextID s' = GServer.nextID s.
Proof.
  intros H Hop. destruct op; try (by destruct (Hop req)); clear Hop.
  all: step_cases H.
Qed.

Lemma publishLoop_reactorOptions top : ∀ pms s ids s' ids',
  GServer.publishLoop pms top s ids = Some (s', ids') →
  GServer.reactorOptions s' = GServer.reactorOptions s.
Proof.
  induction pms as [|pm pms IH]; intros s ids s' ids' Hr.
  { simpl in Hr. by injection Hr as <- <-. }
  destruct (GServer.topicObjs s !! top) as [t_|] eqn:Ht;
    [|by rewrite publishLoop_panics in Hr].
  rewrite (publishLoop_cons _ _ _ _ _ _ Ht) in Hr.
  by apply IH in Hr.
Qed.

Lemma step_reactorOptions op s s' o :
  step op s = Some (s', o) →
  GServer.reactorOptions s' = GServer.reactorOptions s.
Proof.
  intros H. destruct op.
  11: { unfold step, GServer.Publish, GServer.reacting, GServer.ok, GServer.fail in H.
        repeat (case_match; try done); simplify_eq; try done.
        by eapply publishLoop_reactorOptions. }
  all: step_cases H.
Qed.

Lemma step_unreacted op s s' o f :
  step op s = Some (s', o) → unreacted s f → unreacted s' f.
Proof. unfold unreacted. intros H. by rewrite (step_reactorOptions _ _ _ _ H). Qed.

(** Only Publish shows a publish response. *)
Lemma step_not_Published op s s' o :
  step op s = Some (s', o) →
  (∀ req, op ≠ OpPublish req) →
  ∀ resp err, o ≠ Published resp err.
Proof.
  intros H Hop. destruct op; try (by destruct (Hop req)); clear Hop.
  all: step_cases H.
Qed.

(** The loop of Publish when it returns: whatever the topic pointer. *)
Lemma publishLoop_returned pms top s ids s' ids' :
  GServer.publishLoop pms top s ids = Some (s', ids') →
  minInt64 ≤ GServer.nextID s →
  GServer.nextID s + Z.of_nat (length pms) ≤ maxInt64 →
  ids' = ids ++ (GServer.messageID <$> seqZ (GServer.nextID s) (Z.of_nat (length pms)))
  ∧ GServer.nextID s' = GServer.nextID s + Z.of_nat (length pms).
Proof.
  intros Hr Hlo Hhi. destruct pms as [|pm pms].
  { simpl in Hr. injection Hr as <- <-. simpl. rewrite app_nil_r. split; [done|lia]. }
  destruct (GServer.topicObjs s !! top) as [t_|] eqn:Ht;
    [|by rewrite publishLoop_panics in Hr].
  destruct (publishLoop_ids (pm :: pms) top t_ s ids Ht Hlo Hhi) as (s'' & Hr' & Hn & _).
  rewrite Hr in Hr'. injection Hr' as Hs Hi. by subst.
Qed.

(** The ids of counter values in increasing order are distinct. *)
Lemma messageID_seqZ_NoDup n k : NoDup (GServer.messageID <$> seqZ n k).
Proof. apply NoDup_fmap_2; [apply _|apply NoDup_seqZ]. Qed.

Lemma messageID_seqZ_increasing n k i j x y :
  (i < j)%nat →
  (GServer.messageID <$> seqZ n k) !! i = Some x →
  (GServer.messageID <$> seqZ n k) !! j = Some y →
  ∃ a b, x = GServer.messageID a ∧ y = GServer.messageID b ∧ a < b.
Proof.
  intros Hij Hi Hj.
  apply list_lookup_fmap_Some in Hi as (a & -> & [-> _]%lookup_seqZ).
  apply list_lookup_fmap_Some in Hj as (b & -> & [-> _]%lookup_seqZ).
  eexists _, _. split_and!; [done..|lia].
Qed.

Lemma published_nonneg ops : 0 ≤ published ops.
Proof. induction ops as [|[] ops IH]; simpl; lia. Qed.

(** The ids a run shows are those of the counter values it went through. *)
Lemma run_publishedIDs ops : ∀ s s' obs,
  unreacted s "Publish" →
  minInt64 ≤ GServer.nextID s →
  GServer.nextID s + published ops ≤ maxInt64 →
  run ops s = Some (s', obs) →
  ∃ k, 0 ≤ k ≤ published ops
       ∧ publishedIDs obs = GServer.messageID <$> seqZ (GServer.nextID s) k
       ∧ GServer.nextID s' = GServer.nextID s + k.
Proof.
  induction ops as [|op ops IH]; intros s s' obs Hre Hlo Hhi Hrun.
  { simpl in Hrun. injection Hrun as <- <-. exists 0. simpl. split_and!; (done || lia). }
  simpl in Hrun.
  destruct (step op s) as [[s1 o]|] eqn:Hstep; [|done]. simpl in Hrun.
  destruct (run ops s1) as [[s2 obs2]|] eqn:Hrun2; [|done]. simpl in Hrun.
  injection Hrun as <- <-.
  pose proof (published_nonneg ops) as Hpos.
  pose proof (step_unreacted _ _ _ _ "Publish" Hstep Hre) as Hre1.
  assert ((∃ req, op = OpPublish req) ∨ (∀ req, op ≠ OpPublish req))
    as [[req ->]|Hop'] by (destruct op; eauto).
  - simpl in Hhi. simpl in Hstep. simpl published.
    unfold GServer.Publish in Hstep. rewrite reacting_unreacted in Hstep by done.
    destruct (String.eqb_spec (pb.PublishRequest.Topic req) "").
    { simpl in Hstep. injection Hstep as <- <-.
      destruct (IH s s2 obs2) as (k & Hk & Hids & Hn); [done|done|lia|done|].
      exists k. split_and!; (done || lia). }
    destruct (GServer.topics s !! pb.PublishRequest.Topic req) as [top|].
    2:{ simpl in Hstep. injection Hstep as <- <-.
        destruct (IH s s2 obs2) as (k & Hk & Hids & Hn); [done|done|lia|done|].
        exists k. split_and!; (done || lia). }
    destruct (GServer.publishLoop _ top s []) as [[s1' ids]|] eqn:Hloop; [|done].
    simpl in Hstep. injection Hstep as <- <-.
    destruct (publishLoop_returned _ _ _ _ _ _ Hloop) as [-> Hn1]; [done|lia|].
    destruct (IH s1' s2 obs2) as (k & Hk & Hids & Hn); [done|lia|lia|done|].
    exists (Z.of_nat (length (pb.PublishRequest.Messages req)) + k).
    split_and!; [lia|lia| |lia].
    simpl. rewrite Hids, Hn1. rewrite seqZ_app by lia. by rewrite fmap_app.
  - pose proof (step_nextID _ _ _ _ Hstep Hop') as Hn1.
    pose proof (step_not_Published _ _ _ _ Hstep Hop') as Hobs.
    assert (published (op :: ops) = published ops) as Hpub
      by (destruct op; try done; by destruct (Hop' req)).
    rewrite Hpub in *.
    destruct (IH s1 s2 obs2) as (k & Hk & Hids & Hn); [done|lia|lia|done|].
    exists k. rewrite <- Hn1. split_and!; [lia|lia| |done].
    destruct o; try done. by destruct (Hobs resp err).
Qed.

(** C1.  A Publish call on an existing topic gives the messages of the
    request, in their order, the ids of the consecutive counter values from
    [nextID] on, and records each message under its id.  Over any run of one
    server the ids that the publish calls return are the ids of consecutive
    counter values, hence strictly increasing in the order of assignment and
    pairwise distinct.  The counter is a Go int: the statements hold as long
    as it does not overflow. *)
Theorem publish_ids_strictly_increasing :
  (∀ s req top t_,
     unreacted s "Publish" →
     pb.PublishRequest.Topic req ≠ "" →
     GServer.topics s !! pb.PublishRequest.Topic req = Some top →
     GServer.topicObjs s !! top = Some t_ →
     minInt64 ≤ GServer.nextID s →
     GServer.nextID s + Z.of_nat (length (pb.PublishRequest.Messages req)) ≤ maxInt64 →
     ∃ s',
       GServer.Publish req s
       = GServer.ok s'
           (pb.PublishResponse.mk
              (GServer.messageID
                 <$> seqZ (GServer.nextID s)
                       (Z.of_nat (length (pb.PublishRequest.Messages req)))))
       ∧ GServer.nextID s'
         = GServer.nextID s + Z.of_nat (length (pb.PublishRequest.Messages req))
       ∧ ∀ i pm,
           pb.PublishRequest.Messages req !! i = Some pm →
           ∃ p M,
             GServer.msgsByID s' !! GServer.messageID (GServer.nextID s + Z.of_nat i)
             = Some p
             ∧ GServer.msgObjs s' !! p = Some M
             ∧ Message.ID M = GServer.messageID (GServer.nextID s + Z.of_nat i)
             ∧ Message.Data M = pb.PubsubMessage.Data pm
             ∧ Message.Attributes M = pb.PubsubMessage.Attributes pm
             ∧ Message.OrderingKey M = pb.PubsubMessage.OrderingKey pm)
  ∧ (∀ ops s s' obs,
       unreacted s "Publish" →
       minInt64 ≤ GServer.nextID s →
       GServer.nextID s + published ops ≤ maxInt64 →
       run ops s = Some (s', obs) →
       NoDup (publishedIDs obs)
       ∧ (∃ k, publishedIDs obs = GServer.messageID <$> seqZ (GServer.nextID s) k
               ∧ GServer.nextID s' = GServer.nextID s + k)
       ∧ ∀ i j x y,
           (i < j)%nat →
           publishedIDs obs !! i = Some x →
           publishedIDs obs !! j = Some y →
           ∃ a b, x = GServer.messageID a ∧ y = GServer.messageID b ∧ a < b).
Proof.
  split.
  - intros s req top t_ Hre Hname Htop Ht Hlo Hhi.
    destruct (publishLoop_ids (pb.PublishRequest.Messages req) top t_ s [] Ht Hlo Hhi)
      as (s' & Hr & Hn & _ & Hrec).
    exists s'. split_and!; [|done..].
    unfold GServer.Publish. rewrite reacting_unreacted by done.
    destruct (String.eqb_spec (pb.PublishRequest.Topic req) ""); [done|].
    by rewrite Htop, Hr.
  - intros ops s s' obs Hre Hlo Hhi Hrun.
    destruct (run_publishedIDs ops s s' obs Hre Hlo Hhi Hrun) as (k & _ & Hids & Hn).
    rewrite Hids. split_and!.
    + apply messageID_seqZ_NoDup.
    + by exists k.
    + intros i j x y. apply messageID_seqZ_increasing.
Qed.

Lemma run_after ops s :
  is_Some (run ops s) → run ops s = Some (demo.after ops s, demo.shown ops s).
Proof.
  unfold demo.after, demo.shown. intros [[s' obs] ->]. done.
Qed.

Lemma publish_ids_strictly_increasing_witness :
  (∃ s', GServer.Publish (pb.PublishRequest.mk "t" [demo.hello; demo.hello]) demo.withSub
         = GServer.ok s' (pb.PublishResponse.mk ["m0"; "m1"]))
  ∧ NoDup (publishedIDs (demo.shown (demo.setup ++ [demo.publish2; demo.publish2]) demo.s0)).
Proof.
  destruct publish_ids_strictly_increasing as [Hcall Hrun]. split.
  - destruct (Hcall demo.withSub (pb.PublishRequest.mk "t" [demo.hello; demo.hello])
                0%nat (topic.mk demo.topicT {["s" := 0%nat]}))
      as (s' & Hr & _).
    + reflexivity.
    + discriminate.
    + vm_compute. reflexivity.
    + vm_compute. reflexivity.
    + vm_compute. discriminate.
    + vm_compute. discriminate.
    + exists s'. exact Hr.
  - destruct (Hrun (demo.setup ++ [demo.publish2; demo.publish2]) demo.s0
                (demo.after (demo.setup ++ [demo.publish2; demo.publish2]) demo.s0)
                (demo.shown (demo.setup ++ [demo.publish2; demo.publish2]) demo.s0))
      as (Hnd & _).
    + reflexivity.
    + vm_compute. discriminate.
    + vm_compute. discriminate.
    + apply run_after. apply (bool_decide_unpack _). vm_compute. exact I.
    + exact Hnd.
Defined.

(** ** How pending entries evolve *)

Lemma same_core_refl e : same_core e e.
Proof. done. Qed.

Lemma same_core_trans e1 e2 e3 : same_core e1 e2 → same_core e2 e3 → same_core e1 e3.
Proof. unfold same_core. intros (?&?&?&?) (?&?&?&?). split_and!; congruence. Qed.

Lemma same_core_set_ackDeadline d e : same_core e (message.set_ackDeadline d e).
Proof. done. Qed.

Lemma same_core_set_streamIndex i e : same_core e (message.set_streamIndex i e).
Proof. done. Qed.

Lemma shrinks_refl sub : shrinks sub sub.
Proof. intros k e He. eauto using same_core_refl. Qed.

Lemma shrinks_trans s1 s2 s3 : shrinks s1 s2 → shrinks s2 s3 → shrinks s1 s3.
Proof.
  intros H12 H23 k e3 He3.
  destruct (H23 k e3 He3) as (e2 & He2 & Hc23).
  destruct (H12 k e2 He2) as (e1 & He1 & Hc12).
  eauto using same_core_trans.
Qed.

(** Changing the lease or the stream index of one entry shrinks. *)
Lemma shrinks_update sub id e e' :
  subscription.msgs sub !! id = Some e → same_core e e' →
  shrinks sub (subscription.set_msgs (<[id := e']> (subscription.msgs sub)) sub).
Proof.
  intros He Hc k x. simpl. destruct (decide (id = k)) as [->|Hne].
  - rewrite lookup_insert_eq. intros [= <-]. eauto.
  - rewrite lookup_insert_ne by done. eauto using same_core_refl.
Qed.

Lemma shrinks_delete sub id :
  shrinks sub (subscription.set_msgs (delete id (subscription.msgs sub)) sub).
Proof.
  intros k x. simpl. intros [_ Hx]%lookup_delete_Some. eauto using same_core_refl.
Qed.

Lemma keeps_refl objs : keeps objs objs.
Proof. split; eauto. Qed.

Lemma keeps_trans o1 o2 o3 : keeps o1 o2 → keeps o2 o3 → keeps o1 o3.
Proof.
  intros [Hl12 H12] [Hl23 H23]. split; [congruence|].
  intros p M3 H3. destruct (H23 p M3 H3) as (M2 & H2 & ? & ?).
  destruct (H12 p M2 H2) as (M1 & H1 & ? & ?).
  exists M1. split_and!; congruence.
Qed.

(** An alteration that leaves id and publish time alone keeps the arena. *)
Lemma keeps_alter f p objs :
  (∀ M, Message.ID (f M) = Message.ID M
        ∧ Message.PublishTime (f M) = Message.PublishTime M) →
  keeps objs (alter f p objs).
Proof.
  intros Hf. split; [apply length_alter|].
  intros q M'. destruct (decide (p = q)) as [->|Hne].
  - rewrite list_lookup_alter_eq. destruct (objs !! q) as [M|]; [|done].
    intros [= <-]. exists M. by destruct (Hf M).
  - rewrite list_lookup_alter_ne by done. eauto.
Qed.

Lemma keeps_alterAll f ps objs :
  (∀ M, Message.ID (f M) = Message.ID M
        ∧ Message.PublishTime (f M) = Message.PublishTime M) →
  keeps objs (alterAll f ps objs).
Proof.
  intros Hf. induction ps as [|p ps IH]; [apply keeps_refl|].
  unfold alterAll in *. simpl. eapply keeps_trans; [exact IH|]. by apply keeps_alter.
Qed.

Lemma keeps_lookup objs objs' p M :
  keeps objs objs' → objs !! p = Some M →
  ∃ M', objs' !! p = Some M'
        ∧ Message.ID M' = Message.ID M
        ∧ Message.PublishTime M' = Message.PublishTime M.
Proof.
  intros [Hl H] HM.
  destruct (lookup_lt_is_Some_2 objs' p) as [M' HM'].
  { rewrite Hl. by eapply lookup_lt_Some. }
  destruct (H p M' HM') as (M0 & HM0 & ? & ?). simplify_eq. eauto.
Qed.

Lemma incr_deliveries_keeps M :
  Message.ID (Message.incr_deliveries M) = Message.ID M
  ∧ Message.PublishTime (Message.incr_deliveries M) = Message.PublishTime M.
Proof. done. Qed.

Lemma incr_acks_keeps M :
  Message.ID (Message.incr_acks M) = Message.ID M
  ∧ Message.PublishTime (Message.incr_acks M) = Message.PublishTime M.
Proof. done. Qed.

Lemma append_modack_keeps x M :
  Message.ID (Message.append_modack x M) = Message.ID M
  ∧ Message.PublishTime (Message.append_modack x M) = Message.PublishTime M.
Proof. done. Qed.

(** *** The methods of a subscription *)

Lemma ack_evolves id s objs :
  shrinks s (subscription.ack id s objs).1
  ∧ keeps objs (subscription.ack id s objs).2.
Proof.
  unfold subscription.ack. destruct (subscription.msgs s !! id); simpl.
  - split; [apply shrinks_delete|apply keeps_alter, incr_acks_keeps].
  - split; [apply shrinks_refl|apply keeps_refl].
Qed.

Lemma ack_fold_evolves ids : ∀ s objs,
  let r := foldl (λ '(sub, objs) id, subscription.ack id sub objs) (s, objs) ids in
  shrinks s r.1 ∧ keeps objs r.2.
Proof.
  induction ids as [|id ids IH]; intros s objs; simpl.
  { split; [apply shrinks_refl|apply keeps_refl]. }
  destruct (ack_evolves id s objs) as [H1 H2].
  destruct (subscription.ack id s objs) as [s1 objs1]. simpl in *.
  destruct (IH s1 objs1) as [H3 H4].
  split; [by eapply shrinks_trans|by eapply keeps_trans].
Qed.

Lemma modifyAckDeadline_shrinks id d s clock :
  shrinks s (subscription.modifyAckDeadline id d s clock).1.
Proof.
  unfold subscription.modifyAckDeadline.
  destruct (subscription.msgs s !! id) as [m|] eqn:Hm; [|apply shrinks_refl].
  case_bool_decide; simpl; by apply (shrinks_update _ _ m).
Qed.

Lemma modifyAckDeadline_fold_shrinks ids d : ∀ s clock,
  shrinks s
    (foldl (λ '(sub, clock) id, subscription.modifyAckDeadline id d sub clock)
           (s, clock) ids).1.
Proof.
  induction ids as [|id ids IH]; intros s clock; simpl; [apply shrinks_refl|].
  pose proof (modifyAckDeadline_shrinks id d s clock) as H1.
  destruct (subscription.modifyAckDeadline id d s clock) as [s1 clock1]. simpl in *.
  eapply shrinks_trans; [exact H1|apply IH].
Qed.

Lemma modifyDeadlines_shrinks ids secs : ∀ i s clock s' clock',
  subscription.modifyDeadlines i ids secs s clock = Some (s', clock') →
  shrinks s s'.
Proof.
  induction ids as [|id ids IH]; intros i s clock s' clock' H; simpl in H.
  { injection H as <- <-. apply shrinks_refl. }
  destruct (secs !! i) as [d|]; [|done]. simpl in H.
  pose proof (modifyAckDeadline_shrinks id (secsToDur d) s clock) as H1.
  destruct (subscription.modifyAckDeadline id (secsToDur d) s clock) as [s1 clock1].
  simpl in *. eapply shrinks_trans; [exact H1|by eapply IH].
Qed.

Lemma sweep_same_core now m m' :
  subscription.sweep now m = Some (Some m') → same_core m m'.
Proof.
  unfold subscription.sweep.
  destruct (message.outstanding m && time.After now (message.ackDeadline m)).
  all: simpl; repeat case_match; try done; by intros [= <-].
Qed.

(** The sweep, when it completes, has found a message in every entry and
    leaves a shrunk subscription. *)
Lemma maintainMessages_evolves now s s' :
  subscription.maintainMessages now s = Some s' →
  shrinks s s'
  ∧ (∀ k e, subscription.msgs s' !! k = Some e →
            is_Some (pb.ReceivedMessage.Message (message.proto e)))
  ∧ subscription.timeNowFunc s' = subscription.timeNowFunc s
  ∧ subscription.ackTimeout s' = subscription.ackTimeout s.
Proof.
  intros [Hall ->]%maintainMessages_inv. simpl.
  assert (shrinks s
            (subscription.set_msgs
               (omap (λ m, mjoin (subscription.sweep now m)) (subscription.msgs s)) s)) as Hs.
  { intros k e'. simpl. rewrite lookup_omap.
    destruct (subscription.msgs s !! k) as [e|] eqn:He; [|done]. simpl.
    destruct (subscription.sweep now e) as [[x|]|] eqn:Hsw; try done.
    simpl. intros [= <-]. eauto using sweep_same_core. }
  split_and!; [done| |done..].
  intros k e' He'. destruct (Hs k e' He') as (e & He & Hc & _).
  rewrite <- Hc. eauto.
Qed.

Lemma protos_of_shrinks s s' l : shrinks s s' → protos_of s' l → protos_of s l.
Proof.
  intros Hs Hl r Hr. destruct (Hl r Hr) as (k & e' & He' & <-).
  destruct (Hs k e' He') as (e & He & Hc & _). eauto.
Qed.

Lemma pullLoop_evolves now max order : ∀ s objs acc s' objs' acc',
  subscription.pullLoop now max order s objs acc = (s', objs', acc') →
  shrinks s s' ∧ keeps objs objs'
  ∧ ∃ new, acc' = acc ++ new ∧ protos_of s new.
Proof.
  induction order as [|id order IH]; intros s objs acc s' objs' acc' H; simpl in H.
  { injection H as <- <- <-. split_and!; [apply shrinks_refl|apply keeps_refl|].
    exists []. rewrite app_nil_r. split; [done|]. intros r Hr. by apply elem_of_nil in Hr. }
  destruct (subscription.msgs s !! id) as [m|] eqn:Hm; [|by eapply IH].
  destruct (message.outstanding m); [by eapply IH|].
  simpl in H.
  set (s1 := subscription.set_msgs
               (<[id := message.set_ackDeadline
                          (time.Add now (subscription.ackTimeout s)) m]>
                  (subscription.msgs s)) s) in *.
  assert (shrinks s s1) as Hs1 by (by apply (shrinks_update _ _ m)).
  assert (keeps objs (alter Message.incr_deliveries (message.deliveries m) objs)) as Hk1
    by apply keeps_alter, incr_deliveries_keeps.
  assert (protos_of s [message.proto m]) as Hp1.
  { intros r ->%list_elem_of_singleton. eauto. }
  destruct (Z.of_nat (length (acc ++ [message.proto m])) >=? max).
  - injection H as <- <- <-. split_and!; [done..|]. by exists [message.proto m].
  - apply IH in H as (Hs & Hk & new & -> & Hnew).
    split_and!; [by eapply shrinks_trans|by eapply keeps_trans|].
    exists (message.proto m :: new). rewrite <- app_assoc. split; [done|].
    intros r [->|Hr]%elem_of_cons; [eauto|].
    by apply (protos_of_shrinks _ _ _ Hs1 Hnew).
Qed.

(** A pull, when it returns, leaves a shrunk subscription and hands out
    protos of pending entries that carry their message. *)
Lemma pull_evolves max order s objs clock s' objs' l :
  subscription.pull max order s objs clock = Some (s', objs', l) →
  shrinks s s' ∧ keeps objs objs' ∧ from_entries s l.
Proof.
  unfold subscription.pull. intros H.
  destruct (subscription.maintainMessages _ s) as [s1|] eqn:Hm; [|done].
  simpl in H. injection H as H.
  apply maintainMessages_evolves in Hm as (Hs1 & Hall & _).
  apply pullLoop_evolves in H as (Hs & Hk & new & -> & Hnew).
  split_and!; [by eapply shrinks_trans|done|].
  intros r Hr. destruct (Hnew r Hr) as (k & e1 & He1 & <-).
  destruct (Hs1 k e1 He1) as (e & He & Hc & _).
  exists k, e. split_and!; [done|done|]. eauto.
Qed.

Lemma tryDeliverLoop_evolves id start now streamObjs :
  ∀ fuel i s objs chans s' objs' chans' res,
    subscription.tryDeliverLoop fuel i id start now s objs streamObjs chans
    = Some (s', objs', chans', res) →
    shrinks s s' ∧ keeps objs objs'.
Proof.
  induction fuel as [|fuel IH]; intros i s objs chans s' objs' chans' res H; simpl in H.
  { injection H as <- <- <- <-. split; [apply shrinks_refl|apply keeps_refl]. }
  case_bool_decide.
  2:{ injection H as <- <- <- <-. split; [apply shrinks_refl|apply keeps_refl]. }
  case_bool_decide; [done|].
  destruct (subscription.streams s !! _) as [p|]; [|done]. simpl in H.
  destruct (streamObjs !! p) as [st|]; [|done]. simpl in H.
  destruct (default (false, false) (head chans)) as [recvReady preferDone].
  destruct (subscription.select_ _ _ _).
  - apply IH in H as [Hs Hk]. split; [|done].
    intros k e He. by apply (Hs k e).
  - destruct (subscription.msgs s !! id) as [m|] eqn:Hm; [|done]. simpl in H.
    injection H as <- <- <- <-.
    split; [by apply (shrinks_update _ _ m)|apply keeps_alter, incr_deliveries_keeps].
  - by eapply IH.
Qed.

Lemma deliverLoop_evolves now streamObjs order :
  ∀ curIndex s objs chans sent s' objs' sent',
    subscription.deliverLoop now order curIndex s objs streamObjs chans sent
    = Some (s', objs', sent') →
    shrinks s s' ∧ keeps objs objs'
    ∧ ∃ new, sent'.*2 = sent.*2 ++ new ∧ protos_of s new.
Proof.
  induction order as [|id order IH];
    intros curIndex s objs chans sent s' objs' sent' H; simpl in H.
  { injection H as <- <- <-. split_and!; [apply shrinks_refl|apply keeps_refl|].
    exists []. rewrite app_nil_r. split; [done|]. intros r Hr. by apply elem_of_nil in Hr. }
  destruct (subscription.msgs s !! id) as [m|] eqn:Hm; [|by eapply IH].
  destruct (message.outstanding m); [by eapply IH|].
  destruct (subscription.tryDeliverMessage _ _ _ _ _ _ _)
    as [[[[s1 objs1] chans1] res]|] eqn:Htry; [|done].
  simpl in H. apply tryDeliverLoop_evolves in Htry as [Hs1 Hk1].
  destruct res as [[delIndex st]|].
  2:{ injection H as <- <- <-. split_and!; [done..|].
      exists []. rewrite app_nil_r. split; [done|]. intros r Hr. by apply elem_of_nil in Hr. }
  match type of H with
  | subscription.deliverLoop _ _ _ ?x _ _ _ _ = _ => set (s2 := x) in *
  end.
  assert (shrinks s1 s2) as Hs2.
  { intros k e'. subst s2. simpl. destruct (decide (id = k)) as [->|Hne].
    - rewrite lookup_alter_eq.
      destruct (subscription.msgs s1 !! k) as [e|]; [|done]. simpl.
      intros [= <-]. eauto using same_core_set_streamIndex.
    - rewrite lookup_alter_ne by done. eauto using same_core_refl. }
  apply IH in H as (Hs & Hk & new & Hsent & Hnew).
  assert (shrinks s s2) as Hss2 by (by eapply shrinks_trans).
  split_and!; [by eapply shrinks_trans|by eapply keeps_trans|].
  exists (message.proto m :: new). split.
  - rewrite Hsent, fmap_app. simpl. by rewrite <- app_assoc.
  - intros r [->|Hr]%elem_of_cons; [eauto|].
    by apply (protos_of_shrinks s s2 new).
Qed.

Lemma deliver_evolves order chans s objs streamObjs clock s' objs' sent :
  subscription.deliver order chans s objs streamObjs clock = Some (s', objs', sent) →
  shrinks s s' ∧ keeps objs objs' ∧ from_entries s sent.*2.
Proof.
  unfold subscription.deliver. intros H.
  destruct (subscription.maintainMessages _ s) as [s1|] eqn:Hm; [|done].
  simpl in H.
  apply maintainMessages_evolves in Hm as (Hs1 & Hall & _).
  apply deliverLoop_evolves in H as (Hs & Hk & new & Hsent & Hnew).
  simpl in Hsent. rewrite Hsent.
  split_and!; [by eapply shrinks_trans|done|].
  intros r Hr. destruct (Hnew r Hr) as (k & e1 & He1 & <-).
  destruct (Hs1 k e1 He1) as (e & He & Hc & _).
  exists k, e. split_and!; [done|done|]. eauto.
Qed.

Lemma handleStreamingPullRequest_evolves st req s objs streamObjs clock
    s' objs' streamObjs' clock' :
  subscription.handleStreamingPullRequest st req s objs streamObjs clock
  = Some (s', objs', streamObjs', clock') →
  shrinks s s' ∧ keeps objs objs'.
Proof.
  unfold subscription.handleStreamingPullRequest. intros H.
  pose proof (ack_fold_evolves (pb.StreamingPullRequest.AckIds req) s objs) as [Hs1 Hk1].
  simpl in Hs1, Hk1.
  destruct (foldl _ (s, objs) (pb.StreamingPullRequest.AckIds req)) as [s1 objs1].
  simpl in *.
  destruct (subscription.modifyDeadlines _ _ _ s1 clock) as [[s2 clock2]|] eqn:Hmod;
    [|done].
  simpl in H. injection H as <- <- <- <-.
  apply modifyDeadlines_shrinks in Hmod.
  split; [by eapply shrinks_trans|done].
Qed.

(** ** States the operations build *)

Lemma WF_NewServer timeNow opts : WF (GServer.NewServer timeNow opts).
Proof.
  split; simpl; try done.
  intros p Hp. by apply elem_of_nil in Hp.
Qed.

Lemma entry_wf_keeps objs objs' k e :
  keeps objs objs' → entry_wf objs k e → entry_wf objs' k e.
Proof.
  intros Hk (H1 & H2 & H3 & (M & HM & Ht) & H5).
  split_and!; try done.
  destruct (keeps_lookup _ _ _ _ Hk HM) as (M' & HM' & _ & Ht').
  exists M'. split; [done|congruence].
Qed.

Lemma entry_wf_same_core objs k e e' :
  same_core e e' → entry_wf objs k e → entry_wf objs k e'.
Proof.
  intros (Hp & Ht & Hd & Ha) (H1 & H2 & H3 & H4 & H5).
  unfold entry_wf. rewrite <- Hp, <- Ht, <- Hd, <- Ha. done.
Qed.

(** *** Seek *)

Lemma seekDrop_lookup target sub objs k :
  subscription.msgs (GServer.seekDrop target sub objs).1 !! k
  = match subscription.msgs sub !! k with
    | Some e =>
        if time.Before (message.publishTime e) target then None else Some e
    | None => None
    end.
Proof.
  unfold GServer.seekDrop. simpl. rewrite map_lookup_filter.
  destruct (subscription.msgs sub !! k) as [e|]; [|done]. simpl.
  destruct (time.Before (message.publishTime e) target) eqn:Hb.
  - by rewrite option_guard_False by (simpl; congruence).
  - by rewrite option_guard_True by (simpl; congruence).
Qed.

Lemma seekDrop_evolves target sub objs :
  shrinks sub (GServer.seekDrop target sub objs).1
  ∧ keeps objs (GServer.seekDrop target sub objs).2.
Proof.
  split.
  - intros k e'. rewrite seekDrop_lookup.
    destruct (subscription.msgs sub !! k) as [e|]; [|done].
    destruct (time.Before _ _); [done|]. intros [= <-]. eauto using same_core_refl.
  - apply keeps_alterAll, incr_acks_keeps.
Qed.

(** In a subscription whose entries agree with the arena, the first loop of
    Seek counts one acknowledgement for each entry it drops. *)
Lemma seekDrop_acks target sub objs k e :
  (∀ k e, subscription.msgs sub !! k = Some e → entry_wf objs k e) →
  subscription.msgs sub !! k = Some e →
  time.Before (message.publishTime e) target = true →
  (GServer.seekDrop target sub objs).2 !! message.acks e
  = Message.incr_acks <$> objs !! message.acks e.
Proof.
  intros Hwf He Hb. unfold GServer.seekDrop. simpl.
  apply alterAll_lookup_NoDup.
  - rewrite <- list_fmap_compose.
    apply NoDup_fmap_2_strong; [|apply NoDup_map_to_list].
    intros [k1 e1] [k2 e2] H1 H2 Heq. simpl in Heq.
    apply elem_of_map_to_list, map_lookup_filter_Some in H1 as [H1 _].
    apply elem_of_map_to_list, map_lookup_filter_Some in H2 as [H2 _].
    destruct (Hwf k1 e1 H1) as (_ & -> & _). destruct (Hwf k2 e2 H2) as (_ & -> & _).
    rewrite Heq in *. congruence.
  - rewrite <- list_fmap_compose. apply list_elem_of_fmap.
    exists (k, e). split; [done|].
    apply elem_of_map_to_list, map_lookup_filter_Some. done.
Qed.

(** After the second loop of Seek every entry is either one that was there
    or one the loop wrote for a message of the history that is not before
    the target. *)
Lemma seekReinsert_lookup target objs : ∀ hist sub sub' k e',
  GServer.seekReinsert target hist objs sub = Some sub' →
  subscription.msgs sub' !! k = Some e' →
  subscription.msgs sub !! k = Some e'
  ∨ ∃ m M, m ∈ hist ∧ objs !! m = Some M
           ∧ time.Before (Message.PublishTime M) target = false
           ∧ k = Message.ID M ∧ e' = reinserted m M.
Proof.
  induction hist as [|x hist IH]; intros sub sub' k e' Hr He'; simpl in Hr.
  { injection Hr as <-. by left. }
  destruct (objs !! x) as [X|] eqn:HX; [|done]. simpl in Hr.
  destruct (time.Before (Message.PublishTime X) target) eqn:Hb.
  - destruct (IH _ _ _ _ Hr He') as [?|(m & M & ? & ?)]; [by left|].
    right. exists m, M. split; [set_solver|done].
  - destruct (IH _ _ _ _ Hr He') as [Hold|(m & M & ? & ?)].
    + simpl in Hold. destruct (decide (Message.ID X = k)) as [<-|Hne].
      * rewrite lookup_insert_eq in Hold. injection Hold as <-.
        right. exists x, X. split_and!; try done. set_solver.
      * rewrite lookup_insert_ne in Hold by done. by left.
    + right. exists m, M. split; [set_solver|done].
Qed.

(** An entry stays as it is through the second loop of Seek when the loop
    can only write that same entry under its key. *)
Lemma seekReinsert_stable target objs k e : ∀ hist sub sub',
  GServer.seekReinsert target hist objs sub = Some sub' →
  subscription.msgs sub !! k = Some e →
  (∀ m M, m ∈ hist → objs !! m = Some M → Message.ID M = k → reinserted m M = e) →
  subscription.msgs sub' !! k = Some e.
Proof.
  induction hist as [|x hist IH]; intros sub sub' Hr He Hsame; simpl in Hr.
  { by injection Hr as <-. }
  destruct (objs !! x) as [X|] eqn:HX; [|done]. simpl in Hr.
  destruct (time.Before (Message.PublishTime X) target).
  - eapply IH; [done..|]. intros m M Hm. apply Hsame. set_solver.
  - eapply IH; [done| |].
    + simpl. destruct (decide (Message.ID X = k)) as [Hk|Hne].
      * rewrite <- Hk, lookup_insert_eq. f_equal. apply (Hsame x X); [set_solver|done..].
      * by rewrite lookup_insert_ne.
    + intros m M Hm. apply Hsame. set_solver.
Qed.

(** With distinct ids in the history, the message [M] at [m], when it is
    not before the target, ends up in the subscription exactly as the loop
    writes it. *)
Lemma seekReinsert_exact target objs m M : ∀ hist sub sub',
  GServer.seekReinsert target hist objs sub = Some sub' →
  m ∈ hist → objs !! m = Some M →
  time.Before (Message.PublishTime M) target = false →
  (∀ m' M', m' ∈ hist → objs !! m' = Some M' → Message.ID M' = Message.ID M → m' = m) →
  subscription.msgs sub' !! Message.ID M = Some (reinserted m M).
Proof.
  induction hist as [|x hist IH]; intros sub sub' Hr Hin HM Hb Huniq; simpl in Hr.
  { by apply elem_of_nil in Hin. }
  destruct (decide (x = m)) as [->|Hne].
  - rewrite HM in Hr. simpl in Hr. rewrite Hb in Hr.
    eapply seekReinsert_stable; [exact Hr|simpl; by rewrite lookup_insert_eq|].
    intros m' M' Hm' HM' Hid.
    assert (m' = m) as -> by (apply (Huniq m' M'); [set_solver|done..]).
    congruence.
  - destruct (objs !! x) as [X|]; [|done]. simpl in Hr.
    assert (m ∈ hist) by set_solver.
    assert (∀ m' M', m' ∈ hist → objs !! m' = Some M' →
                     Message.ID M' = Message.ID M → m' = m)
      by (intros m' M' Hm'; apply Huniq; set_solver).
    destruct (time.Before (Message.PublishTime X) target); by eapply IH.
Qed.

Lemma seekReinsert_total target objs : ∀ hist sub,
  (∀ m, m ∈ hist → (m < length objs)%nat) →
  is_Some (GServer.seekReinsert target hist objs sub).
Proof.
  induction hist as [|x hist IH]; intros sub Hv; simpl; [by eexists|].
  destruct (lookup_lt_is_Some_2 objs x) as [X ->]; [apply Hv; set_solver|]. simpl.
  destruct (time.Before _ _); apply IH; set_solver.
Qed.

Lemma seekReinsert_frame target objs : ∀ hist sub sub',
  GServer.seekReinsert target hist objs sub = Some sub' →
  subscription.proto sub' = subscription.proto sub
  ∧ subscription.timeNowFunc sub' = subscription.timeNowFunc sub
  ∧ subscription.ackTimeout sub' = subscription.ackTimeout sub.
Proof.
  induction hist as [|x hist IH]; intros sub sub' Hr; simpl in Hr.
  { by injection Hr as <-. }
  destruct (objs !! x) as [X|]; [|done]. simpl in Hr.
  destruct (time.Before _ _); apply IH in Hr; done.
Qed.

(** *** Pulling from a subscription with nothing pending *)

Lemma pullLoop_empty now max order s objs acc :
  subscription.msgs s = ∅ →
  subscription.pullLoop now max order s objs acc = (s, objs, acc).
Proof.
  intros He. induction order as [|id order IH]; simpl; [done|].
  by rewrite He, lookup_empty.
Qed.

Lemma pull_empty max order s objs clock :
  subscription.msgs s = ∅ →
  subscription.pull max order s objs clock = Some (s, objs, []).
Proof.
  intros He. unfold subscription.pull.
  rewrite maintainMessages_total by (intros id m; by rewrite He, lookup_empty).
  simpl. rewrite He, omap_empty.
  replace (subscription.set_msgs ∅ s) with s by (destruct s; simpl in *; by subst).
  by rewrite pullLoop_empty.
Qed.

Lemma pullAt_empty p max order s sub :
  GServer.subObjs s !! p = Some sub →
  subscription.msgs sub = ∅ →
  GServer.pullAt p max order s
  = Some (GServer.set_clock (S (GServer.clock s)) s, []).
Proof.
  intros Hsub He. unfold GServer.pullAt. rewrite Hsub. simpl.
  rewrite pull_empty by done. simpl.
  rewrite list_insert_id by done. by destruct s.
Qed.

(** Pull on a subscription with nothing pending returns no message: an
    empty response, or the error of the context when that is done during
    the wait. *)
Lemma Pull_empty ctxErr req order order' s p sub :
  unreacted s "Pull" →
  pb.PullRequest.Subscription req ≠ "" →
  GServer.subs s !! pb.PullRequest.Subscription req = Some p →
  GServer.subObjs s !! p = Some sub →
  subscription.msgs sub = ∅ →
  0 ≤ pb.PullRequest.MaxMessages req →
  ∃ s' resp err,
    GServer.Pull ctxErr req order order' s = GServer.Return s' resp err
    ∧ (∀ r, resp = Some r → pb.PullResponse.ReceivedMessages r = [])
    ∧ (ctxErr = None ∨ pb.PullRequest.ReturnImmediately req = true →
       resp = Some (pb.PullResponse.mk []) ∧ err = None).
Proof.
  intros Hre Hname Hp Hsub He Hmax.
  unfold GServer.Pull, GServer.pullFirst.
  rewrite runReactor_unreacted by done. simpl.
  rewrite (findSubscription_found _ p) by done.
  rewrite bool_decide_eq_false_2 by lia.
  rewrite (pullAt_empty _ _ _ _ sub) by done. simpl.
  destruct (pb.PullRequest.ReturnImmediately req); simpl.
  { eexists _, _, _. split; [done|]. split; [by intros r [= <-]|done]. }
  destruct ctxErr as [e|].
  { eexists _, _, _. split; [done|]. split; [done|]. by intros [|]. }
  unfold GServer.pullRetry.
  rewrite (pullAt_empty _ _ _ _ sub) by done. simpl.
  eexists _, _, _. split; [done|]. split; [by intros r [= <-]|done].
Qed.

Lemma Seek_time s name p sub v :
  unreacted s "Seek" →
  name ≠ "" →
  GServer.subs s !! name = Some p →
  GServer.subObjs s !! p = Some sub →
  GServer.Seek (pb.SeekRequest.mk name (Some (pb.SeekRequest_Time v))) s
  = match GServer.seekReinsert (timestamppb.AsTime v) (GServer.msgs s)
            (GServer.seekDrop (timestamppb.AsTime v) sub (GServer.msgObjs s)).2
            (GServer.seekDrop (timestamppb.AsTime v) sub (GServer.msgObjs s)).1 with
    | None => GServer.Panic
    | Some sub' =>
        GServer.ok
          (GServer.set_msgObjs
             (GServer.seekDrop (timestamppb.AsTime v) sub (GServer.msgObjs s)).2
             (GServer.set_subObjs (<[p := sub']> (GServer.subObjs s)) s)) ()
    end.
Proof.
  intros Hre Hname Hp Hsub. unfold GServer.Seek.
  cbn [pb.SeekRequest.Target pb.SeekRequest.Subscription].
  rewrite reacting_unreacted by done.
  rewrite (findSubscription_found _ p), Hsub by done.
  by destruct (GServer.seekDrop _ sub _).
Qed.

(** C5.  Seek with a time target on an existing subscription of a server in
    a state the operations build returns success, and: every pending entry
    whose publish time is before the target is removed and the ack counter
    of its message is incremented; every message of the history published
    at or after the target is in the subscription as a fresh available entry
    (lease cleared, no stream, and without its message proto), whether it
    was pending or not.  When the target is after the publish time of every
    pending entry and of every message of the history, the subscription is
    left with nothing pending and a following Pull returns no message. *)
Theorem seek_drops_and_reinserts (s : GServer.t) (name : string) (p : ptr)
    (sub : subscription.t) (v : option timestamppb.Timestamp) :
  let target := timestamppb.AsTime v in
  let req := pb.SeekRequest.mk name (Some (pb.SeekRequest_Time v)) in
  WF s →
  unreacted s "Seek" →
  name ≠ "" →
  GServer.subs s !! name = Some p →
  GServer.subObjs s !! p = Some sub →
  ∃ s' sub',
    GServer.Seek req s = GServer.ok s' ()
    ∧ GServer.subs s' = GServer.subs s
    ∧ GServer.subObjs s' !! p = Some sub'
    ∧ (∀ id m,
         subscription.msgs sub !! id = Some m →
         message.publishTime m < target →
         subscription.msgs sub' !! id = None
         ∧ ∃ M, GServer.msgObjs s !! message.acks m = Some M
                ∧ GServer.msgObjs s' !! message.acks m = Some (Message.incr_acks M))
    ∧ (∀ h M,
         h ∈ GServer.msgs s →
         GServer.msgObjs s !! h = Some M →
         target ≤ Message.PublishTime M →
         subscription.msgs sub' !! Message.ID M = Some (reinserted h M)
         ∧ message.outstanding (reinserted h M) = false)
    ∧ ((∀ id m, subscription.msgs sub !! id = Some m → message.publishTime m < target) →
       (∀ h M, h ∈ GServer.msgs s → GServer.msgObjs s !! h = Some M →
               Message.PublishTime M < target) →
       subscription.msgs sub' = ∅
       ∧ ∀ ctxErr preq order order',
           unreacted s "Pull" →
           pb.PullRequest.Subscription preq = name →
           0 ≤ pb.PullRequest.MaxMessages preq →
           ∃ s'' resp err,
             GServer.Pull ctxErr preq order order' s' = GServer.Return s'' resp err
             ∧ (∀ r, resp = Some r → pb.PullResponse.ReceivedMessages r = [])
             ∧ (ctxErr = None ∨ pb.PullRequest.ReturnImmediately preq = true →
                resp = Some (pb.PullResponse.mk []) ∧ err = None)).
Proof.
  intros target req Hwf Hre Hname Hp Hsub.
  pose proof (seekDrop_evolves target sub (GServer.msgObjs s)) as [Hshr Hkeep].
  pose proof (seekDrop_lookup target sub (GServer.msgObjs s)) as Hdrop.
  pose proof (seekDrop_acks target sub (GServer.msgObjs s)) as Hacks.
  destruct (GServer.seekDrop target sub (GServer.msgObjs s)) as [sub1 objs1] eqn:Hsd.
  simpl in Hshr, Hkeep, Hdrop, Hacks.
  destruct (seekReinsert_total target objs1 (GServer.msgs s) sub1) as [sub' Hri].
  { intros m Hm. destruct Hkeep as [-> _]. by apply (wf_history s). }
  pose proof (seekReinsert_lookup target objs1) as Hlook.
  assert (∀ h M, GServer.msgObjs s !! h = Some M →
                 ∃ M1, objs1 !! h = Some M1 ∧ Message.ID M1 = Message.ID M
                       ∧ Message.PublishTime M1 = Message.PublishTime M) as Hfwd
    by (intros h M; apply keeps_lookup; done).
  assert (∀ h M1, objs1 !! h = Some M1 → Message.ID M1 = GServer.messageID (Z.of_nat h))
    as Hids1.
  { intros h M1 H1. destruct Hkeep as [_ Hk]. destruct (Hk h M1 H1) as (M & HM & -> & _).
    by apply (wf_ids s). }
  exists (GServer.set_msgObjs objs1
            (GServer.set_subObjs (<[p := sub']> (GServer.subObjs s)) s)), sub'.
  assert ((p < length (GServer.subObjs s))%nat) as Hlt by (by eapply lookup_lt_Some).
  split_and!.
  - subst req. rewrite (Seek_time _ _ p sub) by done.
    fold target. rewrite Hsd. simpl. by rewrite Hri.
  - done.
  - simpl. by rewrite list_lookup_insert_eq.
  - intros id m Hm Hbefore. simpl.
    assert (time.Before (message.publishTime m) target = true) as Hb
      by (unfold time.Before; by rewrite bool_decide_eq_true_2).
    destruct (wf_entries s Hwf p sub id m Hsub Hm) as (_ & Hid & _ & (M & HM & HMt) & _).
    split.
    + destruct (subscription.msgs sub' !! id) as [e'|] eqn:He'; [|done]. exfalso.
      destruct (Hlook _ _ _ _ _ Hri He') as [Hold|(h & M1 & Hh & HM1 & Hnb & Hk & _)].
      * rewrite Hdrop, Hm, Hb in Hold. done.
      * rewrite (Hids1 _ _ HM1), Hid in Hk.
        apply (inj _) in Hk. apply Nat2Z.inj in Hk. subst h.
        destruct (Hfwd _ _ HM) as (M1' & HM1' & _ & Ht1). simplify_eq.
        unfold time.Before in Hnb. apply bool_decide_eq_false in Hnb. lia.
    + exists M. split; [done|].
      rewrite (Hacks id m) by (eauto using wf_entries). by rewrite HM.
  - intros h M Hh HM Hge.
    split; [|done].
    destruct (Hfwd _ _ HM) as (M1 & HM1 & Hid1 & Ht1).
    assert (time.Before (Message.PublishTime M1) target = false) as Hnb.
    { unfold time.Before. apply bool_decide_eq_false. lia. }
    rewrite <- Hid1.
    replace (reinserted h M) with (reinserted h M1)
      by (unfold reinserted; by rewrite Hid1, Ht1).
    apply (seekReinsert_exact target objs1 h M1 (GServer.msgs s) sub1); [done..|].
    intros h' M' Hh' HM' Hid.
    rewrite (Hids1 _ _ HM1), (Hids1 _ _ HM') in Hid.
    apply (inj _) in Hid. by apply Nat2Z.inj in Hid.
  - intros Hpend Hhist.
    assert (subscription.msgs sub' = ∅) as Hempty.
    { apply map_empty. intros k.
      destruct (subscription.msgs sub' !! k) as [e'|] eqn:He'; [|done]. exfalso.
      destruct (Hlook _ _ _ _ _ Hri He') as [Hold|(h & M1 & Hh & HM1 & Hnb & _)].
      - rewrite Hdrop in Hold.
        destruct (subscription.msgs sub !! k) as [e|] eqn:He; [|done].
        specialize (Hpend k e He).
        unfold time.Before in Hold. by rewrite bool_decide_eq_true_2 in Hold.
      - destruct Hkeep as [_ Hk]. destruct (Hk _ _ HM1) as (M & HM & _ & Ht).
        specialize (Hhist h M Hh HM).
        unfold time.Before in Hnb. apply bool_decide_eq_false in Hnb. lia. }
    split; [done|].
    intros ctxErr preq order order' Hrep Hpname Hmax.
    apply (Pull_empty _ _ _ _ _ p sub'); simpl; try done.
    + by rewrite Hpname.
    + by rewrite Hpname.
    + by rewrite list_lookup_insert_eq.
Qed.

(** ** How the server evolves *)

Lemma shrinks_same_msgs sub sub' :
  subscription.msgs sub' = subscription.msgs sub → shrinks sub sub'.
Proof. intros H k e'. rewrite H. eauto using same_core_refl. Qed.

Lemma evolves_frame s s' :
  GServer.subObjs s' = GServer.subObjs s →
  GServer.msgObjs s' = GServer.msgObjs s →
  GServer.nextID s' = GServer.nextID s →
  (∀ h, h ∈ GServer.msgs s' → h ∈ GServer.msgs s) →
  GServer.subs s' = GServer.subs s →
  evolves s s' [].
Proof.
  intros Hsub Hobjs Hn Hh Hsubs. unfold evolves.
  rewrite Hsub, Hobjs, Hsubs. split_and!; try done.
  - apply keeps_refl.
  - intros q sub' Hq. left. eauto using shrinks_refl.
  - eauto.
  - intros r Hr. by apply elem_of_nil in Hr.
Qed.

(** One object replaced by a shrunk version of itself. *)
Lemma evolves_replace s s' l p sub sub' :
  GServer.subObjs s' = <[p := sub']> (GServer.subObjs s) →
  GServer.subObjs s !! p = Some sub →
  shrinks sub sub' →
  keeps (GServer.msgObjs s) (GServer.msgObjs s') →
  GServer.nextID s' = GServer.nextID s →
  GServer.msgs s' = GServer.msgs s →
  (∀ name q, GServer.subs s' !! name = Some q → GServer.subs s !! name = Some q) →
  from_entries sub l →
  evolves s s' l.
Proof.
  intros Hsubs Hsub Hshr Hk Hn Hh Hnames Hl. unfold evolves.
  rewrite Hsubs, Hh. split_and!; try done.
  - intros q x Hq. left. destruct (decide (p = q)) as [->|Hne].
    + rewrite list_lookup_insert_eq in Hq by (by eapply lookup_lt_Some).
      injection Hq as <-. eauto.
    + rewrite list_lookup_insert_ne in Hq by done. eauto using shrinks_refl.
  - eauto.
  - intros r Hr. exists p, sub. split; [done|].
    intros r' ->%list_elem_of_singleton. by apply Hl.
  - by rewrite length_insert.
Qed.

Lemma from_entries_nil sub : from_entries sub [].
Proof. intros r Hr. by apply elem_of_nil in Hr. Qed.

Lemma recordModacks_keeps ids secs now byID : ∀ objs objs',
  GServer.recordModacks ids secs now byID objs = Some objs' → keeps objs objs'.
Proof.
  induction ids as [|id ids IH]; intros objs objs' H; simpl in H.
  { injection H as <-. apply keeps_refl. }
  destruct (byID !! id) as [m|]; [|done]. simpl in H.
  eapply keeps_trans; [|by eapply IH]. apply keeps_alter, append_modack_keeps.
Qed.

Lemma pullAt_evolves p max order s s' l :
  GServer.pullAt p max order s = Some (s', l) → evolves s s' l.
Proof.
  unfold GServer.pullAt. intros H.
  destruct (GServer.subObjs s !! p) as [sub|] eqn:Hsub; [|done]. simpl in H.
  destruct (subscription.pull _ _ _ _ _) as [[[sub' objs'] l']|] eqn:Hpull; [|done].
  simpl in H. injection H as <- <-.
  apply pull_evolves in Hpull as (Hs & Hk & Hl).
  by apply (evolves_replace _ _ _ p sub sub').
Qed.

Lemma stop_lookup t_ objs q sub' :
  topic.stop t_ objs !! q = Some sub' →
  ∃ sub, objs !! q = Some sub ∧ subscription.msgs sub' = subscription.msgs sub.
Proof.
  unfold topic.stop. intros H.
  eapply (alterAll_lookup_inv _ (λ x y, subscription.msgs y = subscription.msgs x)) in H;
    [done|done|]. intros x z Hxz. by rewrite <- Hxz.
Qed.

Lemma evolves_no_output s s' l : evolves s s' l → evolves s s' [].
Proof.
  intros (? & ? & ? & ? & ? & ? & ?). unfold evolves. split_and!; try done.
  intros r Hr. by apply elem_of_nil in Hr.
Qed.

Lemma pullFirst_evolves req order s s' r :
  unreacted s "Pull" →
  GServer.pullFirst req order s = Some (s', r) →
  evolves s s' (delivered (Pulled r)).
Proof.
  intros Hre H. unfold GServer.pullFirst in H.
  rewrite runReactor_unreacted in H by done. simpl in H.
  destruct (GServer.findSubscription _ s) as [p|e].
  2:{ injection H as <- <-. by apply evolves_frame. }
  case_bool_decide.
  { injection H as <- <-. by apply evolves_frame. }
  destruct (GServer.pullAt _ _ _ _) as [[s1 l]|] eqn:Hp; [|done]. simpl in H.
  apply pullAt_evolves in Hp.
  destruct (bool_decide (length l = 0%nat) && negb _); injection H as <- <-; simpl.
  - by eapply evolves_no_output.
  - done.
Qed.

Lemma step_evolves op s s' o :
  unreacted s "Pull" →
  step op s = Some (s', o) →
  (∀ req, op ≠ OpPublish req) →
  (∀ req, op ≠ OpSeek req) →
  evolves s s' (delivered o).
Proof.
  intros Hre H Hpub Hseek.
  destruct op; try (by destruct (Hpub req)); try (by destruct (Hseek req));
    clear Hpub Hseek.
  - (* SetTimeNowFunc *) step_cases H. by apply evolves_frame.
  - (* SetStreamTimeout *) step_cases H. by apply evolves_frame.
  - (* ClearMessages *) step_cases H. apply evolves_frame; try done.
    simpl. intros h Hh. by apply elem_of_nil in Hh.
  - (* CreateTopic *) step_cases H; by apply evolves_frame.
  - (* UpdateTopic *) step_cases H; by apply evolves_frame.
  - (* DeleteTopic *)
    step_cases H; try (by apply evolves_frame).
    unfold evolves. simpl. split_and!; try done.
    + apply keeps_refl.
    + intros q sub' Hq. left. apply stop_lookup in Hq as (sub & Hsub & Hm).
      eauto using shrinks_same_msgs.
    + intros name q Hq. by left.
    + intros r Hr. by apply elem_of_nil in Hr.
    + unfold topic.stop. by rewrite alterAll_length.
  - (* CreateSubscription *)
    step_cases H; try (by apply evolves_frame).
    all: unfold evolves; simpl; split_and!; try done.
    all: try apply keeps_refl.
    all: try (intros r Hr; by apply elem_of_nil in Hr).
    all: try (rewrite length_app; simpl; lia).
    all: try (intros q sub' Hq;
              destruct (decide (q < length (GServer.subObjs s))%nat);
              [rewrite lookup_app_l in Hq by done; left; eauto using shrinks_refl
              |rewrite lookup_app_r in Hq by lia;
               apply list_lookup_singleton_Some in Hq as [_ <-]; right; split; [lia|done]]).
    all: intros name q Hq;
      match type of Hq with
      | <[?k := _]> _ !! _ = _ =>
          destruct (decide (k = name)) as [Heq|Hne];
          [rewrite Heq, lookup_insert_eq in Hq; injection Hq as <-; right; lia
          |rewrite lookup_insert_ne in Hq by done; by left]
      end.
  - (* UpdateSubscription *)
    step_cases H; try (by apply evolves_frame).
    all: match goal with
         | Hs : GServer.subObjs _ !! ?p = Some ?sub |- _ =>
             eapply (evolves_replace _ _ _ p sub); simpl;
             [done|exact Hs|by apply shrinks_same_msgs|apply keeps_refl|done|done|eauto
             |apply from_entries_nil]
         end.
  - (* DeleteSubscription *)
    step_cases H; try (by apply evolves_frame).
    match goal with
    | Hs : GServer.subObjs _ !! ?p = Some ?sub |- _ =>
        eapply (evolves_replace _ _ _ p sub); simpl;
        [done|exact Hs| |apply keeps_refl|done|done| |apply from_entries_nil]
    end.
    + unfold subscription.stop in *. case_match; simplify_eq.
      by apply shrinks_same_msgs.
    + by intros name q [_ Hq]%lookup_delete_Some.
  - (* DetachSubscription *) step_cases H; by apply evolves_frame.
  - (* Acknowledge *)
    unfold step, returned, GServer.Acknowledge, GServer.reacting, GServer.ok in H.
    repeat (case_match; try done); simplify_eq; try (by apply evolves_frame).
    all: match goal with
         | Hs : GServer.subObjs _ !! ?p = Some ?sub,
           Hf : foldl _ (?sub, ?objs) ?ids = (?sub', ?objs') |- _ =>
             pose proof (ack_fold_evolves ids sub objs) as [Hshr Hk];
             simpl in Hshr, Hk; rewrite Hf in Hshr, Hk;
             eapply (evolves_replace _ _ _ p sub sub'); simpl;
             [done|exact Hs|exact Hshr|exact Hk|done|done|eauto|apply from_entries_nil]
         end.
  - (* ModifyAckDeadline *)
    unfold step, returned, GServer.ModifyAckDeadline, GServer.reacting, GServer.ok in H.
    repeat (case_match; try done); simplify_eq; try (by apply evolves_frame).
    all: match goal with
         | Hs : GServer.subObjs _ !! ?p = Some ?sub,
           Hr : GServer.recordModacks _ _ _ _ _ = Some ?objs',
           Hf : foldl _ (?sub, ?c) ?ids = (?sub', _) |- _ =>
             pose proof (modifyAckDeadline_fold_shrinks ids
                           (secsToDur (pb.ModifyAckDeadlineRequest.AckDeadlineSeconds req))
                           sub c) as Hshr;
             rewrite Hf in Hshr;
             eapply (evolves_replace _ _ _ p sub sub'); simpl;
             [done|exact Hs|exact Hshr|by eapply recordModacks_keeps|done|done|eauto
             |apply from_entries_nil]
         end.
  - (* Pull *)
    unfold step in H.
    destruct (GServer.pullFirst req order s) as [[s1 r]|] eqn:Hp; [|done].
    simpl in H. injection H as <- <-. by apply (pullFirst_evolves req order).
  - (* PullRetry *)
    unfold step, GServer.pullRetry in H. simplify_option_eq.
    match goal with
    | Hp : GServer.pullAt _ _ _ _ = Some ?x |- _ =>
        destruct x; by apply pullAt_evolves in Hp
    end.
  - (* NewStream *)
    step_cases H.
    match goal with
    | Hs : GServer.subObjs _ !! ?p = Some ?sub |- _ =>
        eapply (evolves_replace _ _ _ p sub); simpl;
        [done|exact Hs|by apply shrinks_same_msgs|apply keeps_refl|done|done|eauto
        |apply from_entries_nil]
    end.
  - (* StreamRequest *)
    unfold step, GServer.handleStreamingPullRequest in H. simplify_option_eq.
    repeat (case_match; try done); simplify_eq.
    match goal with
    | Hs : GServer.subObjs _ !! ?p = Some ?sub,
      Hh : subscription.handleStreamingPullRequest _ _ _ _ _ _ = Some _ |- _ =>
        apply handleStreamingPullRequest_evolves in Hh as [Hshr Hk];
        eapply (evolves_replace _ _ _ p sub); simpl;
        [done|exact Hs|exact Hshr|exact Hk|done|done|eauto|apply from_entries_nil]
    end.
  - (* CloseStream *) step_cases H. by apply evolves_frame.
  - (* DeleteStream *)
    step_cases H.
    match goal with
    | Hs : GServer.subObjs _ !! ?p = Some ?sub |- _ =>
        eapply (evolves_replace _ _ _ p sub); simpl;
        [done|exact Hs| |apply keeps_refl|done|done|eauto|apply from_entries_nil]
    end.
    apply shrinks_same_msgs. unfold subscription.deleteStream. by repeat case_match.
  - (* Deliver *)
    unfold step, GServer.deliver in H. simplify_option_eq.
    repeat (case_match; try done); simplify_eq.
    match goal with
    | Hs : GServer.subObjs _ !! ?p = Some ?sub,
      Hd : subscription.deliver _ _ _ _ _ _ = Some _ |- _ =>
        apply deliver_evolves in Hd as (Hshr & Hk & Hl);
        eapply (evolves_replace _ _ _ p sub); simpl;
        [done|exact Hs|exact Hshr|exact Hk|done|done|eauto|exact Hl]
    end.
Qed.

(** ** The invariant holds in every state of a run *)

Lemma WF_evolves s s' l : WF s → evolves s s' l → WF s'.
Proof.
  intros [Hn Hids Hent Hhist] (Hk & Hn' & Hh & Hsubs & _ & _ & _).
  split.
  - rewrite Hn', Hn. by destruct Hk as [-> _].
  - intros p M' HM'. destruct Hk as [_ Hk].
    destruct (Hk p M' HM') as (M & HM & -> & _). eauto.
  - intros q sub' k e' Hq He'.
    destruct (Hsubs q sub' Hq) as [(sub & Hsub & Hshr)|[_ Hempty]].
    + destruct (Hshr k e' He') as (e & He & Hc).
      eapply entry_wf_keeps; [exact Hk|].
      eapply entry_wf_same_core; [exact Hc|]. eauto.
    + by rewrite Hempty, lookup_empty in He'.
  - intros p Hp. destruct Hk as [-> _]. auto.
Qed.

Lemma entry_wf_app objs news k e : entry_wf objs k e → entry_wf (objs ++ news) k e.
Proof.
  intros (H1 & H2 & H3 & (M & HM & Ht) & H5). split_and!; try done.
  exists M. split; [|done]. by apply lookup_app_l_Some.
Qed.

Lemma WF_publishedOne pm t_ s :
  WF s → GServer.nextID s < maxInt64 → WF (publishedOne pm t_ s).
Proof.
  intros [Hn Hids Hent Hhist] Hlt.
  assert (incr (GServer.nextID s) = GServer.nextID s + 1) as Hincr.
  { apply incr_no_overflow. unfold minInt64. lia. }
  split; simpl.
  - rewrite Hincr, Hn, length_app. simpl. lia.
  - intros p M HM. apply lookup_app_Some in HM as [HM|[Hp HM]]; [eauto|].
    apply list_lookup_singleton_Some in HM as [Hp0 <-]. simpl.
    f_equal. lia.
  - intros q sub' k e' Hq He'.
    rewrite publish_lookup in Hq.
    assert (∀ sub, GServer.subObjs s !! q = Some sub →
                   subscription.msgs sub !! k = Some e' →
                   entry_wf (GServer.msgObjs s ++ [newMessage
                     (GServer.timeNowFunc s (GServer.clock s)) (GServer.nextID s) pm]) k e')
      as Hold by (intros sub Hsub He; apply entry_wf_app; eauto).
    case_decide; [|eauto].
    destruct (GServer.subObjs s !! q) as [sub|] eqn:Hsub; [|done].
    simpl in Hq. injection Hq as <-. simpl in He'.
    destruct (decide (GServer.messageID (GServer.nextID s) = k)) as [<-|Hne].
    + rewrite lookup_insert_eq in He'. injection He' as <-.
      unfold entry_wf. simpl. split_and!; try done.
      * by rewrite Hn.
      * eexists. split; [by rewrite lookup_app_r, Nat.sub_diag|done].
      * by intros pm' [= <-].
    + rewrite lookup_insert_ne in He' by done. eauto.
  - intros p [Hp|Hp%list_elem_of_singleton]%elem_of_app; rewrite length_app; simpl.
    + apply Hhist in Hp. lia.
    + lia.
Qed.

Lemma WF_publishLoop top : ∀ pms s ids s' ids',
  WF s →
  GServer.nextID s + Z.of_nat (length pms) ≤ maxInt64 →
  GServer.publishLoop pms top s ids = Some (s', ids') →
  WF s'.
Proof.
  induction pms as [|pm pms IH]; intros s ids s' ids' Hwf Hhi Hr.
  { simpl in Hr. by injection Hr as <- <-. }
  simpl length in Hhi.
  destruct (GServer.topicObjs s !! top) as [t_|] eqn:Ht;
    [|by rewrite publishLoop_panics in Hr].
  rewrite (publishLoop_cons _ _ _ _ _ _ Ht) in Hr.
  eapply IH; [|  |exact Hr].
  - apply WF_publishedOne; [done|lia].
  - simpl. rewrite incr_no_overflow; [lia|].
    pose proof (wf_nextID s Hwf). unfold minInt64. lia.
Qed.

Lemma WF_Publish req s s' resp err :
  WF s →
  GServer.nextID s + Z.of_nat (length (pb.PublishRequest.Messages req)) ≤ maxInt64 →
  GServer.Publish req s = GServer.Return s' resp err →
  WF s'.
Proof.
  intros Hwf Hhi H. unfold GServer.Publish, GServer.reacting, GServer.ok, GServer.fail in H.
  repeat (case_match; try done); simplify_eq; try done.
  by eapply WF_publishLoop.
Qed.

Lemma reinserted_wf objs m M :
  objs !! m = Some M →
  Message.ID M = GServer.messageID (Z.of_nat m) →
  entry_wf objs (Message.ID M) (reinserted m M).
Proof.
  intros HM Hid. unfold entry_wf, reinserted. simpl. split_and!; try done. eauto.
Qed.

Lemma WF_Seek req s s' resp err :
  WF s → GServer.Seek req s = GServer.Return s' resp err → WF s'.
Proof.
  intros Hwf H. pose proof Hwf as [Hn Hids Hent Hhist].
  unfold GServer.Seek, GServer.reacting, GServer.ok, GServer.fail in H.
  repeat (case_match; try done); simplify_eq; try done.
  match goal with
  | Hd : GServer.seekDrop ?t ?sub _ = (?sub1, ?objs1),
    Hr : GServer.seekReinsert _ _ _ _ = Some ?sub' |- _ =>
      pose proof (seekDrop_evolves t sub (GServer.msgObjs s)) as [Hshr Hk];
      rewrite Hd in Hshr, Hk; simpl in Hshr, Hk;
      pose proof (λ k e', seekReinsert_lookup _ _ _ _ _ k e' Hr) as Hlook
  end.
  assert (∀ h M1, l !! h = Some M1 → Message.ID M1 = GServer.messageID (Z.of_nat h))
    as Hids1.
  { intros h M1 H1. destruct Hk as [_ Hk']. destruct (Hk' h M1 H1) as (M & HM & -> & _).
    eauto. }
  split; simpl.
  - rewrite Hn. by destruct Hk as [-> _].
  - done.
  - intros q sub' k e' Hq He'.
    match goal with
    | Hs : GServer.subObjs s !! ?p = Some ?sub |- _ =>
        destruct (decide (p = q)) as [->|Hne];
        [rewrite list_lookup_insert_eq in Hq by (by eapply lookup_lt_Some)
        |rewrite list_lookup_insert_ne in Hq by done]
    end.
    + injection Hq as <-.
      destruct (Hlook k e' He') as [Hold|(h & M1 & _ & HM1 & _ & -> & ->)].
      * destruct (Hshr k e' Hold) as (e & He & Hc).
        eapply entry_wf_keeps; [exact Hk|].
        eapply entry_wf_same_core; [exact Hc|]. eauto.
      * apply reinserted_wf; eauto.
    + eapply entry_wf_keeps; [exact Hk|]. eauto.
  - intros h Hh. destruct Hk as [-> _]. auto.
Qed.

(** Every operation keeps the invariant, as long as the counter does not
    overflow. *)
Lemma WF_step op s s' o :
  WF s →
  unreacted s "Pull" →
  GServer.nextID s + published [op] ≤ maxInt64 →
  step op s = Some (s', o) →
  WF s'.
Proof.
  intros Hwf Hre Hhi H.
  assert ((∃ req, op = OpPublish req) ∨ (∃ req, op = OpSeek req)
          ∨ ((∀ req, op ≠ OpPublish req) ∧ (∀ req, op ≠ OpSeek req)))
    as [[req ->]|[[req ->]|[Hp Hs]]] by (destruct op; eauto).
  - simpl in H, Hhi.
    destruct (GServer.Publish req s) as [s1 resp err|] eqn:HP; [|done].
    injection H as <- <-. eapply WF_Publish; [done| |done]. lia.
  - simpl in H. unfold returned in H.
    destruct (GServer.Seek req s) as [s1 resp err|] eqn:HS; [|done].
    injection H as <- <-. by eapply WF_Seek.
  - eapply WF_evolves; [done|]. by eapply step_evolves.
Qed.

Lemma step_nextID_le op s s' o :
  step op s = Some (s', o) →
  minInt64 ≤ GServer.nextID s →
  GServer.nextID s + published [op] ≤ maxInt64 →
  GServer.nextID s' ≤ GServer.nextID s + published [op].
Proof.
  intros H Hlo Hhi. pose proof (published_nonneg [op]) as Hpos.
  assert ((∃ req, op = OpPublish req) ∨ (∀ req, op ≠ OpPublish req))
    as [[req ->]|Hnp] by (destruct op; eauto).
  2:{ rewrite (step_nextID _ _ _ _ H Hnp). lia. }
  simpl in *. unfold GServer.Publish, GServer.reacting, GServer.ok, GServer.fail in H.
  destruct (GServer.runReactor _ _ _ _) as [[handled ret] err].
  destruct (handled || bool_decide (is_Some err)).
  { destruct (ret ≫= GServer.asPublishResponse); [|done]. injection H as <- <-. lia. }
  destruct (String.eqb _ _); [injection H as <- <-; lia|].
  destruct (GServer.topics s !! _) as [top|]; [|injection H as <- <-; lia].
  destruct (GServer.publishLoop _ _ _ _) as [[s1 ids]|] eqn:Hloop; [|done].
  injection H as <- <-.
  apply publishLoop_returned in Hloop as [_ ->]; lia.
Qed.

Lemma WF_run ops : ∀ s s' obs,
  WF s →
  unreacted s "Pull" →
  GServer.nextID s + published ops ≤ maxInt64 →
  run ops s = Some (s', obs) →
  WF s'.
Proof.
  induction ops as [|op ops IH]; intros s s' obs Hwf Hre Hhi Hrun; simpl in Hrun.
  { by injection Hrun as <- <-. }
  destruct (step op s) as [[s1 o]|] eqn:Hstep; [|done]. simpl in Hrun.
  destruct (run ops s1) as [[s2 obs2]|] eqn:Hrun2; [|done]. simpl in Hrun.
  injection Hrun as <- <-.
  pose proof (published_nonneg ops) as Hpos.
  assert (published (op :: ops) = published [op] + published ops) as Hsplit
    by (destruct op; simpl; lia).
  pose proof (published_nonneg [op]) as Hpos1.
  assert (WF s1) as Hwf1 by (eapply WF_step; [done|done| |done]; lia).
  assert (GServer.nextID s1 ≤ GServer.nextID s + published [op]) as Hn1.
  { apply (step_nextID_le _ _ _ _ Hstep); [|lia].
    pose proof (wf_nextID s Hwf). unfold minInt64. lia. }
  eapply IH; [exact Hwf1|by eapply step_unreacted|lia|exact Hrun2].
Qed.

(** The states of the scenario satisfy the invariant. *)
Lemma WF_demo ops :
  is_Some (run ops demo.s0) → published ops ≤ maxInt64 → WF (demo.after ops demo.s0).
Proof.
  intros Hrun Hpub. apply run_after in Hrun.
  eapply (WF_run ops demo.s0); [apply WF_NewServer|done|simpl; lia|exact Hrun].
Qed.

Lemma seek_drops_and_reinserts_witness :
  ∃ s' sub',
    GServer.Seek (pb.SeekRequest.mk "s" (Some (pb.SeekRequest_Time (Some (demo.clk 1)))))
      demo.withMsgs
    = GServer.ok s' ()
    ∧ GServer.subObjs s' !! 0%nat = Some sub'
    ∧ subscription.msgs sub' !! "m0" = None
    ∧ (Message.acks <$> GServer.msgObjs s' !! 0%nat) = Some 1
    ∧ (message.proto <$> subscription.msgs sub' !! "m1")
      = Some (pb.ReceivedMessage.mk "m1" None).
Proof.
  destruct (seek_drops_and_reinserts demo.withMsgs "s" 0%nat (demo.subOf demo.withMsgs)
              (Some (demo.clk 1)))
    as (s' & sub' & Hr & _ & Hs & Hdrop & Hins & _).
  - apply WF_demo; [apply (bool_decide_unpack _)|]; vm_compute; done.
  - reflexivity.
  - discriminate.
  - vm_compute. reflexivity.
  - vm_compute. reflexivity.
  - exists s', sub'. split_and!; [exact Hr|exact Hs|..].
    + destruct (Hdrop "m0"
                  (message.mk
                     (pb.ReceivedMessage.mk "m0"
                        (Some (pb.PubsubMessage.mk [Byte.x68; Byte.x69] ∅ "m0"
                                 (Some (demo.clk 0)) "")))
                     (demo.clk 0) 0 0 0 (-1))) as [H0 _];
        [vm_compute; reflexivity|vm_compute; reflexivity|exact H0].
    + destruct (Hdrop "m0"
                  (message.mk
                     (pb.ReceivedMessage.mk "m0"
                        (Some (pb.PubsubMessage.mk [Byte.x68; Byte.x69] ∅ "m0"
                                 (Some (demo.clk 0)) "")))
                     (demo.clk 0) 0 0 0 (-1))) as [_ (M & HM & HM')];
        [vm_compute; reflexivity|vm_compute; reflexivity|].
      simpl in HM'. rewrite HM'. simpl.
      vm_compute in HM. by injection HM as <-.
    + destruct (Hins 1%nat
                  (Message.mk (demo.clk 1) ∅ "m1" "" [] [] [Byte.x68; Byte.x69] 0 0 0 0))
        as [H1 _];
        [apply (bool_decide_unpack _); vm_compute; exact I
        |vm_compute; reflexivity|vm_compute; discriminate|].
      simpl in H1. by rewrite H1.
Defined.

(** ** Acknowledged messages stay acknowledged *)

Lemma advances_refl s : advances s s.
Proof.
  unfold advances. split_and!; try done.
  - intros q sub' k e' Hq He'. left. eauto using same_core_refl.
  - eauto.
Qed.

Lemma advances_trans s1 s2 s3 : advances s1 s2 → advances s2 s3 → advances s1 s3.
Proof.
  intros (Hm12 & Hs12 & He12 & Hn12) (Hm23 & Hs23 & He23 & Hn23).
  unfold advances. split_and!; try lia.
  - intros q sub3 k e3 Hq He3.
    destruct (He23 q sub3 k e3 Hq He3) as [(sub2 & e2 & Hq2 & He2 & Hc23)|[Hbare|(n & Hn & ->)]].
    + destruct (He12 q sub2 k e2 Hq2 He2)
        as [(sub1 & e1 & Hq1 & He1 & Hc12)|[Hbare|(n & Hn & ->)]].
      * left. exists sub1, e1. split_and!; [done|done|by eapply same_core_trans].
      * right. left. destruct Hc23 as [<- _]. done.
      * right. right. eauto.
    + by right; left.
    + right. right. exists n. split; [lia|done].
  - intros name q Hq. destruct (Hn23 name q Hq) as [Hq2|Hq2]; [|right; lia].
    destruct (Hn12 name q Hq2); [by left|by right].
Qed.

Lemma evolves_advances s s' l : evolves s s' l → advances s s'.
Proof.
  intros ([Hlen _] & _ & _ & Hsubs & Hnames & _ & Hlen').
  unfold advances. split_and!; [lia|done| |done].
  intros q sub' k e' Hq He'. left.
  destruct (Hsubs q sub' Hq) as [(sub & Hsub & Hshr)|[_ Hempty]].
  - destruct (Hshr k e' He') as (e & He & Hc). eauto.
  - by rewrite Hempty, lookup_empty in He'.
Qed.

Lemma publishedOne_advances pm t_ s : WF s → advances s (publishedOne pm t_ s).
Proof.
  intros Hwf. unfold advances. simpl. split_and!.
  - rewrite length_app. lia.
  - unfold topic.publish. by rewrite alterAll_length.
  - intros q sub' k e' Hq He'. rewrite publish_lookup in Hq.
    case_decide; [|left; eauto using same_core_refl].
    destruct (GServer.subObjs s !! q) as [sub|] eqn:Hsub; [|done].
    simpl in Hq. injection Hq as <-. simpl in He'.
    destruct (decide (GServer.messageID (GServer.nextID s) = k)) as [<-|Hne].
    + right. right. exists (length (GServer.msgObjs s)). split; [done|].
      by rewrite (wf_nextID s Hwf).
    + rewrite lookup_insert_ne in He' by done. left. eauto using same_core_refl.
  - eauto.
Qed.

Lemma publishLoop_advances top : ∀ pms s ids s' ids',
  WF s →
  GServer.nextID s + Z.of_nat (length pms) ≤ maxInt64 →
  GServer.publishLoop pms top s ids = Some (s', ids') →
  advances s s'.
Proof.
  induction pms as [|pm pms IH]; intros s ids s' ids' Hwf Hhi Hr.
  { simpl in Hr. injection Hr as <- <-. apply advances_refl. }
  simpl length in Hhi.
  destruct (GServer.topicObjs s !! top) as [t_|] eqn:Ht;
    [|by rewrite publishLoop_panics in Hr].
  rewrite (publishLoop_cons _ _ _ _ _ _ Ht) in Hr.
  eapply advances_trans; [by apply (publishedOne_advances pm t_)|].
  eapply IH; [|  |exact Hr].
  - apply WF_publishedOne; [done|lia].
  - simpl. rewrite incr_no_overflow; [lia|].
    pose proof (wf_nextID s Hwf). unfold minInt64. lia.
Qed.

Lemma Publish_advances req s s' resp err :
  WF s →
  GServer.nextID s + Z.of_nat (length (pb.PublishRequest.Messages req)) ≤ maxInt64 →
  GServer.Publish req s = GServer.Return s' resp err →
  advances s s'.
Proof.
  intros Hwf Hhi H. unfold GServer.Publish, GServer.reacting, GServer.ok, GServer.fail in H.
  repeat (case_match; try done); simplify_eq; try apply advances_refl.
  by eapply publishLoop_advances.
Qed.

Lemma Seek_advances req s s' resp err :
  GServer.Seek req s = GServer.Return s' resp err → advances s s'.
Proof.
  intros H.
  unfold GServer.Seek, GServer.reacting, GServer.ok, GServer.fail in H.
  repeat (case_match; try done); simplify_eq; try apply advances_refl.
  match goal with
  | Hd : GServer.seekDrop ?t ?sub _ = (?sub1, ?objs1),
    Hr : GServer.seekReinsert _ _ _ _ = Some ?sub' |- _ =>
      pose proof (seekDrop_evolves t sub (GServer.msgObjs s)) as [Hshr [Hlen _]];
      rewrite Hd in Hshr, Hlen; simpl in Hshr, Hlen;
      pose proof (λ k e', seekReinsert_lookup _ _ _ _ _ k e' Hr) as Hlook
  end.
  unfold advances. simpl. split_and!.
  - lia.
  - by rewrite length_insert.
  - intros q sub' k e' Hq He'.
    match goal with
    | Hs : GServer.subObjs s !! ?p = Some ?sub |- _ =>
        destruct (decide (p = q)) as [->|Hne];
        [rewrite list_lookup_insert_eq in Hq by (by eapply lookup_lt_Some)
        |rewrite list_lookup_insert_ne in Hq by done]
    end.
    + injection Hq as <-.
      destruct (Hlook k e' He') as [Hold|(h & M1 & _ & _ & _ & -> & ->)].
      * destruct (Hshr k e' Hold) as (e & He & Hc). left. eauto.
      * by right; left.
    + left. eauto using same_core_refl.
  - eauto.
Qed.

Lemma step_advances op s s' o :
  WF s →
  unreacted s "Pull" →
  GServer.nextID s + published [op] ≤ maxInt64 →
  step op s = Some (s', o) →
  advances s s'.
Proof.
  intros Hwf Hre Hhi H.
  assert ((∃ req, op = OpPublish req) ∨ (∃ req, op = OpSeek req)
          ∨ ((∀ req, op ≠ OpPublish req) ∧ (∀ req, op ≠ OpSeek req)))
    as [[req ->]|[[req ->]|[Hp Hs]]] by (destruct op; eauto).
  - simpl in H, Hhi.
    destruct (GServer.Publish req s) as [s1 resp err|] eqn:HP; [|done].
    injection H as <- <-. eapply Publish_advances; [done| |done]. lia.
  - simpl in H. unfold returned in H.
    destruct (GServer.Seek req s) as [s1 resp err|] eqn:HS; [|done].
    injection H as <- <-. by eapply Seek_advances.
  - eapply evolves_advances. by eapply step_evolves.
Qed.

Lemma published_app ops ops' : published (ops ++ ops') = published ops + published ops'.
Proof.
  induction ops as [|op ops IH]; [done|].
  destruct op; simpl; rewrite ?IH; lia.
Qed.

(** Along a run that does not overflow the counter: the invariant holds at
    the end, the server has advanced, the counter has moved by at most the
    number of messages published, and the reactors are those of the start. *)
Lemma run_advances ops : ∀ s s' obs,
  WF s →
  unreacted s "Pull" →
  GServer.nextID s + published ops ≤ maxInt64 →
  run ops s = Some (s', obs) →
  WF s' ∧ advances s s'
  ∧ GServer.nextID s' ≤ GServer.nextID s + published ops
  ∧ GServer.reactorOptions s' = GServer.reactorOptions s.
Proof.
  induction ops as [|op ops IH]; intros s s' obs Hwf Hre Hhi Hrun; simpl in Hrun.
  { injection Hrun as <- <-. split_and!; [done|apply advances_refl|simpl; lia|done]. }
  destruct (step op s) as [[s1 o]|] eqn:Hstep; [|done]. simpl in Hrun.
  destruct (run ops s1) as [[s2 obs2]|] eqn:Hrun2; [|done]. simpl in Hrun.
  injection Hrun as <- <-.
  pose proof (published_nonneg ops) as Hpos.
  assert (published (op :: ops) = published [op] + published ops) as Hsplit
    by (destruct op; simpl; lia).
  pose proof (published_nonneg [op]) as Hpos1.
  assert (WF s1) as Hwf1 by (eapply WF_step; [done|done| |done]; lia).
  assert (advances s s1) as Hadv1 by (eapply step_advances; [done|done| |done]; lia).
  assert (GServer.nextID s1 ≤ GServer.nextID s + published [op]) as Hn1.
  { apply (step_nextID_le _ _ _ _ Hstep); [|lia].
    pose proof (wf_nextID s Hwf). unfold minInt64. lia. }
  destruct (IH s1 s2 obs2) as (Hwf2 & Hadv2 & Hn2 & Hr2);
    [exact Hwf1|by eapply step_unreacted|lia|exact Hrun2|].
  split_and!; [done|by eapply advances_trans|lia|].
  rewrite Hr2. by eapply step_reactorOptions.
Qed.

Lemma run_singleton op s s' o : step op s = Some (s', o) → run [op] s = Some (s', [o]).
Proof. intros H. simpl. by rewrite H. Qed.

(** What has been handed out bears the id of a message of the arena. *)
Lemma delivered_assigned op s s' o id :
  WF s →
  unreacted s "Pull" →
  step op s = Some (s', o) →
  id ∈ deliveredIDs o →
  assigned id s.
Proof.
  intros Hwf Hre H Hid.
  apply list_elem_of_fmap in Hid as (r & -> & Hr).
  assert ((∃ req, op = OpPublish req) ∨ (∃ req, op = OpSeek req)
          ∨ ((∀ req, op ≠ OpPublish req) ∧ (∀ req, op ≠ OpSeek req)))
    as [[req ->]|[[req ->]|[Hp Hs]]] by (destruct op; eauto).
  - simpl in H. destruct (GServer.Publish req s); [|done].
    injection H as <- <-. by apply elem_of_nil in Hr.
  - simpl in H. unfold returned in H. destruct (GServer.Seek req s); [|done].
    injection H as <- <-. by apply elem_of_nil in Hr.
  - destruct (step_evolves _ _ _ _ Hre H Hp Hs) as (_ & _ & _ & _ & _ & Hl & _).
    destruct (Hl r Hr) as (q & sub & Hsub & Hfrom).
    destruct (Hfrom r) as (k & e & He & <- & _); [by apply list_elem_of_singleton|].
    destruct (wf_entries s Hwf q sub k e Hsub He) as (_ & Hk & -> & (M & HM & _) & _).
    exists (message.acks e). split; [by eapply lookup_lt_Some|done].
Qed.

(** [ack] removes the entry under its id and no other call of [ack] brings
    it back. *)
Lemma ack_fold_removes id ids : ∀ sub objs,
  subscription.msgs sub !! id = None ∨ id ∈ ids →
  subscription.msgs
    (foldl (λ '(sub, objs) id, subscription.ack id sub objs) (sub, objs) ids).1 !! id
  = None.
Proof.
  induction ids as [|a ids IH]; intros sub objs H; simpl.
  { destruct H as [H|H]; [done|by apply elem_of_nil in H]. }
  destruct (subscription.ack a sub objs) as [s1 o1] eqn:Hack.
  apply IH. unfold subscription.ack in Hack.
  destruct (decide (id = a)) as [->|Hne].
  - left. destruct (subscription.msgs sub !! a) eqn:Ha; injection Hack as <- <-; simpl.
    + apply lookup_delete_None. by left.
    + done.
  - destruct H as [H|H]; [|right; set_solver].
    left. destruct (subscription.msgs sub !! a) eqn:Ha; injection Hack as <- <-; simpl.
    + apply lookup_delete_None. by right.
    + done.
Qed.

(** A successful Acknowledge leaves nothing pending under the ids of the
    request in the object its subscription name is bound to. *)
Lemma Acknowledge_removes req s s' id :
  unreacted s "Acknowledge" →
  step (OpAcknowledge req) s = Some (s', Returned None) →
  id ∈ pb.AcknowledgeRequest.AckIds req →
  ∃ p, GServer.subs s' !! pb.AcknowledgeRequest.Subscription req = Some p
       ∧ ∀ sub, GServer.subObjs s' !! p = Some sub → subscription.msgs sub !! id = None.
Proof.
  intros Hre H Hid. simpl in H. unfold GServer.Acknowledge in H.
  rewrite reacting_unreacted in H by done.
  unfold GServer.findSubscription in H.
  destruct (String.eqb _ _); [done|].
  destruct (GServer.subs s !! _) as [p|] eqn:Hp; [|done].
  destruct (GServer.subObjs s !! p) as [sub|] eqn:Hsub; [|done].
  pose proof (ack_fold_removes id (pb.AcknowledgeRequest.AckIds req) sub (GServer.msgObjs s)
                (or_intror Hid)) as Hgone.
  destruct (foldl _ _ _) as [sub1 objs1]. simpl in H, Hgone.
  injection H as <-. exists p. simpl. split; [done|].
  intros sub' Hsub'. rewrite list_lookup_insert_eq in Hsub' by (by eapply lookup_lt_Some).
  by injection Hsub' as <-.
Qed.

(** Once the server has given out an id and an object has nothing pending
    under it, the object never holds a message under that id again. *)
Lemma advances_clean s s' id q sub' :
  advances s s' →
  assigned id s →
  (∀ sub, GServer.subObjs s !! q = Some sub → subscription.msgs sub !! id = None) →
  GServer.subObjs s' !! q = Some sub' →
  clean id sub'.
Proof.
  intros (_ & _ & Hent & _) (n & Hn & ->) Hgone Hq e' He'.
  destruct (Hent q sub' _ e' Hq He') as [(sub & e & Hsub & He & _)|[Hbare|(n' & Hn' & Heq)]].
  - by rewrite (Hgone sub Hsub) in He.
  - done.
  - apply (inj _) in Heq. lia.
Qed.

(** A pull on an object hands out nothing under an id that is clean there. *)
Lemma pullAt_clean s s' q max order l id :
  WF s →
  (∀ sub, GServer.subObjs s !! q = Some sub → clean id sub) →
  GServer.pullAt q max order s = Some (s', l) →
  id ∉ pb.ReceivedMessage.AckId <$> l.
Proof.
  intros Hwf Hclean H. unfold GServer.pullAt in H.
  destruct (GServer.subObjs s !! q) as [sub|] eqn:Hsub; [|done]. simpl in H.
  destruct (subscription.pull _ _ _ _ _) as [[[sub1 objs1] l1]|] eqn:Hpull; [|done].
  simpl in H. injection H as <- <-.
  apply pull_evolves in Hpull as (_ & _ & Hfrom).
  intros (r & -> & Hr)%list_elem_of_fmap.
  destruct (Hfrom r Hr) as (k & e & He & <- & [pm Hpm]).
  destruct (wf_entries s Hwf q sub k e Hsub He) as (_ & _ & Hk & _).
  specialize (Hclean sub eq_refl). rewrite Hk in Hclean.
  by rewrite (Hclean e He) in Hpm.
Qed.

(** The first critical section of Pull hands out nothing under an id that
    is clean in the object the name is bound to, and when it waits, it
    waits on that object. *)
Lemma pullFirst_clean req order s s' r id :
  WF s →
  unreacted s "Pull" →
  (∀ q sub, GServer.subs s !! pb.PullRequest.Subscription req = Some q →
            GServer.subObjs s !! q = Some sub → clean id sub) →
  GServer.pullFirst req order s = Some (s', r) →
  id ∉ deliveredIDs (Pulled r)
  ∧ ∀ q max, r = GServer.Waiting q max →
             GServer.subs s !! pb.PullRequest.Subscription req = Some q.
Proof.
  intros Hwf Hre Hclean H. unfold GServer.pullFirst in H.
  rewrite runReactor_unreacted in H by done. simpl in H.
  unfold GServer.findSubscription in H.
  destruct (String.eqb _ _).
  { injection H as <- <-. split; [apply not_elem_of_nil|done]. }
  destruct (GServer.subs s !! _) as [p|] eqn:Hp.
  2:{ injection H as <- <-. split; [apply not_elem_of_nil|done]. }
  case_bool_decide.
  { injection H as <- <-. split; [apply not_elem_of_nil|done]. }
  destruct (GServer.pullAt _ _ _ _) as [[s1 l]|] eqn:Hpull; [|done]. simpl in H.
  destruct (bool_decide (length l = 0%nat) && negb _); injection H as <- <-.
  - split; [apply not_elem_of_nil|]. by intros q max' [= <- _].
  - split; [|done]. unfold deliveredIDs. simpl.
    eapply pullAt_clean; [done| |exact Hpull]. eauto.
Qed.

Lemma assigned_advances s s' id : advances s s' → assigned id s → assigned id s'.
Proof. intros (Hlen & _) (n & Hn & ->). exists n. split; [lia|done]. Qed.

(** After a successful acknowledgement of an id the server has given out,
    the object the name was bound to and every later object stay clean. *)
Lemma acked_clean s s' id p q sub' :
  advances s s' →
  assigned id s →
  (∀ sub, GServer.subObjs s !! p = Some sub → subscription.msgs sub !! id = None) →
  q = p ∨ (length (GServer.subObjs s) ≤ q)%nat →
  GServer.subObjs s' !! q = Some sub' →
  clean id sub'.
Proof.
  intros Hadv Hid Hgone Hq. apply (advances_clean s); [done|done|].
  destruct Hq as [->|Hq]; [done|].
  intros sub Hsub. apply lookup_lt_Some in Hsub. lia.
Qed.

Lemma unreacted_same s s' f :
  GServer.reactorOptions s' = GServer.reactorOptions s → unreacted s f → unreacted s' f.
Proof. unfold unreacted. by intros ->. Qed.

(** C9. A message that some operation handed to a consumer (a pull or a
    delivery on a stream) and whose id a later Acknowledge on a subscription
    name acknowledged with success is in the answer of no later Pull on
    that name, whatever runs in between (publishes, seeks, deleting and
    creating the subscription again): neither in the answer of the first
    critical section of the Pull nor, when the Pull waits, in the answer of
    its second one.  The server starts in a state that satisfies the
    invariant, has no reactor for Pull or Acknowledge, and its counter does
    not overflow. *)
Theorem acknowledged_message_not_pulled_again
    (s0 s1 s2 s3 s4 s5 : GServer.t) (before between later : list Op) (opd : Op)
    (areq : pb.AcknowledgeRequest.t) (obs1 obs2 obs3 : list Obs) (od : Obs)
    (id : string) :
  WF s0 →
  unreacted s0 "Pull" →
  unreacted s0 "Acknowledge" →
  GServer.nextID s0 + published (before ++ opd :: between ++ later) ≤ maxInt64 →
  run before s0 = Some (s1, obs1) →
  step opd s1 = Some (s2, od) →
  id ∈ deliveredIDs od →
  run between s2 = Some (s3, obs2) →
  id ∈ pb.AcknowledgeRequest.AckIds areq →
  step (OpAcknowledge areq) s3 = Some (s4, Returned None) →
  run later s4 = Some (s5, obs3) →
  ∀ preq order s6 o,
    pb.PullRequest.Subscription preq = pb.AcknowledgeRequest.Subscription areq →
    step (OpPull preq order) s5 = Some (s6, o) →
    id ∉ deliveredIDs o
    ∧ ∀ q max meanwhile s7 obs4 order' s8 o',
        o = Pulled (GServer.Waiting q max) →
        GServer.nextID s6 + published meanwhile ≤ maxInt64 →
        run meanwhile s6 = Some (s7, obs4) →
        step (OpPullRetry q max order') s7 = Some (s8, o') →
        id ∉ deliveredIDs o'.
Proof.
  intros Hwf0 Hpull0 Hack0 Hhi Hrun1 Hstepd Hid Hrun2 Hin Hstepa Hrun3.
  assert (published (before ++ opd :: between ++ later)
          = published before + published [opd] + published between + published later)
    as Hsplit.
  { change (opd :: between ++ later) with ([opd] ++ between ++ later).
    rewrite !published_app. lia. }
  pose proof (published_nonneg before). pose proof (published_nonneg [opd]).
  pose proof (published_nonneg between). pose proof (published_nonneg later).
  destruct (run_advances before s0 s1 obs1) as (Hwf1 & Hadv1 & Hn1 & Hre1);
    [done|done|lia|done|].
  assert (unreacted s1 "Pull") as Hpull1 by (by eapply unreacted_same).
  destruct (run_advances [opd] s1 s2 [od]) as (Hwf2 & Hadv2 & Hn2 & Hre2);
    [done|done|lia|by apply run_singleton|].
  assert (unreacted s2 "Pull") as Hpull2 by (by eapply unreacted_same).
  destruct (run_advances between s2 s3 obs2) as (Hwf3 & Hadv3 & Hn3 & Hre3);
    [done|done|lia|done|].
  assert (unreacted s3 "Pull") as Hpull3 by (by eapply unreacted_same).
  destruct (run_advances [OpAcknowledge areq] s3 s4 [Returned None])
    as (Hwf4 & Hadv4 & Hn4 & Hre4);
    [done|done|simpl; lia|by apply run_singleton|].
  simpl in Hn4.
  assert (unreacted s4 "Pull") as Hpull4 by (by eapply unreacted_same).
  destruct (run_advances later s4 s5 obs3) as (Hwf5 & Hadv5 & Hn5 & Hre5);
    [done|done|lia|done|].
  assert (unreacted s5 "Pull") as Hpull5 by (by eapply unreacted_same).
  assert (unreacted s3 "Acknowledge") as Hack3.
  { eapply unreacted_same; [|exact Hack0]. by rewrite Hre3, Hre2, Hre1. }
  assert (assigned id s4) as Hgiven.
  { do 3 (eapply assigned_advances; [eassumption|]).
    by eapply delivered_assigned. }
  destruct (Acknowledge_removes areq s3 s4 id Hack3 Hstepa Hin) as (p & Hp & Hgone).
  intros preq order s6 o Hname Hstep.
  simpl in Hstep.
  destruct (GServer.pullFirst preq order s5) as [[s6' r]|] eqn:Hfirst; [|done].
  simpl in Hstep. injection Hstep as <- <-.
  assert (∀ q, GServer.subs s5 !! pb.PullRequest.Subscription preq = Some q →
               q = p ∨ (length (GServer.subObjs s4) ≤ q)%nat) as Hbound.
  { intros q Hq. rewrite Hname in Hq.
    destruct Hadv5 as (_ & _ & _ & Hnames).
    destruct (Hnames _ q Hq) as [Hq4|Hq4]; [left; congruence|by right]. }
  destruct (pullFirst_clean preq order s5 s6' r id Hwf5 Hpull5) as [Hnot Hwait];
    [|exact Hfirst|].
  { intros q sub Hq Hsub. eapply (acked_clean s4 s5); eauto. }
  split; [done|].
  intros q max meanwhile s7 obs4 order' s8 o' [= ->] Hhi' Hrun4 Hretry.
  destruct (run_advances [OpPull preq order] s5 s6' [Pulled (GServer.Waiting q max)])
    as (Hwf6 & Hadv6 & Hn6 & Hre6);
    [done|done|simpl; lia|apply run_singleton; simpl; by rewrite Hfirst|].
  assert (unreacted s6' "Pull") as Hpull6 by (by eapply unreacted_same).
  destruct (run_advances meanwhile s6' s7 obs4) as (Hwf7 & Hadv7 & _ & _);
    [done|done|done|done|].
  simpl in Hretry. unfold GServer.pullRetry in Hretry.
  destruct (GServer.pullAt q max order' s7) as [[s8' l]|] eqn:Hat; [|done].
  simpl in Hretry. injection Hretry as <- <-.
  unfold deliveredIDs. simpl.
  eapply pullAt_clean; [exact Hwf7| |exact Hat].
  intros sub Hsub. eapply (acked_clean s4 s7 id p q); [|done|done| |done].
  - eapply advances_trans; [exact Hadv5|]. by eapply advances_trans.
  - apply Hbound. by eapply Hwait.
Qed.

Lemma step_after op s :
  is_Some (step op s) →
  step op s = Some (demo.after [op] s, default Quiet (head (demo.shown [op] s))).
Proof.
  unfold demo.after, demo.shown. intros [[s' o] H]. simpl. by rewrite H.
Qed.

Lemma acknowledged_message_not_pulled_again_witness :
  ∃ s6 o,
    step demo.pull10
      (demo.after (demo.setup ++ [demo.publish2; demo.pull10; demo.ack0; demo.nack01])
         demo.s0)
    = Some (s6, o)
    ∧ deliveredIDs o = ["m1"]
    ∧ "m0" ∉ deliveredIDs o.
Proof.
  set (s1 := demo.withMsgs).
  set (s2 := demo.after [demo.pull10] s1).
  set (s4 := demo.after [demo.ack0] s2).
  set (s5 := demo.after [demo.nack01] s4).
  assert (demo.after (demo.setup ++ [demo.publish2; demo.pull10; demo.ack0; demo.nack01])
            demo.s0 = s5)
    as -> by (vm_compute; reflexivity).
  assert ((deliveredIDs ∘ snd <$> step demo.pull10 s5) = Some ["m1"]) as Hids
    by (vm_compute; reflexivity).
  destruct (step demo.pull10 s5) as [[s6 o]|] eqn:Hstep; [|discriminate].
  simpl in Hids. injection Hids as Hids.
  exists s6, o. split_and!; [reflexivity|exact Hids|].
  refine (proj1 (acknowledged_message_not_pulled_again
                   demo.s0 s1 s2 s2 s4 s5 (demo.setup ++ [demo.publish2]) [] [demo.nack01]
                   demo.pull10 (pb.AcknowledgeRequest.mk "s" ["m0"])
                   (demo.shown (demo.setup ++ [demo.publish2]) demo.s0) []
                   (demo.shown [demo.nack01] s4)
                   (default Quiet (head (demo.shown [demo.pull10] s1))) "m0"
                   _ _ _ _ _ _ _ _ _ _ _
                   (pb.PullRequest.mk "s" true 10) ["m0"; "m1"] s6 o _ Hstep)).
  - apply WF_NewServer.
  - reflexivity.
  - reflexivity.
  - vm_compute. discriminate.
  - apply run_after. apply (bool_decide_unpack _). vm_compute. exact I.
  - apply step_after. apply (bool_decide_unpack _). vm_compute. exact I.
  - apply (bool_decide_unpack _). vm_compute. exact I.
  - reflexivity.
  - apply (bool_decide_unpack _). vm_compute. exact I.
  - rewrite step_after by (apply (bool_decide_unpack _); vm_compute; exact I).
    apply (f_equal (λ o, Some (s4, o))). vm_compute. reflexivity.
  - apply run_after. apply (bool_decide_unpack _). vm_compute. exact I.
  - reflexivity.
Defined.

(** * Reactors, the test API, streams and the names of a server *)

(** ** Reactors *)

Lemma runReactors_declined val req d :
  Forall (λ r : Reactor, ∃ ret, r req = (false, ret, None)) val →
  GServer.runReactors val req d = (false, None, None).
Proof.
  induction 1 as [|r val [ret Hr] _ IH]; simpl; [done|]. by rewrite Hr.
Qed.

Lemma runReactors_first pre (r : Reactor) post req d handled ret err :
  Forall (λ r : Reactor, ∃ ret, r req = (false, ret, None)) pre →
  r req = (handled, ret, err) →
  handled = true ∨ is_Some err →
  GServer.runReactors (pre ++ r :: post) req d = (true, Some (default d ret), err).
Proof.
  intros Hpre Hr Hd. induction Hpre as [|r' pre [ret' Hr'] _ IH]; simpl.
  - rewrite Hr. destruct Hd as [->|He]; [done|].
    rewrite (bool_decide_eq_true_2 _ He). by rewrite orb_true_r.
  - by rewrite Hr'.
Qed.

(** X1.  The reactors registered for a function are asked in the order of
    registration.  A reactor that answers [handled = false] without an error
    is passed over; the first one that answers [handled = true] or an error
    decides: the call is reported as handled, with the error of that reactor
    and with its return value, or the default object when it returned nil,
    and no later reactor is asked.  When every reactor declines the call
    goes on as if none were registered. *)
Theorem first_reactor_that_reacts_decides (s : GServer.t) (f : string) (req d : any)
    (pre post : list Reactor) (r : Reactor) (handled : bool) (ret : option any)
    (err : option status.Status) :
  Forall (λ r' : Reactor, ∃ ret', r' req = (false, ret', None)) pre →
  r req = (handled, ret, err) →
  handled = true ∨ is_Some err →
  (GServer.reactorOptions s !! f = Some (pre ++ r :: post) →
   GServer.runReactor s req f d = (true, Some (default d ret), err))
  ∧ (GServer.reactorOptions s !! f = Some pre →
     GServer.runReactor s req f d = (false, None, None)).
Proof.
  intros Hpre Hr Hd. unfold GServer.runReactor. split; intros ->.
  - by eapply runReactors_first.
  - by apply runReactors_declined.
Qed.

Lemma first_reactor_that_reacts_decides_witness :
  GServer.runReactor scene.faulty
    (AnyPublishRequest (pb.PublishRequest.mk "t" [demo.hello])) "Publish"
    (AnyPublishResponse pb.PublishResponse.empty)
  = (true, Some (AnyPublishResponse pb.PublishResponse.empty),
     Some (status.Errorf codes.Internal "boom" [])).
Proof.
  apply (proj1 (first_reactor_that_reacts_decides scene.faulty "Publish"
                  (AnyPublishRequest (pb.PublishRequest.mk "t" [demo.hello]))
                  (AnyPublishResponse pb.PublishResponse.empty)
                  [scene.declining] [] (Reactor_ scene.boom) true None
                  (Some (status.Errorf codes.Internal "boom" []))
                  ltac:(repeat constructor; by exists None) eq_refl
                  (or_introl eq_refl))).
  reflexivity.
Defined.

(** The reactors of a new server: for each function, those of the options
    that name it, in the order of the options. *)
Lemma NewServer_reactorOptions timeNow opts f :
  GServer.reactorOptions (GServer.NewServer timeNow opts) !! f
  = match Reactor_ <$> filter (λ o, FuncName o = f) opts with
    | [] => None
    | l => Some l
    end.
Proof.
  unfold GServer.NewServer. simpl.
  induction opts as [|o opts IH] using rev_ind; [done|].
  rewrite foldl_app. simpl. rewrite filter_app, fmap_app.
  destruct (decide (FuncName o = f)) as [<-|Hne].
  - rewrite lookup_insert_eq, IH.
    rewrite (filter_cons_True _ o []) by done. simpl.
    destruct (Reactor_ <$> filter _ opts) as [|x l]; done.
  - rewrite lookup_insert_ne, IH by done.
    rewrite (filter_cons_False _ o []) by done. simpl. by rewrite app_nil_r.
Qed.

(** X2.  On a server created with [WithErrorInjection f code msg] as its
    first option for the function [f], and in every state whose reactors are
    those, the call named [f] does nothing and returns the injected error
    together with the empty response object (not nil); with the code OK the
    error is nil, so the call then reports success with the empty response.
    Seek checks the target of the request before it asks the reactors: a
    request without a time target gets the error of that check, not the
    injected one. *)
Theorem injected_error_is_returned (timeNow : nat → time.Time) (f : string)
    (code : codes.Code) (msg : string) (opts : list ServerReactorOption)
    (s : GServer.t) :
  let e := if bool_decide (code = codes.OK) then None
           else Some (status.Errorf code msg []) in
  GServer.reactorOptions s
  = GServer.reactorOptions
      (GServer.NewServer timeNow (WithErrorInjection f code msg :: opts)) →
  (∀ req d, GServer.runReactor s req f d = (true, Some d, e))
  ∧ (f = "CreateTopic" →
     ∀ t_, GServer.CreateTopic t_ s = GServer.Return s (Some pb.Topic.empty) e)
  ∧ (f = "DeleteTopic" →
     ∀ req, GServer.DeleteTopic req s = GServer.Return s (Some ()) e)
  ∧ (f = "CreateSubscription" →
     ∀ minAck ps,
       GServer.CreateSubscription minAck ps s
       = GServer.Return s (Some pb.Subscription.empty) e)
  ∧ (f = "DeleteSubscription" →
     ∀ req, GServer.DeleteSubscription req s = GServer.Return s (Some ()) e)
  ∧ (f = "Publish" →
     ∀ req, GServer.Publish req s = GServer.Return s (Some pb.PublishResponse.empty) e)
  ∧ (f = "Acknowledge" →
     ∀ req, GServer.Acknowledge req s = GServer.Return s (Some ()) e)
  ∧ (f = "ModifyAckDeadline" →
     ∀ wallNow req,
       GServer.ModifyAckDeadline wallNow req s = GServer.Return s (Some ()) e)
  ∧ (f = "Pull" →
     ∀ ctxErr req order order',
       GServer.Pull ctxErr req order order' s
       = GServer.Return s (Some pb.PullResponse.empty) e)
  ∧ (f = "Seek" →
     (∀ name v,
        GServer.Seek (pb.SeekRequest.mk name (Some (pb.SeekRequest_Time v))) s
        = GServer.Return s (Some ()) e)
     ∧ ∀ name,
         GServer.Seek (pb.SeekRequest.mk name None) s
         = GServer.fail s codes.InvalidArgument "missing Seek target type" []).
Proof.
  intros e Hro.
  assert (∀ req d, GServer.runReactor s req f d = (true, Some d, e)) as Hrun.
  { intros req d. unfold GServer.runReactor. rewrite Hro, NewServer_reactorOptions.
    rewrite filter_cons_True by done. done. }
  split; [done|].
  split_and!; intros ->; intros;
    unfold GServer.CreateTopic, GServer.DeleteTopic, GServer.CreateSubscription,
      GServer.DeleteSubscription, GServer.Publish, GServer.Acknowledge,
      GServer.ModifyAckDeadline, GServer.Pull, GServer.pullFirst, GServer.Seek;
    simpl; rewrite ?Hrun; try done.
  split; intros; simpl; rewrite ?Hrun; done.
Qed.

Lemma injected_error_is_returned_witness :
  GServer.Publish (pb.PublishRequest.mk "t" [demo.hello]) scene.injected
  = GServer.Return scene.injected (Some pb.PublishResponse.empty)
      (Some (status.Errorf codes.Internal "boom" [])).
Proof.
  pose proof (injected_error_is_returned demo.clk "Publish" codes.Internal "boom" []
                scene.injected eq_refl) as (_ & _ & _ & _ & _ & H & _).
  apply H. reflexivity.
Defined.

(** ** The minimal ack deadline *)

Lemma int32_in_range z : - 2 ^ 31 ≤ z < 2 ^ 31 → int32 z = z.
Proof. intros H. unfold int32. rewrite Z.mod_small; lia. Qed.

(** X3.  [SetMinAckDeadline] panics below one second and accepts one second
    itself.  It keeps whole seconds only: after setting [n] (up to the range
    of an int32 of seconds) the ack deadlines that [checkAckDeadline]
    accepts are exactly those from [n / 1s], rounded down, to 600; with a
    minimum above 600 seconds none is accepted. *)
Theorem set_min_ack_deadline_truncates (n : time.Duration) :
  (n < time.Second → SetMinAckDeadline n = None)
  ∧ (time.Second ≤ n < 2 ^ 31 * time.Second →
     ∃ m, SetMinAckDeadline n = Some m
          ∧ m = n `div` time.Second
          ∧ 1 ≤ m
          ∧ m * time.Second ≤ n < (m + 1) * time.Second
          ∧ (∀ ads, checkAckDeadline m ads = None ↔ m ≤ ads ≤ 600)
          ∧ (601 * time.Second ≤ n → ∀ ads, is_Some (checkAckDeadline m ads))).
Proof.
  unfold SetMinAckDeadline, time.Second. split; intros H.
  - by rewrite bool_decide_eq_true_2.
  - rewrite bool_decide_eq_false_2 by lia.
    rewrite Z.quot_div_nonneg by lia.
    assert (1 ≤ n `div` 1000000000 < 2 ^ 31) as Hm.
    { split; [apply Z.div_le_lower_bound; lia|apply Z.div_lt_upper_bound; lia]. }
    rewrite int32_in_range by lia.
    eexists. split_and!; [done|done|lia| | | |].
    + pose proof (Z.mul_div_le n 1000000000). lia.
    + pose proof (Z.mul_succ_div_gt n 1000000000). lia.
    + intros ads. unfold checkAckDeadline. split.
      * intros Hc. destruct (bool_decide (ads < _)) eqn:H1;
          destruct (bool_decide (ads > 600)) eqn:H2; try done.
        apply bool_decide_eq_false in H1, H2. lia.
      * intros Hr. rewrite !bool_decide_eq_false_2 by lia. done.
    + intros Hbig ads.
      assert (601 ≤ n `div` 1000000000) by (apply Z.div_le_lower_bound; lia).
      unfold checkAckDeadline.
      destruct (decide (ads > 600)).
      * rewrite (bool_decide_eq_true_2 (ads > 600)) by done. rewrite orb_true_r. eauto.
      * rewrite (bool_decide_eq_true_2 (ads < _)) by lia. simpl. eauto.
Qed.

Lemma set_min_ack_deadline_truncates_witness :
  ∃ m, SetMinAckDeadline (2500 * time.Millisecond) = Some m
       ∧ m = 2
       ∧ checkAckDeadline m 2 = None
       ∧ SetMinAckDeadline (999 * time.Millisecond) = None.
Proof.
  destruct (proj2 (set_min_ack_deadline_truncates (2500 * time.Millisecond)))
    as (m & Hm & Heq & _ & _ & Hads & _); [vm_compute; split; [discriminate|reflexivity]|].
  exists m. split_and!.
  - exact Hm.
  - rewrite Heq. reflexivity.
  - apply Hads. rewrite Heq. vm_compute. split; discriminate.
  - apply (proj1 (set_min_ack_deadline_truncates (999 * time.Millisecond))).
    vm_compute. reflexivity.
Defined.

(** ** Updating a subscription or a topic *)

Lemma updateSubscriptionPaths_Name minAck reqSub : ∀ paths proto,
  let r := GServer.updateSubscriptionPaths minAck paths reqSub proto in
  pb.Subscription.Name r.1 = pb.Subscription.Name proto
  ∧ pb.Subscription.Topic r.1 = pb.Subscription.Topic proto.
Proof.
  induction paths as [|p paths IH]; intros proto; simpl; [done|].
  repeat (case_match; try done);
    match goal with
    | |- context [GServer.updateSubscriptionPaths _ _ _ ?x] => apply (IH x)
    end.
Qed.

Lemma update_subscription_settings minAck req s s' resp err :
  GServer.UpdateSubscription minAck req s = GServer.Return s' resp err →
  GServer.topics s' = GServer.topics s
  ∧ GServer.subs s' = GServer.subs s
  ∧ GServer.topicObjs s' = GServer.topicObjs s
  ∧ length (GServer.subObjs s') = length (GServer.subObjs s)
  ∧ ∀ q sub,
      GServer.subObjs s !! q = Some sub →
      ∃ sub',
        GServer.subObjs s' !! q = Some sub'
        ∧ subscription.topic sub' = subscription.topic sub
        ∧ subscription.done sub' = subscription.done sub
        ∧ pb.Subscription.Name (subscription.proto sub')
          = pb.Subscription.Name (subscription.proto sub).
Proof.
  intros H.
  assert (s' = s
          ∨ ∃ p sub paths reqSub,
              GServer.subObjs s !! p = Some sub
              ∧ s' = GServer.set_subObjs
                       (<[p := subscription.set_proto
                                 (GServer.updateSubscriptionPaths minAck paths reqSub
                                    (subscription.proto sub)).1 sub]>
                          (GServer.subObjs s)) s) as [-> | (p & sub & paths & reqSub & Hp & ->)].
  { unfold GServer.UpdateSubscription, GServer.reacting, GServer.fail, GServer.ok in H.
    repeat (case_match; try done); simplify_eq; try (by left).
    all: right; eexists _, _, _, _; split; [eassumption|];
      match goal with
      | Hu : GServer.updateSubscriptionPaths _ _ _ _ = _ |- _ => by rewrite Hu
      end. }
  { split_and!; try done. intros q sub Hq. exists sub. by split_and!. }
  simpl. split_and!; try done.
  { by rewrite length_insert. }
  intros q sub0 Hq. destruct (decide (p = q)) as [->|Hne].
  - rewrite list_lookup_insert_eq by (by eapply lookup_lt_Some).
    rewrite Hp in Hq. injection Hq as <-.
    eexists. split; [done|]. simpl.
    destruct (updateSubscriptionPaths_Name minAck reqSub paths (subscription.proto sub))
      as [HN HT].
    by split_and!.
  - rewrite list_lookup_insert_ne by done. exists sub0. by split_and!.
Qed.

(** X4.  UpdateSubscription, whatever it returns, changes nothing of the
    server but the stored settings (the proto) of subscriptions: the pending
    messages, the streams and the lease time [ackTimeout] of every
    subscription stay as they were, as do its name and its topic.  The lease
    time was fixed when the subscription was created, so an update of
    ack_deadline_seconds does not change for how long pulled messages are
    leased. *)
Theorem update_subscription_changes_settings_only (minAck : Z)
    (req : pb.UpdateSubscriptionRequest.t) (s s' : GServer.t)
    (resp : option pb.Subscription.t) (err : option status.Status) :
  GServer.UpdateSubscription minAck req s = GServer.Return s' resp err →
  GServer.topics s' = GServer.topics s
  ∧ GServer.subs s' = GServer.subs s
  ∧ GServer.msgsByID s' = GServer.msgsByID s
  ∧ GServer.msgs s' = GServer.msgs s
  ∧ GServer.nextID s' = GServer.nextID s
  ∧ GServer.msgObjs s' = GServer.msgObjs s
  ∧ GServer.topicObjs s' = GServer.topicObjs s
  ∧ GServer.streamObjs s' = GServer.streamObjs s
  ∧ length (GServer.subObjs s') = length (GServer.subObjs s)
  ∧ ∀ q sub,
      GServer.subObjs s !! q = Some sub →
      ∃ sub',
        GServer.subObjs s' !! q = Some sub'
        ∧ subscription.msgs sub' = subscription.msgs sub
        ∧ subscription.ackTimeout sub' = subscription.ackTimeout sub
        ∧ subscription.streams sub' = subscription.streams sub
        ∧ subscription.topic sub' = subscription.topic sub
        ∧ subscription.done sub' = subscription.done sub
        ∧ pb.Subscription.Name (subscription.proto sub')
          = pb.Subscription.Name (subscription.proto sub)
        ∧ pb.Subscription.Topic (subscription.proto sub')
          = pb.Subscription.Topic (subscription.proto sub).
Proof.
  intros H.
  assert (s' = s
          ∨ ∃ p sub paths reqSub,
              GServer.subObjs s !! p = Some sub
              ∧ s' = GServer.set_subObjs
                       (<[p := subscription.set_proto
                                 (GServer.updateSubscriptionPaths minAck paths reqSub
                                    (subscription.proto sub)).1 sub]>
                          (GServer.subObjs s)) s) as [-> | (p & sub & paths & reqSub & Hp & ->)].
  { unfold GServer.UpdateSubscription, GServer.reacting, GServer.fail, GServer.ok in H.
    repeat (case_match; try done); simplify_eq; try (by left).
    all: right; eexists _, _, _, _; split; [eassumption|];
      match goal with
      | Hu : GServer.updateSubscriptionPaths _ _ _ _ = _ |- _ => by rewrite Hu
      end. }
  { split_and!; try done. intros q sub Hq. exists sub. by split_and!. }
  simpl. split_and!; try done.
  { by rewrite length_insert. }
  intros q sub0 Hq. destruct (decide (p = q)) as [->|Hne].
  - rewrite list_lookup_insert_eq by (by eapply lookup_lt_Some).
    rewrite Hp in Hq. injection Hq as <-.
    eexists. split; [done|]. simpl.
    destruct (updateSubscriptionPaths_Name minAck reqSub paths (subscription.proto sub))
      as [HN HT].
    by split_and!.
  - rewrite list_lookup_insert_ne by done. exists sub0. by split_and!.
Qed.

Lemma update_subscription_changes_settings_only_witness :
  ∃ s' resp err,
    GServer.UpdateSubscription 10
      (pb.UpdateSubscriptionRequest.mk (Some (demo.subS 20))
         (Some (pb.FieldMask.mk ["ack_deadline_seconds"]))) demo.withSub
    = GServer.Return s' resp err
    ∧ GServer.subs s' = GServer.subs demo.withSub
    ∧ ∃ sub', GServer.subObjs s' !! 0%nat = Some sub'
              ∧ subscription.ackTimeout sub' = 10 * time.Second.
Proof.
  set (req := pb.UpdateSubscriptionRequest.mk (Some (demo.subS 20))
                (Some (pb.FieldMask.mk ["ack_deadline_seconds"]))).
  assert (is_Some (GServer.final (GServer.UpdateSubscription 10 req demo.withSub))) as Hok
    by (apply (bool_decide_unpack _); vm_compute; exact I).
  destruct (GServer.UpdateSubscription 10 req demo.withSub) as [s' resp err|] eqn:H;
    [|by destruct Hok].
  destruct (update_subscription_changes_settings_only 10 req demo.withSub s' resp err H)
    as (_ & Hsubs & _ & _ & _ & _ & _ & _ & _ & Hobj).
  destruct (Hobj 0%nat (demo.subOf demo.withSub)) as (sub' & Hsub' & _ & Hack & _);
    [vm_compute; reflexivity|].
  exists s', resp, err. split_and!; [reflexivity|exact Hsubs|].
  exists sub'. split; [exact Hsub'|]. rewrite Hack. vm_compute. reflexivity.
Defined.

Lemma updateTopicPaths_valid reqTopic : ∀ paths proto,
  Forall (λ p, p = "labels" ∨ p = "message_storage_policy") paths →
  GServer.updateTopicPaths paths reqTopic proto
  = (pb.Topic.mk (pb.Topic.Name proto)
       (if bool_decide ("labels" ∈ paths) then pb.Topic.Labels reqTopic
        else pb.Topic.Labels proto)
       (if bool_decide ("message_storage_policy" ∈ paths)
        then pb.Topic.MessageStoragePolicy reqTopic
        else pb.Topic.MessageStoragePolicy proto),
     None).
Proof.
  induction paths as [|p paths IH]; intros proto Hv; simpl.
  { by destruct proto. }
  apply Forall_cons in Hv as [Hp Hv].
  assert (∀ x y : string, x ≠ y → x ∈ y :: paths ↔ x ∈ paths) as Hin.
  { intros x y Hxy. rewrite elem_of_cons. naive_solver. }
  assert ("message_storage_policy" ≠ "labels") as H1 by discriminate.
  assert ("labels" ≠ "message_storage_policy") as H2 by discriminate.
  destruct Hp as [-> | ->]; simpl; rewrite IH by done; simpl.
  - rewrite (bool_decide_ext _ _ (Hin _ _ H1)). by repeat case_bool_decide.
  - rewrite (bool_decide_ext _ _ (Hin _ _ H2)). by repeat case_bool_decide.
Qed.

(** X5.  UpdateTopic with a mask of known paths returns the stored topic
    after copying from the request exactly the fields the mask names: labels
    and message storage policy are those of the request when named, and
    unchanged otherwise; the name of the stored topic never changes, and
    with an empty mask nothing does.  Nothing else of the server changes. *)
Theorem update_topic_copies_masked_fields (s : GServer.t) (reqTopic : pb.Topic.t)
    (paths : list string) (p : ptr) (t_ : topic.t) :
  unreacted s "UpdateTopic" →
  GServer.topics s !! pb.Topic.Name reqTopic = Some p →
  GServer.topicObjs s !! p = Some t_ →
  Forall (λ x, x = "labels" ∨ x = "message_storage_policy") paths →
  let proto' :=
    pb.Topic.mk (pb.Topic.Name (topic.proto t_))
      (if bool_decide ("labels" ∈ paths) then pb.Topic.Labels reqTopic
       else pb.Topic.Labels (topic.proto t_))
      (if bool_decide ("message_storage_policy" ∈ paths)
       then pb.Topic.MessageStoragePolicy reqTopic
       else pb.Topic.MessageStoragePolicy (topic.proto t_)) in
  GServer.UpdateTopic
    (pb.UpdateTopicRequest.mk (Some reqTopic) (Some (pb.FieldMask.mk paths))) s
  = GServer.ok
      (GServer.set_topicObjs (<[p := topic.set_proto proto' t_]> (GServer.topicObjs s)) s)
      proto'
  ∧ topic.subs (topic.set_proto proto' t_) = topic.subs t_
  ∧ (paths = [] →
     proto' = topic.proto t_
     ∧ GServer.set_topicObjs (<[p := topic.set_proto proto' t_]> (GServer.topicObjs s)) s
       = s).
Proof.
  intros Hre Hp Ht Hv proto'. split_and!.
  - unfold GServer.UpdateTopic. rewrite reacting_unreacted by done. simpl.
    rewrite Hp, Ht. by rewrite updateTopicPaths_valid.
  - done.
  - intros ->. assert (proto' = topic.proto t_) as -> by (by destruct t_ as [[]]).
    split; [done|]. by apply set_topicObjs_id.
Qed.

Lemma update_topic_copies_masked_fields_witness :
  GServer.result
    (GServer.UpdateTopic
       (pb.UpdateTopicRequest.mk (Some scene.labelled) (Some (pb.FieldMask.mk ["labels"])))
       demo.withTopic)
  = Some (Some scene.labelled, None).
Proof.
  rewrite (proj1 (update_topic_copies_masked_fields demo.withTopic scene.labelled
                    ["labels"] 0%nat (topic.newTopic demo.topicT)
                    eq_refl eq_refl eq_refl
                    ltac:(repeat constructor))).
  reflexivity.
Defined.

(** ** Streams *)

Lemma deleteStreamAt_middle (l1 l2 : list ptr) st :
  deleteStreamAt (l1 ++ st :: l2) (length l1) = l1 ++ l2.
Proof.
  unfold deleteStreamAt. induction l1 as [|a l1 IH]; simpl; [by rewrite drop_0|].
  by f_equal.
Qed.

Lemma deleteStream_first st sub l1 l2 :
  subscription.streams sub = l1 ++ st :: l2 →
  st ∉ l1 →
  subscription.deleteStream st sub = subscription.set_streams (l1 ++ l2) sub.
Proof.
  intros Hl Hnot. unfold subscription.deleteStream. rewrite Hl.
  assert (list_find (λ p, p = st) (l1 ++ st :: l2) = Some (length l1, st)) as ->.
  { apply list_find_Some. split_and!; [|done|].
    - by rewrite lookup_app_r, Nat.sub_diag.
    - intros j y Hj Hlt ->. rewrite lookup_app_l in Hj by done.
      apply Hnot. by eapply list_elem_of_lookup_2. }
  by rewrite deleteStreamAt_middle.
Qed.

Lemma deleteStream_absent st sub :
  st ∉ subscription.streams sub → subscription.deleteStream st sub = sub.
Proof.
  intros Hnot. unfold subscription.deleteStream.
  destruct (list_find _ _) as [[i x]|] eqn:Hf; [|done].
  apply list_find_Some in Hf as (Hi & -> & _).
  destruct Hnot. by eapply list_elem_of_lookup_2.
Qed.

(** X6.  Closing a streaming pull undoes opening it: [deleteStream] on the
    stream [newStream] has just added gives back the subscription as it was,
    the streams opened before stay in their order.  In general
    [deleteStream] removes the first occurrence of the stream from the list
    and keeps the order of the others, and does nothing for a stream that is
    not in the list. *)
Theorem delete_stream_undoes_new_stream (self : ptr) (timeout : time.Duration)
    (sub : subscription.t) (streamObjs : list stream.t) :
  (∀ p, p ∈ subscription.streams sub → (p < length streamObjs)%nat) →
  let '(sub1, streamObjs1, st) := subscription.newStream self timeout sub streamObjs in
  streamObjs1 !! st
  = Some (stream.mk self false (subscription.ackTimeout sub) timeout)
  ∧ subscription.streams sub1 = subscription.streams sub ++ [st]
  ∧ subscription.deleteStream st sub1 = sub
  ∧ (∀ st' l1 l2,
       subscription.streams sub = l1 ++ st' :: l2 → st' ∉ l1 →
       subscription.streams (subscription.deleteStream st' sub1) = l1 ++ l2 ++ [st])
  ∧ (∀ st', st' ∉ subscription.streams sub →
            subscription.deleteStream st' sub = sub).
Proof.
  intros Hfresh. unfold subscription.newStream. split_and!.
  - by rewrite lookup_app_r, Nat.sub_diag.
  - done.
  - rewrite (deleteStream_first _ _ (subscription.streams sub) []); simpl.
    + rewrite app_nil_r. by destruct sub.
    + done.
    + intros Hin%Hfresh. lia.
  - intros st' l1 l2 Hl Hnot.
    rewrite (deleteStream_first _ _ l1 (l2 ++ [length streamObjs])); [done| |done].
    simpl. rewrite Hl. by rewrite <- app_assoc.
  - intros st'. apply deleteStream_absent.
Qed.

Lemma delete_stream_undoes_new_stream_witness :
  let sub := demo.subOf demo.withSub in
  subscription.deleteStream 0%nat (subscription.newStream 0%nat 0 sub []).1.1 = sub.
Proof.
  intros sub.
  pose proof (delete_stream_undoes_new_stream 0%nat 0 sub []) as H.
  simpl in H. apply H.
  intros p Hp. vm_compute in Hp. by apply elem_of_nil in Hp.
Defined.

Lemma modifyDeadlines_is_Some ids secs : ∀ i s clock,
  is_Some (subscription.modifyDeadlines i ids secs s clock)
  ↔ ids = [] ∨ (i + length ids ≤ length secs)%nat.
Proof.
  induction ids as [|id ids IH]; intros i s clock; simpl.
  { split; [by left|eauto]. }
  destruct (secs !! i) as [d|] eqn:Hd; simpl.
  - apply lookup_lt_Some in Hd.
    destruct (subscription.modifyAckDeadline _ _ _ _) as [s1 c1].
    rewrite IH. split.
    + intros [->|H]; right; simpl; lia.
    + intros [?|H]; [done|]. right. lia.
  - apply lookup_ge_None in Hd. split; [by intros [? ?]|].
    intros [?|H]; [done|lia].
Qed.

(** X7.  A request on a stream must give a deadline for every id it asks to
    modify: [handleStreamingPullRequest] returns exactly when
    ModifyDeadlineSeconds is at least as long as ModifyDeadlineAckIds, and
    panics (index out of range) otherwise.  When it returns, the ack timeout
    of the stream is the StreamAckDeadlineSeconds of the request if that is
    positive and is left as it was otherwise, and no other stream
    changes. *)
Theorem streaming_request_needs_a_deadline_per_id (st : ptr)
    (req : pb.StreamingPullRequest.t) (s : subscription.t) (msgObjs : list Message.t)
    (streamObjs : list stream.t) (clock : nat) :
  let ids := pb.StreamingPullRequest.ModifyDeadlineAckIds req in
  let secs := pb.StreamingPullRequest.ModifyDeadlineSeconds req in
  let d := pb.StreamingPullRequest.StreamAckDeadlineSeconds req in
  let r := subscription.handleStreamingPullRequest st req s msgObjs streamObjs clock in
  (is_Some r ↔ (length ids ≤ length secs)%nat)
  ∧ ∀ s' msgObjs' streamObjs' clock',
      r = Some (s', msgObjs', streamObjs', clock') →
      length streamObjs' = length streamObjs
      ∧ (∀ q, q ≠ st → streamObjs' !! q = streamObjs !! q)
      ∧ (stream.ackTimeout <$> streamObjs' !! st)
        = ((λ x, if bool_decide (0 < d) then d * time.Second else stream.ackTimeout x)
             <$> streamObjs !! st).
Proof.
  intros ids secs d r. subst r. unfold subscription.handleStreamingPullRequest.
  destruct (foldl _ _ _) as [s1 objs1].
  fold ids secs d.
  pose proof (modifyDeadlines_is_Some ids secs 0 s1 clock) as Hiff.
  destruct (subscription.modifyDeadlines 0 ids secs s1 clock) as [[s2 c2]|] eqn:Hm; simpl.
  - split.
    + split; [|eauto]. intros _. destruct (proj1 Hiff) as [Hnil|H]; [eauto| |lia].
      rewrite Hnil. simpl. lia.
    + intros s' msgObjs' streamObjs' clock' [= <- <- <- <-].
      destruct (decide (d > 0)) as [Hd|Hd].
      * rewrite (bool_decide_eq_true_2 (d > 0)) by done.
        rewrite (bool_decide_eq_true_2 (0 < d)) by lia.
        split_and!.
        -- by rewrite length_alter.
        -- intros q Hq. by rewrite list_lookup_alter_ne.
        -- rewrite list_lookup_alter_eq. by destruct (streamObjs !! st).
      * rewrite (bool_decide_eq_false_2 (d > 0)) by done.
        rewrite (bool_decide_eq_false_2 (0 < d)) by lia.
        split_and!; [done|done|]. by destruct (streamObjs !! st).
  - split; [|done]. split; [by intros [? ?]|].
    intros Hlen. destruct (proj2 Hiff) as [? ?]; [right; lia|done].
Qed.

Lemma deliverLoop_no_streams now streamObjs order : ∀ curIndex s objs chans sent,
  subscription.streams s = [] →
  subscription.deliverLoop now order curIndex s objs streamObjs chans sent
  = Some (s, objs, sent).
Proof.
  induction order as [|id order IH]; intros curIndex s objs chans sent Hs; simpl; [done|].
  destruct (subscription.msgs s !! id) as [m|]; [|by apply IH].
  destruct (message.outstanding m); [by apply IH|].
  unfold subscription.tryDeliverMessage. rewrite Hs. simpl. done.
Qed.

(** X8.  The background delivery of a subscription with no open stream hands
    out nothing and leases nothing: it only does the maintenance sweep, so
    the messages stay available to Pull, and the delivery counters are not
    touched. *)
Theorem deliver_without_streams_only_sweeps (order : list string)
    (chans : list (bool * bool)) (s : subscription.t) (msgObjs : list Message.t)
    (streamObjs : list stream.t) (clock : nat) :
  subscription.streams s = [] →
  subscription.deliver order chans s msgObjs streamObjs clock
  = (λ s', (s', msgObjs, []))
      <$> subscription.maintainMessages (subscription.timeNowFunc s clock) s.
Proof.
  intros Hs. unfold subscription.deliver.
  destruct (subscription.maintainMessages _ s) as [s1|] eqn:Hm; simpl; [|done].
  apply deliverLoop_no_streams.
  unfold subscription.maintainMessages in Hm. case_bool_decide; [|done].
  by injection Hm as <-.
Qed.

Lemma deliver_without_streams_only_sweeps_witness :
  let sub := demo.subOf demo.withMsgs in
  subscription.deliver ["m0"; "m1"] [] sub (GServer.msgObjs demo.withMsgs) [] 2
  = (λ s', (s', GServer.msgObjs demo.withMsgs, []))
      <$> subscription.maintainMessages (subscription.timeNowFunc sub 2) sub.
Proof.
  intros sub. apply deliver_without_streams_only_sweeps. vm_compute. reflexivity.
Defined.

(** ** The size of a pull *)

Lemma pullLoop_length now max order : ∀ s objs acc s' objs' acc',
  subscription.pullLoop now max order s objs acc = (s', objs', acc') →
  Z.of_nat (length acc) < max →
  Z.of_nat (length acc') ≤ max.
Proof.
  induction order as [|id order IH]; intros s objs acc s' objs' acc' H Hlt; simpl in H.
  { injection H as <- <- <-. lia. }
  destruct (subscription.msgs s !! id) as [m|]; [|by eapply IH].
  destruct (message.outstanding m); [by eapply IH|].
  destruct (Z.of_nat (length (acc ++ _)) >=? max) eqn:Hge.
  - injection H as <- <- <-. rewrite length_app in *. simpl in *. lia.
  - eapply IH; [exact H|]. lia.
Qed.

(** X9.  A Pull never returns more messages than asked for: at most
    MaxMessages when that is positive, and at most 1000 when it is zero (not
    specified).  A negative MaxMessages is refused with InvalidArgument
    before anything changes, the clock included. *)
Theorem pull_returns_at_most_max (ctxErr : option status.Status)
    (req : pb.PullRequest.t) (order order' : list string) (s : GServer.t) :
  unreacted s "Pull" →
  let max := pb.PullRequest.MaxMessages req in
  (∀ s' resp err,
     GServer.Pull ctxErr req order order' s = GServer.Return s' (Some resp) err →
     Z.of_nat (length (pb.PullResponse.ReceivedMessages resp))
     ≤ (if bool_decide (max = 0) then 1000 else max))
  ∧ (max < 0 → is_Some (GServer.subs s !! pb.PullRequest.Subscription req) →
     pb.PullRequest.Subscription req ≠ "" →
     GServer.Pull ctxErr req order order' s
     = GServer.fail s codes.InvalidArgument "MaxMessages cannot be negative" []).
Proof.
  intros Hre max.
  assert (∀ p m order s s' l,
            0 < m → GServer.pullAt p m order s = Some (s', l) →
            Z.of_nat (length l) ≤ m) as Hat.
  { intros p m o s0 s1 l Hm H. unfold GServer.pullAt in H.
    destruct (GServer.subObjs s0 !! p) as [sub|]; [|done]. simpl in H.
    unfold subscription.pull in H.
    destruct (subscription.maintainMessages _ sub) as [sub1|]; [|done]. simpl in H.
    destruct (subscription.pullLoop _ _ _ _ _ _) as [[sub2 objs2] l2] eqn:Hloop.
    injection H as <- <-. by eapply pullLoop_length. }
  split.
  - intros s' resp err H. unfold GServer.Pull, GServer.pullFirst in H.
    rewrite runReactor_unreacted in H by done. simpl in H.
    destruct (GServer.findSubscription _ s) as [p|e]; [|done].
    fold max in H. case_bool_decide as Hneg; [done|].
    set (m := if bool_decide (max = 0) then 1000 else max) in *.
    assert (0 < m) as Hm by (subst m; case_bool_decide; lia).
    destruct (GServer.pullAt p m order s) as [[s1 l]|] eqn:Hp1; [|done]. simpl in H.
    destruct (bool_decide (length l = 0%nat) && negb _).
    + destruct ctxErr; [done|]. unfold GServer.pullRetry in H.
      destruct (GServer.pullAt p m order' s1) as [[s2 l2]|] eqn:Hp2; [|done].
      simpl in H. injection H as <- <- <-. simpl. by eapply Hat.
    + injection H as <- <- <-. simpl. by eapply Hat.
  - intros Hneg [p Hp] Hname. unfold GServer.Pull, GServer.pullFirst.
    rewrite runReactor_unreacted by done. simpl.
    rewrite (findSubscription_found _ p) by done.
    fold max. by rewrite bool_decide_eq_true_2.
Qed.

Lemma pull_returns_at_most_max_witness :
  GServer.Pull None (pb.PullRequest.mk "s" true (-1)) [] [] demo.withMsgs
  = GServer.fail demo.withMsgs codes.InvalidArgument "MaxMessages cannot be negative" []
  ∧ ∃ s' resp err,
      GServer.Pull None (pb.PullRequest.mk "s" true 1) ["m0"; "m1"] [] demo.withMsgs
      = GServer.Return s' (Some resp) err
      ∧ Z.of_nat (length (pb.PullResponse.ReceivedMessages resp)) ≤ 1.
Proof.
  split.
  - apply (proj2 (pull_returns_at_most_max None (pb.PullRequest.mk "s" true (-1)) [] []
                    demo.withMsgs eq_refl)).
    + vm_compute. reflexivity.
    + apply (bool_decide_unpack _). vm_compute. exact I.
    + discriminate.
  - assert (is_Some (GServer.result
                       (GServer.Pull None (pb.PullRequest.mk "s" true 1) ["m0"; "m1"] []
                          demo.withMsgs) ≫= fst)) as Hok
      by (apply (bool_decide_unpack _); vm_compute; exact I).
    destruct (GServer.Pull None (pb.PullRequest.mk "s" true 1) ["m0"; "m1"] []
                demo.withMsgs) as [s' [resp|] err|] eqn:H;
      [|by destruct Hok|by destruct Hok].
    exists s', resp, err. split; [reflexivity|].
    exact (proj1 (pull_returns_at_most_max None (pb.PullRequest.mk "s" true 1)
                    ["m0"; "m1"] [] demo.withMsgs eq_refl) s' resp err H).
Defined.

(** ** Publishing to the subscriptions of a topic *)

Lemma fedBy_lookup t_ q : fedBy t_ q ↔ ∃ name, topic.subs t_ !! name = Some q.
Proof.
  unfold fedBy. rewrite list_elem_of_fmap. split.
  - intros ([name q'] & -> & H%elem_of_map_to_list). eauto.
  - intros [name H]. exists (name, q). by rewrite elem_of_map_to_list.
Qed.

Lemma publishedOne_lookup pm t_ s q :
  GServer.subObjs (publishedOne pm t_ s) !! q
  = if decide (fedBy t_ q)
    then published_to
           (stamped (GServer.timeNowFunc s (GServer.clock s)) (GServer.nextID s) pm)
           (length (GServer.msgObjs s))
           (newMessage (GServer.timeNowFunc s (GServer.clock s)) (GServer.nextID s) pm)
           <$> GServer.subObjs s !! q
    else GServer.subObjs s !! q.
Proof. simpl. rewrite publish_lookup. unfold fedBy. by repeat case_decide. Qed.

Lemma publishLoop_frame top : ∀ pms s ids s' ids',
  GServer.publishLoop pms top s ids = Some (s', ids') →
  GServer.topics s' = GServer.topics s
  ∧ GServer.subs s' = GServer.subs s
  ∧ GServer.topicObjs s' = GServer.topicObjs s
  ∧ GServer.streamObjs s' = GServer.streamObjs s
  ∧ GServer.timeNowFunc s' = GServer.timeNowFunc s
  ∧ GServer.clock s' = (GServer.clock s + length pms)%nat
  ∧ length (GServer.msgObjs s') = (length (GServer.msgObjs s) + length pms)%nat
  ∧ length (GServer.subObjs s') = length (GServer.subObjs s).
Proof.
  induction pms as [|pm pms IH]; intros s ids s' ids' Hr.
  { simpl in Hr. injection Hr as <- <-. simpl. split_and!; try done; lia. }
  destruct (GServer.topicObjs s !! top) as [t_|] eqn:Ht;
    [|by rewrite publishLoop_panics in Hr].
  rewrite (publishLoop_cons _ _ _ _ _ _ Ht) in Hr.
  apply IH in Hr as (-> & -> & -> & -> & -> & -> & -> & ->). simpl.
  split_and!; try done; try lia.
  - rewrite length_app. simpl. lia.
  - unfold topic.publish. by rewrite alterAll_length.
Qed.

(** Through the loop of Publish an object the topic does not publish to
    stays as it is, and a pending entry under the id of a counter value
    already used stays as it is. *)
Lemma publishLoop_others top t_ q : ∀ pms s ids s' ids',
  GServer.topicObjs s !! top = Some t_ →
  ¬ fedBy t_ q →
  GServer.publishLoop pms top s ids = Some (s', ids') →
  GServer.subObjs s' !! q = GServer.subObjs s !! q.
Proof.
  induction pms as [|pm pms IH]; intros s ids s' ids' Ht Hq Hr.
  { simpl in Hr. by injection Hr as <- <-. }
  rewrite (publishLoop_cons _ _ _ _ _ _ Ht) in Hr.
  apply IH in Hr; [|done..]. rewrite Hr, publishedOne_lookup. by case_decide.
Qed.

Lemma publishLoop_entry top q n e : ∀ pms s ids s' ids' sub,
  GServer.nextID s + Z.of_nat (length pms) ≤ maxInt64 →
  minInt64 ≤ GServer.nextID s →
  GServer.publishLoop pms top s ids = Some (s', ids') →
  n < GServer.nextID s →
  GServer.subObjs s !! q = Some sub →
  subscription.msgs sub !! GServer.messageID n = Some e →
  ∃ sub', GServer.subObjs s' !! q = Some sub'
          ∧ subscription.msgs sub' !! GServer.messageID n = Some e.
Proof.
  induction pms as [|pm pms IH]; intros s ids s' ids' sub Hhi Hlo Hr Hn Hq He.
  { simpl in Hr. injection Hr as <- <-. eauto. }
  simpl length in Hhi.
  destruct (GServer.topicObjs s !! top) as [t_|] eqn:Ht;
    [|by rewrite publishLoop_panics in Hr].
  rewrite (publishLoop_cons _ _ _ _ _ _ Ht) in Hr.
  assert (GServer.nextID (publishedOne pm t_ s) = GServer.nextID s + 1) as Hn1
    by (simpl; rewrite incr_no_overflow by lia; lia).
  pose proof (publishedOne_lookup pm t_ s q) as Hlook. rewrite Hq in Hlook.
  case_decide.
  - eapply (IH _ _ _ _ _ ltac:(rewrite Hn1; lia) ltac:(rewrite Hn1; lia) Hr
              ltac:(rewrite Hn1; lia) Hlook).
    simpl. rewrite lookup_insert_ne; [done|]. intros ?%(inj _). lia.
  - eapply (IH _ _ _ _ _ ltac:(rewrite Hn1; lia) ltac:(rewrite Hn1; lia) Hr
              ltac:(rewrite Hn1; lia) Hlook). done.
Qed.

Lemma publishLoop_fans_out top t_ q : ∀ pms s ids s' ids' sub,
  GServer.topicObjs s !! top = Some t_ →
  fedBy t_ q →
  GServer.subObjs s !! q = Some sub →
  GServer.nextID s + Z.of_nat (length pms) ≤ maxInt64 →
  minInt64 ≤ GServer.nextID s →
  GServer.publishLoop pms top s ids = Some (s', ids') →
  ∃ sub', GServer.subObjs s' !! q = Some sub'
          ∧ ∀ i pm,
              pms !! i = Some pm →
              subscription.msgs sub' !! GServer.messageID (GServer.nextID s + Z.of_nat i)
              = Some (freshEntry (GServer.timeNowFunc s) (GServer.nextID s)
                        (GServer.clock s) (length (GServer.msgObjs s)) i pm).
Proof.
  induction pms as [|pm pms IH]; intros s ids s' ids' sub Ht Hfed Hq Hhi Hlo Hr.
  { simpl in Hr. injection Hr as <- <-. exists sub. split; [done|]. by intros i pm Hi. }
  simpl length in Hhi.
  rewrite (publishLoop_cons _ _ _ _ _ _ Ht) in Hr.
  assert (GServer.nextID (publishedOne pm t_ s) = GServer.nextID s + 1) as Hn1
    by (simpl; rewrite incr_no_overflow by lia; lia).
  pose proof (publishedOne_lookup pm t_ s q) as Hlook. rewrite Hq in Hlook.
  rewrite decide_True in Hlook by done. simpl in Hlook.
  destruct (IH (publishedOne pm t_ s) _ _ _ _ Ht Hfed Hlook
              ltac:(rewrite Hn1; lia) ltac:(rewrite Hn1; lia) Hr)
    as (sub' & Hsub' & Hrest).
  exists sub'. split; [done|].
  intros [|i] pm' Hi; simpl in Hi.
  - injection Hi as <-.
    destruct (publishLoop_entry top q (GServer.nextID s)
                (freshEntry (GServer.timeNowFunc s) (GServer.nextID s)
                   (GServer.clock s) (length (GServer.msgObjs s)) 0 pm)
                pms (publishedOne pm t_ s) _ _ _ _
                ltac:(rewrite Hn1; lia) ltac:(rewrite Hn1; lia) Hr
                ltac:(rewrite Hn1; lia) Hlook) as (sub'' & Hsub'' & He).
    + simpl. rewrite lookup_insert_eq. unfold freshEntry, stamped. simpl.
      rewrite Z.add_0_r, !Nat.add_0_r. done.
    + rewrite Hsub' in Hsub''. injection Hsub'' as <-. by rewrite Z.add_0_r.
  - specialize (Hrest i pm' Hi). rewrite Hn1 in Hrest. simpl in Hrest.
    rewrite length_app in Hrest. simpl in Hrest.
    replace (GServer.nextID s + Z.of_nat (S i)) with (GServer.nextID s + 1 + Z.of_nat i)
      by lia.
    rewrite Hrest. unfold freshEntry.
    replace (GServer.nextID s + 1 + Z.of_nat i) with (GServer.nextID s + Z.of_nat (S i))
      by lia.
    replace (S (GServer.clock s) + i)%nat with (GServer.clock s + S i)%nat by lia.
    replace (length (GServer.msgObjs s) + 1 + i)%nat
      with (length (GServer.msgObjs s) + S i)%nat by lia.
    done.
Qed.

(** X10.  A successful Publish hands every message of the request to every
    subscription of the topic and to no other: each subscription object the
    topic lists gets, under the id given to the message, an available
    pending entry whose ack id is that id and that carries the message with
    the data, attributes and ordering key of the request, stamped with the
    id and the publish time; every other subscription object is left
    exactly as it was. *)
Theorem publish_fans_out_to_the_subscriptions_of_the_topic (s : GServer.t)
    (req : pb.PublishRequest.t) (top : ptr) (t_ : topic.t) :
  unreacted s "Publish" →
  pb.PublishRequest.Topic req ≠ "" →
  GServer.topics s !! pb.PublishRequest.Topic req = Some top →
  GServer.topicObjs s !! top = Some t_ →
  minInt64 ≤ GServer.nextID s →
  GServer.nextID s + Z.of_nat (length (pb.PublishRequest.Messages req)) ≤ maxInt64 →
  ∃ s' resp,
    GServer.Publish req s = GServer.ok s' resp
    ∧ (∀ name q sub i pm,
         topic.subs t_ !! name = Some q →
         GServer.subObjs s !! q = Some sub →
         pb.PublishRequest.Messages req !! i = Some pm →
         ∃ sub' id e pm',
           GServer.subObjs s' !! q = Some sub'
           ∧ pb.PublishResponse.MessageIds resp !! i = Some id
           ∧ subscription.msgs sub' !! id = Some e
           ∧ message.outstanding e = false
           ∧ message.proto e = pb.ReceivedMessage.mk id (Some pm')
           ∧ pb.PubsubMessage.Data pm' = pb.PubsubMessage.Data pm
           ∧ pb.PubsubMessage.Attributes pm' = pb.PubsubMessage.Attributes pm
           ∧ pb.PubsubMessage.OrderingKey pm' = pb.PubsubMessage.OrderingKey pm
           ∧ pb.PubsubMessage.MessageId pm' = id
           ∧ timestamppb.AsTime (pb.PubsubMessage.PublishTime pm') = message.publishTime e)
    ∧ (∀ q, (∀ name, topic.subs t_ !! name ≠ Some q) →
            GServer.subObjs s' !! q = GServer.subObjs s !! q).
Proof.
  intros Hre Hname Htop Ht Hlo Hhi.
  destruct (publishLoop_ids (pb.PublishRequest.Messages req) top t_ s [] Ht Hlo Hhi)
    as (s' & Hloop & Hn' & _ & _).
  exists s', (pb.PublishResponse.mk
                (GServer.messageID
                   <$> seqZ (GServer.nextID s)
                         (Z.of_nat (length (pb.PublishRequest.Messages req))))).
  split_and!.
  - unfold GServer.Publish. rewrite reacting_unreacted by done.
    destruct (String.eqb_spec (pb.PublishRequest.Topic req) ""); [done|].
    by rewrite Htop, Hloop.
  - intros name q sub i pm Hq Hsub Hi.
    destruct (publishLoop_fans_out top t_ q _ _ _ _ _ sub Ht
                ltac:(apply fedBy_lookup; eauto) Hsub Hhi Hlo Hloop)
      as (sub' & Hsub' & Hent).
    eexists sub', _, _, _. split_and!; [done| |by apply Hent|done..].
    simpl. rewrite list_lookup_fmap, lookup_seqZ_lt; [done|].
    apply lookup_lt_Some in Hi. lia.
  - intros q Hq. eapply (publishLoop_others top t_ q); [done| |done].
    intros [name Hn]%fedBy_lookup. by eapply Hq.
Qed.

Lemma publish_fans_out_to_the_subscriptions_of_the_topic_witness :
  ∃ s' resp sub' e,
    GServer.Publish (pb.PublishRequest.mk "t" [demo.hello]) demo.withSub
    = GServer.ok s' resp
    ∧ GServer.subObjs s' !! 0%nat = Some sub'
    ∧ pb.PublishResponse.MessageIds resp !! 0%nat = Some "m0"
    ∧ subscription.msgs sub' !! "m0" = Some e
    ∧ message.outstanding e = false.
Proof.
  destruct (publish_fans_out_to_the_subscriptions_of_the_topic demo.withSub
              (pb.PublishRequest.mk "t" [demo.hello]) 0%nat
              (topic.mk demo.topicT {["s" := 0%nat]}))
    as (s' & resp & Hpub & Hfan & _).
  - reflexivity.
  - discriminate.
  - vm_compute. reflexivity.
  - vm_compute. reflexivity.
  - vm_compute. discriminate.
  - vm_compute. discriminate.
  - destruct (Hfan "s" 0%nat (demo.subOf demo.withSub) 0%nat demo.hello)
      as (sub' & id & e & pm' & Hsub' & Hid & He & Hout & _);
      [vm_compute; reflexivity..|].
    assert (id = "m0") as ->.
    {       assert (pb.PublishResponse.MessageIds
                <$> (GServer.result
                       (GServer.Publish (pb.PublishRequest.mk "t" [demo.hello])
                          demo.withSub) ≫= fst)
              = Some ["m0"]) as Hr by (vm_compute; reflexivity).
      rewrite Hpub in Hr. simpl in Hr. injection Hr as Hr. rewrite Hr in Hid.
      by injection Hid as <-. }
    exists s', resp, sub', e. by split_and!.
Defined.

(** ** What the operations leave alone in a subscription *)

Lemma same_settings_refl sub : same_settings sub sub.
Proof. done. Qed.

Lemma same_settings_trans s1 s2 s3 :
  same_settings s1 s2 → same_settings s2 s3 → same_settings s1 s3.
Proof.
  unfold same_settings. intros (?&?&?&?&?) (?&?&?&?&?). split_and!; congruence.
Qed.

Lemma same_settings_set_msgs m sub : same_settings sub (subscription.set_msgs m sub).
Proof. done. Qed.

Lemma same_settings_set_streams l sub : same_settings sub (subscription.set_streams l sub).
Proof. done. Qed.

Lemma ack_settings id s objs : same_settings s (subscription.ack id s objs).1.
Proof. unfold subscription.ack. by destruct (subscription.msgs s !! id). Qed.

Lemma ack_fold_settings ids : ∀ s objs,
  same_settings s
    (foldl (λ '(sub, objs) id, subscription.ack id sub objs) (s, objs) ids).1.
Proof.
  induction ids as [|id ids IH]; intros s objs; simpl; [done|].
  pose proof (ack_settings id s objs) as H1.
  destruct (subscription.ack id s objs) as [s1 objs1]. simpl in H1.
  eapply same_settings_trans; [exact H1|apply IH].
Qed.

Lemma modifyAckDeadline_settings id d s clock :
  same_settings s (subscription.modifyAckDeadline id d s clock).1.
Proof.
  unfold subscription.modifyAckDeadline.
  destruct (subscription.msgs s !! id); [|done]. by case_bool_decide.
Qed.

Lemma modifyAckDeadline_fold_settings ids d : ∀ s clock,
  same_settings s
    (foldl (λ '(sub, clock) id, subscription.modifyAckDeadline id d sub clock)
           (s, clock) ids).1.
Proof.
  induction ids as [|id ids IH]; intros s clock; simpl; [done|].
  pose proof (modifyAckDeadline_settings id d s clock) as H1.
  destruct (subscription.modifyAckDeadline id d s clock) as [s1 c1]. simpl in H1.
  eapply same_settings_trans; [exact H1|apply IH].
Qed.

Lemma modifyDeadlines_settings ids secs : ∀ i s clock s' clock',
  subscription.modifyDeadlines i ids secs s clock = Some (s', clock') →
  same_settings s s'.
Proof.
  induction ids as [|id ids IH]; intros i s clock s' clock' H; simpl in H.
  { by injection H as <- <-. }
  destruct (secs !! i) as [d|]; [|done]. simpl in H.
  pose proof (modifyAckDeadline_settings id (secsToDur d) s clock) as H1.
  destruct (subscription.modifyAckDeadline _ _ _ _) as [s1 c1]. simpl in H1.
  eapply same_settings_trans; [exact H1|by eapply IH].
Qed.

Lemma maintainMessages_settings now s s' :
  subscription.maintainMessages now s = Some s' →
  same_settings s s' ∧ subscription.streams s' = subscription.streams s.
Proof.
  unfold subscription.maintainMessages. case_bool_decide; [|done].
  by intros [= <-].
Qed.

Lemma pullLoop_settings now max order : ∀ s objs acc s' objs' acc',
  subscription.pullLoop now max order s objs acc = (s', objs', acc') →
  same_settings s s' ∧ subscription.streams s' = subscription.streams s.
Proof.
  induction order as [|id order IH]; intros s objs acc s' objs' acc' H; simpl in H.
  { by injection H as <- <- <-. }
  destruct (subscription.msgs s !! id) as [m|]; [|by eapply IH].
  destruct (message.outstanding m); [by eapply IH|].
  destruct (_ >=? _); [by injection H as <- <- <-|].
  apply IH in H as [H1 H2]. done.
Qed.

Lemma pull_settings max order s objs clock s' objs' l :
  subscription.pull max order s objs clock = Some (s', objs', l) →
  same_settings s s' ∧ subscription.streams s' = subscription.streams s.
Proof.
  unfold subscription.pull. intros H.
  destruct (subscription.maintainMessages _ s) as [s1|] eqn:Hm; [|done].
  simpl in H. injection H as H.
  apply maintainMessages_settings in Hm as [Hm1 Hm2].
  apply pullLoop_settings in H as [H1 H2].
  split; [by eapply same_settings_trans|congruence].
Qed.

Lemma tryDeliverLoop_settings id start now streamObjs :
  ∀ fuel i s objs chans s' objs' chans' res,
    subscription.tryDeliverLoop fuel i id start now s objs streamObjs chans
    = Some (s', objs', chans', res) →
    same_settings s s'.
Proof.
  induction fuel as [|fuel IH]; intros i s objs chans s' objs' chans' res H; simpl in H.
  { by injection H as <- <- <- <-. }
  case_bool_decide; [|by injection H as <- <- <- <-].
  case_bool_decide; [done|].
  destruct (subscription.streams s !! _) as [p|]; [|done]. simpl in H.
  destruct (streamObjs !! p) as [st|]; [|done]. simpl in H.
  destruct (default _ _) as [recvReady preferDone].
  destruct (subscription.select_ _ _ _).
  - apply IH in H. done.
  - destruct (subscription.msgs s !! id); [|done]. simpl in H.
    by injection H as <- <- <- <-.
  - by apply IH in H.
Qed.

Lemma deliverLoop_settings now streamObjs order :
  ∀ curIndex s objs chans sent s' objs' sent',
    subscription.deliverLoop now order curIndex s objs streamObjs chans sent
    = Some (s', objs', sent') →
    same_settings s s'.
Proof.
  induction order as [|id order IH];
    intros curIndex s objs chans sent s' objs' sent' H; simpl in H.
  { by injection H as <- <- <-. }
  destruct (subscription.msgs s !! id) as [m|]; [|by eapply IH].
  destruct (message.outstanding m); [by eapply IH|].
  destruct (subscription.tryDeliverMessage _ _ _ _ _ _ _)
    as [[[[s1 objs1] chans1] res]|] eqn:Ht; [|done].
  simpl in H. apply tryDeliverLoop_settings in Ht.
  destruct res as [[delIndex st]|].
  - apply IH in H. eapply same_settings_trans; [exact Ht|].
    eapply same_settings_trans; [|exact H]. done.
  - by injection H as <- <- <-.
Qed.

Lemma deliver_settings order chans s objs streamObjs clock s' objs' sent :
  subscription.deliver order chans s objs streamObjs clock = Some (s', objs', sent) →
  same_settings s s'.
Proof.
  unfold subscription.deliver. intros H.
  destruct (subscription.maintainMessages _ s) as [s1|] eqn:Hm; [|done].
  simpl in H. apply maintainMessages_settings in Hm as [Hm _].
  apply deliverLoop_settings in H. by eapply same_settings_trans.
Qed.

Lemma handleStreamingPullRequest_settings st req s objs streamObjs clock
    s' objs' streamObjs' clock' :
  subscription.handleStreamingPullRequest st req s objs streamObjs clock
  = Some (s', objs', streamObjs', clock') →
  same_settings s s'.
Proof.
  unfold subscription.handleStreamingPullRequest. intros H.
  pose proof (ack_fold_settings (pb.StreamingPullRequest.AckIds req) s objs) as H1.
  destruct (foldl _ _ _) as [s1 objs1]. simpl in H1.
  destruct (subscription.modifyDeadlines _ _ _ _ _) as [[s2 c2]|] eqn:Hm; [|done].
  simpl in H. injection H as <- <- <- <-.
  apply modifyDeadlines_settings in Hm. by eapply same_settings_trans.
Qed.

Lemma deleteStream_settings st s : same_settings s (subscription.deleteStream st s).
Proof. unfold subscription.deleteStream. by destruct (list_find _ _) as [[??]|]. Qed.

Lemma seekReinsert_settings target objs : ∀ hist sub sub',
  GServer.seekReinsert target hist objs sub = Some sub' → same_settings sub sub'.
Proof.
  induction hist as [|m hist IH]; intros sub sub' H; simpl in H.
  { by injection H as <-. }
  destruct (objs !! m) as [M|]; [|done]. simpl in H.
  destruct (time.Before _ _); [by eapply IH|].
  apply IH in H. done.
Qed.

Lemma frames_refl s : frames s s.
Proof. unfold frames. split_and!; try done. eauto using same_settings_refl. Qed.

Lemma frames_trans s1 s2 s3 : frames s1 s2 → frames s2 s3 → frames s1 s3.
Proof.
  intros (A1 & A2 & A3 & A4 & H12) (B1 & B2 & B3 & B4 & H23).
  unfold frames. split_and!; try congruence.
  intros q sub Hq. destruct (H12 q sub Hq) as (sub2 & Hq2 & Hs12).
  destruct (H23 q sub2 Hq2) as (sub3 & Hq3 & Hs23).
  eauto using same_settings_trans.
Qed.

Lemma frames_same s s' :
  GServer.topics s' = GServer.topics s →
  GServer.subs s' = GServer.subs s →
  GServer.topicObjs s' = GServer.topicObjs s →
  GServer.subObjs s' = GServer.subObjs s →
  frames s s'.
Proof.
  intros H1 H2 H3 H4. unfold frames. rewrite H1, H2, H3, H4.
  split_and!; try done. eauto using same_settings_refl.
Qed.

Lemma frames_replace s s' p sub sub' :
  GServer.subObjs s' = <[p := sub']> (GServer.subObjs s) →
  GServer.subObjs s !! p = Some sub →
  same_settings sub sub' →
  GServer.topics s' = GServer.topics s →
  GServer.subs s' = GServer.subs s →
  GServer.topicObjs s' = GServer.topicObjs s →
  frames s s'.
Proof.
  intros H4 Hp Hs H1 H2 H3. unfold frames. rewrite H1, H2, H3, H4.
  split_and!; try done.
  - by rewrite length_insert.
  - intros q x Hq. destruct (decide (p = q)) as [->|Hne].
    + rewrite list_lookup_insert_eq by (by eapply lookup_lt_Some).
      rewrite Hp in Hq. injection Hq as <-. eauto.
    + rewrite list_lookup_insert_ne by done. eauto using same_settings_refl.
Qed.

Lemma alterAll_lookup_fwd {A} (f : A → A) (P : A → A → Prop) ps (objs : list A) p x :
  (∀ x, P x x) → (∀ x z, P x z → P x (f z)) →
  objs !! p = Some x → ∃ y, alterAll f ps objs !! p = Some y ∧ P x y.
Proof.
  intros Hrefl Hstep Hx.
  destruct (alterAll f ps objs !! p) as [y|] eqn:Hy.
  - destruct (alterAll_lookup_inv f P ps objs p y Hrefl Hstep Hy) as (x' & Hx' & HP).
    rewrite Hx in Hx'. injection Hx' as <-. eauto.
  - apply lookup_ge_None in Hy. rewrite alterAll_length in Hy.
    apply lookup_lt_Some in Hx. lia.
Qed.

Lemma publishLoop_frames top : ∀ pms s ids s' ids',
  GServer.publishLoop pms top s ids = Some (s', ids') → frames s s'.
Proof.
  induction pms as [|pm pms IH]; intros s ids s' ids' Hr.
  { simpl in Hr. injection Hr as <- <-. apply frames_refl. }
  destruct (GServer.topicObjs s !! top) as [t_|] eqn:Ht;
    [|by rewrite publishLoop_panics in Hr].
  rewrite (publishLoop_cons _ _ _ _ _ _ Ht) in Hr.
  eapply frames_trans; [|by eapply IH].
  unfold frames. simpl. split_and!; try done.
  - unfold topic.publish. by rewrite alterAll_length.
  - intros q sub Hq. unfold topic.publish.
    eapply (alterAll_lookup_fwd _ same_settings); [done| |done].
    intros x z Hxz. eapply same_settings_trans; [exact Hxz|done].
Qed.

(** Every operation other than those that create, update, delete or detach
    a topic or a subscription keeps the names, the topics and the settings
    of every subscription. *)
Lemma step_frames op s s' o :
  step op s = Some (s', o) →
  (∀ x, op ≠ OpCreateTopic x) → (∀ x, op ≠ OpUpdateTopic x) →
  (∀ x, op ≠ OpDeleteTopic x) → (∀ n x, op ≠ OpCreateSubscription n x) →
  (∀ n x, op ≠ OpUpdateSubscription n x) → (∀ x, op ≠ OpDeleteSubscription x) →
  (∀ x, op ≠ OpDetachSubscription x) →
  frames s s'.
Proof.
  intros H H1 H2 H3 H4 H5 H6 H7.
  destruct op; try (by edestruct H1); try (by edestruct H2); try (by edestruct H3);
    try (by edestruct H4); try (by edestruct H5); try (by edestruct H6);
    try (by edestruct H7); clear H1 H2 H3 H4 H5 H6 H7.
  - step_cases H. by apply frames_same.
  - step_cases H. by apply frames_same.
  - step_cases H. by apply frames_same.
  - (* Publish *)
    unfold step, GServer.Publish, GServer.reacting, GServer.ok, GServer.fail in H.
    repeat (case_match; try done); simplify_eq; try apply frames_refl.
    by eapply publishLoop_frames.
  - (* Acknowledge *)
    unfold step, returned, GServer.Acknowledge, GServer.reacting, GServer.ok in H.
    repeat (case_match; try done); simplify_eq; try apply frames_refl.
    all: match goal with
         | Hs : GServer.subObjs _ !! ?p = Some ?sub,
           Hf : foldl _ (?sub, ?objs) ?ids = (?sub', ?objs') |- _ =>
             pose proof (ack_fold_settings ids sub objs) as Hset;
             rewrite Hf in Hset;
             by eapply (frames_replace _ _ p sub sub')
         end.
  - (* ModifyAckDeadline *)
    unfold step, returned, GServer.ModifyAckDeadline, GServer.reacting, GServer.ok in H.
    repeat (case_match; try done); simplify_eq; try apply frames_refl.
    all: match goal with
         | Hs : GServer.subObjs _ !! ?p = Some ?sub,
           Hf : foldl _ (?sub, ?c) ?ids = (?sub', _) |- _ =>
             pose proof (modifyAckDeadline_fold_settings ids
                           (secsToDur (pb.ModifyAckDeadlineRequest.AckDeadlineSeconds req))
                           sub c) as Hset;
             rewrite Hf in Hset;
             by eapply (frames_replace _ _ p sub sub')
         end.
  - (* Pull *)
    unfold step, GServer.pullFirst, GServer.pullAt in H.
    repeat (first [case_match | progress simplify_option_eq]; try done);
      simplify_eq; try apply frames_refl.
    all: match goal with
         | Hs : GServer.subObjs _ !! ?p = Some ?sub,
           Hp : subscription.pull _ _ _ _ _ = Some _ |- _ =>
             apply pull_settings in Hp as [Hp _];
             by eapply (frames_replace _ _ p sub)
         end.
  - (* PullRetry *)
    unfold step, GServer.pullRetry, GServer.pullAt in H.
    repeat (first [case_match | progress simplify_option_eq]; try done);
      simplify_eq.
    all: match goal with
         | Hs : GServer.subObjs _ !! ?p = Some ?sub,
           Hp : subscription.pull _ _ _ _ _ = Some _ |- _ =>
             apply pull_settings in Hp as [Hp _];
             by eapply (frames_replace _ _ p sub)
         end.
  - (* Seek *)
    unfold step, returned, GServer.Seek, GServer.reacting, GServer.ok, GServer.fail in H.
    repeat (case_match; try done); simplify_eq; try apply frames_refl.
    all: match goal with
         | Hs : GServer.subObjs _ !! ?p = Some ?sub,
           Hd : GServer.seekDrop _ ?sub _ = _,
           Hr : GServer.seekReinsert _ _ _ _ = Some _ |- _ =>
             apply seekReinsert_settings in Hr;
             unfold GServer.seekDrop in Hd; injection Hd as <- <-;
             by eapply (frames_replace _ _ p sub)
         end.
  - (* NewStream *)
    step_cases H.
    match goal with
    | Hs : GServer.subObjs _ !! ?p = Some ?sub |- _ =>
        by eapply (frames_replace _ _ p sub)
    end.
  - (* StreamRequest *)
    unfold step, GServer.handleStreamingPullRequest in H. simplify_option_eq.
    repeat (case_match; try done); simplify_eq.
    match goal with
    | Hs : GServer.subObjs _ !! ?p = Some ?sub,
      Hh : subscription.handleStreamingPullRequest _ _ _ _ _ _ = Some _ |- _ =>
        apply handleStreamingPullRequest_settings in Hh;
        by eapply (frames_replace _ _ p sub)
    end.
  - (* CloseStream *) step_cases H. by apply frames_same.
  - (* DeleteStream *)
    step_cases H.
    match goal with
    | Hs : GServer.subObjs _ !! ?p = Some ?sub |- _ =>
        eapply (frames_replace _ _ p sub); try done; apply deleteStream_settings
    end.
  - (* Deliver *)
    unfold step, GServer.deliver in H. simplify_option_eq.
    repeat (case_match; try done); simplify_eq.
    match goal with
    | Hs : GServer.subObjs _ !! ?p = Some ?sub,
      Hd : subscription.deliver _ _ _ _ _ _ = Some _ |- _ =>
        apply deliver_settings in Hd;
        by eapply (frames_replace _ _ p sub)
    end.
Qed.

(** ** The names and the objects of a server agree *)

Lemma Linked_NewServer timeNow opts : Linked (GServer.NewServer timeNow opts).
Proof. split; simpl; try done. Qed.

Lemma Linked_frames s s' : frames s s' → Linked s → Linked s'.
Proof.
  intros (H1 & H2 & H3 & H4 & Hsubs) [Ht Hn Hs Ha].
  split; rewrite ?H1, ?H2, ?H3.
  - done.
  - done.
  - intros name p Hp. destruct (Hs name p Hp) as (sub & Hsub & HN & Hd & Htp).
    destruct (Hsubs p sub Hsub) as (sub' & Hsub' & Hp' & Hd' & Ht' & _).
    exists sub'. rewrite Hp', Hd', Ht'. done.
  - intros tp t_ name p Htp Hp. destruct (Ha tp t_ name p Htp Hp) as (? & sub & Hsub & <-).
    split; [done|].
    destruct (Hsubs p sub Hsub) as (sub' & Hsub' & _ & _ & Ht' & _). eauto.
Qed.

Lemma Linked_CreateTopic t_ s s' resp err :
  GServer.CreateTopic t_ s = GServer.Return s' resp err → Linked s → Linked s'.
Proof.
  intros H [Ht Hn Hs Ha].
  unfold GServer.CreateTopic, GServer.reacting, GServer.ok, GServer.fail in H.
  repeat (case_match; try done); simplify_eq; try done.
  split; simpl.
  - intros n tp [[<- <-]|[Hne Hold]]%lookup_insert_Some.
    + rewrite lookup_app_r, Nat.sub_diag by done. eauto.
    + destruct (Ht n tp Hold) as (x & Hx & HN). exists x. split; [|done].
      by apply lookup_app_l_Some.
  - done.
  - intros name p Hp. destruct (Hs name p Hp) as (sub & ? & ? & ? & [x Hx]).
    exists sub. split_and!; try done. exists x. by apply lookup_app_l_Some.
  - intros tp t' name p [Htp|[_ Htp]]%lookup_app_Some Hp; [eauto|].
    apply list_lookup_singleton_Some in Htp as [_ <-]. done.
Qed.

Lemma updateTopicPaths_Name reqTopic : ∀ paths proto,
  pb.Topic.Name (GServer.updateTopicPaths paths reqTopic proto).1 = pb.Topic.Name proto.
Proof.
  induction paths as [|p paths IH]; intros proto; simpl; [done|].
  repeat (case_match; try done); by rewrite IH.
Qed.

Lemma Linked_UpdateTopic req s s' resp err :
  GServer.UpdateTopic req s = GServer.Return s' resp err → Linked s → Linked s'.
Proof.
  intros H [Ht Hn Hs Ha].
  unfold GServer.UpdateTopic, GServer.reacting, GServer.ok, GServer.fail in H.
  repeat (case_match; try done); simplify_eq; try done.
  all: split; simpl; [| done | |].
  all: try (intros nm tp Hnm; destruct (Ht nm tp Hnm) as (x & Hx & HN);
            match goal with
            | Hp : GServer.topicObjs _ !! ?p = Some ?t0,
              Hu : GServer.updateTopicPaths ?paths ?rt _ = _ |- _ =>
                destruct (decide (p = tp)) as [->|Hne];
                [rewrite list_lookup_insert_eq by (by eapply lookup_lt_Some);
                 eexists; split; [done|]; simpl;
                 rewrite Hp in Hx; injection Hx as <-;
                 pose proof (updateTopicPaths_Name rt paths (topic.proto t0)) as HN';
                 rewrite Hu in HN'; simpl in HN'; congruence
                |rewrite list_lookup_insert_ne by done; eauto]
            end).
  all: try (intros name p' Hp; destruct (Hs name p' Hp) as (sub & ? & ? & ? & [x Hx]);
            exists sub; split_and!; try done;
            apply lookup_lt_is_Some; rewrite length_insert; by eapply lookup_lt_Some).
  all: intros tp t' name q Htp Hq;
    match goal with
    | Hp : GServer.topicObjs _ !! ?p = Some ?t0 |- _ =>
        destruct (decide (p = tp)) as [->|Hne];
        [rewrite list_lookup_insert_eq in Htp by (by eapply lookup_lt_Some);
         injection Htp as <-; simpl in Hq; eauto
        |rewrite list_lookup_insert_ne in Htp by done; eauto]
    end.
Qed.

Lemma stop_settings t_ objs q sub :
  objs !! q = Some sub →
  ∃ sub', topic.stop t_ objs !! q = Some sub'
          ∧ pb.Subscription.Name (subscription.proto sub')
            = pb.Subscription.Name (subscription.proto sub)
          ∧ subscription.done sub' = subscription.done sub
          ∧ subscription.topic sub' = subscription.topic sub
          ∧ subscription.msgs sub' = subscription.msgs sub
          ∧ subscription.ackTimeout sub' = subscription.ackTimeout sub
          ∧ subscription.streams sub' = subscription.streams sub.
Proof.
  intros Hq. unfold topic.stop.
  eapply (alterAll_lookup_fwd _
            (λ x y, pb.Subscription.Name (subscription.proto y)
                    = pb.Subscription.Name (subscription.proto x)
                    ∧ subscription.done y = subscription.done x
                    ∧ subscription.topic y = subscription.topic x
                    ∧ subscription.msgs y = subscription.msgs x
                    ∧ subscription.ackTimeout y = subscription.ackTimeout x
                    ∧ subscription.streams y = subscription.streams x)); [done| |done].
  intros x z (?&?&?&?&?&?). simpl. by split_and!.
Qed.

Lemma Linked_DeleteTopic req s s' resp err :
  GServer.DeleteTopic req s = GServer.Return s' resp err → Linked s → Linked s'.
Proof.
  intros H [Ht Hn Hs Ha].
  unfold GServer.DeleteTopic, GServer.reacting, GServer.ok, GServer.fail in H.
  repeat (case_match; try done); simplify_eq; try done.
  split; simpl.
  - intros nm tp [_ Hold]%lookup_delete_Some. eauto.
  - done.
  - intros name p Hp. destruct (Hs name p Hp) as (sub & Hsub & ? & ? & ?).
    match goal with
    | |- context [topic.stop ?t0 _] =>
        destruct (stop_settings t0 _ _ _ Hsub) as (sub' & Hsub' & HN & Hd & Htp & _)
    end.
    exists sub'. rewrite HN, Hd, Htp. done.
  - intros tp t' name p Htp Hp. destruct (Ha tp t' name p Htp Hp) as (? & sub & Hsub & <-).
    split; [done|].
    match goal with
    | |- context [topic.stop ?t0 _] =>
        destruct (stop_settings t0 _ _ _ Hsub) as (sub' & Hsub' & _ & _ & Htp' & _)
    end.
    eauto.
Qed.

Lemma Linked_CreateSubscription minAck ps s s' resp err :
  GServer.CreateSubscription minAck ps s = GServer.Return s' resp err →
  Linked s → Linked s'.
Proof.
  intros H Hl. pose proof Hl as [Ht Hn Hs Ha].
  unfold GServer.CreateSubscription, GServer.reacting, GServer.ok, GServer.fail in H.
  repeat (case_match; try done); simplify_eq; try done.
  all: repeat match goal with
              | Hname : (_ =? "")%string = false |- _ => apply String.eqb_neq in Hname
              end.
  all: match goal with
       | Hfresh : bool_decide (is_Some (GServer.subs _ !! _)) = false |- _ =>
           apply bool_decide_eq_false in Hfresh;
           rewrite <- eq_None_not_Some in Hfresh
       end.
  all: match goal with
       | Htop : GServer.topics _ !! _ = Some ?top |- _ =>
           destruct (Ht _ _ Htop) as (t0 & Ht0 & HNt0)
       end.
  all: split; simpl.
  all: try (intros nm tp Hnm; destruct (Ht nm tp Hnm) as (x & Hx & HN);
            match goal with
            | |- context [alter ?f ?top _ !! _] =>
                destruct (decide (top = tp)) as [->|Hnetp];
                [rewrite list_lookup_alter_eq, Hx; simpl; eauto
                |rewrite list_lookup_alter_ne by done; eauto]
            end).
  all: try (rewrite lookup_insert_ne; done).
  all: try (intros name p [[<- <-]|[Hne Hold]]%lookup_insert_Some;
            [eexists; split_and!;
             [by rewrite lookup_app_r, Nat.sub_diag|by repeat case_bool_decide|done|];
             simpl; apply lookup_lt_is_Some; rewrite length_alter;
             by eapply lookup_lt_Some
            |destruct (Hs name p Hold) as (sub & Hsub & ? & ? & [x Hx]);
             exists sub; split_and!; try done;
             [by apply lookup_app_l_Some
             |apply lookup_lt_is_Some; rewrite length_alter; by eapply lookup_lt_Some]]).
  all: intros tp t' name q Htp Hq;
    match goal with
    | Htop : GServer.topics _ !! _ = Some ?top |- _ =>
        destruct (decide (top = tp)) as [->|Hnetp];
        [rewrite list_lookup_alter_eq, Ht0 in Htp; simpl in Htp; injection Htp as <-;
         simpl in Hq;
         apply lookup_insert_Some in Hq as [[<- <-]|[Hne Hold]];
         [split; [by rewrite lookup_insert_eq|];
          eexists; split; [by rewrite lookup_app_r, Nat.sub_diag|done]
         |destruct (Ha _ _ _ _ Ht0 Hold) as (Hs0 & sub & Hsub & Htp0);
          split; [by rewrite lookup_insert_ne|];
          exists sub; split; [by apply lookup_app_l_Some|done]]
        |rewrite list_lookup_alter_ne in Htp by done;
         destruct (Ha _ _ _ _ Htp Hq) as (Hs0 & sub & Hsub & Htp0);
         split; [rewrite lookup_insert_ne; [done|congruence]|];
         exists sub; split; [by apply lookup_app_l_Some|done]]
    end.
Qed.

Lemma Linked_UpdateSubscription minAck req s s' resp err :
  GServer.UpdateSubscription minAck req s = GServer.Return s' resp err →
  Linked s → Linked s'.
Proof.
  intros H [Ht Hn Hs Ha].
  destruct (update_subscription_settings minAck req s s' resp err H)
    as (H1 & H2 & H3 & Hlen & Hsubs).
  split; rewrite ?H1, ?H2, ?H3; try done.
  - intros name p Hp. destruct (Hs name p Hp) as (sub & Hsub & HN & Hd & Htp).
    destruct (Hsubs p sub Hsub) as (sub' & Hsub' & Ht' & Hd' & HN').
    exists sub'. rewrite Ht', Hd', HN'. done.
  - intros tp t_ name p Htp Hp. destruct (Ha tp t_ name p Htp Hp) as (? & sub & Hsub & <-).
    split; [done|].
    destruct (Hsubs p sub Hsub) as (sub' & Hsub' & Ht' & _). eauto.
Qed.

Lemma Linked_DeleteSubscription req s s' resp err :
  GServer.DeleteSubscription req s = GServer.Return s' resp err →
  Linked s → Linked s'.
Proof.
  intros H Hl. pose proof Hl as [Ht Hn Hs Ha].
  unfold GServer.DeleteSubscription, GServer.reacting, GServer.ok, GServer.fail,
    GServer.findSubscription in H.
  repeat (case_match; try done); simplify_eq; try done.
  match goal with
  | Hb : GServer.subObjs s !! ?p ≫= _ = Some ?sub' |- _ =>
      destruct (GServer.subObjs s !! p) as [sub|] eqn:Hsub; [|done];
      simpl in Hb; unfold subscription.stop in Hb;
      destruct (subscription.done sub) eqn:Hdone; [done|];
      injection Hb as <-
  end.
  match goal with
  | Hp : GServer.subs s !! ?name = Some ?p |- _ =>
      destruct (Hs _ _ Hp) as (sub0 & Hsub0 & HN & _ & Hvalid);
      rewrite Hsub in Hsub0; injection Hsub0 as <-
  end.
  split; simpl.
  - intros nm tp Hnm. destruct (Ht nm tp Hnm) as (x & Hx & HNx).
    match goal with
    | |- context [alter ?f ?top _ !! _] =>
        destruct (decide (top = tp)) as [->|Hnetp];
        [rewrite list_lookup_alter_eq, Hx; simpl; eauto
        |rewrite list_lookup_alter_ne by done; eauto]
    end.
  - rewrite lookup_delete_ne; [done|]. intros Heq.
    match goal with
    | Hp : GServer.subs s !! _ = Some _ |- _ => rewrite Heq in Hp; congruence
    end.
  - intros name q [Hne Hq]%lookup_delete_Some.
    destruct (Hs name q Hq) as (sub1 & Hsub1 & HN1 & Hd1 & [x Hx]).
    exists sub1. split_and!; try done.
    + rewrite list_lookup_insert_ne; [done|]. intros <-. congruence.
    + apply lookup_lt_is_Some. rewrite length_alter. by eapply lookup_lt_Some.
  - intros tp t' name q Htp Hq.
    assert (∃ t0, GServer.topicObjs s !! tp = Some t0 ∧ topic.subs t0 !! name = Some q
                  ∧ (tp = subscription.topic sub
                     → name ≠ pb.Subscription.Name (subscription.proto sub)))
      as (t0 & Ht0 & Hq0 & Hnot).
    { destruct (decide (subscription.topic sub = tp)) as [<-|Hnetp].
      - rewrite list_lookup_alter_eq in Htp.
        destruct (GServer.topicObjs s !! subscription.topic sub) as [t0|]; [|done].
        simpl in Htp. injection Htp as <-. simpl in Hq.
        apply lookup_delete_Some in Hq as [Hne Hq].
        exists t0. split_and!; [done|done|]. intros _ Heq. by rewrite Heq in Hne.
      - rewrite list_lookup_alter_ne in Htp by done.
        exists t'. split_and!; [done|done|]. intros Heq. by rewrite Heq in Hnetp. }
    destruct (Ha tp t0 name q Ht0 Hq0) as (Hs0 & sub1 & Hsub1 & Htp1).
    destruct (Hs name q Hs0) as (sub2 & Hsub2 & HN2 & _).
    rewrite Hsub1 in Hsub2. injection Hsub2 as <-.
    assert (name ≠ pb.Subscription.Name (subscription.proto sub)) as Hname.
    { intros ->. rewrite HN in *.
      match goal with
      | Hp : GServer.subs s !! _ = Some ?p |- _ =>
          rewrite Hp in Hs0; injection Hs0 as <-
      end.
      rewrite Hsub in Hsub1. injection Hsub1 as <-. by apply Hnot. }
    split.
    + rewrite lookup_delete_ne; [done|]. rewrite <- HN. congruence.
    + exists sub1. split; [|done].
      rewrite list_lookup_insert_ne; [done|]. intros <-.
      rewrite Hsub in Hsub1. injection Hsub1 as <-. done.
Qed.

Lemma Linked_DetachSubscription req s s' resp err :
  GServer.DetachSubscription req s = GServer.Return s' resp err →
  Linked s → Linked s'.
Proof.
  intros H Hl. pose proof Hl as [Ht Hn Hs Ha].
  unfold GServer.DetachSubscription, GServer.reacting, GServer.ok, GServer.fail in H.
  repeat (case_match; try done); simplify_eq; try done.
  split; simpl.
  - intros nm tp Hnm. destruct (Ht nm tp Hnm) as (x & Hx & HNx).
    match goal with
    | |- context [alter ?f ?top _ !! _] =>
        destruct (decide (top = tp)) as [->|Hnetp];
        [rewrite list_lookup_alter_eq, Hx; simpl; eauto
        |rewrite list_lookup_alter_ne by done; eauto]
    end.
  - done.
  - intros name q Hq. destruct (Hs name q Hq) as (sub1 & Hsub1 & HN1 & Hd1 & [x Hx]).
    exists sub1. split_and!; try done.
    apply lookup_lt_is_Some. rewrite length_alter. by eapply lookup_lt_Some.
  - intros tp t' name q Htp Hq.
    match goal with
    | _ : GServer.subObjs s !! _ = Some ?sub |- _ =>
        destruct (decide (subscription.topic sub = tp)) as [<-|Hnetp];
        [rewrite list_lookup_alter_eq in Htp;
         destruct (GServer.topicObjs s !! subscription.topic sub) as [t0|] eqn:Ht0;
         [|done];
         simpl in Htp; injection Htp as <-; simpl in Hq;
         apply lookup_delete_Some in Hq as [Hne Hq]; eauto
        |rewrite list_lookup_alter_ne in Htp by done; eauto]
    end.
Qed.

(** Every operation keeps the names and the objects tied together. *)
Lemma Linked_step op s s' o : step op s = Some (s', o) → Linked s → Linked s'.
Proof.
  intros H Hl.
  destruct op;
    try (apply (Linked_frames s); [|done];
         by eapply step_frames; [exact H|intros; discriminate..]).
  all: simpl in H; unfold returned in H.
  - destruct (GServer.CreateTopic _ _) eqn:Hc; [|done]. injection H as <- <-.
    by eapply Linked_CreateTopic.
  - destruct (GServer.UpdateTopic _ _) eqn:Hc; [|done]. injection H as <- <-.
    by eapply Linked_UpdateTopic.
  - destruct (GServer.DeleteTopic _ _) eqn:Hc; [|done]. injection H as <- <-.
    by eapply Linked_DeleteTopic.
  - destruct (GServer.CreateSubscription _ _ _) eqn:Hc; [|done]. injection H as <- <-.
    by eapply Linked_CreateSubscription.
  - destruct (GServer.UpdateSubscription _ _ _) eqn:Hc; [|done]. injection H as <- <-.
    by eapply Linked_UpdateSubscription.
  - destruct (GServer.DeleteSubscription _ _) eqn:Hc; [|done]. injection H as <- <-.
    by eapply Linked_DeleteSubscription.
  - destruct (GServer.DetachSubscription _ _) eqn:Hc; [|done]. injection H as <- <-.
    by eapply Linked_DetachSubscription.
Qed.

Lemma Linked_run ops : ∀ s s' obs,
  run ops s = Some (s', obs) → Linked s → Linked s'.
Proof.
  induction ops as [|op ops IH]; intros s s' obs Hrun Hl; simpl in Hrun.
  { by injection Hrun as <- <-. }
  destruct (step op s) as [[s1 o]|] eqn:Hstep; [|done]. simpl in Hrun.
  destruct (run ops s1) as [[s2 obs2]|] eqn:Hrun2; [|done]. simpl in Hrun.
  injection Hrun as <- <-.
  eapply IH; [done|]. by eapply Linked_step.
Qed.

Lemma publishLoop_is_Some top : ∀ pms s ids,
  is_Some (GServer.topicObjs s !! top) → is_Some (GServer.publishLoop pms top s ids).
Proof.
  induction pms as [|pm pms IH]; intros s ids [t_ Ht]; simpl; [eauto|].
  rewrite Ht. simpl. apply IH. simpl. eauto.
Qed.

(** X11.  The calls that manage topics and subscriptions, Publish and
    Acknowledge, while the server is open: in every state reached from a
    state in which names and objects agree (a new server is in such a state)
    by a run of the operations (the RPCs, the steps of streams and of
    delivery, SetTimeNowFunc, SetStreamTimeout and ClearMessages; not
    Server.Close, which leaves stopped subscriptions registered), and with
    no reactor registered for the call, CreateTopic, DeleteTopic,
    CreateSubscription, DeleteSubscription, DetachSubscription, Publish and
    Acknowledge return for every request, with a response or an error: they
    never panic, and in particular DeleteSubscription never closes the
    channel of a subscription twice.  The two updates dereference fields of
    the request without a check: UpdateTopic returns exactly when the
    request carries a topic and either carries a mask or names no topic of
    the server, and UpdateSubscription returns exactly when the request
    carries a mask or names no subscription of the server; otherwise they
    panic. *)
Theorem calls_return_while_the_server_is_open (ops : list Op) (s0 s : GServer.t)
    (obs : list Obs) :
  Linked s0 →
  run ops s0 = Some (s, obs) →
  (unreacted s "CreateTopic" → ∀ t_, is_Some (GServer.final (GServer.CreateTopic t_ s)))
  ∧ (unreacted s "DeleteTopic" →
     ∀ req, is_Some (GServer.final (GServer.DeleteTopic req s)))
  ∧ (unreacted s "UpdateTopic" →
     ∀ req,
       is_Some (GServer.final (GServer.UpdateTopic req s))
       ↔ ∃ t_, pb.UpdateTopicRequest.Topic req = Some t_
               ∧ (is_Some (pb.UpdateTopicRequest.UpdateMask req)
                  ∨ GServer.topics s !! pb.Topic.Name t_ = None))
  ∧ (unreacted s "CreateSubscription" →
     ∀ minAck ps, is_Some (GServer.final (GServer.CreateSubscription minAck ps s)))
  ∧ (unreacted s "UpdateSubscription" →
     ∀ minAck req,
       is_Some (GServer.final (GServer.UpdateSubscription minAck req s))
       ↔ is_Some (pb.UpdateSubscriptionRequest.UpdateMask req)
         ∨ ∀ ps, pb.UpdateSubscriptionRequest.Subscription req = Some ps →
                 GServer.subs s !! pb.Subscription.Name ps = None)
  ∧ (unreacted s "DeleteSubscription" →
     ∀ req, is_Some (GServer.final (GServer.DeleteSubscription req s)))
  ∧ (unreacted s "DetachSubscription" →
     ∀ req, is_Some (GServer.final (GServer.DetachSubscription req s)))
  ∧ (unreacted s "Publish" → ∀ req, is_Some (GServer.final (GServer.Publish req s)))
  ∧ (unreacted s "Acknowledge" →
     ∀ req, is_Some (GServer.final (GServer.Acknowledge req s))).
Proof.
  intros Hl0 Hrun. pose proof (Linked_run ops s0 s obs Hrun Hl0) as [Ht _ Hs _].
  split_and!; intros Hre; intros.
  - unfold GServer.CreateTopic. rewrite reacting_unreacted by done.
    case_bool_decide; simpl; eauto.
  - unfold GServer.DeleteTopic. rewrite reacting_unreacted by done.
    destruct (GServer.topics s !! _) as [p|] eqn:Hp; [|simpl; eauto].
    destruct (Ht _ _ Hp) as (t0 & -> & _). simpl. eauto.
  - unfold GServer.UpdateTopic. rewrite reacting_unreacted by done.
    destruct req as [[reqTopic|] mask]; simpl.
    2:{ split; [by intros [? ?]|]. by intros (? & ? & _). }
    destruct (GServer.topics s !! pb.Topic.Name reqTopic) as [p|] eqn:Hp.
    2:{ simpl. split; [|eauto]. intros _. exists reqTopic. eauto. }
    destruct (Ht _ _ Hp) as (t0 & -> & _).
    destruct mask as [mask|]; simpl.
    + destruct (GServer.updateTopicPaths _ _ _) as [proto [e|]]; simpl;
        (split; [|eauto]); intros _; exists reqTopic; eauto.
    + split; [by intros [? ?]|].
      intros (t_ & [= <-] & [[? ?]|Hnone]); [done|congruence].
  - unfold GServer.CreateSubscription. rewrite reacting_unreacted by done.
    repeat (case_match; try done); simpl; eauto.
  - unfold GServer.UpdateSubscription.
    destruct req as [[reqSub|] mask]; simpl.
    2:{ split; [|eauto]. intros _. right. by intros ps. }
    rewrite reacting_unreacted by done.
    assert (GServer.subs s !! pb.Subscription.Name reqSub = None →
            is_Some (GServer.final
                       (match GServer.findSubscription (pb.Subscription.Name reqSub) s with
                        | inl p =>
                            match GServer.subObjs s !! p, mask with
                            | Some sub, Some mask =>
                                let '(proto, err) :=
                                  GServer.updateSubscriptionPaths minAck
                                    (pb.FieldMask.Paths mask) reqSub
                                    (subscription.proto sub) in
                                let s :=
                                  GServer.set_subObjs
                                    (<[p := subscription.set_proto proto sub]>
                                       (GServer.subObjs s)) s in
                                match err with
                                | Some e => GServer.Return s None (Some e)
                                | None => GServer.ok s proto
                                end
                            | _, _ => GServer.Panic
                            end
                        | inr err => GServer.Return s None (Some err)
                        end))) as Hunbound.
    { intros Hnone. unfold GServer.findSubscription.
      destruct (String.eqb _ _); [simpl; eauto|]. rewrite Hnone. simpl. eauto. }
    destruct (GServer.subs s !! pb.Subscription.Name reqSub) as [p|] eqn:Hp.
    2:{ split; [|by intros; apply Hunbound]. intros _. right. by intros ps [= <-]. }
    assert (pb.Subscription.Name reqSub ≠ "") as Hname.
    { intros Heq. rewrite Heq in Hp.
      rewrite (lk_named s (Linked_run ops s0 s obs Hrun Hl0)) in Hp. done. }
    rewrite (findSubscription_found _ p) by done.
    destruct (Hs _ _ Hp) as (sub & -> & _).
    destruct mask as [mask|]; simpl.
    + destruct (GServer.updateSubscriptionPaths _ _ _ _) as [proto [e|]]; simpl;
        (split; [|eauto]); intros _; left; eauto.
    + split; [by intros [? ?]|].
      intros [[? ?]|Hnone]; [done|]. specialize (Hnone reqSub eq_refl). congruence.
  - unfold GServer.DeleteSubscription. rewrite reacting_unreacted by done.
    unfold GServer.findSubscription. destruct (String.eqb _ _); [simpl; eauto|].
    destruct (GServer.subs s !! _) as [p|] eqn:Hp; [|simpl; eauto]. simpl.
    destruct (Hs _ _ Hp) as (sub & -> & _ & Hd & _). simpl.
    unfold subscription.stop. rewrite Hd. simpl. eauto.
  - unfold GServer.DetachSubscription. rewrite reacting_unreacted by done.
    unfold GServer.findSubscription. destruct (String.eqb _ _); [simpl; eauto|].
    destruct (GServer.subs s !! _) as [p|] eqn:Hp; [|simpl; eauto]. simpl.
    destruct (Hs _ _ Hp) as (sub & -> & _). simpl. eauto.
  - unfold GServer.Publish. rewrite reacting_unreacted by done.
    destruct (String.eqb _ _); [simpl; eauto|].
    destruct (GServer.topics s !! _) as [p|] eqn:Hp; [|simpl; eauto].
    destruct (Ht _ _ Hp) as (t0 & Ht0 & _).
    destruct (publishLoop_is_Some p (pb.PublishRequest.Messages req) s [])
      as [[s1 ids] ->]; [eauto|simpl; eauto].
  - unfold GServer.Acknowledge. rewrite reacting_unreacted by done.
    unfold GServer.findSubscription. destruct (String.eqb _ _); [simpl; eauto|].
    destruct (GServer.subs s !! _) as [p|] eqn:Hp; [|simpl; eauto]. simpl.
    destruct (Hs _ _ Hp) as (sub & -> & _).
    destruct (foldl _ _ _). simpl. eauto.
Qed.

Lemma calls_return_while_the_server_is_open_witness :
  let s := demo.after
             (demo.setup ++ [OpDeleteSubscription (pb.DeleteSubscriptionRequest.mk "s");
                             OpCreateSubscription 10 (demo.subS 10)])
             demo.s0 in
  is_Some (GServer.final
             (GServer.DeleteSubscription (pb.DeleteSubscriptionRequest.mk "s") s))
  ∧ is_Some (GServer.final
               (GServer.UpdateTopic
                  (pb.UpdateTopicRequest.mk (Some (pb.Topic.mk "nope" ∅ None)) None) s))
  ∧ ¬ is_Some (GServer.final
                 (GServer.UpdateTopic (pb.UpdateTopicRequest.mk (Some demo.topicT) None) s))
  ∧ ¬ is_Some (GServer.final
                 (GServer.UpdateSubscription 10
                    (pb.UpdateSubscriptionRequest.mk (Some (demo.subS 10)) None) s)).
Proof.
  intros s.
  set (ops := demo.setup ++ [OpDeleteSubscription (pb.DeleteSubscriptionRequest.mk "s");
                             OpCreateSubscription 10 (demo.subS 10)]).
  destruct (calls_return_while_the_server_is_open ops demo.s0 s (demo.shown ops demo.s0))
    as (_ & _ & HUT & _ & HUS & HDS & _).
  - apply Linked_NewServer.
  - apply run_after. apply (bool_decide_unpack _). vm_compute. exact I.
  - assert (unreacted s "DeleteSubscription") as H1 by (vm_compute; reflexivity).
    assert (unreacted s "UpdateTopic") as H2 by (vm_compute; reflexivity).
    assert (unreacted s "UpdateSubscription") as H3 by (vm_compute; reflexivity).
    split_and!.
    + apply (HDS H1).
    + apply (HUT H2). eexists. split; [reflexivity|]. right. vm_compute. reflexivity.
    + intros (t_ & Heq & [[m Hm]|Hnone])%(HUT H2); simpl in *.
      * discriminate.
      * injection Heq as <-. vm_compute in Hnone. discriminate.
    + intros [[m Hm]|Hnone]%(HUS H3 10); simpl in *.
      * discriminate.
      * specialize (Hnone (demo.subS 10) eq_refl). vm_compute in Hnone. discriminate.
Defined.

(** ** Subscriptions that no topic publishes to *)

Lemma backlog_refl p s : backlog p s s.
Proof. intros sub' k e' Hp He. left. eauto using same_core_refl. Qed.

Lemma backlog_trans p s1 s2 s3 : backlog p s1 s2 → backlog p s2 s3 → backlog p s1 s3.
Proof.
  intros H12 H23 sub3 k e3 Hp He.
  destruct (H23 sub3 k e3 Hp He) as [(sub2 & e2 & Hp2 & He2 & Hc23)|Hbare]; [|by right].
  destruct (H12 sub2 k e2 Hp2 He2) as [(sub1 & e1 & Hp1 & He1 & Hc12)|Hbare].
  - left. exists sub1, e1. split_and!; [done|done|by eapply same_core_trans].
  - right. destruct Hc23 as [<- _]. done.
Qed.

Lemma step_unfed op s s' o p :
  step op s = Some (s', o) →
  (p < length (GServer.subObjs s))%nat →
  ¬ fed s p →
  (p < length (GServer.subObjs s'))%nat ∧ ¬ fed s' p.
Proof.
  intros H Hp Hnot.
  assert (frames s s' → (p < length (GServer.subObjs s'))%nat ∧ ¬ fed s' p) as Hframes.
  { intros (H1 & H2 & H3 & H4 & _). split; [lia|].
    unfold fed. by rewrite H1, H3. }
  destruct op;
    try (apply Hframes; by eapply step_frames; [exact H|intros; discriminate..]).
  all: clear Hframes; simpl in H; unfold returned in H.
  - (* CreateTopic *)
    unfold GServer.CreateTopic, GServer.reacting, GServer.ok, GServer.fail in H.
    repeat (case_match; try done); simplify_eq; try done.
    simpl. split; [done|]. intros (n & tp & t' & Hn & Htp & Hfed).
    simpl in Hn, Htp. apply lookup_insert_Some in Hn as [[<- <-]|[Hne Hn]].
    + rewrite lookup_app_r, Nat.sub_diag in Htp by done. injection Htp as <-.
      apply fedBy_lookup in Hfed as [name Hname]. done.
    + apply lookup_app_Some in Htp as [Htp|[_ Htp]].
      * apply Hnot. by exists n, tp, t'.
      * apply list_lookup_singleton_Some in Htp as [_ <-].
        apply fedBy_lookup in Hfed as [name Hname]. done.
  - (* UpdateTopic *)
    unfold GServer.UpdateTopic, GServer.reacting, GServer.ok, GServer.fail in H.
    repeat (case_match; try done); simplify_eq; try done.
    all: simpl; split; [done|]; intros (n' & tp & t' & Hn & Htp & Hfed);
      simpl in Hn, Htp; apply Hnot.
    all: match goal with
         | Hq : GServer.topicObjs _ !! ?q = Some ?t0 |- _ =>
             destruct (decide (q = tp)) as [->|Hne];
             [rewrite list_lookup_insert_eq in Htp by (by eapply lookup_lt_Some);
              injection Htp as <-; by exists n', tp, t0
             |rewrite list_lookup_insert_ne in Htp by done; by exists n', tp, t']
         end.
  - (* DeleteTopic *)
    unfold GServer.DeleteTopic, GServer.reacting, GServer.ok, GServer.fail in H.
    repeat (case_match; try done); simplify_eq; try done.
    simpl. split; [unfold topic.stop; by rewrite alterAll_length|].
    intros (n' & tp & t' & Hn & Htp & Hfed). simpl in Hn, Htp.
    apply lookup_delete_Some in Hn as [_ Hn]. apply Hnot. by exists n', tp, t'.
  - (* CreateSubscription *)
    unfold GServer.CreateSubscription, GServer.reacting, GServer.ok, GServer.fail in H.
    repeat (case_match; try done); simplify_eq; try done.
    all: simpl; split; [rewrite length_app; lia|].
    all: intros (n' & tp & t' & Hn & Htp & Hfed); simpl in Hn, Htp; apply Hnot.
    all: match goal with
         | _ : GServer.topics _ !! _ = Some ?top |- _ =>
             destruct (decide (top = tp)) as [->|Hne];
             [rewrite list_lookup_alter_eq in Htp;
              destruct (GServer.topicObjs _ !! tp) as [t0|] eqn:Ht0; [|done];
              simpl in Htp; injection Htp as <-;
              exists n', tp, t0; split_and!; [done|done|];
              apply fedBy_lookup in Hfed as [name Hname]; simpl in Hname;
              apply lookup_insert_Some in Hname as [[_ <-]|[_ Hname]]; [lia|];
              apply fedBy_lookup; eauto
             |rewrite list_lookup_alter_ne in Htp by done; by exists n', tp, t']
         end.
  - (* UpdateSubscription *)
    destruct (GServer.UpdateSubscription _ _ _) eqn:Hu; [|done]. injection H as <- <-.
    apply update_subscription_settings in Hu as (H1 & H2 & H3 & H4 & _).
    split; [lia|]. unfold fed. by rewrite H1, H3.
  - (* DeleteSubscription *)
    unfold GServer.DeleteSubscription, GServer.reacting, GServer.ok, GServer.fail in H.
    repeat (case_match; try done); simplify_eq; try done.
    simpl. split; [by rewrite length_insert|].
    intros (n' & tp & t' & Hn & Htp & Hfed). simpl in Hn, Htp. apply Hnot.
    match type of Htp with
    | alter ?f ?top _ !! _ = _ =>
        destruct (decide (top = tp)) as [Heq|Hne];
        [rewrite Heq in Htp; rewrite list_lookup_alter_eq in Htp;
         destruct (GServer.topicObjs _ !! tp) as [t0|] eqn:Ht0; [|done];
         simpl in Htp; injection Htp as <-;
         exists n', tp, t0; split_and!; [done|done|];
         apply fedBy_lookup in Hfed as [name Hname]; simpl in Hname;
         apply lookup_delete_Some in Hname as [_ Hname];
         apply fedBy_lookup; eauto
        |rewrite list_lookup_alter_ne in Htp by done; by exists n', tp, t']
    end.
  - (* DetachSubscription *)
    unfold GServer.DetachSubscription, GServer.reacting, GServer.ok, GServer.fail in H.
    repeat (case_match; try done); simplify_eq; try done.
    simpl. split; [done|].
    intros (n' & tp & t' & Hn & Htp & Hfed). simpl in Hn, Htp. apply Hnot.
    match type of Htp with
    | alter ?f ?top _ !! _ = _ =>
        destruct (decide (top = tp)) as [Heq|Hne];
        [rewrite Heq in Htp; rewrite list_lookup_alter_eq in Htp;
         destruct (GServer.topicObjs _ !! tp) as [t0|] eqn:Ht0; [|done];
         simpl in Htp; injection Htp as <-;
         exists n', tp, t0; split_and!; [done|done|];
         apply fedBy_lookup in Hfed as [name Hname]; simpl in Hname;
         apply lookup_delete_Some in Hname as [_ Hname];
         apply fedBy_lookup; eauto
        |rewrite list_lookup_alter_ne in Htp by done; by exists n', tp, t']
    end.
Qed.

Lemma Publish_unfed req s s' resp err p :
  ¬ fed s p →
  GServer.Publish req s = GServer.Return s' resp err →
  GServer.subObjs s' !! p = GServer.subObjs s !! p.
Proof.
  intros Hnot H.
  unfold GServer.Publish, GServer.reacting, GServer.ok, GServer.fail in H.
  repeat (case_match; try done); simplify_eq; try done.
  match goal with
  | Htop : GServer.topics s !! _ = Some ?top,
    Hloop : GServer.publishLoop ?pms _ _ _ = Some _ |- _ =>
      destruct (GServer.topicObjs s !! top) as [t_|] eqn:Ht;
      [eapply (publishLoop_others top t_ p); [done| |exact Hloop];
       intros Hfed; apply Hnot; by eexists _, top, t_
      |destruct pms; [simpl in Hloop; by simplify_eq
                     |by rewrite publishLoop_panics in Hloop]]
  end.
Qed.

Lemma step_backlog op s s' o p :
  WF s →
  unreacted s "Pull" →
  GServer.nextID s + published [op] ≤ maxInt64 →
  ¬ fed s p →
  step op s = Some (s', o) →
  backlog p s s'.
Proof.
  intros Hwf Hre Hhi Hnot H.
  assert ((∃ req, op = OpPublish req) ∨ (∀ req, op ≠ OpPublish req))
    as [[req ->]|Hnp] by (destruct op; eauto).
  - simpl in H. destruct (GServer.Publish req s) as [s1 resp err|] eqn:HP; [|done].
    injection H as <- <-. intros sub' k e' Hp He. left.
    rewrite (Publish_unfed _ _ _ _ _ _ Hnot HP) in Hp. eauto using same_core_refl.
  - pose proof (step_advances _ _ _ _ Hwf Hre Hhi H) as (_ & _ & Hent & _).
    pose proof (WF_step _ _ _ _ Hwf Hre Hhi H) as Hwf'.
    pose proof (step_nextID _ _ _ _ H Hnp) as Hn.
    intros sub' k e' Hp He.
    destruct (Hent p sub' k e' Hp He) as [(sub & e & ? & ? & ?)|[Hbare|(n & Hge & Hk)]].
    + left. eauto.
    + by right.
    + destruct (wf_entries s' Hwf' p sub' k e' Hp He) as (_ & Hk' & _ & (M & HM & _) & _).
      apply lookup_lt_Some in HM.
      rewrite Hk' in Hk. apply (inj _) in Hk.
      pose proof (wf_nextID s Hwf). pose proof (wf_nextID s' Hwf'). lia.
Qed.

Lemma run_backlog ops p : ∀ s s' obs,
  WF s →
  unreacted s "Pull" →
  GServer.nextID s + published ops ≤ maxInt64 →
  (p < length (GServer.subObjs s))%nat →
  ¬ fed s p →
  run ops s = Some (s', obs) →
  backlog p s s' ∧ ¬ fed s' p.
Proof.
  induction ops as [|op ops IH]; intros s s' obs Hwf Hre Hhi Hp Hnot Hrun; simpl in Hrun.
  { injection Hrun as <- <-. split; [apply backlog_refl|done]. }
  destruct (step op s) as [[s1 o]|] eqn:Hstep; [|done]. simpl in Hrun.
  destruct (run ops s1) as [[s2 obs2]|] eqn:Hrun2; [|done]. simpl in Hrun.
  injection Hrun as <- <-.
  pose proof (published_nonneg ops) as Hpos.
  assert (published (op :: ops) = published [op] + published ops) as Hsplit
    by (destruct op; simpl; lia).
  pose proof (published_nonneg [op]) as Hpos1.
  assert (WF s1) as Hwf1 by (eapply WF_step; [done|done| |done]; lia).
  assert (backlog p s s1) as Hb1 by (eapply step_backlog; [done|done| |done|done]; lia).
  destruct (step_unfed _ _ _ _ p Hstep Hp Hnot) as [Hp1 Hnot1].
  assert (GServer.nextID s1 ≤ GServer.nextID s + published [op]) as Hn1.
  { apply (step_nextID_le _ _ _ _ Hstep); [|lia].
    pose proof (wf_nextID s Hwf). unfold minInt64. lia. }
  destruct (IH s1 s2 obs2) as [Hb2 Hnot2];
    [exact Hwf1|by eapply step_unreacted|lia|exact Hp1|exact Hnot1|exact Hrun2|].
  split; [by eapply backlog_trans|done].
Qed.

(** X12.  A subscription object that no topic of the server publishes to
    any more (its subscription was detached or deleted, or its topic was
    deleted) never gets a new message, whatever the server does afterwards,
    creating topics and subscriptions of the same names and publishing to
    them included: every pending entry with a message it has later is one it
    had then, and every message a pull on it returns is the message of an
    entry that was pending then, under the same ack id. *)
Theorem unfed_subscription_serves_only_its_backlog (ops : list Op) (s s' : GServer.t)
    (obs : list Obs) (p : ptr) :
  WF s →
  unreacted s "Pull" →
  GServer.nextID s + published ops ≤ maxInt64 →
  (p < length (GServer.subObjs s))%nat →
  (∀ n tp t_ name,
     GServer.topics s !! n = Some tp → GServer.topicObjs s !! tp = Some t_ →
     topic.subs t_ !! name ≠ Some p) →
  run ops s = Some (s', obs) →
  (∀ sub' k e' pm,
     GServer.subObjs s' !! p = Some sub' → subscription.msgs sub' !! k = Some e' →
     pb.ReceivedMessage.Message (message.proto e') = Some pm →
     ∃ sub e, GServer.subObjs s !! p = Some sub
              ∧ subscription.msgs sub !! k = Some e
              ∧ message.proto e = message.proto e')
  ∧ (∀ max order s'' l r,
       GServer.pullAt p max order s' = Some (s'', l) → r ∈ l →
       ∃ sub e, GServer.subObjs s !! p = Some sub
                ∧ subscription.msgs sub !! pb.ReceivedMessage.AckId r = Some e
                ∧ message.proto e = r)
  ∧ (∀ n tp t_ name,
       GServer.topics s' !! n = Some tp → GServer.topicObjs s' !! tp = Some t_ →
       topic.subs t_ !! name ≠ Some p).
Proof.
  intros Hwf Hre Hhi Hp Hnot Hrun.
  assert (¬ fed s p) as Hnot'.
  { intros (n & tp & t_ & Hn & Htp & [name Hname]%fedBy_lookup). by eapply Hnot. }
  destruct (run_backlog ops p s s' obs Hwf Hre Hhi Hp Hnot' Hrun) as [Hb Hnot2].
  pose proof (WF_run ops s s' obs Hwf Hre Hhi Hrun) as Hwf'.
  assert (∀ sub' k e' pm,
            GServer.subObjs s' !! p = Some sub' → subscription.msgs sub' !! k = Some e' →
            pb.ReceivedMessage.Message (message.proto e') = Some pm →
            ∃ sub e, GServer.subObjs s !! p = Some sub
                     ∧ subscription.msgs sub !! k = Some e
                     ∧ message.proto e = message.proto e') as Hold.
  { intros sub' k e' pm Hsub' He' Hpm.
    destruct (Hb sub' k e' Hsub' He') as [(sub & e & Hsub & He & Hc & _)|Hbare].
    - eauto.
    - by rewrite Hbare in Hpm. }
  split_and!; [done| |].
  - intros max order s'' l r Hpull Hr. unfold GServer.pullAt in Hpull.
    destruct (GServer.subObjs s' !! p) as [sub'|] eqn:Hsub'; [|done]. simpl in Hpull.
    destruct (subscription.pull _ _ _ _ _) as [[[sub1 objs1] l1]|] eqn:Hp1; [|done].
    simpl in Hpull. injection Hpull as <- <-.
    apply pull_evolves in Hp1 as (_ & _ & Hfrom).
    destruct (Hfrom r Hr) as (k & e' & He' & <- & [pm Hpm]).
    destruct (wf_entries s' Hwf' p sub' k e' Hsub' He') as (_ & _ & -> & _).
    by eapply Hold.
  - intros n tp t_ name Hn Htp Hname. apply Hnot2.
    exists n, tp, t_. split_and!; [done|done|]. apply fedBy_lookup. eauto.
Qed.

Lemma unfed_subscription_serves_only_its_backlog_witness :
  let detach := OpDetachSubscription (pb.DetachSubscriptionRequest.mk "s") in
  let s := demo.after (demo.setup ++ [demo.publish2; detach]) demo.s0 in
  let s' := demo.after [demo.publish2] s in
  ∃ s'' l,
    GServer.pullAt 0%nat 10 ["m0"; "m1"; "m2"; "m3"] s' = Some (s'', l)
    ∧ Forall (λ r, ∃ sub e, GServer.subObjs s !! 0%nat = Some sub
                            ∧ subscription.msgs sub !! pb.ReceivedMessage.AckId r = Some e
                            ∧ message.proto e = r) l.
Proof.
  intros detach s s'.
  assert (is_Some (GServer.pullAt 0%nat 10 ["m0"; "m1"; "m2"; "m3"] s')) as Hok
    by (apply (bool_decide_unpack _); vm_compute; exact I).
  destruct (GServer.pullAt 0%nat 10 ["m0"; "m1"; "m2"; "m3"] s') as [[s'' l]|] eqn:H;
    [|by destruct Hok].
  exists s'', l. split; [reflexivity|]. apply Forall_forall. intros r Hr.
  refine (proj1 (proj2 (unfed_subscription_serves_only_its_backlog [demo.publish2] s s'
                          (demo.shown [demo.publish2] s) 0%nat _ _ _ _ _ _))
            10 ["m0"; "m1"; "m2"; "m3"] s'' l r H Hr).
  - apply WF_demo; [apply (bool_decide_unpack _); vm_compute; exact I|].
    vm_compute. discriminate.
  - vm_compute. reflexivity.
  - vm_compute. discriminate.
  - vm_compute. lia.
  - intros n tp t_ name Hn Htp Hname.
    assert (n = "t" ∧ tp = 0%nat) as [-> ->].
    { assert (GServer.topics s = {["t" := 0%nat]}) as Ht by (vm_compute; reflexivity).
      rewrite Ht in Hn. apply lookup_singleton_Some in Hn as [<- <-].
      split; reflexivity. }
    assert (GServer.topicObjs s !! 0%nat = Some (topic.mk demo.topicT ∅)) as Ht
      by (vm_compute; reflexivity).
    rewrite Ht in Htp. injection Htp as <-.
    exact (lookup_empty_Some _ _ Hname).
  - apply run_after. apply (bool_decide_unpack _). vm_compute. exact I.
Defined.

(** X13.  DetachSubscription on an existing subscription returns success and
    takes the subscription off its topic without touching anything else: the
    name stays bound, the subscription keeps its settings and its pending
    messages, so Pull and Acknowledge go on working on what it holds; but no
    topic of the server publishes to it any more, and a Publish, to whatever
    topic, leaves it as it is. *)
Theorem detach_stops_the_feed_only (s : GServer.t) (name : string) (p : ptr) :
  Linked s →
  unreacted s "DetachSubscription" →
  GServer.subs s !! name = Some p →
  ∃ s',
    GServer.DetachSubscription (pb.DetachSubscriptionRequest.mk name) s = GServer.ok s' ()
    ∧ GServer.subs s' = GServer.subs s
    ∧ GServer.subObjs s' = GServer.subObjs s
    ∧ GServer.topics s' = GServer.topics s
    ∧ GServer.msgObjs s' = GServer.msgObjs s
    ∧ (∀ n tp t_ name',
         GServer.topics s' !! n = Some tp → GServer.topicObjs s' !! tp = Some t_ →
         topic.subs t_ !! name' ≠ Some p)
    ∧ (∀ req s'' resp err,
         GServer.Publish req s' = GServer.Return s'' resp err →
         GServer.subObjs s'' !! p = GServer.subObjs s !! p).
Proof.
  intros [Ht Hn Hs Ha] Hre Hp.
  destruct (Hs name p Hp) as (sub & Hsub & HN & Hd & Hvalid).
  assert (name ≠ "") as Hname by (intros ->; congruence).
  eexists. split.
  { unfold GServer.DetachSubscription. rewrite reacting_unreacted by done. simpl.
    rewrite (findSubscription_found _ p) by done. by rewrite Hsub. }
  simpl.
  assert (∀ n tp t_ name',
            GServer.topics s !! n = Some tp →
            alter (topic.deleteSub sub) (subscription.topic sub) (GServer.topicObjs s) !! tp
            = Some t_ →
            topic.subs t_ !! name' ≠ Some p) as Hunfed.
  { intros n tp t_ name' Hntp Htp Hname'.
    destruct (decide (subscription.topic sub = tp)) as [Heq|Hne].
    - rewrite <- Heq in Htp. rewrite list_lookup_alter_eq in Htp.
      destruct (GServer.topicObjs s !! subscription.topic sub) as [t0|] eqn:Ht0; [|done].
      simpl in Htp. injection Htp as <-. simpl in Hname'.
      apply lookup_delete_Some in Hname' as [Hne Hname'].
      destruct (Ha _ _ _ _ Ht0 Hname') as (Hs' & _).
      destruct (Hs _ _ Hs') as (sub1 & Hsub1 & HN1 & _).
      rewrite Hsub in Hsub1. injection Hsub1 as <-. congruence.
    - rewrite list_lookup_alter_ne in Htp by done.
      destruct (Ha _ _ _ _ Htp Hname') as (_ & sub1 & Hsub1 & Htp1).
      rewrite Hsub in Hsub1. injection Hsub1 as <-. done. }
  split_and!; try done.
  intros req s'' resp err HP.
  apply (Publish_unfed _ _ _ _ _ p) in HP; [done|].
  intros (n & tp & t_ & Hntp & Htp & [name' Hname']%fedBy_lookup).
  by eapply Hunfed.
Qed.

Lemma detach_stops_the_feed_only_witness :
  ∃ s',
    GServer.DetachSubscription (pb.DetachSubscriptionRequest.mk "s") demo.withMsgs
    = GServer.ok s' ()
    ∧ GServer.subs s' = GServer.subs demo.withMsgs
    ∧ GServer.subObjs s' = GServer.subObjs demo.withMsgs.
Proof.
  destruct (detach_stops_the_feed_only demo.withMsgs "s" 0%nat)
    as (s' & H1 & H2 & H3 & _).
  - apply (Linked_run (demo.setup ++ [demo.publish2]) demo.s0 _
             (demo.shown (demo.setup ++ [demo.publish2]) demo.s0));
      [|apply Linked_NewServer].
    apply run_after. apply (bool_decide_unpack _). vm_compute. exact I.
  - reflexivity.
  - vm_compute. reflexivity.
  - exists s'. split_and!; [exact H1|exact H2|exact H3].
Defined.

Lemma deleted_topic_idemp sub :
  subscription.set_proto
    (topic.deleted_topic
       (subscription.proto
          (subscription.set_proto (topic.deleted_topic (subscription.proto sub)) sub)))
    (subscription.set_proto (topic.deleted_topic (subscription.proto sub)) sub)
  = subscription.set_proto (topic.deleted_topic (subscription.proto sub)) sub.
Proof. done. Qed.

(** X14.  DeleteTopic on an existing topic returns success, forgets the name
    of the topic and deletes no subscription: every subscription name stays
    bound and every subscription keeps its pending messages, its lease time
    and its name.  The subscriptions the topic still listed have the topic
    of their settings replaced by "_deleted-topic_" and are no longer
    published to by any topic of the server; all the other subscriptions are
    exactly as they were.  A Publish to the name now fails with NotFound,
    and a missing topic is reported with NotFound without any change. *)
Theorem delete_topic_keeps_the_subscriptions (s : GServer.t) (n : string) :
  Linked s →
  unreacted s "DeleteTopic" →
  unreacted s "Publish" →
  (GServer.topics s !! n = None →
   GServer.DeleteTopic (pb.DeleteTopicRequest.mk n) s
   = GServer.fail s codes.NotFound "topic %q" [status.ArgString n])
  ∧ (∀ tp t_,
       GServer.topics s !! n = Some tp →
       GServer.topicObjs s !! tp = Some t_ →
       ∃ s',
         GServer.DeleteTopic (pb.DeleteTopicRequest.mk n) s = GServer.ok s' ()
         ∧ GServer.topics s' = delete n (GServer.topics s)
         ∧ GServer.subs s' = GServer.subs s
         ∧ GServer.msgObjs s' = GServer.msgObjs s
         ∧ (∀ q sub,
              GServer.subObjs s !! q = Some sub →
              ∃ sub',
                GServer.subObjs s' !! q = Some sub'
                ∧ subscription.msgs sub' = subscription.msgs sub
                ∧ subscription.ackTimeout sub' = subscription.ackTimeout sub
                ∧ pb.Subscription.Name (subscription.proto sub')
                  = pb.Subscription.Name (subscription.proto sub)
                ∧ ((∀ name, topic.subs t_ !! name ≠ Some q) → sub' = sub)
                ∧ ∀ name,
                    topic.subs t_ !! name = Some q →
                    pb.Subscription.Topic (subscription.proto sub') = "_deleted-topic_"
                    ∧ ∀ n' tp' t' name',
                        GServer.topics s' !! n' = Some tp' →
                        GServer.topicObjs s' !! tp' = Some t' →
                        topic.subs t' !! name' ≠ Some q)
         ∧ (∀ pms, n ≠ "" →
              GServer.Publish (pb.PublishRequest.mk n pms) s'
              = GServer.fail s' codes.NotFound "topic %q" [status.ArgString n])).
Proof.
  intros [Ht Hn Hs Ha] Hre Hrep. split.
  { intros Hnone. unfold GServer.DeleteTopic. rewrite reacting_unreacted by done.
    simpl. by rewrite Hnone. }
  intros tp t_ Htp Ht_. eexists. split.
  { unfold GServer.DeleteTopic. rewrite reacting_unreacted by done. simpl.
    by rewrite Htp, Ht_. }
  simpl. split_and!; try done.
  - intros q sub Hq.
    destruct (stop_settings t_ _ _ _ Hq) as (sub' & Hq' & HN & Hd & Htop & Hm & Hat & Hst).
    exists sub'. split_and!; try done.
    + intros Hnot. unfold topic.stop in Hq'.
      rewrite alterAll_lookup_notin in Hq'; [congruence|].
      intros [name Hname]%fedBy_lookup. by eapply Hnot.
    + intros name Hname. unfold topic.stop in Hq'.
      rewrite alterAll_lookup_idemp in Hq'.
      2:{ intros x. apply deleted_topic_idemp. }
      2:{ apply fedBy_lookup. eauto. }
      rewrite Hq in Hq'. simpl in Hq'. injection Hq' as <-. split; [done|].
      intros n' tp' t' name' [Hne Hn']%lookup_delete_Some Htp' Hname'.
      destruct (Ha _ _ _ _ Ht_ Hname) as (_ & sub1 & Hsub1 & Htop1).
      destruct (Ha _ _ _ _ Htp' Hname') as (_ & sub2 & Hsub2 & Htop2).
      rewrite Hsub1 in Hsub2. injection Hsub2 as <-.
      rewrite Htop1 in Htop2. subst tp'.
      destruct (Ht _ _ Htp) as (t1 & Ht1 & HN1).
      destruct (Ht _ _ Hn') as (t2 & Ht2 & HN2).
      rewrite Ht1 in Ht2. injection Ht2 as <-. congruence.
  - intros pms Hne. unfold GServer.Publish.
    rewrite reacting_unreacted by done. simpl.
    destruct (String.eqb_spec n ""); [done|]. by rewrite lookup_delete_eq.
Qed.

Lemma delete_topic_keeps_the_subscriptions_witness :
  ∃ s',
    GServer.DeleteTopic (pb.DeleteTopicRequest.mk "t") demo.withMsgs = GServer.ok s' ()
    ∧ GServer.subs s' = GServer.subs demo.withMsgs
    ∧ GServer.Publish (pb.PublishRequest.mk "t" [demo.hello]) s'
      = GServer.fail s' codes.NotFound "topic %q" [status.ArgString "t"].
Proof.
  destruct (delete_topic_keeps_the_subscriptions demo.withMsgs "t") as [_ H].
  - apply (Linked_run (demo.setup ++ [demo.publish2]) demo.s0 _
             (demo.shown (demo.setup ++ [demo.publish2]) demo.s0));
      [|apply Linked_NewServer].
    apply run_after. apply (bool_decide_unpack _). vm_compute. exact I.
  - reflexivity.
  - reflexivity.
  - destruct (H 0%nat (topic.mk demo.topicT {["s" := 0%nat]}))
      as (s' & H1 & _ & H3 & _ & _ & H6); [vm_compute; reflexivity..|].
    exists s'. split_and!; [exact H1|exact H3|]. apply H6. discriminate.
Defined.

(** X15.  The calls that work on a subscription report a name they cannot
    resolve before they change anything: the empty name with
    InvalidArgument "missing subscription", a name that is not bound with
    NotFound; the server stays as it was.  DeleteSubscription unbinds the
    name, so after a successful delete every such call on the name, a
    second delete included, gets NotFound; a subscription of that name can
    be created again. *)
Theorem unknown_subscription_is_reported (s : GServer.t) (name : string) :
  let err :=
    if String.eqb name ""
    then status.Errorf codes.InvalidArgument "missing subscription" []
    else status.Errorf codes.NotFound "subscription %s" [status.ArgString name] in
  GServer.subs s !! name = None →
  (unreacted s "Acknowledge" →
   ∀ ids, GServer.Acknowledge (pb.AcknowledgeRequest.mk name ids) s
          = GServer.Return s None (Some err))
  ∧ (unreacted s "ModifyAckDeadline" →
     ∀ wallNow ids secs,
       GServer.ModifyAckDeadline wallNow (pb.ModifyAckDeadlineRequest.mk name ids secs) s
       = GServer.Return s None (Some err))
  ∧ (unreacted s "Pull" →
     ∀ ctxErr ri max order order',
       GServer.Pull ctxErr (pb.PullRequest.mk name ri max) order order' s
       = GServer.Return s None (Some err))
  ∧ (unreacted s "Seek" →
     ∀ v, GServer.Seek (pb.SeekRequest.mk name (Some (pb.SeekRequest_Time v))) s
          = GServer.Return s None (Some err))
  ∧ (unreacted s "DeleteSubscription" →
     GServer.DeleteSubscription (pb.DeleteSubscriptionRequest.mk name) s
     = GServer.Return s None (Some err))
  ∧ (unreacted s "DetachSubscription" →
     GServer.DetachSubscription (pb.DetachSubscriptionRequest.mk name) s
     = GServer.Return s None (Some err))
  ∧ (unreacted s "UpdateSubscription" →
     ∀ minAck ps mask,
       pb.Subscription.Name ps = name →
       GServer.UpdateSubscription minAck
         (pb.UpdateSubscriptionRequest.mk (Some ps) mask) s
       = GServer.Return s None (Some err))
  ∧ (∀ s0 name0 s1 resp,
       unreacted s0 "DeleteSubscription" →
       GServer.DeleteSubscription (pb.DeleteSubscriptionRequest.mk name0) s0
       = GServer.Return s1 resp None →
       GServer.subs s1 !! name0 = None ∧ name0 ≠ "").
Proof.
  intros err Hnone.
  assert (GServer.findSubscription name s = inr err) as Hfind.
  { unfold GServer.findSubscription, err. destruct (String.eqb name ""); [done|].
    by rewrite Hnone. }
  split_and!; [intros Hre; intros..|].
  - unfold GServer.Acknowledge. rewrite reacting_unreacted by done. simpl.
    by rewrite Hfind.
  - unfold GServer.ModifyAckDeadline. rewrite reacting_unreacted by done. simpl.
    by rewrite Hfind.
  - unfold GServer.Pull, GServer.pullFirst. rewrite runReactor_unreacted by done.
    simpl. by rewrite Hfind.
  - unfold GServer.Seek. simpl. rewrite reacting_unreacted by done. by rewrite Hfind.
  - unfold GServer.DeleteSubscription. rewrite reacting_unreacted by done. simpl.
    by rewrite Hfind.
  - unfold GServer.DetachSubscription. rewrite reacting_unreacted by done. simpl.
    by rewrite Hfind.
  - unfold GServer.UpdateSubscription. simpl. rewrite reacting_unreacted by done.
    subst name. by rewrite Hfind.
  - intros s0 name0 s1 resp Hre H.
    unfold GServer.DeleteSubscription in H. rewrite reacting_unreacted in H by done.
    unfold GServer.findSubscription, GServer.ok in H.
    simpl in H. repeat (case_match; try done); simplify_eq.
    simpl. split; [by rewrite lookup_delete_eq|]. by apply String.eqb_neq.
Qed.

Lemma unknown_subscription_is_reported_witness :
  GServer.Acknowledge (pb.AcknowledgeRequest.mk "nope" ["m0"]) demo.withMsgs
  = GServer.Return demo.withMsgs None
      (Some (status.Errorf codes.NotFound "subscription %s" [status.ArgString "nope"])).
Proof.
  apply (proj1 (unknown_subscription_is_reported demo.withMsgs "nope"
                  ltac:(vm_compute; reflexivity))).
  reflexivity.
Defined.

(** ** Leases *)

Lemma set_ackDeadline_twice d e :
  message.set_ackDeadline d (message.set_ackDeadline d e) = message.set_ackDeadline d e.
Proof. done. Qed.

(** The loop of [pull]: an entry is left as it was or, if it was available,
    leased until [now + ackTimeout]; what the loop adds to the answer are
    protos of entries that were available and are leased now. *)
Lemma pullLoop_leases now max order : ∀ s objs acc s' objs' acc',
  subscription.pullLoop now max order s objs acc = (s', objs', acc') →
  let d := time.Add now (subscription.ackTimeout s) in
  (∀ k e, subscription.msgs s !! k = Some e →
          subscription.msgs s' !! k = Some e
          ∨ (message.outstanding e = false
             ∧ subscription.msgs s' !! k = Some (message.set_ackDeadline d e)))
  ∧ ∃ new, acc' = acc ++ new
           ∧ ∀ r, r ∈ new →
                  ∃ k e, subscription.msgs s !! k = Some e
                         ∧ message.outstanding e = false
                         ∧ message.proto e = r
                         ∧ subscription.msgs s' !! k
                           = Some (message.set_ackDeadline d e).
Proof.
  induction order as [|id order IH]; intros s objs acc s' objs' acc' H d; simpl in H.
  { injection H as <- <- <-. split; [eauto|]. exists []. rewrite app_nil_r.
    split; [done|]. intros r Hr. by apply elem_of_nil in Hr. }
  destruct (subscription.msgs s !! id) as [m|] eqn:Hm; [|by eapply IH].
  destruct (message.outstanding m) eqn:Hout; [by eapply IH|].
  set (m' := message.set_ackDeadline (time.Add now (subscription.ackTimeout s)) m) in *.
  set (s1 := subscription.set_msgs (<[id := m']> (subscription.msgs s)) s) in *.
  assert (∀ s2,
            (∀ k e, subscription.msgs s1 !! k = Some e →
                    subscription.msgs s2 !! k = Some e
                    ∨ (message.outstanding e = false
                       ∧ subscription.msgs s2 !! k = Some (message.set_ackDeadline d e))) →
            (∀ k e, subscription.msgs s !! k = Some e →
                    subscription.msgs s2 !! k = Some e
                    ∨ (message.outstanding e = false
                       ∧ subscription.msgs s2 !! k = Some (message.set_ackDeadline d e)))
            ∧ subscription.msgs s2 !! id = Some m') as Hconv.
  { intros s2 H1.
    assert (subscription.msgs s2 !! id = Some m') as Hid.
    { destruct (H1 id m') as [?|[_ ?]]; [by simpl; rewrite lookup_insert_eq|done|done]. }
    split; [|done]. intros k e He. destruct (decide (k = id)) as [->|Hne].
    - rewrite Hm in He. injection He as <-. right. done.
    - apply H1. simpl. by rewrite lookup_insert_ne. }
  destruct (_ >=? _).
  - injection H as <- <- <-.
    destruct (Hconv s1) as [H3 Hid]; [eauto|].
    split; [done|]. exists [message.proto m']. split; [done|].
    intros r ->%list_elem_of_singleton. exists id, m. by split_and!.
  - apply IH in H as [H1 (new & -> & Hnew)].
    destruct (Hconv s' H1) as [H3 Hid].
    split; [done|]. exists (message.proto m' :: new).
    split; [by rewrite <- app_assoc|].
    intros r [->|Hr]%elem_of_cons.
    + exists id, m. by split_and!.
    + destruct (Hnew r Hr) as (k & e1 & He1 & Hout1 & <- & Hs').
      destruct (decide (k = id)) as [->|Hne].
      * simpl in He1. rewrite lookup_insert_eq in He1. injection He1 as <-.
        exists id, m. by split_and!.
      * simpl in He1. rewrite lookup_insert_ne in He1 by done.
        exists k, e1. by split_and!.
Qed.

(** What the sweep leaves of an entry that carries a message. *)
Lemma maintainMessages_lookup now s s' k :
  subscription.maintainMessages now s = Some s' →
  subscription.msgs s' !! k
  = subscription.msgs s !! k ≫= λ e, mjoin (subscription.sweep now e).
Proof.
  intros H. apply maintainMessages_inv in H as [_ ->]. simpl.
  by rewrite lookup_omap.
Qed.

Lemma sweep_kept now e e1 :
  subscription.sweep now e = Some (Some e1) →
  (e1 = e ∧ message.outstanding e = true ∧ message.ackDeadline e >= now)
  ∨ (e1 = message.makeAvailable e
     ∧ (message.outstanding e = false ∨ message.ackDeadline e < now)).
Proof.
  intros H.
  destruct (pb.ReceivedMessage.Message (message.proto e)) as [pm|] eqn:Hpm.
  2:{ assert (is_Some (subscription.sweep now e)) as Hs by (rewrite H; eauto).
      apply sweep_is_Some in Hs as [? Hs]. congruence. }
  rewrite (sweep_spec now e pm Hpm) in H. unfold time.After in H.
  destruct (message.outstanding e) eqn:Hout; simpl in H.
  - case_bool_decide; simpl in H.
    + case_bool_decide; [done|]. injection H as <-. right. split; [done|]. right. lia.
    + injection H as <-. left. split_and!; [done|done|lia].
  - case_bool_decide; [done|]. injection H as <-. right. split; [done|]. by left.
Qed.

(** X16.  Every message a pull returns was pending in the subscription,
    under its ack id, and was available or had an expired lease; after the
    pull it is leased until the time of the pull plus the lease time of the
    subscription.  So an immediate second pull does not return it again as
    long as the clock has not passed that deadline: a leased message is not
    handed out twice. *)
Theorem pull_leases_what_it_returns (p : ptr) (max : Z) (order : list string)
    (s s1 : GServer.t) (l : list pb.ReceivedMessage.t) (sub : subscription.t) :
  WF s →
  GServer.subObjs s !! p = Some sub →
  GServer.pullAt p max order s = Some (s1, l) →
  let now := subscription.timeNowFunc sub (GServer.clock s) in
  let d := time.Add now (subscription.ackTimeout sub) in
  (∀ r, r ∈ l →
        ∃ e sub1,
          subscription.msgs sub !! pb.ReceivedMessage.AckId r = Some e
          ∧ message.proto e = r
          ∧ (message.outstanding e = false ∨ message.ackDeadline e < now)
          ∧ GServer.subObjs s1 !! p = Some sub1
          ∧ subscription.msgs sub1 !! pb.ReceivedMessage.AckId r
            = Some (message.set_ackDeadline d e))
  ∧ (∀ max' order' s2 l',
       GServer.pullAt p max' order' s1 = Some (s2, l') →
       d ≠ time.zero →
       subscription.timeNowFunc sub (S (GServer.clock s)) ≤ d →
       ∀ r, r ∈ l → pb.ReceivedMessage.AckId r ∉ pb.ReceivedMessage.AckId <$> l').
Proof.
  intros Hwf Hsub Hpull now d.
  assert (∀ q mx ord s0 s0' l0 sub0,
            WF s0 → GServer.subObjs s0 !! q = Some sub0 →
            GServer.pullAt q mx ord s0 = Some (s0', l0) →
            GServer.clock s0' = S (GServer.clock s0)
            ∧ ∃ sub0',
                GServer.subObjs s0' !! q = Some sub0'
                ∧ subscription.timeNowFunc sub0' = subscription.timeNowFunc sub0
                ∧ subscription.ackTimeout sub0' = subscription.ackTimeout sub0
                ∧ ∀ r, r ∈ l0 →
                       ∃ e,
                         subscription.msgs sub0 !! pb.ReceivedMessage.AckId r = Some e
                         ∧ message.proto e = r
                         ∧ (message.outstanding e = false
                            ∨ message.ackDeadline e
                              < subscription.timeNowFunc sub0 (GServer.clock s0))
                         ∧ subscription.msgs sub0' !! pb.ReceivedMessage.AckId r
                           = Some (message.set_ackDeadline
                                     (time.Add
                                        (subscription.timeNowFunc sub0 (GServer.clock s0))
                                        (subscription.ackTimeout sub0)) e)) as Hone.
  { clear. intros q mx ord s0 s0' l0 sub0 Hwf Hsub H. unfold GServer.pullAt in H.
    rewrite Hsub in H. simpl in H. unfold subscription.pull in H.
    destruct (subscription.maintainMessages _ sub0) as [suba|] eqn:Hm; [|done].
    simpl in H.
    destruct (subscription.pullLoop _ _ _ _ _ _) as [[subb objsb] lb] eqn:Hloop.
    injection H as <- <-. simpl. split; [done|].
    rewrite list_lookup_insert_eq by (by eapply lookup_lt_Some).
    exists subb. split; [done|].
    pose proof (maintainMessages_settings _ _ _ Hm) as [(_ & _ & _ & Hta & Hata) _].
    pose proof (pullLoop_settings _ _ _ _ _ _ _ _ _ Hloop) as [(_ & _ & _ & Htb & Hatb) _].
    split; [congruence|]. split; [congruence|].
    apply pullLoop_leases in Hloop as [_ (new & Hnew & Hl)]. simpl in Hnew. subst new.
    intros r Hr. destruct (Hl r Hr) as (k & e1 & He1 & Hout1 & <- & Hb).
    rewrite (maintainMessages_lookup _ _ _ k Hm) in He1.
    destruct (subscription.msgs sub0 !! k) as [e|] eqn:He; [|done]. simpl in He1.
    destruct (subscription.sweep _ e) as [[e1'|]|] eqn:Hsw; try done.
    simpl in He1. injection He1 as ->.
    destruct (wf_entries s0 Hwf q sub0 k e Hsub He) as (_ & _ & Hk & _).
    apply sweep_kept in Hsw as [(-> & Hout & _)|[-> Hav]]; [congruence|].
    simpl. rewrite Hk. exists e. split_and!; [done|done|done|].
    rewrite Hb, Hata. done. }
  destruct (Hone p max order s s1 l sub Hwf Hsub Hpull) as (Hclock & sub1 & Hsub1 & Ht1 & Hat1 & Hl).
  split.
  - intros r Hr. destruct (Hl r Hr) as (e & ? & ? & ? & ?). by exists e, sub1.
  - intros max' order' s2 l' Hpull2 Hd Hnow2 r Hr Hin.
    apply list_elem_of_fmap in Hin as (r' & Hid & Hr').
    assert (WF s1) as Hwf1.
    { eapply WF_evolves; [exact Hwf|]. by eapply pullAt_evolves. }
    destruct (Hone p max' order' s1 s2 l' sub1 Hwf1 Hsub1 Hpull2)
      as (_ & sub2 & _ & _ & _ & Hl').
    destruct (Hl r Hr) as (e & He & _ & _ & He1).
    destruct (Hl' r' Hr') as (e' & He' & _ & Hav' & _).
    rewrite <- Hid, He1 in He'. injection He' as <-.
    rewrite Ht1, Hclock in Hav'. fold now d in Hav'. simpl in Hav'.
    destruct Hav' as [Hout|Hexp]; [|lia].
    unfold message.outstanding, time.IsZero in Hout. simpl in Hout.
    apply negb_false_iff, bool_decide_eq_true in Hout. done.
Qed.

Lemma pull_leases_what_it_returns_witness :
  ∃ s1 l,
    GServer.pullAt 0%nat 10 ["m0"; "m1"] demo.withMsgs = Some (s1, l)
    ∧ ∀ r, r ∈ l →
           ∃ e, subscription.msgs (demo.subOf demo.withMsgs) !! pb.ReceivedMessage.AckId r
                = Some e
                ∧ message.proto e = r.
Proof.
  assert (is_Some (GServer.pullAt 0%nat 10 ["m0"; "m1"] demo.withMsgs)) as Hok
    by (apply (bool_decide_unpack _); vm_compute; exact I).
  destruct (GServer.pullAt 0%nat 10 ["m0"; "m1"] demo.withMsgs) as [[s1 l]|] eqn:H;
    [|by destruct Hok].
  exists s1, l. split; [reflexivity|].
  intros r Hr.
  destruct (proj1 (pull_leases_what_it_returns 0%nat 10 ["m0"; "m1"] demo.withMsgs s1 l
                     (demo.subOf demo.withMsgs)
                     ltac:(apply WF_demo;
                           [apply (bool_decide_unpack _); vm_compute; exact I
                           |vm_compute; discriminate])
                     ltac:(vm_compute; reflexivity) H) r Hr)
    as (e & sub1 & He & Hp & _).
  exists e. split; [exact He|exact Hp].
Defined.

(** When the loop of [pull] cannot reach its limit, it hands out and leases
    every available entry the iteration visits. *)
Lemma pullLoop_complete now max id m : ∀ order s objs acc s' objs' acc',
  subscription.pullLoop now max order s objs acc = (s', objs', acc') →
  Z.of_nat (length acc + length order) < max →
  id ∈ order →
  subscription.msgs s !! id = Some m →
  message.outstanding m = false →
  message.proto m ∈ acc'
  ∧ subscription.msgs s' !! id
    = Some (message.set_ackDeadline (time.Add now (subscription.ackTimeout s)) m).
Proof.
  induction order as [|x order IH]; intros s objs acc s' objs' acc' H Hlen Hin Hm Hout;
    simpl in H; [by apply elem_of_nil in Hin|].
  simpl in Hlen.
  destruct (decide (x = id)) as [->|Hne].
  - rewrite Hm, Hout in H.
    destruct (_ >=? _) eqn:Hge.
    { apply Z.geb_le in Hge. rewrite length_app in Hge. simpl in Hge. lia. }
    apply pullLoop_leases in H as [Hkeep (new & -> & _)]. simpl in Hkeep. split.
    + simpl. set_solver.
    + destruct (Hkeep id (message.set_ackDeadline
                            (time.Add now (subscription.ackTimeout s)) m))
        as [?|[_ ?]]; [by rewrite lookup_insert_eq|done|done].
  - apply elem_of_cons in Hin as [->|Hin]; [done|].
    destruct (subscription.msgs s !! x) as [mx|] eqn:Hx;
      [|eapply (IH _ _ _ _ _ _ H); [lia|done|done|done]].
    destruct (message.outstanding mx) eqn:Houtx;
      [eapply (IH _ _ _ _ _ _ H); [lia|done|done|done]|].
    destruct (_ >=? _) eqn:Hge.
    { apply Z.geb_le in Hge. rewrite length_app in Hge. simpl in Hge. lia. }
    eapply (IH _ _ _ _ _ _ H); [rewrite length_app; simpl; lia|done| |done].
    simpl. by rewrite lookup_insert_ne.
Qed.

(** What a pull hands out for sure. *)
Lemma pullAt_hands_out (p : ptr) (max : Z)
    (order : list string) (s : GServer.t) (sub : subscription.t) (id : string)
    (e : message.t) (pm : pb.PubsubMessage.t) :
  GServer.subObjs s !! p = Some sub →
  (∀ k x, subscription.msgs sub !! k = Some x →
          is_Some (pb.ReceivedMessage.Message (message.proto x))) →
  subscription.msgs sub !! id = Some e →
  pb.ReceivedMessage.Message (message.proto e) = Some pm →
  let now := subscription.timeNowFunc sub (GServer.clock s) in
  message.outstanding e = false ∨ message.ackDeadline e < now →
  now - timestamppb.AsTime (pb.PubsubMessage.PublishTime pm) ≤ 10 * time.Minute →
  id ∈ order →
  Z.of_nat (length order) < max →
  ∃ s' l sub',
    GServer.pullAt p max order s = Some (s', l)
    ∧ message.proto e ∈ l
    ∧ GServer.subObjs s' !! p = Some sub'
    ∧ subscription.msgs sub' !! id
      = Some (message.set_ackDeadline (time.Add now (subscription.ackTimeout sub)) e).
Proof.
  intros Hsub Hall He Hpm now Hav Hage Hin Hmax.
  unfold GServer.pullAt. rewrite Hsub. simpl. unfold subscription.pull. fold now.
  rewrite (maintainMessages_total now sub Hall). simpl.
  set (sub1 := subscription.set_msgs _ sub).
  destruct (subscription.pullLoop now max order sub1 (GServer.msgObjs s) [])
    as [[sub2 objs2] l] eqn:Hloop.
  assert (subscription.msgs sub1 !! id = Some (message.makeAvailable e)) as He1.
  { subst sub1. simpl. rewrite lookup_omap, He. simpl.
    rewrite (sweep_spec now e pm Hpm). unfold time.After.
    assert (message.outstanding e && negb (bool_decide (message.ackDeadline e < now))
            = false) as ->.
    { destruct Hav as [->|Hlt]; [done|].
      rewrite (bool_decide_eq_true_2 _ Hlt). by rewrite andb_false_r. }
    rewrite bool_decide_eq_false_2; [done|]. unfold retentionDuration. lia. }
  destruct (pullLoop_complete now max id (message.makeAvailable e) order sub1
              (GServer.msgObjs s) [] sub2 objs2 l Hloop) as [Hl Hleased];
    [simpl; lia|done|done|done|].
  eexists _, l, sub2. split_and!; [done|done| |done].
  simpl. by rewrite list_lookup_insert_eq by (by eapply lookup_lt_Some).
Qed.

(** X17.  A message whose lease has run out is handed out again: when the
    iteration of a pull reaches an entry that is available, or whose ack
    deadline lies before the time of the pull, and that was published no
    more than ten minutes before, the pull returns its message and leases it
    anew, provided the limit of the pull is above the number of entries
    visited and every pending entry of the subscription carries its message
    (the pull panics otherwise). *)
Theorem pull_returns_available_and_expired_messages (p : ptr) (max : Z)
    (order : list string) (s : GServer.t) (sub : subscription.t) (id : string)
    (e : message.t) (pm : pb.PubsubMessage.t) :
  GServer.subObjs s !! p = Some sub →
  (∀ k x, subscription.msgs sub !! k = Some x →
          is_Some (pb.ReceivedMessage.Message (message.proto x))) →
  subscription.msgs sub !! id = Some e →
  pb.ReceivedMessage.Message (message.proto e) = Some pm →
  let now := subscription.timeNowFunc sub (GServer.clock s) in
  message.outstanding e = false ∨ message.ackDeadline e < now →
  now - timestamppb.AsTime (pb.PubsubMessage.PublishTime pm) ≤ 10 * time.Minute →
  id ∈ order →
  Z.of_nat (length order) < max →
  ∃ s' l sub',
    GServer.pullAt p max order s = Some (s', l)
    ∧ message.proto e ∈ l
    ∧ GServer.subObjs s' !! p = Some sub'
    ∧ subscription.msgs sub' !! id
      = Some (message.set_ackDeadline (time.Add now (subscription.ackTimeout sub)) e).
Proof. apply pullAt_hands_out. Qed.

Lemma pull_returns_available_and_expired_messages_witness :
  ∃ s' l,
    GServer.pullAt 0%nat 10 ["m0"; "m1"] demo.withMsgs = Some (s', l)
    ∧ message.proto (scene.entry "m0" demo.withMsgs) ∈ l.
Proof.
  destruct (pull_returns_available_and_expired_messages 0%nat 10 ["m0"; "m1"]
              demo.withMsgs (demo.subOf demo.withMsgs) "m0"
              (scene.entry "m0" demo.withMsgs) (scene.carried "m0" demo.withMsgs))
    as (s' & l & sub' & Hpull & Hl & _).
  - vm_compute. reflexivity.
  - apply map_Forall_lookup. apply (bool_decide_unpack _). vm_compute. exact I.
  - vm_compute. reflexivity.
  - vm_compute. reflexivity.
  - left. vm_compute. reflexivity.
  - vm_compute. discriminate.
  - apply (bool_decide_unpack _). vm_compute. exact I.
  - vm_compute. reflexivity.
  - exists s', l. split; [exact Hpull|exact Hl].
Defined.

(** ** From Publish to Pull *)

(** X18.  Round trip from Publish to a pull: a message published to a topic
    is handed out by the next pull on a subscription of that topic, with the
    id Publish returned as its ack id and message id, the data, attributes
    and ordering key of the request and the publish time the server read,
    provided the pull happens no more than ten minutes after the publish
    time by the clock of the subscription, its iteration reaches the id, its
    limit is above the number of ids it visits, and every entry that was
    pending carries its message. *)
Theorem published_message_is_pulled (s : GServer.t) (tname sname : string)
    (top p : ptr) (t_ : topic.t) (sub : subscription.t) (pm : pb.PubsubMessage.t)
    (max : Z) (order : list string) :
  unreacted s "Publish" →
  tname ≠ "" →
  GServer.topics s !! tname = Some top →
  GServer.topicObjs s !! top = Some t_ →
  topic.subs t_ !! sname = Some p →
  GServer.subObjs s !! p = Some sub →
  (∀ k x, subscription.msgs sub !! k = Some x →
          is_Some (pb.ReceivedMessage.Message (message.proto x))) →
  let id := GServer.messageID (GServer.nextID s) in
  let pubTime := GServer.timeNowFunc s (GServer.clock s) in
  subscription.timeNowFunc sub (S (GServer.clock s)) - pubTime ≤ 10 * time.Minute →
  id ∈ order →
  Z.of_nat (length order) < max →
  ∃ s1 s2 l pm',
    GServer.Publish (pb.PublishRequest.mk tname [pm]) s
    = GServer.ok s1 (pb.PublishResponse.mk [id])
    ∧ GServer.pullAt p max order s1 = Some (s2, l)
    ∧ pb.ReceivedMessage.mk id (Some pm') ∈ l
    ∧ pb.PubsubMessage.Data pm' = pb.PubsubMessage.Data pm
    ∧ pb.PubsubMessage.Attributes pm' = pb.PubsubMessage.Attributes pm
    ∧ pb.PubsubMessage.OrderingKey pm' = pb.PubsubMessage.OrderingKey pm
    ∧ pb.PubsubMessage.MessageId pm' = id
    ∧ timestamppb.AsTime (pb.PubsubMessage.PublishTime pm') = pubTime.
Proof.
  intros Hre Hname Htop Ht Hp Hsub Hall id pubTime Hage Hin Hmax.
  set (pm' := stamped pubTime (GServer.nextID s) pm).
  set (e := message.mk (pb.ReceivedMessage.mk id (Some pm')) pubTime time.zero
              (length (GServer.msgObjs s)) (length (GServer.msgObjs s)) (-1)).
  set (sub1 := published_to pm' (length (GServer.msgObjs s))
                 (newMessage pubTime (GServer.nextID s) pm) sub).
  assert (GServer.subObjs (publishedOne pm t_ s) !! p = Some sub1) as Hsub1.
  { rewrite publishedOne_lookup, decide_True by (apply fedBy_lookup; eauto).
    by rewrite Hsub. }
  destruct (pullAt_hands_out p max order (publishedOne pm t_ s) sub1 id e pm')
    as (s2 & l & _ & Hpull & Hl & _); try done.
  - intros k x. subst sub1. simpl. intros [[_ <-]|[_ Hx]]%lookup_insert_Some; eauto.
  - subst sub1. simpl. by rewrite lookup_insert_eq.
  - by left.
  - exists (publishedOne pm t_ s), s2, l, pm'. split_and!; try done.
    unfold GServer.Publish. rewrite reacting_unreacted by done. simpl.
    destruct (String.eqb_spec tname ""); [done|].
    by rewrite Htop, Ht.
Qed.

Lemma published_message_is_pulled_witness :
  ∃ s1 s2 l pm',
    GServer.Publish (pb.PublishRequest.mk "t" [demo.hello]) demo.withSub
    = GServer.ok s1 (pb.PublishResponse.mk ["m0"])
    ∧ GServer.pullAt 0%nat 10 ["m0"] s1 = Some (s2, l)
    ∧ pb.ReceivedMessage.mk "m0" (Some pm') ∈ l
    ∧ pb.PubsubMessage.Data pm' = [Byte.x68; Byte.x69].
Proof.
  destruct (published_message_is_pulled demo.withSub "t" "s" 0%nat 0%nat
              (topic.mk demo.topicT {["s" := 0%nat]}) (demo.subOf demo.withSub)
              demo.hello 10 ["m0"])
    as (s1 & s2 & l & pm' & H1 & H2 & H3 & H4 & _).
  - reflexivity.
  - discriminate.
  - vm_compute. reflexivity.
  - vm_compute. reflexivity.
  - vm_compute. reflexivity.
  - vm_compute. reflexivity.
  - apply map_Forall_lookup. apply (bool_decide_unpack _). vm_compute. exact I.
  - vm_compute. discriminate.
  - apply (bool_decide_unpack _). vm_compute. exact I.
  - vm_compute. reflexivity.
  - exists s1, s2, l, pm'. split_and!; [exact H1|exact H2|exact H3|exact H4].
Defined.

(** ** Counting acknowledgements *)

(** The loop of Acknowledge, when no two pending entries share a message:
    the entries under the ids are gone, every message that was pending
    under one of them has one more ack, however often the id was named, and
    no other message is touched. *)
Lemma ack_fold_counts ids : ∀ sub objs sub' objs',
  (∀ k1 k2 e1 e2,
     subscription.msgs sub !! k1 = Some e1 → subscription.msgs sub !! k2 = Some e2 →
     message.acks e1 = message.acks e2 → k1 = k2) →
  foldl (λ '(sub, objs) id, subscription.ack id sub objs) (sub, objs) ids = (sub', objs') →
  (∀ k, subscription.msgs sub' !! k
        = if decide (k ∈ ids) then None else subscription.msgs sub !! k)
  ∧ (∀ id e, id ∈ ids → subscription.msgs sub !! id = Some e →
             objs' !! message.acks e = Message.incr_acks <$> objs !! message.acks e)
  ∧ (∀ q, (∀ id e, id ∈ ids → subscription.msgs sub !! id = Some e → message.acks e ≠ q) →
          objs' !! q = objs !! q).
Proof.
  induction ids as [|a ids IH]; intros sub objs sub' objs' Hinj H; simpl in H.
  { injection H as <- <-. split_and!; [done| |done].
    intros id e Hin. by apply elem_of_nil in Hin. }
  destruct (subscription.ack a sub objs) as [sub1 objs1] eqn:Hack.
  unfold subscription.ack in Hack.
  destruct (subscription.msgs sub !! a) as [ea|] eqn:Ha; injection Hack as <- <-.
  - apply IH in H as (Hk & Hin & Hout); simpl in *.
    2:{ intros k1 k2 e1 e2 [_ H1]%lookup_delete_Some [_ H2]%lookup_delete_Some.
        by apply Hinj. }
    split_and!.
    + intros k. rewrite Hk. destruct (decide (k = a)) as [->|Hne].
      * rewrite (decide_True (P := a ∈ a :: ids)) by apply list_elem_of_here.
        case_decide; [done|]. by rewrite lookup_delete_eq.
      * rewrite lookup_delete_ne by done.
        destruct (decide (k ∈ ids)) as [Hi|Hi].
        -- rewrite decide_True; [done|]. by apply list_elem_of_further.
        -- rewrite decide_False; [done|].
           intros [?|?]%elem_of_cons; [done|]. by apply Hi.
    + intros id e Hid He. destruct (decide (id = a)) as [->|Hne].
      * assert (e = ea) as -> by congruence.
        rewrite Hout, list_lookup_alter_eq; [done|].
        intros id e Hid' [Hne He']%lookup_delete_Some Heq.
        by apply Hne, (Hinj _ _ _ _ Ha He').
      * apply elem_of_cons in Hid as [?|Hid]; [done|].
        rewrite (Hin id e Hid); [|by rewrite lookup_delete_ne].
        rewrite list_lookup_alter_ne; [done|].
        intros Heq. by apply Hne, (Hinj _ _ _ _ He Ha).
    + intros q Hq. rewrite Hout.
      * rewrite list_lookup_alter_ne; [done|].
        apply (Hq a); [apply list_elem_of_here|done].
      * intros id e Hid [Hne He]%lookup_delete_Some.
        apply (Hq id); [by apply list_elem_of_further|done].
  - apply IH in H as (Hk & Hin & Hout); [|done].
    split_and!.
    + intros k. rewrite Hk. destruct (decide (k = a)) as [->|Hne].
      * rewrite (decide_True (P := a ∈ a :: ids)) by apply list_elem_of_here.
        by case_decide.
      * destruct (decide (k ∈ ids)) as [Hi|Hi].
        -- rewrite decide_True; [done|]. by apply list_elem_of_further.
        -- rewrite decide_False; [done|].
           intros [?|?]%elem_of_cons; [done|]. by apply Hi.
    + intros id e Hid He. apply (Hin id e); [|done].
      apply elem_of_cons in Hid as [->|?]; [congruence|done].
    + intros q Hq. apply Hout. intros id e Hid. apply Hq.
      by apply list_elem_of_further.
Qed.

(** Pending entries under different ids point at different messages. *)
Lemma WF_entries_inj s q sub k1 k2 e1 e2 :
  WF s → GServer.subObjs s !! q = Some sub →
  subscription.msgs sub !! k1 = Some e1 → subscription.msgs sub !! k2 = Some e2 →
  message.acks e1 = message.acks e2 → k1 = k2.
Proof.
  intros Hwf Hsub H1 H2 Heq.
  destruct (wf_entries s Hwf q sub k1 e1 Hsub H1) as (_ & -> & _).
  destruct (wf_entries s Hwf q sub k2 e2 Hsub H2) as (_ & -> & _).
  by rewrite Heq.
Qed.

(** X19.  Acknowledge counts every pending message once: after a successful
    Acknowledge the subscription has no pending entry under any id of the
    request and keeps its other entries, every message that was pending
    under one of the ids has its ack counter raised by one, however often
    the request names the id, no other message changes, and repeating the
    request changes nothing at all. *)
Theorem acknowledge_counts_each_pending_message_once (s : GServer.t) (name : string)
    (p : ptr) (sub : subscription.t) (ids : list string) :
  WF s →
  unreacted s "Acknowledge" →
  name ≠ "" →
  GServer.subs s !! name = Some p →
  GServer.subObjs s !! p = Some sub →
  ∃ s' sub',
    GServer.Acknowledge (pb.AcknowledgeRequest.mk name ids) s = GServer.ok s' ()
    ∧ GServer.subObjs s' !! p = Some sub'
    ∧ (∀ k, subscription.msgs sub' !! k
            = if decide (k ∈ ids) then None else subscription.msgs sub !! k)
    ∧ (∀ id e, id ∈ ids → subscription.msgs sub !! id = Some e →
               ∃ M, GServer.msgObjs s !! message.acks e = Some M
                    ∧ GServer.msgObjs s' !! message.acks e = Some (Message.incr_acks M))
    ∧ (∀ q, (∀ id e, id ∈ ids → subscription.msgs sub !! id = Some e →
                     message.acks e ≠ q) →
            GServer.msgObjs s' !! q = GServer.msgObjs s !! q)
    ∧ GServer.Acknowledge (pb.AcknowledgeRequest.mk name ids) s' = GServer.ok s' ().
Proof.
  intros Hwf Hre Hname Hp Hsub.
  destruct (foldl (λ '(sub, objs) id, subscription.ack id sub objs)
              (sub, GServer.msgObjs s) ids) as [sub' objs'] eqn:Hfold.
  pose proof Hfold as (Hk & Hin & Hout)%ack_fold_counts;
    [|intros *; by apply (WF_entries_inj s p sub)].
  assert (p < length (GServer.subObjs s))%nat as Hlt by (by eapply lookup_lt_Some).
  eexists _, sub'. split_and!.
  - unfold GServer.Acknowledge. rewrite reacting_unreacted by done. simpl.
    rewrite (findSubscription_found name p) by done. rewrite Hsub, Hfold. done.
  - simpl. by rewrite list_lookup_insert_eq.
  - done.
  - intros id e Hid He.
    destruct (wf_entries s Hwf p sub id e Hsub He) as (_ & _ & _ & (M & HM & _) & _).
    exists M. split; [done|]. simpl. by rewrite (Hin id e), HM.
  - done.
  - unfold GServer.Acknowledge. rewrite reacting_unreacted by done. simpl.
    rewrite (findSubscription_found name p) by done. simpl.
    rewrite list_lookup_insert_eq by done.
    rewrite ack_fold_unknown.
    + simpl. rewrite list_insert_insert_eq. done.
    + intros id Hid. rewrite Hk. by rewrite decide_True.
Qed.

Lemma acknowledge_counts_each_pending_message_once_witness :
  ∃ s' sub',
    GServer.Acknowledge (pb.AcknowledgeRequest.mk "s" ["m0"; "m0"]) scene.leased
    = GServer.ok s' ()
    ∧ GServer.subObjs s' !! 0%nat = Some sub'
    ∧ subscription.msgs sub' !! "m0" = None
    ∧ Message.acks <$> GServer.msgObjs s' !! 0%nat = Some 1.
Proof.
  destruct (acknowledge_counts_each_pending_message_once scene.leased "s" 0%nat
              (demo.subOf scene.leased) ["m0"; "m0"])
    as (s' & sub' & H1 & H2 & H3 & H4 & _).
  - apply WF_demo; [apply (bool_decide_unpack _); vm_compute; exact I|].
    vm_compute. discriminate.
  - vm_compute. reflexivity.
  - discriminate.
  - vm_compute. reflexivity.
  - vm_compute. reflexivity.
  - exists s', sub'. split_and!; [exact H1|exact H2|..].
    + rewrite H3. reflexivity.
    + destruct (H4 "m0" (scene.entry "m0" scene.leased)) as (M & HM & HM');
        [apply (bool_decide_unpack _); vm_compute; exact I|vm_compute; reflexivity|].
      assert (message.acks (scene.entry "m0" scene.leased) = 0%nat) as Hq
        by (vm_compute; reflexivity).
      rewrite Hq in HM, HM'. rewrite HM'. simpl.
      assert (Message.acks <$> GServer.msgObjs scene.leased !! 0%nat = Some 0) as H0
        by (vm_compute; reflexivity).
      rewrite HM in H0. injection H0 as ->. reflexivity.
Defined.

(** ** The test API: publishing and looking up messages *)

Lemma stripPrefix_app chunk rest : Server.stripPrefix chunk (chunk +:+ rest) = Some rest.
Proof.
  induction chunk as [|a chunk IH]; simpl; [by destruct rest|].
  by rewrite Ascii.eqb_refl.
Qed.

Lemma stripPrefix_Some chunk : ∀ name rest,
  Server.stripPrefix chunk name = Some rest → name = chunk +:+ rest.
Proof.
  induction chunk as [|a chunk IH]; intros name rest H; simpl in H.
  { destruct name; by injection H as <-. }
  destruct name as [|b name]; [done|].
  destruct (Ascii.eqb_spec a b) as [->|]; [|done].
  change (String b chunk +:+ rest) with (String b (chunk +:+ rest)).
  f_equal. by apply IH.
Qed.

Lemma starThen_Some chunk : ∀ name rest,
  Server.starThen chunk name = Some rest →
  ∃ pre, name = pre +:+ chunk +:+ rest ∧ Server.hasSlash pre = false.
Proof.
  induction name as [|c name IH]; intros rest H.
  - simpl in H. destruct (Server.stripPrefix chunk "") as [r|] eqn:Hs; [|done].
    injection H as ->. exists "". split; [|done]. by apply (stripPrefix_Some chunk).
  - cbn [Server.starThen] in H.
    destruct (Server.stripPrefix chunk (String c name)) as [r|] eqn:Hs.
    + injection H as ->. exists "". split; [|done]. by apply (stripPrefix_Some chunk).
    + destruct (Ascii.eqb c Server.slash) eqn:Hc; [done|].
      destruct (IH _ H) as (pre & -> & Hpre).
      exists (String c pre). split; [done|]. simpl. by rewrite Hc.
Qed.

Lemma starThen_topics : ∀ pre rest,
  Server.hasSlash pre = false →
  Server.starThen "/topics/" (pre +:+ "/topics/" +:+ rest) = Some rest.
Proof.
  induction pre as [|c pre IH]; intros rest Hpre.
  - change ("" +:+ "/topics/" +:+ rest) with ("/topics/" +:+ rest).
    destruct rest; simpl; by rewrite ?stripPrefix_app.
  - simpl in Hpre. apply orb_false_iff in Hpre as [Hc Hpre].
    change (String c pre +:+ "/topics/" +:+ rest)
      with (String c (pre +:+ "/topics/" +:+ rest)).
    cbn [Server.starThen].
    assert (Server.stripPrefix "/topics/" (String c (pre +:+ "/topics/" +:+ rest)) = None)
      as ->.
    { change "/topics/" with (String Server.slash "topics/").
      cbn [Server.stripPrefix]. rewrite Ascii.eqb_sym. by rewrite Hc. }
    rewrite Hc. by apply IH.
Qed.

(** The names [path.Match] accepts for the pattern "projects/*/topics/*". *)
Lemma matchTopicPattern_spec name :
  Server.matchTopicPattern name = true
  ↔ ∃ proj t, name = "projects/" +:+ proj +:+ "/topics/" +:+ t
              ∧ Server.hasSlash proj = false ∧ Server.hasSlash t = false.
Proof.
  unfold Server.matchTopicPattern. split.
  - destruct (Server.stripPrefix "projects/" name) as [r1|] eqn:H1; [|done]. simpl.
    destruct (Server.starThen "/topics/" r1) as [r2|] eqn:H2; [|done].
    intros Hr%negb_true_iff.
    apply stripPrefix_Some in H1 as ->.
    apply starThen_Some in H2 as (pre & -> & Hpre). by exists pre, r2.
  - intros (proj & t & -> & Hp & Ht).
    rewrite stripPrefix_app. simpl. rewrite starThen_topics by done. by rewrite Ht.
Qed.

(** Publish of a single message. *)
Lemma Publish_single tname pm top t_ s :
  unreacted s "Publish" →
  tname ≠ "" →
  GServer.topics s !! tname = Some top →
  GServer.topicObjs s !! top = Some t_ →
  GServer.Publish (pb.PublishRequest.mk tname [pm]) s
  = GServer.ok (publishedOne pm t_ s)
      (pb.PublishResponse.mk [GServer.messageID (GServer.nextID s)]).
Proof.
  intros Hre Hne Htop Ht.
  unfold GServer.Publish. rewrite reacting_unreacted by done.
  cbn [pb.PublishRequest.Topic pb.PublishRequest.Messages].
  destruct (String.eqb_spec tname ""); [done|].
  by rewrite Htop, (publishLoop_cons _ _ _ _ _ t_ Ht).
Qed.

(** What [PublishOrdered] amounts to on a name of the right form: one round
    of the loop of Publish, on the server as it is when the topic exists and
    on the server with a new topic without subscriptions when not. *)
Lemma PublishOrdered_publishedOne topic data attrs key s :
  Linked s →
  unreacted s "CreateTopic" →
  unreacted s "Publish" →
  Server.matchTopicPattern topic = true →
  ∃ s1 top t_,
    Server.PublishOrdered topic data attrs key s
    = Some (publishedOne (pb.PubsubMessage.mk data attrs "" None key) t_ s1,
            GServer.messageID (GServer.nextID s))
    ∧ GServer.topics s1 !! topic = Some top
    ∧ GServer.topicObjs s1 !! top = Some t_
    ∧ (∀ n, n ≠ topic → GServer.topics s1 !! n = GServer.topics s !! n)
    ∧ (∀ tp, GServer.topics s !! topic = Some tp → top = tp ∧ s1 = s)
    ∧ (GServer.topics s !! topic = None → topic.subs t_ = ∅)
    ∧ GServer.subs s1 = GServer.subs s
    ∧ GServer.subObjs s1 = GServer.subObjs s
    ∧ GServer.msgObjs s1 = GServer.msgObjs s
    ∧ GServer.msgsByID s1 = GServer.msgsByID s
    ∧ GServer.msgs s1 = GServer.msgs s
    ∧ GServer.nextID s1 = GServer.nextID s
    ∧ GServer.timeNowFunc s1 = GServer.timeNowFunc s
    ∧ GServer.clock s1 = GServer.clock s.
Proof.
  intros Hl Hc Hp Hm.
  assert (topic ≠ "") as Hne by (by intros ->).
  unfold Server.PublishOrdered. rewrite Hm. cbn [negb].
  unfold GServer.CreateTopic. rewrite reacting_unreacted by done.
  cbn [pb.Topic.Name].
  destruct (GServer.topics s !! topic) as [tp|] eqn:Htp.
  - rewrite bool_decide_eq_true_2 by eauto. unfold GServer.fail.
    destruct (lk_topics s Hl topic tp Htp) as (t_ & Ht & _).
    exists s, tp, t_. split_and!; try done.
    + by rewrite (Publish_single topic _ tp t_ s Hp Hne Htp Ht).
    + intros ? [= <-]. done.
  - rewrite bool_decide_eq_false_2 by (by intros [? ?]). unfold GServer.ok.
    set (t_ := topic.newTopic (pb.Topic.mk topic ∅ None)).
    set (s1 := GServer.set_topics _ _).
    assert (GServer.topics s1 !! topic = Some (length (GServer.topicObjs s))) as Htop.
    { subst s1. simpl. by rewrite lookup_insert_eq. }
    assert (GServer.topicObjs s1 !! length (GServer.topicObjs s) = Some t_) as Ht.
    { subst s1. simpl. by rewrite list_lookup_middle. }
    exists s1, (length (GServer.topicObjs s)), t_. split_and!; try done.
    + by rewrite (Publish_single topic _ _ t_ s1 Hp Hne Htop Ht).
    + intros n Hn. subst s1. simpl. by rewrite lookup_insert_ne.
Qed.

(** A topic without subscriptions publishes to nobody. *)
Lemma publishedOne_no_subs pm t_ s :
  topic.subs t_ = ∅ → GServer.subObjs (publishedOne pm t_ s) = GServer.subObjs s.
Proof.
  intros He. apply list_eq. intros q.
  rewrite publishedOne_lookup, decide_False; [done|].
  intros [name Hn]%fedBy_lookup. by rewrite He in Hn.
Qed.

(** X20.  The test call Server.PublishOrdered (and Server.Publish, which is
    the same with an empty ordering key) returns exactly when the topic name
    has the form projects/P/topics/T with no slash in P and T, and panics
    otherwise.  When it returns, the id is the one of the counter, the topic
    exists (it was created without subscriptions when it did not, and kept
    when it did), the other names are as before, and the message can be
    looked up: Server.Message on the id returns a message with the data,
    the attributes and the ordering key given, no acks and no deliveries,
    and Server.Messages returns the history with that message at its end.
    After ClearMessages the lookup returns nil and the history is empty. *)
Theorem server_publish_creates_the_topic_and_records_the_message (s : GServer.t)
    (topic : string) (data : list Byte.byte) (attrs : gmap string string)
    (key : string) :
  Linked s →
  unreacted s "CreateTopic" →
  unreacted s "Publish" →
  (is_Some (Server.PublishOrdered topic data attrs key s)
   ↔ ∃ proj t, topic = "projects/" +:+ proj +:+ "/topics/" +:+ t
               ∧ Server.hasSlash proj = false ∧ Server.hasSlash t = false)
  ∧ Server.Publish topic data attrs s = Server.PublishOrdered topic data attrs "" s
  ∧ ∀ s' id,
      Server.PublishOrdered topic data attrs key s = Some (s', id) →
      id = GServer.messageID (GServer.nextID s)
      ∧ is_Some (GServer.topics s' !! topic)
      ∧ (∀ n, n ≠ topic → GServer.topics s' !! n = GServer.topics s !! n)
      ∧ (∀ tp, GServer.topics s !! topic = Some tp → GServer.topics s' !! topic = Some tp)
      ∧ (GServer.topics s !! topic = None → GServer.subObjs s' = GServer.subObjs s)
      ∧ (∃ s'' q M,
           Server.Message id s' = (s'', Some q)
           ∧ GServer.msgObjs s'' !! q = Some M
           ∧ Message.ID M = id
           ∧ Message.Data M = data
           ∧ Message.Attributes M = attrs
           ∧ Message.OrderingKey M = key
           ∧ Message.PublishTime M = GServer.timeNowFunc s (GServer.clock s)
           ∧ Message.Acks M = 0
           ∧ Message.Deliveries M = 0)
      ∧ (Server.Messages s').2 = GServer.msgs s ++ [length (GServer.msgObjs s)]
      ∧ Server.Message id (GServer.ClearMessages s') = (GServer.ClearMessages s', None)
      ∧ Server.Messages (GServer.ClearMessages s') = (GServer.ClearMessages s', []).
Proof.
  intros Hl Hc Hp. split_and!.
  - rewrite <- matchTopicPattern_spec. split.
    + intros [r Hr]. unfold Server.PublishOrdered in Hr.
      by destruct (Server.matchTopicPattern topic).
    + intros Hm.
      destruct (PublishOrdered_publishedOne topic data attrs key s Hl Hc Hp Hm)
        as (s1 & top & t_ & -> & _). eauto.
  - done.
  - intros s' id H.
    assert (Server.matchTopicPattern topic = true) as Hm.
    { unfold Server.PublishOrdered in H. by destruct (Server.matchTopicPattern topic). }
    destruct (PublishOrdered_publishedOne topic data attrs key s Hl Hc Hp Hm)
      as (s1 & top & t_ & Heq & Htop & Ht & Hoth & Hold & Hnew & Hsubs & Hso
          & Hmo & Hby & Hms & Hn & Htime & Hclk).
    rewrite Heq in H. injection H as <- <-.
    split_and!; try done.
    + intros tp Htp. destruct (Hold tp Htp) as [-> ->]. done.
    + intros Hnone. rewrite publishedOne_no_subs by auto. done.
    + unfold Server.Message. simpl. rewrite Hn, lookup_insert_eq.
      eexists _, _, _. split; [done|]. simpl.
      rewrite list_lookup_alter_eq, list_lookup_middle by done. simpl.
      rewrite Htime, Hclk. by split_and!.
    + simpl. by rewrite Hms, Hmo.
Qed.

Lemma server_publish_creates_the_topic_and_records_the_message_witness :
  ∃ s',
    Server.PublishOrdered scene.path [Byte.x68; Byte.x69] ∅ "k" demo.s0 = Some (s', "m0")
    ∧ is_Some (GServer.topics s' !! scene.path)
    ∧ Server.PublishOrdered "t" [Byte.x68; Byte.x69] ∅ "k" demo.s0 = None.
Proof.
  destruct (server_publish_creates_the_topic_and_records_the_message demo.s0 scene.path
              [Byte.x68; Byte.x69] ∅ "k" (Linked_NewServer _ _) eq_refl eq_refl)
    as (Hiff & _ & Hret).
  destruct (proj2 Hiff) as [[s' id] Hs'].
  { exists "p", "t". split_and!; reflexivity. }
  destruct (Hret s' id Hs') as (-> & Ht & _).
  exists s'. split_and!; [exact Hs'|exact Ht|].
  reflexivity.
Defined.

(** ** What a subscription is created with *)

Lemma rooted_refl sub : rooted sub sub.
Proof. done. Qed.

Lemma rooted_trans s1 s2 s3 : rooted s1 s2 → rooted s2 s3 → rooted s1 s3.
Proof. unfold rooted. intros (?&?&?&?) (?&?&?&?). split_and!; congruence. Qed.

Lemma step_rooted op s s' o q sub :
  step op s = Some (s', o) →
  GServer.subObjs s !! q = Some sub →
  ∃ sub', GServer.subObjs s' !! q = Some sub' ∧ rooted sub sub'.
Proof.
  intros H Hq.
  assert (frames s s' → ∃ sub', GServer.subObjs s' !! q = Some sub' ∧ rooted sub sub')
    as Hfr.
  { intros (_ & _ & _ & _ & Hsubs).
    destruct (Hsubs q sub Hq) as (sub' & Hq' & Hp & _ & Ht & Hc & Ha).
    exists sub'. split; [done|]. unfold rooted. by rewrite Hp. }
  destruct op;
    try (apply Hfr; by eapply step_frames; [exact H|intros; discriminate..]).
  all: clear Hfr; simpl in H; unfold returned in H.
  - unfold GServer.CreateTopic, GServer.reacting, GServer.ok, GServer.fail in H.
    repeat (case_match; try done); simplify_eq; simpl; eauto using rooted_refl.
  - unfold GServer.UpdateTopic, GServer.reacting, GServer.ok, GServer.fail in H.
    repeat (case_match; try done); simplify_eq; simpl; eauto using rooted_refl.
  - unfold GServer.DeleteTopic, GServer.reacting, GServer.ok, GServer.fail in H.
    repeat (case_match; try done); simplify_eq; simpl; eauto using rooted_refl.
    unfold topic.stop.
    eapply (alterAll_lookup_fwd _ rooted); [done| |done].
    intros x z (?&?&?&?). by split_and!.
  - unfold GServer.CreateSubscription, GServer.reacting, GServer.ok, GServer.fail in H.
    repeat (case_match; try done); simplify_eq; simpl; eauto using rooted_refl.
    all: exists sub; split; [by apply lookup_app_l_Some|done].
  - unfold GServer.UpdateSubscription, GServer.reacting, GServer.ok, GServer.fail in H.
    repeat (case_match; try done); simplify_eq; simpl; eauto using rooted_refl.
    all: match goal with
         | Hu : GServer.updateSubscriptionPaths ?m ?paths ?r (subscription.proto ?sb) = _,
           Hp : GServer.subObjs _ !! ?p = Some ?sb |- _ =>
             destruct (decide (p = q)) as [->|Hne];
             [rewrite list_lookup_insert_eq by (by eapply lookup_lt_Some);
              rewrite Hp in Hq; injection Hq as <-;
              eexists; split; [done|];
              destruct (updateSubscriptionPaths_Name m r paths (subscription.proto sb))
                as [HN _]; rewrite Hu in HN; by split_and!
             |rewrite list_lookup_insert_ne by done; eauto using rooted_refl]
         end.
  - unfold GServer.DeleteSubscription, GServer.reacting, GServer.ok, GServer.fail in H.
    repeat (case_match; try done); simplify_eq; simpl; eauto using rooted_refl.
    match goal with
    | Hb : GServer.subObjs s !! ?p ≫= _ = Some ?sb |- _ =>
        destruct (GServer.subObjs s !! p) as [sub0|] eqn:Hp; [|done];
        simpl in Hb; unfold subscription.stop in Hb;
        destruct (subscription.done sub0); [done|]; injection Hb as <-;
        destruct (decide (p = q)) as [->|Hne];
        [rewrite list_lookup_insert_eq by (by eapply lookup_lt_Some);
         rewrite Hp in Hq; injection Hq as <-; eexists; by split
        |rewrite list_lookup_insert_ne by done; eauto using rooted_refl]
    end.
  - unfold GServer.DetachSubscription, GServer.reacting, GServer.ok, GServer.fail in H.
    repeat (case_match; try done); simplify_eq; simpl; eauto using rooted_refl.
Qed.

Lemma run_rooted ops : ∀ s s' obs q sub,
  run ops s = Some (s', obs) →
  GServer.subObjs s !! q = Some sub →
  ∃ sub', GServer.subObjs s' !! q = Some sub' ∧ rooted sub sub'.
Proof.
  induction ops as [|op ops IH]; intros s s' obs q sub Hrun Hq; simpl in Hrun.
  { injection Hrun as <- <-. eauto using rooted_refl. }
  destruct (step op s) as [[s1 o]|] eqn:Hstep; [|done]. simpl in Hrun.
  destruct (run ops s1) as [[s2 obs2]|] eqn:Hrun2; [|done]. simpl in Hrun.
  injection Hrun as <- <-.
  destruct (step_rooted _ _ _ _ q sub Hstep Hq) as (sub1 & Hq1 & Hr1).
  destruct (IH _ _ _ q sub1 Hrun2 Hq1) as (sub2 & Hq2 & Hr2).
  eauto using rooted_trans.
Qed.

(** X21.  A subscription keeps the clock and the lease time it was created
    with.  CreateSubscription gives the new subscription the clock the
    server has at that moment and a lease time of AckDeadlineSeconds
    seconds, ten seconds when that is zero; whatever is run afterwards,
    SetTimeNowFunc and UpdateSubscription included, the subscription object
    still has that clock, that lease time, its name and its topic. *)
Theorem subscription_keeps_its_clock_and_lease_time (minAck : Z)
    (ps ps' : pb.Subscription.t) (s s1 s2 : GServer.t) (ops : list Op)
    (obs : list Obs) :
  unreacted s "CreateSubscription" →
  GServer.CreateSubscription minAck ps s = GServer.ok s1 ps' →
  run ops s1 = Some (s2, obs) →
  ∃ sub top,
    GServer.subObjs s2 !! length (GServer.subObjs s) = Some sub
    ∧ GServer.topics s !! pb.Subscription.Topic ps = Some top
    ∧ subscription.topic sub = top
    ∧ pb.Subscription.Name (subscription.proto sub) = pb.Subscription.Name ps
    ∧ subscription.timeNowFunc sub = GServer.timeNowFunc s
    ∧ subscription.ackTimeout sub
      = (if bool_decide (pb.Subscription.AckDeadlineSeconds ps = 0)
         then 10 * time.Second
         else pb.Subscription.AckDeadlineSeconds ps * time.Second).
Proof.
  intros Hre Hc Hrun.
  unfold GServer.CreateSubscription in Hc. rewrite reacting_unreacted in Hc by done.
  unfold GServer.ok, GServer.fail in Hc.
  repeat (case_match; try done); simplify_eq.
  all: match goal with
       | Ht : GServer.topics ?s0 !! _ = Some ?top, Hr : run ?ops0 ?s1 = Some (?s2, ?obs0) |- _ =>
           edestruct (run_rooted ops0 s1 s2 obs0 (length (GServer.subObjs s0)))
             as (sub & Hsub & HN & HT & HC & HA);
           [exact Hr|simpl; by apply list_lookup_middle|];
           exists sub, top; simpl in HN, HT, HC, HA
       end.
  all: split_and!; try done.
  all: rewrite HA; repeat case_bool_decide; unfold time.Second in *; try done; lia.
Qed.

Lemma subscription_keeps_its_clock_and_lease_time_witness :
  let ops := [OpSetTimeNowFunc (demo.jump 0);
              OpUpdateSubscription 10
                (pb.UpdateSubscriptionRequest.mk (Some (demo.subS 20))
                   (Some (pb.FieldMask.mk ["ack_deadline_seconds"])))] in
  ∃ sub,
    GServer.subObjs (demo.after ops demo.withSub) !! 0%nat = Some sub
    ∧ subscription.timeNowFunc sub = demo.clk
    ∧ subscription.ackTimeout sub = 10 * time.Second
    ∧ pb.Subscription.AckDeadlineSeconds (subscription.proto sub) = 20.
Proof.
  intros ops.
  destruct (subscription_keeps_its_clock_and_lease_time 10 (demo.subS 10) scene.stored
              demo.withTopic demo.withSub (demo.after ops demo.withSub) ops
              (demo.shown ops demo.withSub))
    as (sub & top & Hsub & _ & _ & _ & Hclk & Hack).
  - reflexivity.
  - vm_compute. reflexivity.
  - apply run_after. apply (bool_decide_unpack _). vm_compute. exact I.
  - exists sub. split_and!; [exact Hsub|exact Hclk|exact Hack|].
    assert (pb.Subscription.AckDeadlineSeconds ∘ subscription.proto
              <$> GServer.subObjs (demo.after ops demo.withSub) !! 0%nat = Some 20) as H
      by (vm_compute; reflexivity).
    assert (length (GServer.subObjs demo.withTopic) = 0%nat) as Hlen by reflexivity.
    rewrite Hlen in Hsub. rewrite Hsub in H. by injection H.
Defined.

(** ** Handing a message to a stream *)

Lemma deleteStreamAt_sublist (l : list ptr) i : sublist (deleteStreamAt l i) l.
Proof.
  unfold deleteStreamAt. rewrite <- (take_drop i l) at 3.
  apply sublist_app; [done|].
  replace (drop (S i) l) with (drop 1 (drop i l)) by (rewrite drop_drop; f_equal; lia).
  apply sublist_drop.
Qed.

Lemma deleteStreamAt_elem (l : list ptr) i p x :
  l !! i = Some x → p ∈ l → p ∈ deleteStreamAt l i ∨ p = x.
Proof.
  intros Hi Hp. unfold deleteStreamAt.
  rewrite <- (take_drop_middle l i x Hi) in Hp.
  rewrite elem_of_app, elem_of_cons in Hp. rewrite elem_of_app. tauto.
Qed.

(** The loop of [tryDeliverMessage] returns when the entry exists and the
    list of streams holds streams; it drops closed streams only, and either
    hands the message to one stream, leasing it with the deadline of that
    stream and counting one delivery, or leaves the entry and the counters
    alone. *)
Lemma tryDeliverLoop_spec id start now objs streamObjs m :
  0 ≤ start →
  ∀ fuel i s chans,
    0 ≤ i →
    subscription.msgs s !! id = Some m →
    (∀ p, p ∈ subscription.streams s → is_Some (streamObjs !! p)) →
    ∃ s' objs' chans' res,
      subscription.tryDeliverLoop fuel i id start now s objs streamObjs chans
      = Some (s', objs', chans', res)
      ∧ sublist (subscription.streams s') (subscription.streams s)
      ∧ (∀ p, p ∈ subscription.streams s →
              p ∈ subscription.streams s'
              ∨ ∃ st, streamObjs !! p = Some st ∧ stream.done st = true)
      ∧ match res with
        | Some (idx, p) =>
            ∃ st, 0 ≤ idx
                  ∧ subscription.streams s' !! Z.to_nat idx = Some p
                  ∧ streamObjs !! p = Some st
                  ∧ subscription.msgs s'
                    = <[id := message.set_ackDeadline
                                (time.Add now (stream.ackTimeout st)) m]>
                        (subscription.msgs s)
                  ∧ objs' = alter Message.incr_deliveries (message.deliveries m) objs
        | None => subscription.msgs s' = subscription.msgs s ∧ objs' = objs
        end.
Proof.
  intros Hstart.
  induction fuel as [|fuel IH]; intros i s chans Hi Hm Hst; simpl.
  { eexists _, _, _, _. split; [done|]. split_and!; [done|by left|done..]. }
  case_bool_decide as Hlt.
  2:{ eexists _, _, _, _. split; [done|]. split_and!; [done|by left|done..]. }
  set (n := Z.of_nat (length (subscription.streams s))) in *.
  assert (0 ≤ Z.rem (i + start) n < n) as Hidx by (apply Z.rem_bound_pos; lia).
  rewrite bool_decide_eq_false_2 by lia.
  destruct (subscription.streams s !! Z.to_nat (Z.rem (i + start) n)) as [p|] eqn:Hp.
  2:{ apply lookup_ge_None in Hp. lia. }
  simpl.
  destruct (Hst p) as [st Hstp]; [by eapply list_elem_of_lookup_2|].
  rewrite Hstp. simpl.
  destruct (default (false, false) (head chans)) as [recvReady preferDone].
  unfold subscription.select_.
  destruct (stream.done st && (preferDone || negb recvReady)) eqn:Hdone.
  - apply andb_true_iff in Hdone as [Hdone _].
    destruct (IH i (subscription.set_streams
                      (deleteStreamAt (subscription.streams s)
                         (Z.to_nat (Z.rem (i + start) n))) s) (tail chans))
      as (s' & objs' & chans' & res & -> & Hsub & Hdrop & Hres); [done|done| |].
    { intros q Hq. apply Hst. simpl in Hq.
      eapply elem_of_sublist; [exact Hq|apply deleteStreamAt_sublist]. }
    eexists _, _, _, _. split; [done|]. simpl in *. split_and!.
    + etrans; [done|apply deleteStreamAt_sublist].
    + intros q Hq.
      destruct (deleteStreamAt_elem _ _ q p Hp Hq) as [Hin| ->]; [by apply Hdrop|].
      right. eauto.
    + done.
  - destruct recvReady.
    + rewrite Hm. simpl. eexists _, _, _, _. split; [done|]. simpl.
      split_and!; [done|by left|].
      exists st. split_and!; [lia|done..].
    + by apply IH; [lia|..].
Qed.

(** X22.  tryDeliverMessage hands a message to at most one stream, and on
    the way drops only streams that are closed.  When the pending entry
    exists, the start index is not negative and the stream list holds
    streams, the call returns; if it reports a delivery, the entry is leased
    until the time of the call plus the ack deadline of that stream (not of
    the subscription) and the message counts one more delivery; if it
    reports none, the entry and the counters are as before.  The streams
    left are those it had, in the same order, without some closed ones. *)
Theorem try_deliver_leases_with_the_deadline_of_the_stream (id : string)
    (start : Z) (now : time.Time) (s : subscription.t) (objs : list Message.t)
    (streamObjs : list stream.t) (chans : list (bool * bool)) (m : message.t) :
  0 ≤ start →
  subscription.msgs s !! id = Some m →
  (∀ p, p ∈ subscription.streams s → is_Some (streamObjs !! p)) →
  ∃ s' objs' chans' res,
    subscription.tryDeliverMessage id start now s objs streamObjs chans
    = Some (s', objs', chans', res)
    ∧ sublist (subscription.streams s') (subscription.streams s)
    ∧ (∀ p, p ∈ subscription.streams s →
            p ∈ subscription.streams s'
            ∨ ∃ st, streamObjs !! p = Some st ∧ stream.done st = true)
    ∧ match res with
      | Some (idx, p) =>
          ∃ st, 0 ≤ idx
                ∧ subscription.streams s' !! Z.to_nat idx = Some p
                ∧ streamObjs !! p = Some st
                ∧ subscription.msgs s'
                  = <[id := message.set_ackDeadline
                              (time.Add now (stream.ackTimeout st)) m]>
                      (subscription.msgs s)
                ∧ objs' = alter Message.incr_deliveries (message.deliveries m) objs
      | None => subscription.msgs s' = subscription.msgs s ∧ objs' = objs
      end.
Proof.
  intros Hstart Hm Hst. unfold subscription.tryDeliverMessage.
  by apply tryDeliverLoop_spec.
Qed.

Lemma try_deliver_leases_with_the_deadline_of_the_stream_witness :
  ∃ s' objs' chans' res,
    subscription.tryDeliverMessage "m0" 0 (demo.clk 2) (demo.subOf scene.streaming)
      (GServer.msgObjs scene.streaming) (GServer.streamObjs scene.streaming)
      [(true, false)]
    = Some (s', objs', chans', res)
    ∧ sublist (subscription.streams s') (subscription.streams (demo.subOf scene.streaming)).
Proof.
  destruct (try_deliver_leases_with_the_deadline_of_the_stream "m0" 0 (demo.clk 2)
              (demo.subOf scene.streaming) (GServer.msgObjs scene.streaming)
              (GServer.streamObjs scene.streaming) [(true, false)]
              (scene.entry "m0" scene.streaming))
    as (s' & objs' & chans' & res & H1 & H2 & _).
  - lia.
  - vm_compute. reflexivity.
  - apply Forall_forall. apply (bool_decide_unpack _). vm_compute. exact I.
  - exists s', objs', chans', res. split; [exact H1|exact H2].
Defined.

(** ** Counting deliveries *)

(** The loop of [pull] over keys visited once each, when no two pending
    entries share a message: the keys [ks] it hands out are distinct, what
    it adds to the answer are the protos of their entries, in order, the
    message of each counts one more delivery, and no other message is
    touched. *)
Lemma pullLoop_counts now max : ∀ order s objs acc s' objs' acc',
  NoDup order →
  (∀ k1 k2 e1 e2,
     subscription.msgs s !! k1 = Some e1 → subscription.msgs s !! k2 = Some e2 →
     message.deliveries e1 = message.deliveries e2 → k1 = k2) →
  subscription.pullLoop now max order s objs acc = (s', objs', acc') →
  ∃ ks new,
    acc' = acc ++ new
    ∧ NoDup ks
    ∧ (∀ k, k ∈ ks → k ∈ order)
    ∧ length new = length ks
    ∧ (∀ i k, ks !! i = Some k →
              ∃ e, subscription.msgs s !! k = Some e ∧ new !! i = Some (message.proto e))
    ∧ (∀ k e, k ∈ ks → subscription.msgs s !! k = Some e →
              objs' !! message.deliveries e
              = Message.incr_deliveries <$> objs !! message.deliveries e)
    ∧ (∀ q, (∀ k e, k ∈ ks → subscription.msgs s !! k = Some e →
                    message.deliveries e ≠ q) →
            objs' !! q = objs !! q).
Proof.
  induction order as [|id order IH]; intros s objs acc s' objs' acc' Hnd Hinj H;
    simpl in H.
  { injection H as <- <- <-. exists [], []. rewrite app_nil_r.
    split_and!; try done; try (by constructor).
    all: intros k e Hk; by apply elem_of_nil in Hk. }
  apply NoDup_cons in Hnd as [Hid Hnd].
  assert (∀ ks : list string, (∀ k, k ∈ ks → k ∈ order) → ∀ k, k ∈ ks → k ∈ id :: order)
    as Hweak by (intros ks Hks k Hk; apply list_elem_of_further; auto).
  destruct (subscription.msgs s !! id) as [m|] eqn:Hm.
  2:{ destruct (IH _ _ _ _ _ _ Hnd Hinj H) as (ks & new & ? & ? & ? & ? & ? & ? & ?).
      exists ks, new. split_and!; eauto. }
  destruct (message.outstanding m) eqn:Hout.
  { destruct (IH _ _ _ _ _ _ Hnd Hinj H) as (ks & new & ? & ? & ? & ? & ? & ? & ?).
    exists ks, new. split_and!; eauto. }
  set (m' := message.set_ackDeadline (time.Add now (subscription.ackTimeout s)) m) in *.
  destruct (_ >=? _).
  { injection H as <- <- <-. exists [id], [message.proto m'].
    split_and!; try done.
    - apply NoDup_singleton.
    - intros k ->%list_elem_of_singleton. apply list_elem_of_here.
    - intros [|i] k Hk; [|done]. injection Hk as <-. by exists m.
    - intros k e ->%list_elem_of_singleton He. assert (e = m) as -> by congruence.
      by rewrite list_lookup_alter_eq.
    - intros q Hq. rewrite list_lookup_alter_ne; [done|].
      apply (Hq id); [apply list_elem_of_here|done]. }
  apply IH in H as (ks & new & -> & Hks & Hsub & Hlen & Hnew & Hin & Hout'); [|done|].
  2:{ simpl. intros k1 k2 e1 e2 H1 H2 Heq.
      apply lookup_insert_Some in H1 as [[<- <-]|[Hne1 H1]];
        apply lookup_insert_Some in H2 as [[<- <-]|[Hne2 H2]]; try done.
      - by apply (Hinj _ _ _ _ Hm H2).
      - by apply (Hinj _ _ _ _ H1 Hm).
      - by apply (Hinj _ _ _ _ H1 H2). }
  simpl in Hnew, Hin, Hout'.
  assert (∀ k, k ∈ ks → k ≠ id) as Hfresh by (intros k Hk ->; by apply Hid, Hsub).
  exists (id :: ks), (message.proto m' :: new). split_and!.
  - by rewrite <- app_assoc.
  - apply NoDup_cons. split; [|done]. intros Hk. by apply (Hfresh id).
  - intros k [->|Hk]%elem_of_cons; [apply list_elem_of_here|].
    by apply list_elem_of_further, Hsub.
  - simpl. by rewrite Hlen.
  - intros [|i] k Hk; simpl in Hk.
    + injection Hk as <-. by exists m.
    + destruct (Hnew i k Hk) as (e & He & Hi).
      rewrite lookup_insert_ne in He by (apply not_eq_sym, Hfresh; by eapply list_elem_of_lookup_2).
      by exists e.
  - intros k e [->|Hk]%elem_of_cons He.
    + assert (e = m) as -> by congruence.
      rewrite Hout', list_lookup_alter_eq; [done|].
      intros k e Hk He' Heq.
      rewrite lookup_insert_ne in He' by (apply not_eq_sym, Hfresh; done).
      by apply (Hfresh k), (Hinj _ _ _ _ He' Hm).
    + rewrite (Hin k e Hk) by (rewrite lookup_insert_ne; [done|by apply not_eq_sym, Hfresh]).
      rewrite list_lookup_alter_ne; [done|].
      intros Heq. by apply (Hfresh k), (Hinj _ _ _ _ He Hm).
  - intros q Hq. rewrite Hout'.
    + rewrite list_lookup_alter_ne; [done|]. apply (Hq id); [apply list_elem_of_here|done].
    + intros k e Hk He.
      rewrite lookup_insert_ne in He by (by apply not_eq_sym, Hfresh).
      apply (Hq k); [by apply list_elem_of_further|done].
Qed.

(** X23.  A pull counts one delivery for every message it returns: the ack
    ids it returns are distinct, the delivery counter of the message behind
    each is raised by one, and no other message is touched.  The iteration
    [order] visits every key once, as a range over a map does. *)
Theorem pull_counts_one_delivery_per_message (p : ptr) (max : Z) (order : list string)
    (s s' : GServer.t) (l : list pb.ReceivedMessage.t) (sub : subscription.t) :
  WF s →
  NoDup order →
  GServer.subObjs s !! p = Some sub →
  GServer.pullAt p max order s = Some (s', l) →
  NoDup (pb.ReceivedMessage.AckId <$> l)
  ∧ (∀ r, r ∈ l →
          ∃ e M, subscription.msgs sub !! pb.ReceivedMessage.AckId r = Some e
                 ∧ GServer.msgObjs s !! message.deliveries e = Some M
                 ∧ GServer.msgObjs s' !! message.deliveries e
                   = Some (Message.incr_deliveries M))
  ∧ (∀ q, (∀ r e, r ∈ l →
                  subscription.msgs sub !! pb.ReceivedMessage.AckId r = Some e →
                  message.deliveries e ≠ q) →
          GServer.msgObjs s' !! q = GServer.msgObjs s !! q).
Proof.
  intros Hwf Hnd Hsub H. unfold GServer.pullAt in H. rewrite Hsub in H. simpl in H.
  unfold subscription.pull in H.
  destruct (subscription.maintainMessages _ sub) as [sub1|] eqn:Hm; [|done]. simpl in H.
  destruct (subscription.pullLoop _ _ _ _ _ _) as [[sub2 objs2] l2] eqn:Hloop.
  injection H as <- <-. simpl.
  apply maintainMessages_evolves in Hm as (Hshr & _).
  assert (∀ k e1, subscription.msgs sub1 !! k = Some e1 →
                  ∃ e M, subscription.msgs sub !! k = Some e
                       ∧ message.proto e1 = message.proto e
                       ∧ message.deliveries e1 = message.deliveries e
                       ∧ pb.ReceivedMessage.AckId (message.proto e) = k
                       ∧ k = GServer.messageID (Z.of_nat (message.deliveries e))
                       ∧ GServer.msgObjs s !! message.deliveries e = Some M) as Hback.
  { intros k e1 He1. destruct (Hshr k e1 He1) as (e & He & Hp & _ & Hd & _).
    destruct (wf_entries s Hwf p sub k e Hsub He) as (Hda & Hk & Hid & (M & HM & _) & _).
    exists e, M. rewrite Hda. split_and!; congruence. }
  apply pullLoop_counts in Hloop
    as (ks & new & -> & Hks & _ & Hlen & Hnew & Hin & Hout); [|done|].
  2:{ intros k1 k2 e1 e2 H1 H2 Heq.
      destruct (Hback k1 e1 H1) as (e1' & _ & _ & _ & Hd1 & _ & -> & _).
      destruct (Hback k2 e2 H2) as (e2' & _ & _ & _ & Hd2 & _ & -> & _).
      by rewrite <- Hd1, <- Hd2, Heq. }
  simpl.
  assert (∀ i r, new !! i = Some r →
                 ∃ k e1, ks !! i = Some k ∧ subscription.msgs sub1 !! k = Some e1
                         ∧ message.proto e1 = r) as Hnew'.
  { intros i r Hr.
    destruct (ks !! i) as [k|] eqn:Hk.
    - destruct (Hnew i k Hk) as (e1 & He1 & Hi). exists k, e1. split_and!; congruence.
    - apply lookup_ge_None in Hk. apply lookup_lt_Some in Hr. lia. }
  assert (pb.ReceivedMessage.AckId <$> new = ks) as Hids.
  { apply list_eq. intros i. rewrite list_lookup_fmap.
    destruct (new !! i) as [r|] eqn:Hr; simpl.
    - destruct (Hnew' i r Hr) as (k & e1 & Hk & He1 & <-).
      destruct (Hback k e1 He1) as (e & M & _ & -> & _ & -> & _). done.
    - symmetry. apply lookup_ge_None. apply lookup_ge_None in Hr. lia. }
  split_and!.
  - by rewrite Hids.
  - intros r Hr. apply list_elem_of_lookup in Hr as [i Hr].
    destruct (Hnew' i r Hr) as (k & e1 & Hk & He1 & <-).
    destruct (Hback k e1 He1) as (e & M & He & Hp & Hd & Hid & _ & HM).
    exists e, M. rewrite Hp, Hid. split_and!; [done|done|].
    rewrite <- Hd, (Hin k e1); [|by eapply list_elem_of_lookup_2|done].
    by rewrite Hd, HM.
  - intros q Hq. apply Hout. intros k e1 Hk He1.
    destruct (Hback k e1 He1) as (e & M & He & Hp & Hd & Hid & _ & HM).
    rewrite Hd. apply list_elem_of_lookup in Hk as [i Hk].
    destruct (Hnew i k Hk) as (e1' & He1' & Hi).
    apply (Hq (message.proto e1')); [by eapply list_elem_of_lookup_2|].
    assert (e1' = e1) as -> by congruence. by rewrite Hp, Hid.
Qed.

Lemma pull_counts_one_delivery_per_message_witness :
  ∃ s' l,
    GServer.pullAt 0%nat 10 ["m0"; "m1"] demo.withMsgs = Some (s', l)
    ∧ NoDup (pb.ReceivedMessage.AckId <$> l).
Proof.
  assert (is_Some (GServer.pullAt 0%nat 10 ["m0"; "m1"] demo.withMsgs)) as Hok
    by (apply (bool_decide_unpack _); vm_compute; exact I).
  destruct (GServer.pullAt 0%nat 10 ["m0"; "m1"] demo.withMsgs) as [[s' l]|] eqn:H;
    [|by destruct Hok].
  exists s', l. split; [reflexivity|].
  refine (proj1 (pull_counts_one_delivery_per_message 0%nat 10 ["m0"; "m1"]
                   demo.withMsgs s' l (demo.subOf demo.withMsgs) _ _ _ H)).
  - apply WF_demo; [apply (bool_decide_unpack _); vm_compute; exact I|].
    vm_compute. discriminate.
  - apply (bool_decide_unpack _). vm_compute. exact I.
  - vm_compute. reflexivity.
Defined.

(** ** Creating and deleting a topic *)

(** X24.  CreateTopic binds a name that is free to a new topic without
    subscriptions and answers with the topic it was given; the name is not
    checked, so the empty name is accepted too.  A name that is taken is
    refused with AlreadyExists and nothing changes, so a second CreateTopic
    of the same topic fails.  Deleting the topic just created gives back the
    names, the subscriptions and the messages the server had before. *)
Theorem create_topic_then_delete_topic (pt : pb.Topic.t) (s : GServer.t) :
  unreacted s "CreateTopic" →
  unreacted s "DeleteTopic" →
  let taken :=
    GServer.fail (R := pb.Topic.t) s codes.AlreadyExists "topic %q"
      [status.ArgString (pb.Topic.Name pt)] in
  (is_Some (GServer.topics s !! pb.Topic.Name pt) → GServer.CreateTopic pt s = taken)
  ∧ (GServer.topics s !! pb.Topic.Name pt = None →
     ∃ s1,
       GServer.CreateTopic pt s = GServer.ok s1 pt
       ∧ GServer.topics s1 = <[pb.Topic.Name pt := length (GServer.topicObjs s)]>
                               (GServer.topics s)
       ∧ GServer.topicObjs s1 = GServer.topicObjs s ++ [topic.mk pt ∅]
       ∧ GServer.subs s1 = GServer.subs s
       ∧ GServer.subObjs s1 = GServer.subObjs s
       ∧ GServer.msgObjs s1 = GServer.msgObjs s
       ∧ GServer.CreateTopic pt s1
         = GServer.fail s1 codes.AlreadyExists "topic %q"
             [status.ArgString (pb.Topic.Name pt)]
       ∧ ∃ s2,
           GServer.DeleteTopic (pb.DeleteTopicRequest.mk (pb.Topic.Name pt)) s1
           = GServer.ok s2 ()
           ∧ GServer.topics s2 = GServer.topics s
           ∧ GServer.subs s2 = GServer.subs s
           ∧ GServer.subObjs s2 = GServer.subObjs s
           ∧ GServer.msgObjs s2 = GServer.msgObjs s).
Proof.
  intros Hc Hd taken. split.
  - intros Hsome. unfold GServer.CreateTopic. rewrite reacting_unreacted by done.
    by rewrite bool_decide_eq_true_2.
  - intros Hnone. eexists. split_and!.
    + unfold GServer.CreateTopic. rewrite reacting_unreacted by done.
      rewrite bool_decide_eq_false_2; [done|]. rewrite Hnone. by intros [? ?].
    + done.
    + done.
    + done.
    + done.
    + done.
    + unfold GServer.CreateTopic. rewrite reacting_unreacted by done. simpl.
      rewrite bool_decide_eq_true_2; [done|]. rewrite lookup_insert_eq. eauto.
    + eexists. split_and!.
      * unfold GServer.DeleteTopic. rewrite reacting_unreacted by done. simpl.
        rewrite lookup_insert_eq, list_lookup_middle by done. done.
      * simpl. by rewrite delete_insert_id.
      * done.
      * simpl. unfold topic.stop, topic.newTopic. simpl.
        by rewrite map_to_list_empty.
      * done.
Qed.

Lemma create_topic_then_delete_topic_witness :
  ∃ s1 s2,
    GServer.CreateTopic demo.topicT demo.s0 = GServer.ok s1 demo.topicT
    ∧ GServer.DeleteTopic (pb.DeleteTopicRequest.mk "t") s1 = GServer.ok s2 ()
    ∧ GServer.topics s2 = GServer.topics demo.s0.
Proof.
  destruct (proj2 (create_topic_then_delete_topic demo.topicT demo.s0 eq_refl eq_refl))
    as (s1 & H1 & _ & _ & _ & _ & _ & _ & s2 & H2 & H3 & _).
  - reflexivity.
  - exists s1, s2. split_and!; [exact H1|exact H2|exact H3].
Defined.

(** ** The audit log of modacks *)

(** The first loop of ModifyAckDeadline appends, to the audit log of each
    message, one modack for every id of the request the server has on record
    for it, in the order of the request; nothing else of a message
    changes. *)
Lemma recordModacks_log secs now byID q : ∀ ids objs objs',
  GServer.recordModacks ids secs now byID objs = Some objs' →
  objs' !! q
  = (λ M, Message.mk (Message.PublishTime M) (Message.Attributes M) (Message.ID M)
            (Message.OrderingKey M)
            (Message.modacks M
               ++ ((λ id, Modack.mk now id secs)
                     <$> filter (λ id, byID !! id = Some q) ids))
            (Message.Modacks M) (Message.Data M) (Message.Acks M)
            (Message.deliveries M) (Message.acks M) (Message.Deliveries M))
      <$> objs !! q.
Proof.
  induction ids as [|id ids IH]; intros objs objs' H; simpl in H.
  { injection H as <-. rewrite filter_nil. simpl.
    destruct (objs !! q) as [[]|]; simpl; [|done]. by rewrite app_nil_r. }
  destruct (byID !! id) as [m|] eqn:Hm; [|done]. simpl in H.
  rewrite (IH _ _ H). destruct (decide (m = q)) as [->|Hne].
  - rewrite list_lookup_alter_eq, filter_cons_True by done.
    destruct (objs !! q) as [M|]; simpl; [|done].
    by rewrite <- app_assoc.
  - rewrite list_lookup_alter_ne by done.
    rewrite filter_cons_False; [done|]. congruence.
Qed.

(** X25.  ModifyAckDeadline keeps an audit log: when the server has every
    id of the request on record, the call returns success and the message
    behind each id has one modack appended to its log for every time the
    request names the id, in the order of the request, stamped with the
    time of the call, the id and the deadline asked for.  This happens
    whether or not the id is still pending in the subscription named, and
    nothing else of a message changes; Server.Message then shows the log. *)
Theorem modify_ack_deadline_logs_every_id (wallNow : time.Time) (s : GServer.t)
    (name : string) (p : ptr) (sub : subscription.t) (ids : list string) (secs : Z) :
  unreacted s "ModifyAckDeadline" →
  name ≠ "" →
  GServer.subs s !! name = Some p →
  GServer.subObjs s !! p = Some sub →
  (∀ id, id ∈ ids → is_Some (GServer.msgsByID s !! id)) →
  ∃ s',
    GServer.ModifyAckDeadline wallNow (pb.ModifyAckDeadlineRequest.mk name ids secs) s
    = GServer.ok s' ()
    ∧ GServer.msgsByID s' = GServer.msgsByID s
    ∧ length (GServer.msgObjs s') = length (GServer.msgObjs s)
    ∧ ∀ id q M,
        GServer.msgsByID s !! id = Some q →
        GServer.msgObjs s !! q = Some M →
        let log :=
          Message.modacks M
          ++ ((λ id, Modack.mk wallNow id secs)
                <$> filter (λ id, GServer.msgsByID s !! id = Some q) ids) in
        GServer.msgObjs s' !! q
        = Some (Message.mk (Message.PublishTime M) (Message.Attributes M) (Message.ID M)
                  (Message.OrderingKey M) log (Message.Modacks M) (Message.Data M)
                  (Message.Acks M) (Message.deliveries M) (Message.acks M)
                  (Message.Deliveries M))
        ∧ ∃ s'' M',
            Server.Message id s' = (s'', Some q)
            ∧ GServer.msgObjs s'' !! q = Some M'
            ∧ Message.Modacks M' = log.
Proof.
  intros Hre Hname Hp Hsub Hids.
  destruct (recordModacks_known ids secs wallNow (GServer.msgsByID s) (GServer.msgObjs s)
              Hids) as (objs' & Hrec & Hlen).
  destruct (foldl (λ '(sub, clock) id,
                     subscription.modifyAckDeadline id (secsToDur secs) sub clock)
              (sub, GServer.clock s) ids) as [sub' clock'] eqn:Hfold.
  eexists. split_and!.
  - unfold GServer.ModifyAckDeadline. rewrite reacting_unreacted by done. simpl.
    rewrite (findSubscription_found name p) by done.
    rewrite Hsub, Hrec, Hfold. done.
  - done.
  - done.
  - intros id q M Hid HM log. simpl.
    rewrite (recordModacks_log _ _ _ q _ _ _ Hrec), HM. simpl. split; [done|].
    unfold Server.Message. simpl. rewrite Hid. eexists _, _. split; [done|]. simpl.
    rewrite list_lookup_alter_eq, (recordModacks_log _ _ _ q _ _ _ Hrec), HM. simpl.
    done.
Qed.

Lemma modify_ack_deadline_logs_every_id_witness :
  ∃ s',
    GServer.ModifyAckDeadline (demo.clk 7)
      (pb.ModifyAckDeadlineRequest.mk "s" ["m1"; "m0"; "m1"] 30) scene.leased
    = GServer.ok s' ()
    ∧ Message.modacks <$> GServer.msgObjs s' !! 1%nat
      = Some [Modack.mk (demo.clk 7) "m1" 30; Modack.mk (demo.clk 7) "m1" 30].
Proof.
  destruct (modify_ack_deadline_logs_every_id (demo.clk 7) scene.leased "s" 0%nat
              (demo.subOf scene.leased) ["m1"; "m0"; "m1"] 30)
    as (s' & H1 & _ & _ & H4).
  - vm_compute. reflexivity.
  - discriminate.
  - vm_compute. reflexivity.
  - vm_compute. reflexivity.
  - apply Forall_forall. apply (bool_decide_unpack _). vm_compute. exact I.
  - exists s'. split; [exact H1|].
    destruct (H4 "m1" 1%nat
                (Message.mk (demo.clk 1) ∅ "m1" "" [] [] [Byte.x68; Byte.x69] 0 1 0 0))
      as [HM _]; [vm_compute; reflexivity..|].
    rewrite HM. vm_compute. reflexivity.
Defined.

(** ** Closing the server *)

(** The loop of [Close] over the pointers [l]: it gets through exactly when
    the pointers are distinct and each points at a subscription that has not
    been stopped, and then it has stopped those and touched no other. *)
Lemma stop_all_spec (l : list ptr) (objs : list subscription.t) :
  let r := foldr (λ p acc,
                    objs ← acc;
                    sub ← objs !! p;
                    sub ← subscription.stop sub;
                    Some (<[p := sub]> objs)) (Some objs) l in
  (is_Some r
   ↔ NoDup l ∧ ∀ p, p ∈ l → ∃ sub, objs !! p = Some sub ∧ subscription.done sub = false)
  ∧ ∀ objs', r = Some objs' →
      ∀ q, objs' !! q
           = if decide (q ∈ l) then subscription.set_done true <$> objs !! q
             else objs !! q.
Proof.
  induction l as [|p l IH]; simpl.
  { split.
    - split; [intros _|eauto]. split; [constructor|].
      intros p Hp. by apply elem_of_nil in Hp.
    - intros objs' [= <-] q. done. }
  destruct IH as [Hiff Hspec].
  destruct (foldr _ _ l) as [objs1|]; simpl.
  2:{ split; [|done]. split; [by intros [? ?]|].
      intros [[_ Hnd]%NoDup_cons Hall].
      assert (is_Some (@None (list subscription.t))) as [? ?]; [|done].
      apply Hiff. split; [done|]. intros q Hq. apply Hall. by apply list_elem_of_further. }
  destruct (proj1 Hiff) as [Hnd Hall]; [eauto|].
  pose proof (Hspec objs1 eq_refl) as Hobjs.
  destruct (decide (p ∈ l)) as [Hin|Hnin].
  - (* a pointer met twice: its subscription is stopped already *)
    rewrite (Hobjs p), decide_True by done.
    destruct (Hall p Hin) as (sub & -> & _). simpl. split; [|done].
    split; [by intros [? ?]|]. intros [[? _]%NoDup_cons _]. done.
  - rewrite (Hobjs p), decide_False by done.
    destruct (objs !! p) as [sub|] eqn:Hsub; simpl.
    2:{ split; [|done]. split; [by intros [? ?]|]. intros [_ Hall'].
        destruct (Hall' p) as (? & ? & _); [apply list_elem_of_here|congruence]. }
    unfold subscription.stop.
    destruct (subscription.done sub) eqn:Hdone; simpl.
    { split; [|done]. split; [by intros [? ?]|]. intros [_ Hall'].
      destruct (Hall' p) as (sub' & Hsub' & Hd); [apply list_elem_of_here|].
      congruence. }
    split.
    + split; [intros _|eauto]. split; [by apply NoDup_cons|].
      intros q [->|Hq]%elem_of_cons; eauto.
    + intros objs' [= <-] q.
      assert (p < length objs1)%nat as Hlt.
      { apply lookup_lt_is_Some. rewrite (Hobjs p), decide_False by done. eauto. }
      destruct (decide (q = p)) as [->|Hne].
      * rewrite list_lookup_insert_eq by done.
        rewrite decide_True by apply list_elem_of_here. by rewrite Hsub.
      * rewrite list_lookup_insert_ne by done. rewrite (Hobjs q).
        destruct (decide (q ∈ l)) as [Hq|Hq].
        -- rewrite decide_True; [done|]. by apply list_elem_of_further.
        -- rewrite decide_False; [done|].
           intros [?|?]%elem_of_cons; [done|]. by apply Hq.
Qed.

(** In a server whose names and objects agree no two names are bound to the
    same subscription object. *)
Lemma Linked_subs_NoDup s : Linked s → NoDup (map_to_list (GServer.subs s)).*2.
Proof.
  intros Hl. apply NoDup_fmap_2_strong; [|apply NoDup_map_to_list].
  intros [n1 p1] [n2 p2] H1%elem_of_map_to_list H2%elem_of_map_to_list Heq.
  simpl in Heq. subst p2.
  destruct (lk_subs s Hl n1 p1 H1) as (sub1 & Hs1 & <- & _).
  destruct (lk_subs s Hl n2 p1 H2) as (sub2 & Hs2 & <- & _).
  congruence.
Qed.

(** X26.  Server.Close, in a state a server can reach, returns after
    stopping every subscription that has a name and changes nothing else:
    the names, the topics, the messages and what is pending stay.  The
    subscriptions stay registered although they are stopped, so with at
    least one subscription a second Close panics (it closes a closed
    channel), and so does DeleteSubscription on any of the names. *)
Theorem close_stops_every_named_subscription (s : GServer.t) :
  Linked s →
  ∃ s',
    Server.Close s = Some s'
    ∧ s' = GServer.set_subObjs (GServer.subObjs s') s
    ∧ (∀ name q, GServer.subs s !! name = Some q →
                 GServer.subObjs s' !! q
                 = subscription.set_done true <$> GServer.subObjs s !! q)
    ∧ (∀ q, (∀ name, GServer.subs s !! name ≠ Some q) →
            GServer.subObjs s' !! q = GServer.subObjs s !! q)
    ∧ (GServer.subs s ≠ ∅ → Server.Close s' = None)
    ∧ (unreacted s "DeleteSubscription" →
       ∀ name, is_Some (GServer.subs s !! name) →
               GServer.DeleteSubscription (pb.DeleteSubscriptionRequest.mk name) s'
               = GServer.Panic).
Proof.
  intros Hl.
  set (l := (map_to_list (GServer.subs s)).*2).
  assert (∀ q, q ∈ l ↔ ∃ name, GServer.subs s !! name = Some q) as Hmem.
  { intros q. subst l. rewrite list_elem_of_fmap. split.
    - intros ([name q'] & -> & H%elem_of_map_to_list). eauto.
    - intros [name H]. exists (name, q). by rewrite elem_of_map_to_list. }
  destruct (stop_all_spec l (GServer.subObjs s)) as [Hiff Hspec].
  destruct (proj2 Hiff) as [objs' Hobjs'].
  { split; [by apply Linked_subs_NoDup|].
    intros p [name Hp]%Hmem.
    destruct (lk_subs s Hl name p Hp) as (sub & ? & _ & ? & _). eauto. }
  assert (∀ name q, GServer.subs s !! name = Some q →
                    objs' !! q = subscription.set_done true <$> GServer.subObjs s !! q)
    as Hlook.
  { intros name q Hq. rewrite (Hspec objs' Hobjs' q), decide_True; [done|].
    apply Hmem. eauto. }
  exists (GServer.set_subObjs objs' s). split_and!.
  - unfold Server.Close. fold l. by rewrite Hobjs'.
  - done.
  - done.
  - intros q Hq. simpl. rewrite (Hspec objs' Hobjs' q), decide_False; [done|].
    intros [name Hn]%Hmem. by apply (Hq name).
  - intros Hne. unfold Server.Close. simpl. fold l.
    destruct (stop_all_spec l objs') as [Hiff' _].
    destruct (foldr _ (Some objs') l) as [objs''|] eqn:Hf; [|done].
    destruct (proj1 Hiff') as [_ Hall]; [eauto|].
    apply map_choose in Hne as (name & p & Hp).
    destruct (Hall p) as (sub' & Hsub' & Hd); [apply Hmem; eauto|].
    rewrite (Hlook name p Hp) in Hsub'.
    destruct (GServer.subObjs s !! p); simplify_eq/=.
  - intros Hre name [p Hp].
    assert (name ≠ "") as Hname.
    { intros ->. rewrite (lk_named s Hl) in Hp. done. }
    unfold GServer.DeleteSubscription. rewrite reacting_unreacted by done. simpl.
    rewrite (findSubscription_found name p) by done.
    rewrite (Hlook name p Hp).
    destruct (lk_subs s Hl name p Hp) as (sub & -> & _). done.
Qed.

Lemma close_stops_every_named_subscription_witness :
  ∃ s', Server.Close demo.withMsgs = Some s' ∧ Server.Close s' = None.
Proof.
  destruct (close_stops_every_named_subscription demo.withMsgs) as (s' & H1 & _ & _ & _ & H4 & _).
  - apply (Linked_run (demo.setup ++ [demo.publish2]) demo.s0 _
             (demo.shown (demo.setup ++ [demo.publish2]) demo.s0));
      [|apply Linked_NewServer].
    apply run_after. apply (bool_decide_unpack _). vm_compute. exact I.
  - exists s'. split; [exact H1|]. apply H4.
    intros He. apply (f_equal (λ m : gmap string ptr, m !! "s")) in He.
    vm_compute in He. discriminate.
Defined.
